(* ===== verification/_CoqProject ===== *)
-Q . S2P
Prelude.v
Bytes.v
Utils.v
BytecodeCompression.v
StateDiffs.v
Storage.v
Deduplicator.v
StorageView.v
VmHistory.v
VmStorageOracle.v
VmOracleRollback.v
VmOracleFrames.v
VmEvents.v
VmMemory.v
TreeUtils.v
TreeTypes.v
TreeDatabase.v
TreeHasher.v
TreeStorage.v
MerkleTree.v
TreeDomain.v
TreePruning.v
TreeSpec.v
TreeExamples.v
TreeRange.v
TreeInvariant.v
TreeInsert.v
TreeLoad.v
TreeFinalize.v
TreeProofs.v
TreeExtend.v
TreeLaws.v
TreeApi.v
TreeConsistency.v
ProtocolVersion.v
Transactions.v
Float.v
FeeModel.v
GasAdjuster.v
VmFees.v
Mempool.v
Abi.v
Upgrades.v
VmTransaction.v
VmBootloader.v
VmBootloaderProofs.v
VmBootloaderMemory.v
MiniMerkleTree.v
