(* ===== verification/Prelude.v ===== *)
(** * Verification of the ZKsync node core

    The program under [src/] is a ZKsync node: a sequencer that takes transactions from L1
    (priority operations, protocol upgrades) and from users, executes them in batches, keeps the
    state in a Merkle tree and publishes compressed state diffs. This library models its
    components that compute rather than move data between services, and proves what makes each of
    them correct.

    ** The parts and how they interact

    Transactions enter through the mempool, which orders them for the VM; L1 transactions and
    upgrades are decoded from the ABI encoding of L1 events. The fee model and the gas adjuster set
    the prices of a batch. The VM reads and writes storage through a caching view; its storage logs
    are deduplicated, compressed into state diffs and applied to the state tree, which yields root
    hashes and Merkle proofs for the witness generator. New bytecodes are published compressed.
    Priority operations and L2-to-L1 logs are committed to by small in-memory Merkle trees.

    ** Files

    Shared: this file has the effects (see below), lists, sorting, machine integers and tactics;
    [Bytes.v] big-endian bytes; [Utils.v] [core/lib/utils]; [Float.v] IEEE-754 doubles.

    - [MiniMerkleTree.v]: [core/lib/mini_merkle_tree]. Pushes and trims refine a list of leaves,
      paths and range proofs verify, exact panics of [trim_start].
    - [BytecodeCompression.v]: [core/lib/multivm/src/utils/bytecode.rs]. Compression is lossless
      and total.
    - [StateDiffs.v]: [core/lib/types/src/storage/writes]. Published diffs decode, encodings round
      trip, the shortest mode is taken, exact panics.
    - [Storage.v], [Deduplicator.v]: storage keys and logs of [core/lib/types/src/storage], and
      [core/lib/multivm/src/utils/deduplicator.rs]. Net changes, transparent rollback.
    - [StorageView.v]: [core/lib/vm_interface/src/storage]. The view refines an overlay.
    - VM, [core/lib/multivm/src/versions/vm_latest]: [VmHistory.v] (components that undo their
      changes and their recorders, against [HistoryLaws]), [VmStorageOracle.v] (the storage oracle),
      [VmOracleRollback.v] (rollbacks restore it), [VmOracleFrames.v] (panicked frames have no
      effect, pubdata costs pay the net changes), [VmEvents.v] (the event sink refines a stack of
      frames, events of users are recovered from their messages), [VmMemory.v] (bytes read from
      memory, pages cleared when a call ends), [VmTransaction.v] (transactions as the bootloader
      takes them: hashes, sizes), [VmBootloader.v] (the bootloader state and the layout of its memory),
      [VmBootloaderProofs.v] (reachable states are well formed, snapshots restore them),
      [VmBootloaderMemory.v] (the memory rebuilt at the end of a batch is the one written during it).
    - State tree, [core/lib/merkle_tree/src]. Model: [TreeUtils.v] ([utils.rs]), [TreeTypes.v]
      ([types/]), [TreeHasher.v] ([hasher/]), [TreeDatabase.v] ([storage/database.rs] and the patch
      sets of [storage/patch.rs]), [TreeStorage.v] (working patch sets, [storage/mod.rs],
      [storage/proofs.rs]), [MerkleTree.v] ([lib.rs], [getters.rs], [consistency.rs]),
      [TreeDomain.v] ([pruning.rs], [recovery/mod.rs], [domain.rs] and the witness paths of
      [core/lib/prover_interface]). Proofs: [TreeSpec.v] (the hash of a tree given by its leaves,
      and that node hashes, caches and paths compute it), [TreeRange.v] (range digests),
      [TreeInvariant.v] and [TreeInsert.v] (insertion into a partly loaded tree), [TreeLoad.v]
      (loading of levels), [TreeFinalize.v] (hashes of the changed nodes and the new patch),
      [TreeProofs.v] (proofs read off a working patch set), [TreeExtend.v] (extension and reading,
      against [DatabaseLaws]), [TreeLaws.v] (the databases satisfy these laws), [TreeApi.v] (the
      tree refines a versioned map, and the proofs it serves are valid and sound),
      [TreeConsistency.v] (the consistency check is exact), [TreePruning.v] (the pruner),
      [TreeExamples.v] (runs that show defects).
    - [ProtocolVersion.v], [Transactions.v]: [core/lib/basic_types], [core/lib/types].
    - [FeeModel.v], [GasAdjuster.v], [VmFees.v]: [core/node/fee_model],
      [core/lib/types/src/fee_model.rs], [core/lib/multivm/src/utils].
    - [Mempool.v]: [core/lib/mempool]. Reachable stores are well formed, no operation panics,
      selection, rollback and garbage collection.
    - [Abi.v], [Upgrades.v]: [core/lib/types/src/abi.rs] and the conversions of priority requests
      and upgrades.

    ** Conventions

    Code that may panic returns [outcome] ([Ret] or [Panics]); [Result] is [result]; a [&mut self]
    method returns the new state. Machine integers are [Z] with [wrap w] written where the source
    can wrap; arithmetic that panics on overflow in checked builds is a [Panics]. Hashes, keys and
    addresses are [Z], byte strings lists of [Z] in [0, 256). Hash maps are [gmap]. Parallel
    iterators of [rayon] run in the order of their parts. Timers, logging and metrics that only
    report are left out. Third-party code (Blake2s, Keccak, ethabi, BigDecimal, [powf]) is a
    parameter or a class with its documented laws; every theorem that assumes laws has a witness
    with a concrete instance.

    ** Fuel

    Loops without structural recursion take fuel, with a [Panics] when it runs out: the descents of
    the state tree get 65 or 66 steps for its 64 levels of nibbles ([TreeInsert.v] proves that
    insertion never runs out), splitting into chunks gets the length of the input, reading bytes
    from memory the address of the last byte ([VmMemory.v] proves that this is enough).

    ** Not modelled

    - Services, databases and the network: PostgreSQL queries, RocksDB, HTTP and JSON-RPC servers and
      clients, object stores, data availability clients, consensus, and the asynchronous tasks
      around them. Their behaviour is that of systems outside of [src/].
    - The interpreters of the VM versions and the prover: they wrap code of other repositories.
    - State tree: nodes on disk ([storage/rocksdb.rs], [storage/serialization.rs]) and background
      persistence ([storage/parallel.rs]). Extension with proofs and recovery are modelled, but
      their effect on whole trees is not proved yet.
    - Configuration, command lines, wiring of the node, observability and tests.
*)

From stdpp Require Export base tactics option list numbers strings gmap sorting.
From Stdlib Require Export ZArith Lia ZifyNat ZifyN.

#[export] Set Default Goal Selector "!".

#[global] Arguments Nat.div : simpl never.
#[global] Arguments Nat.modulo : simpl never.
#[global] Arguments Nat.pow : simpl never.
#[global] Arguments Z.div : simpl never.
#[global] Arguments Z.modulo : simpl never.
#[global] Arguments Z.pow : simpl never.

(** ** Outcomes: a Rust call returns a value or panics *)

(** A Rust function that is not total either returns a value or panics
    ([panic!], [assert!], [expect], [unwrap], an index out of bounds).  The
    string carries the message of the panic. *)
Inductive outcome (A : Type) : Type :=
| Ret (a : A)
| Panics (msg : string).
Arguments Ret {A} a.
Arguments Panics {A} msg.

#[export] Instance outcome_ret : MRet outcome := @Ret.
#[export] Instance Ret_inj A : Inj (=) (=) (@Ret A).
Proof. by intros x y [= ->]. Qed.
#[export] Instance outcome_bind : MBind outcome := fun A B f m =>
  match m with
  | Ret a => f a
  | Panics msg => Panics msg
  end.
#[export] Instance outcome_fmap : FMap outcome := fun A B f m =>
  match m with
  | Ret a => Ret (f a)
  | Panics msg => Panics msg
  end.

#[export] Instance outcome_eq_dec {A} `{EqDecision A} : EqDecision (outcome A).
Proof. solve_decision. Defined.

(** [assert!(b, msg)] *)
Definition rust_assert (b : bool) (msg : string) : outcome unit :=
  if b then Ret tt else Panics msg.

(** [o.expect(msg)] *)
Definition expect {A} (o : option A) (msg : string) : outcome A :=
  match o with
  | Some a => Ret a
  | None => Panics msg
  end.

(** [v[i]] on a slice *)
Definition index_vec {A} (l : list A) (i : nat) : outcome A :=
  expect (l !! i) "index out of bounds".

(** [for x in l { acc = f(acc, x) }] where the body may panic. *)
Fixpoint foldM {A B} (f : A -> B -> outcome A) (acc : A) (l : list B) : outcome A :=
  match l with
  | [] => Ret acc
  | x :: l' => acc' ← f acc x; foldM f acc' l'
  end.

(** [l.into_iter().map(f).collect()] where [f] may panic. *)
Fixpoint map_outcome {A B} (f : A -> outcome B) (l : list A) : outcome (list B) :=
  match l with
  | [] => Ret []
  | x :: l' => y ← f x; ys ← map_outcome f l'; Ret (y :: ys)
  end.

(** [Result<T, E>] *)
Inductive result (T E : Type) : Type :=
| Ok (a : T)
| Err (e : E).
Arguments Ok {T E} a.
Arguments Err {T E} e.

#[export] Instance result_eq_dec {T E} `{EqDecision T, EqDecision E} :
  EqDecision (result T E).
Proof. solve_decision. Defined.

Declare Scope zk_scope.
Delimit Scope zk_scope with zk.
Open Scope zk_scope.

(** The [?] operator: on results, and on results of calls that may panic. *)
Definition try_result {A B E} (m : result A E) (k : A -> result B E) : result B E :=
  match m with
  | Ok a => k a
  | Err e => Err e
  end.

Definition try_outcome {A B E} (m : outcome (result A E)) (k : A -> outcome (result B E)) :
    outcome (result B E) :=
  match m with
  | Ret (Ok a) => k a
  | Ret (Err e) => Ret (Err e)
  | Panics msg => Panics msg
  end.

Notation "x <-! m ;; k" := (try_result m (fun x => k))
  (at level 100, m at next level, right associativity) : zk_scope.
Notation "x <-? m ;; k" := (try_outcome m (fun x => k))
  (at level 100, m at next level, right associativity) : zk_scope.

(** [o.context(msg)?] *)
Definition context {A} (o : option A) (msg : string) : result A string :=
  match o with
  | Some a => Ok a
  | None => Err msg
  end.

(** [anyhow::ensure!(b)] *)
Definition ensure (b : bool) (msg : string) : outcome (result unit string) :=
  if b then Ret (Ok tt) else Ret (Err msg).

(** [slice::sort_by_key]: a stable sort. *)
Fixpoint insert_sorted {A} (leb : A -> A -> bool) (x : A) (l : list A) : list A :=
  match l with
  | [] => [x]
  | y :: l' => if leb x y then x :: l else y :: insert_sorted leb x l'
  end.

Definition stable_sort {A} (leb : A -> A -> bool) (l : list A) : list A :=
  foldr (insert_sorted leb) [] l.

(** [Iterator::min_by_key]: the first of the minimal elements. *)
Definition min_by_key {A} (key : A -> nat) (l : list A) : option A :=
  match l with
  | [] => None
  | x :: l' => Some (foldl (fun best y => if key y <? key best then y else best) x l')
  end.

(** ** Machine integers *)

(** Arithmetic of the release profile wraps around at the width of the type. *)
Definition wrap (w z : Z) : Z := z mod 2 ^ w.

(** [z] is a value of the unsigned type of width [w]. *)
Definition unsigned (w z : Z) : Prop := (0 <= z < 2 ^ w)%Z.

#[export] Instance unsigned_dec w z : Decision (unsigned w z).
Proof. apply _. Defined.

(** ** Generic lemmas and automation *)

Create HintDb zk discriminated.
Create Rewrite HintDb zk.

(** Linear arithmetic with division and remainder by constants. *)
Ltac div_lia := Zify.zify; Z.to_euclidean_division_equations; lia.

Lemma map_outcome_Ret {A B} (f : A -> outcome B) l l' :
  Forall2 (fun x y => f x = Ret y) l l' -> map_outcome f l = Ret l'.
Proof. induction 1 as [|x y l l' Hxy _ IH]; [done|]. cbn. rewrite Hxy. cbn. by rewrite IH. Qed.

(** Arithmetic on [nat] in a large context: only hypotheses about [nat] are looked at. *)
Ltac nat_prop T :=
  lazymatch T with
  | le _ _ => idtac
  | lt _ _ => idtac
  | @eq nat _ _ => idtac
  | ~ ?P => nat_prop P
  | ?P /\ ?Q => nat_prop P; nat_prop Q
  | ?P \/ ?Q => nat_prop P; nat_prop Q
  end.

Ltac nat_lia :=
  repeat match goal with
  | H : ?T |- _ =>
      lazymatch type of T with
      | Prop => tryif nat_prop T then fail else clear H
      end
  end; lia.

Lemma outcome_bind_Ret {A B} (m : outcome A) (f : A -> outcome B) b :
  m ≫= f = Ret b <-> exists a, m = Ret a /\ f a = Ret b.
Proof. destruct m as [a|]; simpl; naive_solver. Qed.

Lemma outcome_Ret_bind {A B} (a : A) (f : A -> outcome B) : Ret a ≫= f = f a.
Proof. done. Qed.

Lemma expect_Ret {A} (o : option A) msg a : expect o msg = Ret a <-> o = Some a.
Proof. destruct o; simpl; naive_solver. Qed.

Lemma index_vec_Ret {A} (l : list A) i a : index_vec l i = Ret a <-> l !! i = Some a.
Proof. apply expect_Ret. Qed.

Lemma rust_assert_true b msg : b = true -> rust_assert b msg = Ret tt.
Proof. by intros ->. Qed.

Lemma foldM_app {A B} (f : A -> B -> outcome A) acc l1 l2 :
  foldM f acc (l1 ++ l2) = (acc' ← foldM f acc l1; foldM f acc' l2).
Proof.
  revert acc. induction l1 as [|x l1 IH]; intros acc; [done|].
  simpl. destruct (f acc x); simpl; [apply IH|done].
Qed.

(** A loop whose body never panics is a pure fold. *)
Lemma foldM_pure {A B} (f : A -> B -> outcome A) (g : A -> B -> A) (l : list B) :
  (forall acc x, x ∈ l -> f acc x = Ret (g acc x)) ->
  forall acc, foldM f acc l = Ret (foldl g acc l).
Proof.
  induction l as [|x l IH]; intros Hf acc; [done|].
  cbn [foldM foldl]. rewrite Hf by left. apply IH. intros a y Hy. apply Hf. by right.
Qed.

(** Invariant rule for a loop over [0..n]. *)
Lemma foldM_list_invariant {A B} (I : list B -> A -> Prop) (f : A -> B -> outcome A) a l :
  I [] a ->
  (forall done x rest acc, l = done ++ x :: rest -> I done acc -> exists acc', f acc x = Ret acc' /\ I (done ++ [x]) acc') ->
  exists a', foldM f a l = Ret a' /\ I l a'.
Proof.
  intros H0 Hstep. enough (forall done rest acc, l = done ++ rest -> I done acc ->
    exists a', foldM f acc rest = Ret a' /\ I l a') as H by (by apply (H [])).
  intros done rest. revert done. induction rest as [|x rest IH]; intros done acc Hl HI.
  { rewrite app_nil_r in Hl. subst. by exists acc. }
  destruct (Hstep done x rest acc Hl HI) as (acc' & Hacc & HI'). cbn [foldM]. rewrite Hacc. cbn.
  apply (IH (done ++ [x])); [|done]. by rewrite <- (assoc_L (++)).
Qed.

Lemma foldM_seq_invariant {A} (I : nat -> A -> Prop) (f : A -> nat -> outcome A) a n :
  I 0 a ->
  (forall i x, i < n -> I i x -> exists x', f x i = Ret x' /\ I (S i) x') ->
  exists a', foldM f a (seq 0 n) = Ret a' /\ I n a'.
Proof.
  intros H0 Hstep. induction n as [|n IH]; [by exists a|].
  destruct IH as (a1 & Hf & HI).
  { intros i x Hi Hx. apply Hstep; [lia|done]. }
  rewrite seq_S, foldM_app, Hf. simpl.
  destruct (Hstep n a1) as (a2 & -> & HI2); [lia|done|].
  by exists a2.
Qed.

Lemma mapM_id_Some {A B} (f : A -> B) (l : list A) :
  mapM id ((fun x => Some (f x)) <$> l) = Some (f <$> l).
Proof. induction l as [|x l IH]; [done|]. cbn. by rewrite IH. Qed.

Lemma insert_sorted_Permutation {A} leb (x : A) l : insert_sorted leb x l ≡ₚ x :: l.
Proof.
  induction l as [|y l IH]; [done|]. cbn. case_match; [done|]. rewrite IH. constructor.
Qed.

Lemma stable_sort_Permutation {A} leb (l : list A) : stable_sort leb l ≡ₚ l.
Proof.
  induction l as [|x l IH]; [done|]. cbn. rewrite insert_sorted_Permutation. by f_equiv.
Qed.

Lemma stable_sort_sorted {A} (leb : A -> A -> bool) (l : list A) :
  (forall x y z, leb x y -> leb y z -> leb x z) -> (forall x y, leb x y \/ leb y x) ->
  StronglySorted (fun x y => leb x y) (stable_sort leb l).
Proof.
  intros Htrans Htotal. induction l as [|x l IH]; cbn; [constructor|].
  fold (stable_sort leb l). induction IH as [|y l' Hl' IH' Hy]; cbn.
  { repeat constructor. }
  destruct (leb x y) eqn:Hxy.
  - constructor; [by constructor|]. constructor; [by rewrite Hxy|].
    eapply Forall_impl; [exact Hy|]. intros z. apply Htrans. by rewrite Hxy.
  - constructor; [done|]. rewrite insert_sorted_Permutation. constructor; [|done].
    destruct (Htotal x y) as [H|H]; [by rewrite Hxy in H|done].
Qed.

Lemma min_by_key_spec {A} (key : A -> nat) (l : list A) :
  match min_by_key key l with
  | None => l = []
  | Some m => m ∈ l /\ Forall (fun x => key m <= key x) l
  end.
Proof.
  destruct l as [|x l]; [done|]. cbn.
  assert (forall m, let r := foldl (fun best y => if key y <? key best then y else best) m l in
            (r = m \/ r ∈ l) /\ key r <= key m /\ Forall (fun x => key r <= key x) l) as H.
  { induction l as [|y l IH]; intros m; cbn [foldl]; [naive_solver|].
    specialize (IH (if key y <? key m then y else m)). cbv zeta in IH |- *.
    rewrite elem_of_cons. set (r := foldl _ _ _) in *. clearbody r.
    destruct (Nat.ltb_spec (key y) (key m)), IH as (Hr & Hm & Hl);
      (split; [tauto|split; [lia|constructor; [lia|done]]]). }
  destruct (H x) as (Hin & Hx & Hl). split; [rewrite elem_of_cons; tauto|by constructor].
Qed.

Lemma min_by_key_key {A} (key : A -> nat) (x : A) l :
  exists m, min_by_key key (x :: l) = Some m /\
    key m = foldl (fun b y => Nat.min b (key y)) (key x) l.
Proof.
  eexists. split; [done|]. revert x. induction l as [|y l IH]; intros x; [done|].
  cbn [foldl]. rewrite IH. f_equal. destruct (Nat.ltb_spec (key y) (key x)); lia.
Qed.

Lemma StronglySorted_lookup {A} (R : relation A) (l : list A) i j x y :
  StronglySorted R l -> l !! i = Some x -> l !! j = Some y -> i < j -> R x y.
Proof.
  intros Hl. revert i j. induction Hl as [|z l Hl IH Hz]; intros i j Hi Hj Hij; [done|].
  destruct j as [|j]; [lia|]. destruct i as [|i]; simpl in *.
  - simplify_eq. by eapply Forall_lookup_1 in Hz.
  - eapply IH; [done..|lia].
Qed.

Lemma filter_none {A} (f : A -> bool) l : Forall (fun x => f x = false) l -> List.filter f l = [].
Proof. induction 1 as [|x l Hx _ IH]; [done|]. cbn. by rewrite Hx. Qed.

Lemma filter_every {A} (f : A -> bool) l : Forall (fun x => f x = true) l -> List.filter f l = l.
Proof. induction 1 as [|x l Hx _ IH]; [done|]. cbn. by rewrite Hx, IH. Qed.

Lemma wrap_small w z : unsigned w z -> wrap w z = z.
Proof. unfold unsigned, wrap. intros. by apply Z.mod_small. Qed.

Lemma wrap_unsigned w z : (0 <= w)%Z -> unsigned w (wrap w z).
Proof. unfold unsigned, wrap. intros. apply Z.mod_pos_bound. lia. Qed.

#[export] Hint Resolve wrap_small wrap_unsigned : zk.

(** Concatenation of bit fields. *)
Lemma lor_shiftl_add a n b :
  (0 <= n -> 0 <= b < 2 ^ n -> Z.lor (Z.shiftl a n) b = a * 2 ^ n + b)%Z.
Proof.
  intros Hn Hb. rewrite <- Z.shiftl_mul_pow2 by lia.
  assert (Z.land (Z.shiftl a n) b = 0)%Z as Hland.
  { apply Z.bits_inj'. intros i Hi. rewrite Z.land_spec, Z.bits_0.
    destruct (Z.lt_ge_cases i n); [by rewrite Z.shiftl_spec_low|].
    destruct (decide (b = 0%Z)) as [->|Hb0]; [by rewrite Z.bits_0, andb_false_r|].
    rewrite (Z.bits_above_log2 b), andb_false_r; [done|lia|].
    apply Z.log2_lt_pow2; [lia|]. eapply Z.lt_le_trans; [apply Hb|]. apply Z.pow_le_mono_r; lia. }
  rewrite <- Z.lxor_lor by done. by rewrite Z.add_nocarry_lxor.
Qed.

Lemma testbit_1_S m : Nat.testbit 1 (S m) = false.
Proof. simpl. apply Nat.bits_0. Qed.

(** [index ^ 1] is the position of the sibling. *)
Lemma nat_lxor_1 n : Nat.lxor n 1 = if Nat.even n then S n else pred n.
Proof.
  apply Nat.bits_inj. intros m. rewrite Nat.lxor_spec.
  destruct (Nat.Even_or_Odd n) as [[k Hk]|[k Hk]]; subst n.
  - rewrite Nat.even_mul. simpl (Nat.even 2 || _).
    replace (S (2 * k)) with (2 * k + 1) by lia.
    destruct m as [|m].
    + by rewrite Nat.testbit_even_0, Nat.testbit_odd_0.
    + rewrite testbit_1_S, xorb_false_r.
      by rewrite Nat.testbit_even_succ, Nat.testbit_odd_succ by lia.
  - replace (Nat.even (2 * k + 1)) with false
      by (rewrite Nat.even_add, Nat.even_mul; done).
    replace (pred (2 * k + 1)) with (2 * k) by lia.
    destruct m as [|m].
    + by rewrite Nat.testbit_even_0, Nat.testbit_odd_0.
    + rewrite testbit_1_S, xorb_false_r.
      by rewrite Nat.testbit_even_succ, Nat.testbit_odd_succ by lia.
Qed.

Lemma Z_lxor_1_even q : (q mod 2 = 0 -> Z.lxor q 1 = q + 1)%Z.
Proof.
  intros Hq. symmetry. apply Z.add_nocarry_lxor. change 1%Z with (Z.ones 1). by rewrite Z.land_ones.
Qed.

Lemma Z_lxor_1 q : (Z.lxor q 1 = q + 1 - 2 * (q mod 2))%Z.
Proof.
  pose proof (Z.mod_pos_bound q 2 ltac:(lia)). destruct (decide (q mod 2 = 0)%Z) as [Hq|Hq].
  - rewrite Z_lxor_1_even by done. lia.
  - assert (Z.lxor (q - 1) 1 = q) as Hx by (rewrite Z_lxor_1_even; [lia|div_lia]).
    rewrite <- Hx at 1. rewrite Z.lxor_assoc, Z.lxor_nilpotent, Z.lxor_0_r. lia.
Qed.

Lemma of_nat_lxor_1 n : Z.of_nat (Nat.lxor n 1) = Z.lxor (Z.of_nat n) 1.
Proof.
  rewrite nat_lxor_1, Z_lxor_1. destruct (Nat.even n) eqn:He.
  - apply Nat.even_spec in He as [k ->]. div_lia.
  - assert (Nat.odd n = true) as Ho by (rewrite <- Nat.negb_even, He; done).
    apply Nat.odd_spec in Ho as [k ->]. div_lia.
Qed.

(** ** Sums over finite maps *)

Definition map_sum `{Countable K} {A} (f : K -> A -> Z) (m : gmap K A) : Z :=
  map_fold (fun k v acc => (f k v + acc)%Z) 0%Z m.

Section MapSum.
Context `{Countable K} {A : Type} (f : K -> A -> Z).
Implicit Types m : gmap K A.

Lemma map_sum_empty : map_sum f (∅ : gmap K A) = 0%Z.
Proof. apply map_fold_empty. Qed.

Lemma map_sum_insert_None m k v :
  m !! k = None -> map_sum f (<[k := v]> m) = (f k v + map_sum f m)%Z.
Proof. intros Hk. unfold map_sum. rewrite map_fold_insert_L; [done|intros; lia|done]. Qed.

Lemma map_sum_delete m k v :
  m !! k = Some v -> map_sum f (delete k m) = (map_sum f m - f k v)%Z.
Proof.
  intros Hk. rewrite <- (insert_delete_id m k v) at 2 by done.
  rewrite map_sum_insert_None by apply lookup_delete_eq. lia.
Qed.

Lemma map_sum_insert_Some m k v v' :
  m !! k = Some v -> map_sum f (<[k := v']> m) = (map_sum f m - f k v + f k v')%Z.
Proof.
  intros Hk. rewrite <- insert_delete_eq, map_sum_insert_None by apply lookup_delete_eq.
  rewrite (map_sum_delete _ _ _ Hk). lia.
Qed.

Lemma map_sum_nonneg m : (forall k v, 0 <= f k v)%Z -> (0 <= map_sum f m)%Z.
Proof.
  intros Hf. unfold map_sum. apply (map_fold_weak_ind (fun acc _ => 0 <= acc)%Z); [lia|].
  intros k v m' acc _ IH. specialize (Hf k v). lia.
Qed.

Lemma map_sum_lookup_le m k v :
  (forall k v, 0 <= f k v)%Z -> m !! k = Some v -> (f k v <= map_sum f m)%Z.
Proof.
  intros Hf Hk. pose proof (map_sum_nonneg (delete k m) Hf).
  rewrite (map_sum_delete m k v Hk) in *. lia.
Qed.

Lemma map_sum_filter_le (P : K * A -> Prop) `{!forall x, Decision (P x)} m :
  (forall k v, 0 <= f k v)%Z -> (map_sum f (filter P m) <= map_sum f m)%Z.
Proof.
  intros Hf. induction m as [|k v m Hk IH] using map_ind; [by rewrite map_filter_empty|].
  specialize (Hf k v). rewrite (map_sum_insert_None m k v Hk). destruct (decide (P (k, v))).
  - rewrite map_filter_insert_True, map_sum_insert_None; [lia| |done].
    apply map_lookup_filter_None. by left.
  - rewrite map_filter_insert_not'; [lia|done|]. intros y Hy. congruence.
Qed.
End MapSum.
