(* ===== verification/Bytes.v ===== *)
(** * Byte strings

    Big-endian encodings of machine integers, shared by the serialisation
    components.  A byte is an integer in [0..256]; [Address], [H256] and [U256]
    values are represented by their big-endian integer value and turned into
    bytes with [be_bytes]. *)

From S2P Require Import Prelude.
Open Scope Z_scope.

Definition byte (b : Z) : Prop := 0 <= b < 256.

Definition bytes (l : list Z) : Prop := Forall byte l.

(** [to_be_bytes] of an integer of [n] bytes. *)
Fixpoint be_bytes (n : nat) (z : Z) : list Z :=
  match n with
  | O => []
  | S n' => (z / 256 ^ Z.of_nat n') mod 256 :: be_bytes n' z
  end.

(** [from_be_bytes] *)
Definition be_value (l : list Z) : Z := fold_left (fun acc b => acc * 256 + b) l 0.

Lemma be_bytes_length n z : length (be_bytes n z) = n.
Proof. induction n; simpl; auto. Qed.

Lemma be_bytes_bytes n z : bytes (be_bytes n z).
Proof.
  induction n as [|n IH]; simpl; constructor; [|done].
  unfold byte. apply Z.mod_pos_bound. lia.
Qed.

Lemma fold_be l acc :
  fold_left (fun acc b => acc * 256 + b) l acc = acc * 256 ^ Z.of_nat (length l) + be_value l.
Proof.
  unfold be_value. revert acc. induction l as [|b l IH]; intros acc; cbn [fold_left length].
  - rewrite Z.pow_0_r. lia.
  - rewrite IH, (IH (0 * 256 + b)), Nat2Z.inj_succ, Z.pow_succ_r by lia. lia.
Qed.

Lemma be_value_nil : be_value [] = 0.
Proof. done. Qed.

Lemma be_value_cons b l : be_value (b :: l) = b * 256 ^ Z.of_nat (length l) + be_value l.
Proof. unfold be_value at 1. cbn [fold_left]. rewrite fold_be. lia. Qed.

Lemma be_value_app l1 l2 :
  be_value (l1 ++ l2) = be_value l1 * 256 ^ Z.of_nat (length l2) + be_value l2.
Proof. unfold be_value at 1. rewrite fold_left_app. apply fold_be. Qed.

Lemma be_value_bound l : bytes l -> 0 <= be_value l < 256 ^ Z.of_nat (length l).
Proof.
  induction 1 as [|b l Hb Hl IH].
  - rewrite be_value_nil. simpl. lia.
  - rewrite be_value_cons. cbn [length]. rewrite Nat2Z.inj_succ, Z.pow_succ_r by lia.
    unfold byte in Hb. nia.
Qed.

Lemma be_value_be_bytes_mod n z : be_value (be_bytes n z) = z mod 256 ^ Z.of_nat n.
Proof.
  induction n as [|n IH].
  - simpl. rewrite Z.pow_0_r, Z.mod_1_r. done.
  - cbn [be_bytes]. rewrite be_value_cons, be_bytes_length, IH.
    rewrite Nat2Z.inj_succ, Z.pow_succ_r by lia.
    rewrite (Z.mul_comm 256), Z.rem_mul_r by lia. lia.
Qed.

Lemma be_value_be_bytes n z :
  0 <= z < 256 ^ Z.of_nat n -> be_value (be_bytes n z) = z.
Proof. intros. rewrite be_value_be_bytes_mod. by apply Z.mod_small. Qed.

Lemma byte_of_add z c i m :
  0 <= i < m -> ((c * 256 ^ m + z) / 256 ^ i) mod 256 = (z / 256 ^ i) mod 256.
Proof.
  intros Hi. replace (256 ^ m) with (256 ^ (m - i - 1) * 256 * 256 ^ i).
  - rewrite Z.mul_assoc, Z.div_add_l by lia.
    rewrite Z.add_comm, Z.mul_assoc, Z.mod_add by lia. done.
  - rewrite <- (Z.pow_1_r 256) at 2. rewrite <- !Z.pow_add_r by lia. f_equal. lia.
Qed.

(** The bytes above the top are dropped. *)
Lemma be_bytes_add_high n m c z :
  (n <= m)%nat -> be_bytes n (c * 256 ^ Z.of_nat m + z) = be_bytes n z.
Proof.
  intros Hn. induction n as [|n IH]; [done|]. cbn [be_bytes].
  rewrite IH, byte_of_add by lia. done.
Qed.

Lemma be_bytes_app n m a b :
  0 <= b < 256 ^ Z.of_nat m ->
  be_bytes (n + m) (a * 256 ^ Z.of_nat m + b) = be_bytes n a ++ be_bytes m b.
Proof.
  intros Hb. induction n as [|n IH].
  - simpl. by apply be_bytes_add_high.
  - simpl. rewrite IH. f_equal.
    rewrite Nat2Z.inj_add, Z.pow_add_r by lia.
    rewrite (Z.mul_comm (256 ^ Z.of_nat n)), <- Z.div_div by lia.
    rewrite Z.div_add_l by lia. rewrite (Z.div_small b) by lia. by rewrite Z.add_0_r.
Qed.

Lemma be_bytes_be_value l : bytes l -> be_bytes (length l) (be_value l) = l.
Proof.
  induction 1 as [|b l Hb Hl IH]; [done|]. cbn [length be_bytes].
  pose proof (be_value_bound l Hl) as Hbound.
  rewrite be_value_cons. unfold byte in Hb. f_equal.
  - rewrite Z.div_add_l by lia. rewrite (Z.div_small (be_value l)) by lia.
    rewrite Z.add_0_r. by apply Z.mod_small.
  - by rewrite be_bytes_add_high.
Qed.

Lemma be_bytes_0 n : be_bytes n 0 = replicate n 0.
Proof. induction n as [|n IH]; [done|]. simpl. by rewrite IH, Z.div_0_l, Z.mod_0_l by lia. Qed.

Lemma bytes_app l1 l2 : bytes (l1 ++ l2) <-> bytes l1 /\ bytes l2.
Proof. apply Forall_app. Qed.

Lemma bytes_take n l : bytes l -> bytes (take n l).
Proof. apply Forall_take. Qed.

Lemma bytes_drop n l : bytes l -> bytes (drop n l).
Proof. apply Forall_drop. Qed.

Lemma bytes_replicate_0 n : bytes (replicate n 0).
Proof. apply Forall_replicate. unfold byte. lia. Qed.

(** Dropping the leading bytes keeps the value modulo the remaining width. *)
Lemma drop_be_bytes k m z : drop k (be_bytes (k + m) z) = be_bytes m z.
Proof. induction k as [|k IH]; [done|]. apply IH. Qed.

Lemma be_value_drop_be_bytes n m z :
  (m <= n)%nat -> be_value (drop (n - m) (be_bytes n z)) = z mod 256 ^ Z.of_nat m.
Proof.
  intros Hm. replace n with ((n - m) + m)%nat at 2 by lia.
  rewrite drop_be_bytes. apply be_value_be_bytes_mod.
Qed.

Lemma be_value_replicate_0 n l : be_value (replicate n 0 ++ l) = be_value l.
Proof.
  induction n as [|n IH]; [done|]. cbn [replicate app]. rewrite be_value_cons, IH. lia.
Qed.

#[export] Hint Resolve be_bytes_bytes bytes_take bytes_drop bytes_replicate_0 : zk.
#[export] Hint Rewrite be_bytes_length : zk.

(** Byte strings of concrete length are computed only on demand. *)
#[global] Opaque be_bytes be_value.
