(* ===== verification/Utils.v ===== *)
(** * Shared utilities

    Model of [src/core/lib/utils/src/misc.rs], [convert.rs] and [bytecode.rs]:
    rounding division, conversions between [U256], [H256], [Address] and byte
    strings, memory expansion and bytecode validation. *)

From S2P Require Import Prelude Bytes.
Open Scope Z_scope.

(** ** misc.rs *)

(** [ceil_div]; every caller passes a non-zero divisor. *)
Definition ceil_div (a b : Z) : Z := if a =? 0 then a else (a - 1) / b + 1.

(** [U256] addition panics when it overflows. *)
Definition u256_add (a b : Z) : outcome Z :=
  if a + b <? 2 ^ 256 then Ret (a + b) else Panics "arithmetic operation overflow".

Definition ceil_div_u256 (a b : Z) : outcome Z :=
  s ← u256_add a b;
  _ ← rust_assert (1 <=? s) "arithmetic operation overflow";
  _ ← rust_assert (negb (b =? 0)) "division by zero";
  Ret ((s - 1) / b).

(** [result[a..b].copy_from_slice(src)] *)
Definition copy_into (dst : list Z) (a : nat) (src : list Z) : outcome (list Z) :=
  if (a + length src <=? length dst)%nat then
    Ret (take a dst ++ src ++ drop (a + length src) dst)
  else Panics "range end index out of range for slice".

Definition expand_memory_contents (packed : list (nat * Z)) (memory_size_bytes : nat) :
    outcome (list Z) :=
  foldM (fun result '(offset, value) => copy_into result (offset * 32) (be_bytes 32 value))
    (replicate memory_size_bytes 0) packed.

(** ** convert.rs *)

Definition h256_to_u256 (num : Z) : Z := be_value (be_bytes 32 num).

Definition address_to_h256 (address : Z) : Z :=
  be_value (replicate 12 0 ++ be_bytes 20 address).

Definition address_to_u256 (address : Z) : Z := h256_to_u256 (address_to_h256 address).

(** [slice::chunks] *)
Fixpoint chunks_fuel {A} (fuel n : nat) (l : list A) : list (list A) :=
  match fuel, l with
  | O, _ | _, [] => []
  | S fuel', _ => take n l :: chunks_fuel fuel' n (drop n l)
  end.

Definition chunks {A} (n : nat) (l : list A) : list (list A) := chunks_fuel (length l) n l.

Definition ensure_chunkable (bs : list Z) : outcome unit :=
  rust_assert (length bs mod 32 =? 0)%nat "Bytes must be divisible by 32 to split into chunks".

Definition bytes_to_chunks (bs : list Z) : outcome (list (list Z)) :=
  _ ← ensure_chunkable bs; Ret (chunks 32 bs).

Definition be_chunks_to_h256_words (cs : list (list Z)) : list Z := be_value <$> cs.

Definition bytes_to_be_words (bs : list Z) : outcome (list Z) :=
  _ ← ensure_chunkable bs; Ret (be_value <$> chunks 32 bs).

Definition be_words_to_bytes (words : list Z) : list Z := words ≫= be_bytes 32.

Definition u256_to_h256 (num : Z) : Z := be_value (be_bytes 32 num).

Definition u256_to_account_address (value : Z) : Z := be_value (drop 12 (be_bytes 32 value)).

Definition h256_to_account_address (value : Z) : Z := be_value (drop 12 (be_bytes 32 value)).

Definition be_bytes_to_safe_address (bs : list Z) : option Z :=
  if (length bs <? 20)%nat then None
  else
    let zero_bytes := take (length bs - 20) bs in
    let address_bytes := drop (length bs - 20) bs in
    if existsb (fun b => negb (b =? 0)) zero_bytes then None
    else Some (be_value address_bytes).

Definition h256_to_u32 (value : Z) : Z := be_value (drop 28 (be_bytes 32 value)).

Definition u32_to_h256 (value : Z) : Z := be_value (replicate 28 0 ++ be_bytes 4 value).

Definition u256_to_bytes_be (value : Z) : list Z := be_bytes 32 value.

(** ** bytecode.rs *)

Definition MAX_BYTECODE_LENGTH_IN_WORDS : Z := 2 ^ 16 - 1.
Definition MAX_BYTECODE_LENGTH_BYTES : Z := MAX_BYTECODE_LENGTH_IN_WORDS * 32.

Inductive InvalidBytecodeError : Type :=
| BytecodeTooLong (len max : Z)
| BytecodeLengthInWordsIsEven
| BytecodeLengthIsNotDivisibleBy32.

Definition validate_bytecode (code : list Z) : result unit InvalidBytecodeError :=
  let bytecode_len := Z.of_nat (length code) in
  if MAX_BYTECODE_LENGTH_BYTES <? bytecode_len then
    Err (BytecodeTooLong bytecode_len MAX_BYTECODE_LENGTH_BYTES)
  else if negb (bytecode_len mod 32 =? 0) then Err BytecodeLengthIsNotDivisibleBy32
  else if (bytecode_len / 32) mod 2 =? 0 then Err BytecodeLengthInWordsIsEven
  else Ok tt.

Section HashBytecode.
(** [zk_evm::zkevm_opcode_defs::utils::bytecode_to_code_hash] *)
Variable bytecode_to_code_hash : list (list Z) -> option Z.

Definition hash_bytecode (code : list Z) : outcome Z :=
  chunked_code ← bytes_to_chunks code;
  expect (bytecode_to_code_hash chunked_code) "Invalid bytecode".
End HashBytecode.

Definition bytecode_len_in_words (bytecodehash : Z) : Z :=
  be_value (take 2 (drop 2 (be_bytes 32 bytecodehash))).

Definition bytecode_len_in_bytes (bytecodehash : Z) : Z :=
  bytecode_len_in_words bytecodehash * 32.

(** ** Lemmas *)

Lemma ceil_div_spec a b :
  0 <= a -> 0 < b -> b * (ceil_div a b - 1) < a <= b * ceil_div a b \/ a = 0 /\ ceil_div a b = 0.
Proof.
  intros Ha Hb. unfold ceil_div. destruct (Z.eqb_spec a 0) as [->|Hne]; [by right|left].
  pose proof (Z.div_mod (a - 1) b). pose proof (Z.mod_pos_bound (a - 1) b). nia.
Qed.

Lemma pow256 n : 256 ^ Z.of_nat n = 2 ^ (8 * Z.of_nat n).
Proof. rewrite Z.pow_mul_r by lia. done. Qed.

Lemma be_value_be_bytes_unsigned n w z :
  unsigned w z -> w = 8 * Z.of_nat n -> be_value (be_bytes n z) = z.
Proof. intros Hz ->. apply be_value_be_bytes. by rewrite pow256. Qed.

Lemma be_value_drop_be_bytes_wrap n m w z :
  (m <= n)%nat -> w = 8 * Z.of_nat m -> be_value (drop (n - m) (be_bytes n z)) = wrap w z.
Proof. intros Hm ->. rewrite be_value_drop_be_bytes by done. by rewrite pow256. Qed.

Lemma h256_to_u256_id z : unsigned 256 z -> h256_to_u256 z = z.
Proof. intros Hz. unfold h256_to_u256. by eapply be_value_be_bytes_unsigned. Qed.

Lemma u256_to_h256_id z : unsigned 256 z -> u256_to_h256 z = z.
Proof. intros Hz. unfold u256_to_h256. by eapply be_value_be_bytes_unsigned. Qed.

Lemma address_to_h256_id a : unsigned 160 a -> address_to_h256 a = a.
Proof.
  intros Ha. unfold address_to_h256. rewrite be_value_replicate_0.
  by eapply be_value_be_bytes_unsigned.
Qed.

Lemma unsigned_160_256 a : unsigned 160 a -> unsigned 256 a.
Proof.
  intros [H0 H1]. split; [done|]. eapply Z.lt_le_trans; [exact H1|].
  apply Z.pow_le_mono_r; lia.
Qed.

Lemma address_to_u256_id a : unsigned 160 a -> address_to_u256 a = a.
Proof.
  intros. unfold address_to_u256. rewrite address_to_h256_id by done.
  by apply h256_to_u256_id, unsigned_160_256.
Qed.

Lemma u256_to_account_address_wrap v : u256_to_account_address v = wrap 160 v.
Proof. unfold u256_to_account_address. apply (be_value_drop_be_bytes_wrap 32 20); lia. Qed.

(** Addresses survive the trip through a 256-bit word. *)
Lemma address_roundtrip a :
  unsigned 160 a -> u256_to_account_address (address_to_u256 a) = a.
Proof.
  intros Ha. rewrite u256_to_account_address_wrap, address_to_u256_id by done.
  by apply wrap_small.
Qed.

Lemma u32_h256_roundtrip v : unsigned 32 v -> h256_to_u32 (u32_to_h256 v) = v.
Proof.
  intros Hv. unfold h256_to_u32, u32_to_h256.
  rewrite be_value_replicate_0, (be_value_be_bytes_unsigned 4 32) by done.
  rewrite (be_value_drop_be_bytes_wrap 32 4 32) by lia. by apply wrap_small.
Qed.

(** *** Chunks *)

Lemma chunks_fuel_concat {A} fuel n (l : list A) :
  (0 < n)%nat -> (length l <= fuel)%nat -> concat (chunks_fuel fuel n l) = l.
Proof.
  revert l. induction fuel as [|fuel IH]; intros l Hn Hl.
  { destruct l; simpl in *; [done|lia]. }
  destruct l as [|x l]; [done|]. cbn [chunks_fuel concat].
  rewrite IH; [by rewrite take_drop|done|]. rewrite length_drop. simpl in *. lia.
Qed.

Lemma chunks_fuel_enough {A} fuel fuel' n (l : list A) :
  (0 < n)%nat -> (length l <= fuel)%nat -> (length l <= fuel')%nat -> chunks_fuel fuel n l = chunks_fuel fuel' n l.
Proof.
  intros Hn. revert fuel' l. induction fuel as [|fuel IH]; intros fuel' l H1 H2.
  { destruct l; [by destruct fuel'|cbn in H1; lia]. }
  destruct l as [|x l]; [by destruct fuel'|]. destruct fuel' as [|fuel']; [cbn in H2; lia|].
  cbn [chunks_fuel]. f_equal. apply IH; rewrite length_drop; cbn in *; lia.
Qed.

Lemma chunks_count {A} (l : list A) : length (chunks 32 l) = ((length l + 31) / 32)%nat.
Proof.
  unfold chunks. generalize (le_n (length l)). generalize (length l) at 2 3 as fuel. intros fuel. revert l.
  induction fuel as [|fuel IH]; intros l Hl.
  { destruct l; [done|cbn in Hl; lia]. }
  destruct l as [|x l']; [done|]. set (l := x :: l') in *.
  change (chunks_fuel (S fuel) 32 l) with (take 32 l :: chunks_fuel fuel 32 (drop 32 l)). cbn [length].
  assert (0 < length l)%nat by (cbn; lia).
  rewrite IH, length_drop by (rewrite length_drop; lia).
  destruct (decide (32 <= length l)%nat); div_lia.
Qed.

Lemma chunks_concat {A} n (l : list A) : (0 < n)%nat -> concat (chunks n l) = l.
Proof. intros Hn. by apply chunks_fuel_concat. Qed.

Lemma chunks_fuel_length {A} fuel n k (l : list A) :
  (0 < n)%nat -> (length l <= fuel)%nat -> length l = (k * n)%nat ->
  Forall (fun c => length c = n) (chunks_fuel fuel n l) /\ length (chunks_fuel fuel n l) = k.
Proof.
  revert k l. induction fuel as [|fuel IH]; intros k l Hn Hf Hl.
  { assert (k = 0)%nat by nia. subst. destruct l; [by split|simpl in *; lia]. }
  destruct l as [|x l]; [assert (k = 0)%nat by (simpl in *; nia); subst; by split|].
  destruct k as [|k]; [simpl in *; lia|]. cbn [chunks_fuel].
  edestruct (IH k (drop n (x :: l))) as [H1 H2];
    [done|rewrite length_drop; simpl in *; lia|rewrite length_drop; lia|].
  split; [constructor; [rewrite length_take; lia|exact H1]|simpl; congruence].
Qed.

Lemma chunks_length {A} n k (l : list A) :
  (0 < n)%nat -> length l = (k * n)%nat ->
  Forall (fun c => length c = n) (chunks n l) /\ length (chunks n l) = k.
Proof. intros. by apply chunks_fuel_length. Qed.

(** Chunking is the inverse of concatenating blocks of the chunk size. *)
Lemma chunks_fuel_of_concat {A} fuel n (ls : list (list A)) rest :
  (0 < n)%nat -> Forall (fun c => length c = n) ls ->
  (length (concat ls ++ rest) <= fuel)%nat ->
  chunks_fuel fuel n (concat ls ++ rest) = ls ++ chunks_fuel (fuel - length ls) n rest.
Proof.
  intros Hn Hls. revert fuel. induction Hls as [|c ls Hc Hls IH]; intros fuel Hf.
  { simpl. by rewrite Nat.sub_0_r. }
  destruct c as [|b c]; [simpl in Hc; lia|]. destruct fuel as [|fuel]; [simpl in Hf; lia|].
  cbn [concat app chunks_fuel]. rewrite <- app_assoc, !app_comm_cons.
  rewrite take_app_length', drop_app_length' by done. f_equal.
  rewrite IH; [done|]. simpl in Hf. rewrite !length_app in *. lia.
Qed.

Lemma chunks_of_concat {A} n (ls : list (list A)) :
  (0 < n)%nat -> Forall (fun c => length c = n) ls -> chunks n (concat ls) = ls.
Proof.
  intros Hn Hls. unfold chunks. rewrite <- (app_nil_r (concat ls)) at 2.
  rewrite chunks_fuel_of_concat by (rewrite ?app_nil_r; done).
  destruct (_ - _)%nat; by rewrite app_nil_r.
Qed.

Lemma be_words_to_bytes_concat words :
  be_words_to_bytes words = concat (be_bytes 32 <$> words).
Proof. unfold be_words_to_bytes. induction words as [|w words IH]; [done|].
  rewrite fmap_cons. cbn [concat]. by rewrite <- IH. Qed.

(** Words printed as bytes are read back. *)
Lemma be_words_roundtrip words :
  Forall (unsigned 256) words -> bytes_to_be_words (be_words_to_bytes words) = Ret words.
Proof.
  intros Hw. unfold bytes_to_be_words, ensure_chunkable.
  rewrite be_words_to_bytes_concat.
  assert (Forall (fun c => length c = 32%nat) (be_bytes 32 <$> words)) as Hc.
  { apply Forall_fmap, Forall_true. intros; apply be_bytes_length. }
  rewrite rust_assert_true.
  2:{ apply Nat.eqb_eq. clear Hw. revert Hc. generalize (be_bytes 32 <$> words). intros l Hl.
      induction Hl as [|c l Hc Hl IH]; [done|]. cbn [concat]. rewrite length_app, Hc. div_lia. }
  rewrite outcome_Ret_bind, chunks_of_concat by (done || lia). f_equal. rewrite <- list_fmap_compose.
  rewrite <- (list_fmap_id words) at 2. apply list_fmap_ext. intros i w Hi.
  eapply Forall_lookup_1 in Hw; [|exact Hi]. by eapply be_value_be_bytes_unsigned.
Qed.
