(* ===== verification/BytecodeCompression.v ===== *)
(** * Bytecode compression

    Model of [src/core/lib/multivm/src/utils/bytecode.rs]: published bytecodes
    are sent to the base layer as a dictionary of the distinct 8-byte chunks,
    the most frequent first, followed by the 2-byte dictionary index of every
    chunk.  The decompressor is the one the repository's tests use. *)

From S2P Require Import Prelude Bytes Utils.
Open Scope Z_scope.

(** ** The code *)

Inductive FailedToCompressBytecodeError : Type :=
| DictionaryOverflow
| InvalidBytecode (e : InvalidBytecodeError).

(** [u64::from_be_bytes(chunk_bytes.try_into().unwrap())] *)
Definition chunk_of_bytes (chunk_bytes : list Z) : outcome Z :=
  if (length chunk_bytes =? 8)%nat then Ret (be_value chunk_bytes)
  else Panics "called `Result::unwrap()` on an `Err` value: TryFromSliceError".

(** Per chunk: number of occurrences and position of the first one. *)
Abbreviation statistics := (gmap Z (nat * nat)).

Definition count_chunk (statistic : statistics) (position : nat) (chunk : Z) : statistics :=
  let '(n, first) := default (0%nat, position) (statistic !! chunk) in
  <[chunk := (S n, first)]> statistic.

Definition collect_statistic (code : list Z) : outcome statistics :=
  foldM (fun statistic '(position, chunk_bytes) =>
           chunk ← chunk_of_bytes chunk_bytes;
           Ret (count_chunk statistic position chunk))
    ∅ (imap pair (chunks 8 code)).

(** Order of the keys of [sort_by_key(|x| x.1)]. *)
Definition by_value (x y : Z * (nat * nat)) : Prop :=
  (x.2.1 < y.2.1)%nat \/ x.2.1 = y.2.1 /\ (x.2.2 <= y.2.2)%nat.

#[export] Instance by_value_dec : RelDecision by_value.
Proof. intros x y. unfold by_value. apply _. Defined.

Definition sort_statistic (statistic : statistics) : list (Z * (nat * nat)) :=
  merge_sort by_value (map_to_list statistic).

Definition fill_dictionary (statistic_sorted_by_value : list (Z * (nat * nat))) : gmap Z Z :=
  foldl (fun dictionary '(chunk, _) =>
           <[chunk := wrap 16 (Z.of_nat (size dictionary))]> dictionary)
    ∅ (reverse statistic_sorted_by_value).

Definition encode_data (dictionary : gmap Z Z) (code : list Z) : outcome (list Z) :=
  foldM (fun encoded_data chunk_bytes =>
           chunk ← chunk_of_bytes chunk_bytes;
           index ← expect (dictionary !! chunk) "called `Option::unwrap()` on a `None` value";
           Ret (encoded_data ++ be_bytes 2 index))
    [] (chunks 8 code).

(** Order of [entries.sort_unstable()]. *)
Definition entry_le (x y : Z * Z) : Prop := x.1 < y.1 \/ x.1 = y.1 /\ x.2 <= y.2.

#[export] Instance entry_le_dec : RelDecision entry_le.
Proof. intros x y. unfold entry_le. apply _. Defined.

Definition sorted_entries (dictionary : gmap Z Z) : list (Z * Z) :=
  merge_sort entry_le ((fun '(k, v) => (v, k)) <$> map_to_list dictionary).

Definition compress_to_bytes (code : list Z) :
    outcome (result (list Z) FailedToCompressBytecodeError) :=
  match validate_bytecode code with
  | Err e => Ret (Err (InvalidBytecode e))
  | Ok _ =>
      statistic ← collect_statistic code;
      let statistic_sorted_by_value := sort_statistic statistic in
      if 2 ^ 16 - 1 <? Z.of_nat (length statistic_sorted_by_value) then
        Ret (Err DictionaryOverflow)
      else
        let dictionary := fill_dictionary statistic_sorted_by_value in
        encoded_data ← encode_data dictionary code;
        Ret (Ok (be_bytes 2 (wrap 16 (Z.of_nat (size dictionary)))
                 ++ (sorted_entries dictionary ≫= (fun '(_, chunk) => be_bytes 8 chunk))
                 ++ encoded_data))
  end.

(** [CompressedBytecodeInfo] *)
Record CompressedBytecodeInfo := {
  original : list Z;
  compressed : list Z;
}.

Definition compress (bytecode : list Z) :
    outcome (result CompressedBytecodeInfo FailedToCompressBytecodeError) :=
  r ← compress_to_bytes bytecode;
  Ret match r with
      | Ok c => Ok {| compressed := c; original := bytecode |}
      | Err e => Err e
      end.

Section EncodeCall.
(** [zk_evm]'s code hash and [ethabi::encode] on two byte tokens. *)
Variable bytecode_to_code_hash : list (list Z) -> option Z.
Variable ethabi_encode_bytes2 : list Z -> list Z -> list Z.

Definition encode_call (bytecode : CompressedBytecodeInfo) : outcome (list Z) :=
  hash ← hash_bytecode bytecode_to_code_hash (original bytecode);
  Ret (be_bytes 32 hash ++ replicate 32 0
       ++ ethabi_encode_bytes2 (original bytecode) (compressed bytecode)).
End EncodeCall.

(** [slice[a..b]] *)
Definition slice {A} (l : list A) (a b : nat) : outcome (list A) :=
  if ((a <=? b) && (b <=? length l))%nat then Ret (take (b - a) (drop a l))
  else Panics "slice index out of range".

(** The decompressor of the repository's tests. *)
Definition decompress_bytecode (raw : list Z) : outcome (list Z) :=
  len_bytes ← slice raw 0 2;
  let dictionary_len := Z.to_nat (be_value len_bytes) in
  dictionary ← foldM (fun dictionary index =>
                        chunk_bytes ← slice raw (2 + index * 8) (10 + index * 8);
                        chunk ← chunk_of_bytes chunk_bytes;
                        Ret (dictionary ++ [chunk]))
                 [] (seq 0 dictionary_len);
  encoded_data ← slice raw (2 + dictionary_len * 8) (length raw);
  foldM (fun decompressed index_bytes =>
           _ ← rust_assert (length index_bytes =? 2)%nat "TryFromSliceError";
           chunk ← index_vec dictionary (Z.to_nat (be_value index_bytes));
           Ret (decompressed ++ be_bytes 8 chunk))
    [] (chunks 2 encoded_data).

(** ** Reference definitions *)

(** The 8-byte words of a bytecode. *)
Definition code_words (code : list Z) : list Z := be_value <$> chunks 8 code.

Definition occurrences (c : Z) (cs : list Z) : nat := length (filter (c =.) cs).

Definition statistic_of (cs : list Z) : statistics :=
  foldl (fun st '(position, c) => count_chunk st position c) ∅ (imap pair cs).

(** The dictionary as a list: index [i] stands for the [i]-th chunk. *)
Definition dictionary_order (statistic : statistics) : list Z :=
  (reverse (sort_statistic statistic)).*1.

(** ** Statistics *)

Lemma statistic_of_snoc cs c :
  statistic_of (cs ++ [c]) = count_chunk (statistic_of cs) (length cs) c.
Proof.
  unfold statistic_of. rewrite imap_app, foldl_app. cbn. by rewrite Nat.add_0_r.
Qed.

Lemma occurrences_app c cs cs' :
  occurrences c (cs ++ cs') = (occurrences c cs + occurrences c cs')%nat.
Proof. unfold occurrences. by rewrite filter_app, length_app. Qed.

Lemma occurrences_0 c cs : Forall (fun x => ~ c = x) cs -> occurrences c cs = 0%nat.
Proof.
  unfold occurrences. induction 1 as [|x cs Hx _ IH]; [done|]. by rewrite filter_cons_False.
Qed.

(** Every chunk is mapped to its number of occurrences and its first position. *)
Lemma statistic_of_lookup cs c :
  statistic_of cs !! c = (fun '(i, _) => (occurrences c cs, i)) <$> list_find (c =.) cs.
Proof.
  induction cs as [|x cs IH] using rev_ind; [done|].
  rewrite statistic_of_snoc, occurrences_app. unfold count_chunk.
  assert (occurrences c [x] = if decide (c = x) then 1 else 0)%nat as Hx.
  { unfold occurrences. rewrite filter_cons. by case_decide. }
  rewrite Hx. destruct (list_find (c =.) cs) as [[i y]|] eqn:Hfind.
  - rewrite (list_find_app_l _ _ [x] i y) by done. cbn in IH |- *.
    destruct (decide (c = x)) as [->|Hne].
    + rewrite IH. cbn. rewrite lookup_insert_eq. by rewrite Nat.add_1_r.
    + case_match. rewrite lookup_insert_ne by done. by rewrite IH, Nat.add_0_r.
  - rewrite list_find_app_r by done. cbn in IH |- *.
    assert (occurrences c cs = 0%nat) as Hocc.
    { apply occurrences_0. by apply list_find_None in Hfind. }
    destruct (decide (c = x)) as [->|Hne].
    + rewrite IH. cbn. by rewrite lookup_insert_eq, Hocc.
    + case_match. rewrite lookup_insert_ne by done. by rewrite IH.
Qed.

Lemma statistic_of_elem cs c : is_Some (statistic_of cs !! c) <-> c ∈ cs.
Proof.
  rewrite statistic_of_lookup, fmap_is_Some. split.
  - intros [[i x] (Hx & -> & _)%list_find_Some]. by eapply list_elem_of_lookup_2.
  - intros Hc. by eapply list_find_elem_of.
Qed.

(** ** Dictionary *)

Definition dict_of (order : list Z) : gmap Z Z :=
  foldl (fun d c => <[c := wrap 16 (Z.of_nat (size d))]> d) ∅ order.

Definition indexed (order : list Z) : list (Z * Z) := imap (fun i c => (Z.of_nat i, c)) order.

Lemma fill_dictionary_order st :
  fill_dictionary (sort_statistic st) = dict_of (dictionary_order st).
Proof.
  unfold fill_dictionary, dict_of, dictionary_order. rewrite foldl_fmap.
  generalize (∅ : gmap Z Z). induction (reverse (sort_statistic st)) as [|[c x] l IH];
    intros d; [done|]. apply IH.
Qed.

Lemma dictionary_order_NoDup st : NoDup (dictionary_order st).
Proof.
  unfold dictionary_order, sort_statistic. rewrite reverse_Permutation.
  rewrite merge_sort_Permutation. apply NoDup_fst_map_to_list.
Qed.

Lemma dictionary_order_elem st c : c ∈ dictionary_order st <-> is_Some (st !! c).
Proof.
  unfold dictionary_order, sort_statistic. rewrite reverse_Permutation.
  rewrite merge_sort_Permutation, list_elem_of_fmap. split.
  - intros ([c' x] & -> & Hx%elem_of_map_to_list). by eexists.
  - intros [x Hx]. exists (c, x). by rewrite elem_of_map_to_list.
Qed.

Lemma length_dictionary_order st : length (dictionary_order st) = length (sort_statistic st).
Proof. unfold dictionary_order. by rewrite length_fmap, length_reverse. Qed.

Definition keyed (order : list Z) : list (Z * Z) := imap (fun i c => (c, Z.of_nat i)) order.

Lemma keyed_fst order : (keyed order).*1 = order.
Proof.
  apply list_eq. intros i. unfold keyed. rewrite list_lookup_fmap, list_lookup_imap.
  by destruct (order !! i).
Qed.

Lemma dict_of_keyed order :
  NoDup order -> Z.of_nat (length order) <= 2 ^ 16 - 1 ->
  dict_of order = list_to_map (keyed order) /\ size (dict_of order) = length order.
Proof.
  induction order as [|c order IH] using rev_ind; [done|].
  intros (Hnd & Hc & _)%NoDup_app Hlen. rewrite length_app in Hlen. simpl in Hlen.
  destruct IH as [IH1 IH2]; [done|lia|]. unfold dict_of. rewrite foldl_snoc. fold (dict_of order).
  assert (c ∉ order) as Hnot by (intros Hin; apply (Hc c Hin); by left).
  rewrite map_size_insert_None, IH2, length_app.
  2:{ rewrite IH1. apply not_elem_of_list_to_map. by rewrite keyed_fst. }
  split; [|simpl; lia]. unfold keyed. rewrite imap_app.
  cbn [imap]. rewrite list_to_map_snoc by (fold (keyed order); by rewrite keyed_fst).
  fold (keyed order). rewrite IH1. f_equal. rewrite wrap_small; [cbn; f_equal; lia|].
  unfold unsigned. lia.
Qed.

Lemma keyed_elem order c z :
  (c, z) ∈ keyed order <-> exists i, z = Z.of_nat i /\ order !! i = Some c.
Proof.
  unfold keyed. rewrite elem_of_lookup_imap. naive_solver.
Qed.

Lemma dict_of_lookup order c z :
  NoDup order -> Z.of_nat (length order) <= 2 ^ 16 - 1 ->
  dict_of order !! c = Some z <-> exists i, z = Z.of_nat i /\ order !! i = Some c.
Proof.
  intros Hnd Hlen. destruct (dict_of_keyed order Hnd Hlen) as [-> _].
  rewrite <- keyed_elem. symmetry. apply elem_of_list_to_map. by rewrite keyed_fst.
Qed.

#[export] Instance entry_le_trans : Transitive entry_le.
Proof. intros x y z. unfold entry_le. lia. Qed.

#[export] Instance entry_le_total : Total entry_le.
Proof. intros x y. unfold entry_le. lia. Qed.

#[export] Instance entry_le_antisymm : AntiSymm (=) entry_le.
Proof. intros [x1 x2] [y1 y2]. unfold entry_le. simpl. intros. f_equal; lia. Qed.

#[export] Instance by_value_trans : Transitive by_value.
Proof. intros x y z. unfold by_value. lia. Qed.

#[export] Instance by_value_total : Total by_value.
Proof. intros x y. unfold by_value. lia. Qed.

Lemma indexed_sorted order : StronglySorted entry_le (indexed order).
Proof.
  unfold indexed. rewrite <- (imap_ext (fun i c => (Z.of_nat (0 + i), c))) by done.
  generalize 0%nat. induction order as [|c order IH]; intros k; constructor.
  - rewrite <- (imap_ext (fun i c => (Z.of_nat (S k + i), c))); [apply IH|].
    intros i x _. cbn. do 2 f_equal. lia.
  - apply Forall_forall. intros [z c'] (i & y & Hz & _)%elem_of_lookup_imap.
    unfold entry_le. simplify_eq/=. lia.
Qed.

(** Sorting the dictionary by index lists the chunks in the order of their indexes. *)
Lemma sorted_entries_dict_of order :
  NoDup order -> Z.of_nat (length order) <= 2 ^ 16 - 1 ->
  sorted_entries (dict_of order) = indexed order.
Proof.
  intros Hnd Hlen. apply (StronglySorted_unique entry_le).
  - apply StronglySorted_merge_sort; apply _.
  - apply indexed_sorted.
  - unfold sorted_entries. rewrite merge_sort_Permutation.
    destruct (dict_of_keyed order Hnd Hlen) as [-> _].
    rewrite map_to_list_to_map by (by rewrite keyed_fst).
    unfold keyed, indexed. by rewrite fmap_imap.
Qed.

Lemma indexed_snd order :
  indexed order ≫= (fun '(_, chunk) => be_bytes 8 chunk) = concat (be_bytes 8 <$> order).
Proof.
  assert (forall k, imap (fun i c => (Z.of_nat (k + i), c)) order ≫=
            (fun '(_, chunk) => be_bytes 8 chunk) = concat (be_bytes 8 <$> order)) as H.
  { induction order as [|c order IH]; intros k; [done|].
    rewrite fmap_cons. cbn [imap concat]. rewrite bind_cons, <- (IH (S k)). f_equal. f_equal.
    apply imap_ext. intros i x _. cbn. do 2 f_equal. lia. }
  apply (H 0%nat).
Qed.

(** ** The loops over the chunks of a bytecode *)

Section Loops.
Context (code : list Z) (k : nat).
Hypothesis code_length : length code = (k * 8)%nat.

Lemma chunk_of_bytes_code c : c ∈ chunks 8 code -> chunk_of_bytes c = Ret (be_value c).
Proof.
  intros Hc. destruct (chunks_length 8 k code) as [Hall _]; [lia|done|].
  unfold chunk_of_bytes. rewrite Forall_forall in Hall. by rewrite Hall.
Qed.

Lemma collect_statistic_code : collect_statistic code = Ret (statistic_of (code_words code)).
Proof.
  unfold collect_statistic, statistic_of, code_words.
  rewrite (foldM_pure _ (fun st '(position, c) => count_chunk st position (be_value c))).
  - assert (imap pair (be_value <$> chunks 8 code)
            = (fun p => (p.1, be_value p.2)) <$> imap pair (chunks 8 code)) as ->.
    { by rewrite imap_fmap, fmap_imap. }
    rewrite foldl_fmap. f_equal. generalize (∅ : statistics).
    induction (imap pair (chunks 8 code)) as [|[i c] l IH]; intros st; [done|]. apply IH.
  - intros st [n c] (i & y & [= -> ->] & Hy)%elem_of_lookup_imap.
    rewrite chunk_of_bytes_code by (by eapply list_elem_of_lookup_2). done.
Qed.

Lemma encode_data_code (d : gmap Z Z) (f : Z -> Z) :
  (forall c, c ∈ code_words code -> d !! c = Some (f c)) ->
  encode_data d code = Ret (concat (be_bytes 2 <$> (f <$> code_words code))).
Proof.
  intros Hd. unfold encode_data.
  rewrite (foldM_pure _ (fun acc c => acc ++ be_bytes 2 (f (be_value c)))).
  - f_equal. unfold code_words. change (concat ?l) with ([] ++ concat l).
    generalize (@nil Z). induction (chunks 8 code) as [|c l IH]; intros acc; [by rewrite app_nil_r|].
    cbn [foldl]. rewrite IH, !fmap_cons. cbn [concat]. by rewrite app_assoc.
  - intros acc c Hc. rewrite chunk_of_bytes_code, outcome_Ret_bind by done.
    rewrite Hd; [done|]. by apply list_elem_of_fmap_2.
Qed.
End Loops.

(** ** Decompression *)

Lemma slice_app {A} (l1 l2 l3 : list A) a b :
  length l1 = a -> (a + length l2)%nat = b -> slice (l1 ++ l2 ++ l3) a b = Ret l2.
Proof.
  intros <- <-. unfold slice. rewrite !length_app.
  rewrite (proj2 (Nat.leb_le _ _)), (proj2 (Nat.leb_le _ _)) by lia. cbn [andb].
  rewrite drop_app_length. replace (_ - _)%nat with (length l2) by lia.
  by rewrite take_app_length.
Qed.

Lemma slice_app_end {A} (l1 l2 : list A) a :
  length l1 = a -> slice (l1 ++ l2) a (length (l1 ++ l2)) = Ret l2.
Proof.
  intros Ha. pose proof (slice_app l1 l2 [] a (length (l1 ++ l2)) Ha) as H.
  rewrite app_nil_r in H. apply H. rewrite length_app. lia.
Qed.

Lemma length_concat_be n (l : list Z) : length (concat (be_bytes n <$> l)) = (length l * n)%nat.
Proof.
  induction l as [|x l IH]; [done|]. rewrite fmap_cons. cbn [concat].
  rewrite length_app, be_bytes_length, IH. simpl. lia.
Qed.

Section Decompress.
Context (order : list Z) (indices : list nat).
Hypothesis order_u64 : Forall (unsigned 64) order.
Hypothesis order_length : Z.of_nat (length order) <= 2 ^ 16 - 1.
Hypothesis indices_in_range : Forall (fun i => (i < length order)%nat) indices.

Definition raw_format : list Z :=
  be_bytes 2 (Z.of_nat (length order)) ++ concat (be_bytes 8 <$> order)
  ++ concat (be_bytes 2 <$> (Z.of_nat <$> indices)).

Lemma raw_entry i c :
  order !! i = Some c -> slice raw_format (2 + i * 8) (10 + i * 8) = Ret (be_bytes 8 c).
Proof.
  intros Hi. unfold raw_format. rewrite <- (take_drop_middle _ _ _ Hi) at 2.
  rewrite fmap_app, fmap_cons, concat_app. cbn [concat]. rewrite <- !app_assoc.
  rewrite (app_assoc (be_bytes 2 _)). apply slice_app.
  - rewrite length_app, length_concat_be, be_bytes_length, length_take.
    apply lookup_lt_Some in Hi. lia.
  - rewrite be_bytes_length. lia.
Qed.

Lemma raw_dictionary :
  foldM (fun dictionary index =>
           chunk_bytes ← slice raw_format (2 + index * 8) (10 + index * 8);
           chunk ← chunk_of_bytes chunk_bytes;
           Ret (dictionary ++ [chunk]))
    [] (seq 0 (length order)) = Ret order.
Proof.
  edestruct (foldM_seq_invariant (fun i d => d = take i order)) as (d & Hd & Heq).
  3:{ rewrite firstn_all in Heq. subst d. exact Hd. }
  - done.
  - intros i d Hi ->. destruct (lookup_lt_is_Some_2 order i) as [c Hc]; [done|].
    exists (take (S i) order). split; [|done].
    rewrite (raw_entry i c), outcome_Ret_bind by done.
    unfold chunk_of_bytes. rewrite be_bytes_length. cbn [Nat.eqb].
    rewrite outcome_Ret_bind. eapply Forall_lookup_1 in order_u64; [|done].
    rewrite (be_value_be_bytes_unsigned 8 64) by done. by rewrite (take_S_r _ _ c).
Qed.

Lemma decompress_raw_format :
  decompress_bytecode raw_format = Ret (concat ((fun i => be_bytes 8 (order !!! i)) <$> indices)).
Proof.
  unfold decompress_bytecode.
  assert (slice raw_format 0 2 = Ret (be_bytes 2 (Z.of_nat (length order)))) as ->.
  { apply (slice_app []); by rewrite ?be_bytes_length. }
  rewrite outcome_Ret_bind.
  rewrite (be_value_be_bytes_unsigned 2 16) by (unfold unsigned; lia).
  rewrite Nat2Z.id, raw_dictionary, outcome_Ret_bind.
  assert (slice raw_format (2 + length order * 8) (length raw_format)
          = Ret (concat (be_bytes 2 <$> (Z.of_nat <$> indices)))) as ->.
  { unfold raw_format. rewrite app_assoc. apply slice_app_end.
    by rewrite length_app, length_concat_be, be_bytes_length. }
  rewrite outcome_Ret_bind, chunks_of_concat; [|lia|].
  2:{ apply Forall_fmap, Forall_true. intros; apply be_bytes_length. }
  rewrite (foldM_pure _ (fun acc b => acc ++ be_bytes 8 (order !!! Z.to_nat (be_value b)))).
  - f_equal. change (concat ?l) with ([] ++ concat l). generalize (@nil Z).
    induction indices_in_range as [|i rest Hi Hrest IH]; intros acc; [by rewrite app_nil_r|].
    rewrite !fmap_cons. cbn [foldl concat]. rewrite IH, app_assoc by done.
    rewrite (be_value_be_bytes_unsigned 2 16) by (unfold unsigned; lia). by rewrite Nat2Z.id.
  - intros acc b (z & -> & (i & -> & Hi)%list_elem_of_fmap)%list_elem_of_fmap.
    rewrite Forall_forall in indices_in_range. apply indices_in_range in Hi.
    rewrite be_bytes_length. cbn [Nat.eqb rust_assert]. rewrite outcome_Ret_bind.
    rewrite (be_value_be_bytes_unsigned 2 16) by (unfold unsigned; lia). rewrite Nat2Z.id.
    unfold index_vec. by rewrite (list_lookup_lookup_total_lt order i).
Qed.
End Decompress.

(** ** Correctness *)

Lemma validate_bytecode_length code :
  validate_bytecode code = Ok tt -> exists k, length code = (k * 8)%nat.
Proof.
  unfold validate_bytecode. repeat case_match; try done. intros _.
  exists (length code / 8)%nat.
  match goal with H : negb (_ =? 0) = false |- _ => apply negb_false_iff, Z.eqb_eq in H end.
  div_lia.
Qed.

Lemma code_words_spec code k :
  bytes code -> length code = (k * 8)%nat ->
  Forall (unsigned 64) (code_words code) /\ concat (be_bytes 8 <$> code_words code) = code.
Proof.
  intros Hb Hk. destruct (chunks_length 8 k code) as [Hall _]; [lia|done|].
  assert (Forall bytes (chunks 8 code)) as Hbs.
  { apply Forall_forall. intros c Hc. unfold bytes in *. apply Forall_forall. intros b Hbc.
    rewrite Forall_forall in Hb. apply Hb. rewrite <- (chunks_concat 8 code) by lia.
    apply list_elem_of_In, in_concat. exists c. by rewrite <- !list_elem_of_In. }
  split.
  - apply Forall_fmap. rewrite Forall_forall in *. intros c Hc. unfold unsigned.
    pose proof (be_value_bound c (Hbs c Hc)) as Hv. by rewrite (Hall c Hc) in Hv.
  - rewrite <- (chunks_concat 8 code) at 2 by lia. f_equal. unfold code_words.
    rewrite <- list_fmap_compose. rewrite <- (list_fmap_id (chunks 8 code)) at 2.
    apply list_fmap_ext. intros i c Hi. rewrite Forall_lookup in Hall, Hbs.
    change (be_bytes 8 (be_value c) = c). rewrite <- (Hall i c Hi). by apply be_bytes_be_value, (Hbs i).
Qed.

(** The compressed form is the one the decompressor reads. *)
Lemma compress_to_bytes_format code k :
  validate_bytecode code = Ok tt -> length code = (k * 8)%nat ->
  let order := dictionary_order (statistic_of (code_words code)) in
  Z.of_nat (length order) <= 2 ^ 16 - 1 ->
  exists indices, compress_to_bytes code = Ret (Ok (raw_format order indices)) /\
    Forall2 (fun i c => order !! i = Some c) indices (code_words code).
Proof.
  intros Hv Hk order Hlen. unfold compress_to_bytes.
  rewrite Hv, (collect_statistic_code code k), outcome_Ret_bind by done.
  rewrite <- length_dictionary_order. fold order. rewrite (proj2 (Z.ltb_ge _ _)) by done.
  rewrite fill_dictionary_order. fold order.
  pose proof (dictionary_order_NoDup (statistic_of (code_words code))) as Hnd. fold order in Hnd.
  assert (forall c, c ∈ code_words code -> exists i, order !! i = Some c) as Hin.
  { intros c Hc%statistic_of_elem%dictionary_order_elem. by apply list_elem_of_lookup_1. }
  set (f := fun c => default 0%nat (fst <$> list_find (c =.) order)).
  assert (forall c, c ∈ code_words code -> order !! f c = Some c) as Hf.
  { intros c [i Hi]%Hin. unfold f. destruct (list_find_elem_of (c =.) order c) as [[j x] Hj];
      [by eapply list_elem_of_lookup_2|done|].
    rewrite Hj. cbn. by apply list_find_Some in Hj as (Hj & -> & _). }
  rewrite (encode_data_code code k Hk _ (fun c => Z.of_nat (f c))).
  2:{ intros c Hc. apply dict_of_lookup; [done..|]. exists (f c). auto. }
  rewrite outcome_Ret_bind, sorted_entries_dict_of, indexed_snd by done.
  destruct (dict_of_keyed order Hnd Hlen) as [_ ->].
  rewrite wrap_small by (unfold unsigned; lia).
  exists (f <$> code_words code). split.
  - unfold raw_format. rewrite <- !list_fmap_compose. done.
  - apply Forall2_fmap_l, Forall_Forall2_diag, Forall_forall. exact Hf.
Qed.

(** C24: Compression is lossless and total.  For every bytecode (a list of bytes)
    [compress_to_bytes] returns without panicking: an invalid bytecode is rejected with
    the validator's error, a bytecode with more than 2^16 - 1 distinct 8-byte chunks with
    [DictionaryOverflow], and every other bytecode compresses to a string from which the
    decompressor restores it. *)
Theorem compress_to_bytes_lossless code :
  bytes code ->
  exists r, compress_to_bytes code = Ret r /\
    match validate_bytecode code with
    | Err e => r = Err (InvalidBytecode e)
    | Ok _ =>
        if 2 ^ 16 - 1 <? Z.of_nat (size (list_to_set (code_words code) : gset Z)) then
          r = Err DictionaryOverflow
        else exists c, r = Ok c /\ decompress_bytecode c = Ret code
    end.
Proof.
  intros Hb. destruct (validate_bytecode code) as [[]|e] eqn:Hv.
  2:{ exists (Err (InvalidBytecode e)). unfold compress_to_bytes. by rewrite Hv. }
  destruct (validate_bytecode_length code Hv) as [k Hk].
  set (order := dictionary_order (statistic_of (code_words code))).
  assert (size (list_to_set (code_words code) : gset Z) = length order) as ->.
  { rewrite <- (size_list_to_set (C := gset Z) order) by apply dictionary_order_NoDup.
    f_equal. apply set_eq. intros c. rewrite !elem_of_list_to_set.
    unfold order. by rewrite dictionary_order_elem, statistic_of_elem. }
  destruct (Z.ltb_spec (2 ^ 16 - 1) (Z.of_nat (length order))) as [Hlen|Hlen].
  - exists (Err DictionaryOverflow). split; [|done]. unfold compress_to_bytes.
    rewrite Hv, (collect_statistic_code code k), outcome_Ret_bind by done.
    rewrite <- length_dictionary_order. by rewrite (proj2 (Z.ltb_lt _ _)).
  - destruct (compress_to_bytes_format code k Hv Hk Hlen) as (indices & Hc & Hidx).
    eexists. split; [exact Hc|]. eexists. split; [done|].
    destruct (code_words_spec code k Hb Hk) as [Hu64 Hcode].
    rewrite decompress_raw_format; [|..|done|].
    + f_equal. etrans; [|exact Hcode]. f_equal. fold order in Hidx |- *. clearbody order. clear - Hidx.
      induction Hidx as [|i c l cs Hic _ IH]; [done|]. rewrite !fmap_cons, IH. do 2 f_equal.
      by apply list_lookup_total_correct.
    + apply Forall_forall. intros c Hc'%dictionary_order_elem%statistic_of_elem.
      rewrite Forall_forall in Hu64. auto.
    + eapply Forall2_Forall_l; [exact Hidx|]. apply Forall_true. intros c i Hic.
      by eapply lookup_lt_Some.
Qed.

(** The most frequent chunks get the smallest dictionary indexes: when a chunk occurs
    strictly more often in a valid bytecode than another one, the dictionary filled for
    that bytecode gives it a strictly smaller index. *)
Theorem dictionary_most_frequent_first code statistic a b i j :
  validate_bytecode code = Ok tt ->
  collect_statistic code = Ret statistic ->
  Z.of_nat (size statistic) <= 2 ^ 16 - 1 ->
  fill_dictionary (sort_statistic statistic) !! a = Some i ->
  fill_dictionary (sort_statistic statistic) !! b = Some j ->
  (occurrences b (code_words code) < occurrences a (code_words code))%nat ->
  i < j.
Proof.
  intros Hv Hst Hsize Ha Hb Hocc. destruct (validate_bytecode_length code Hv) as [k Hk].
  rewrite (collect_statistic_code code k Hk) in Hst. injection Hst as Hst.
  assert (Z.of_nat (length (dictionary_order statistic)) <= 2 ^ 16 - 1) as Hlen.
  { rewrite length_dictionary_order. unfold sort_statistic.
    rewrite merge_sort_Permutation, length_map_to_list. done. }
  rewrite fill_dictionary_order in Ha, Hb.
  apply dict_of_lookup in Ha as (n & -> & Hn); [|apply dictionary_order_NoDup|done].
  apply dict_of_lookup in Hb as (m & -> & Hm); [|apply dictionary_order_NoDup|done].
  apply inj_lt. unfold dictionary_order in Hn, Hm. rewrite list_lookup_fmap in Hn, Hm.
  apply fmap_Some in Hn as ([a' pa] & Hn & ->), Hm as ([b' pb] & Hm & ->).
  assert (forall c p l, reverse (sort_statistic statistic) !! l = Some (c, p) ->
            p.1 = occurrences c (code_words code)) as Hcount.
  { intros c p l Hl. apply list_elem_of_lookup_2 in Hl. revert Hl. unfold sort_statistic.
    rewrite reverse_Permutation, merge_sort_Permutation, elem_of_map_to_list.
    rewrite <- Hst, statistic_of_lookup. intros ([x y] & _ & ->)%fmap_Some. done. }
  pose proof (Hcount _ _ _ Hn). pose proof (Hcount _ _ _ Hm).
  destruct (decide (n < m)%nat) as [|Hge]; [done|]. exfalso.
  destruct (decide (n = m)) as [->|]; [simplify_eq/=; lia|].
  pose proof (lookup_lt_Some _ _ _ Hn) as Hnl. pose proof (lookup_lt_Some _ _ _ Hm) as Hml.
  rewrite length_reverse in Hnl, Hml. rewrite reverse_lookup in Hn, Hm by done.
  assert (by_value (a', pa) (b', pb)) as Hby.
  { eapply StronglySorted_lookup; [apply StronglySorted_merge_sort; apply _|exact Hn|exact Hm|lia]. }
  unfold by_value in Hby. simpl in *. lia.
Qed.

(** ** Concrete inputs *)

(** The code of the repository's test [bytecode_compression_statisticst]. *)
Definition example_code : list Z :=
  replicate 8 0 ++ replicate 16 17 ++ replicate 8 34.

Example compress_example_code :
  compress_to_bytes example_code =
    Ret (Ok ([0; 3] ++ replicate 8 17 ++ replicate 8 34 ++ replicate 8 0 ++ [0; 2; 0; 0; 0; 0; 0; 1])).
Proof. vm_compute. reflexivity. Qed.

Lemma compress_to_bytes_lossless_witness :
  exists c, compress_to_bytes example_code = Ret (Ok c) /\
    decompress_bytecode c = Ret example_code.
Proof.
  destruct (compress_to_bytes_lossless example_code) as (r & Hr & Hspec).
  { apply (bool_decide_unpack _). vm_compute. exact I. }
  assert (validate_bytecode example_code = Ok tt) as Hv by (vm_compute; reflexivity).
  rewrite Hv in Hspec.
  assert ((2 ^ 16 - 1 <? Z.of_nat (size (list_to_set (code_words example_code) : gset Z))) = false)
    as Hsize by (vm_compute; reflexivity).
  rewrite Hsize in Hspec. destruct Hspec as (c & -> & Hc).
  exists c. split; assumption.
Defined.

Lemma dictionary_most_frequent_first_witness :
  exists i j, fill_dictionary (sort_statistic (statistic_of (code_words example_code)))
              !! be_value (replicate 8 17) = Some i /\ i < j.
Proof.
  exists 0, 1. split; [vm_compute; reflexivity|].
  apply (dictionary_most_frequent_first example_code (statistic_of (code_words example_code))
           (be_value (replicate 8 17)) (be_value (replicate 8 34)) 0 1).
  1, 2, 4, 5: vm_compute; reflexivity.
  - vm_compute. discriminate.
  - vm_compute. lia.
Defined.
