(* ===== verification/StateDiffs.v ===== *)
(** * State diffs

    Model of [src/core/lib/types/src/storage/writes/compression.rs] and
    [writes/mod.rs]: the value compression modes, the state diff record with its
    wire format, the compressed state diffs published as pubdata, and the tree
    writes stored in the database. *)

From S2P Require Import Prelude Bytes Utils.
Open Scope Z_scope.

(** ** compression.rs *)

Definition COMPRESSION_VERSION_NUMBER : Z := 1.

(** [U256::bits] *)
Definition bits (z : Z) : Z := if z =? 0 then 0 else Z.log2 z + 1.

(** [U256::overflowing_sub(..).0] *)
Definition overflowing_sub (a b : Z) : Z := (a - b) mod 2 ^ 256.

(** The bytes needed for a value, by ceiling division. *)
Definition byte_size (z : Z) : nat := Z.to_nat ((bits z + 7) / 8).

(** The first five bits hold the length, the last three the operation. *)
Definition metadata_byte (output_size : nat) (operation_id : Z) : Z :=
  wrap 8 (Z.lor (Z.shiftl (Z.of_nat output_size) 3) operation_id).

(** [trait CompressionMode] *)
Record CompressionMode := {
  operation_id : Z;
  get_diff_and_size : option (Z * nat);
  output_size : option nat;
  compress_value_only : option (list Z);
  compress_extended : option (list Z);
}.

(** The provided methods of the trait.  [output_size] is unwrapped only where
    [compress_value_only] returned a value, so both are [Some]. *)
Definition provided_methods (id : Z) (diff_and_size : option (Z * nat)) : CompressionMode :=
  let output_size := snd <$> diff_and_size in
  let compress_value_only :=
    '(diff, size) ← diff_and_size; Some (drop (32 - size) (be_bytes 32 diff)) in
  {| operation_id := id;
     get_diff_and_size := diff_and_size;
     output_size := output_size;
     compress_value_only := compress_value_only;
     compress_extended :=
       compressed_value ← compress_value_only;
       size ← output_size;
       Some (metadata_byte size id :: compressed_value) |}.

Definition limited_size (diff : Z) : option (Z * nat) :=
  if (31 <=? byte_size diff)%nat then None else Some (diff, byte_size diff).

Definition CompressionByteAdd (prev_value new_value : Z) : CompressionMode :=
  provided_methods 1 (limited_size (overflowing_sub new_value prev_value)).

Definition CompressionByteSub (prev_value new_value : Z) : CompressionMode :=
  provided_methods 2 (limited_size (overflowing_sub prev_value new_value)).

Definition CompressionByteTransform (new_value : Z) : CompressionMode :=
  provided_methods 3 (limited_size new_value).

Definition CompressionByteNone (new_value : Z) : CompressionMode :=
  {| operation_id := 0;
     get_diff_and_size := None;
     output_size := Some 32%nat;
     compress_value_only := Some (be_bytes 32 new_value);
     compress_extended := Some (0 :: be_bytes 32 new_value) |}.

Definition default_passes (prev_value new_value : Z) : list CompressionMode :=
  [CompressionByteAdd prev_value new_value;
   CompressionByteSub prev_value new_value;
   CompressionByteTransform new_value].

(** The fallback mode always compresses, so its [unwrap] cannot fail. *)
Definition compress_with_best_strategy (prev_value new_value : Z) : list Z :=
  match min_by_key length (omap compress_extended (default_passes prev_value new_value)) with
  | Some bs => bs
  | None => default [] (compress_extended (CompressionByteNone new_value))
  end.

(** ** mod.rs *)

Definition BYTES_PER_ENUMERATION_INDEX : Z := 4.
Definition BYTES_PER_DERIVED_KEY : Z := 32.
Definition STATE_DIFF_RECORD_SIZE : nat := 156.
Definition PADDED_ENCODED_STORAGE_DIFF_LEN_BYTES : nat := 272.

Record StateDiffRecord := {
  address : Z;
  key : Z;
  derived_key : list Z;
  enumeration_index : Z;
  initial_value : Z;
  final_value : Z;
}.

Definition encode (r : StateDiffRecord) : list Z :=
  be_bytes 20 (address r) ++ be_bytes 32 (key r) ++ derived_key r
  ++ be_bytes 8 (enumeration_index r) ++ be_bytes 32 (initial_value r)
  ++ be_bytes 32 (final_value r).

Definition encode_padded (r : StateDiffRecord) : list Z :=
  let packed_encoding := encode r in
  packed_encoding ++ drop (length packed_encoding)
    (replicate PADDED_ENCODED_STORAGE_DIFF_LEN_BYTES 0).

Definition range (data : list Z) (a b : nat) : list Z := take (b - a) (drop a data).

Definition try_from_slice (data : list Z) : option StateDiffRecord :=
  if (length data =? 156)%nat then
    Some {| address := be_value (range data 0 20);
            key := be_value (range data 20 52);
            derived_key := range data 52 84;
            enumeration_index := be_value (range data 84 92);
            initial_value := be_value (range data 92 124);
            final_value := be_value (range data 124 156) |}
  else None.

Definition compress (r : StateDiffRecord) : outcome (list Z) :=
  comp_state_diff ←
    (if enumeration_index r =? 0 then Ret (derived_key r)
     else if enumeration_index r <=? 2 ^ 32 - 1 then
       Ret (be_bytes 4 (wrap 32 (enumeration_index r)))
     else Panics "enumeration_index is too large");
  Ret (comp_state_diff ++ compress_with_best_strategy (initial_value r) (final_value r)).

Definition is_write_initial (r : StateDiffRecord) : bool := enumeration_index r =? 0.

(** Order of the sorting keys [(rec.address, rec.key)]. *)
Definition address_key_leb (r1 r2 : StateDiffRecord) : bool :=
  (address r1 <? address r2) || ((address r1 =? address r2) && (key r1 <=? key r2)).

Definition prepend_header (compressed_state_diffs : list Z) : list Z :=
  [COMPRESSION_VERSION_NUMBER]
  ++ drop 1 (be_bytes 4 (wrap 32 (Z.of_nat (length compressed_state_diffs))))
  ++ [BYTES_PER_ENUMERATION_INDEX]
  ++ compressed_state_diffs.

(** [for state_diff in writes { res.extend(state_diff.compress()) }] *)
Definition extend_compressed (res : list Z) (writes : list StateDiffRecord) : outcome (list Z) :=
  foldM (fun res state_diff => c ← compress state_diff; Ret (res ++ c)) res writes.

Definition compress_state_diffs (state_diffs : list StateDiffRecord) : outcome (list Z) :=
  let state_diffs := stable_sort address_key_leb state_diffs in
  let initial_writes := List.filter (fun r => enumeration_index r =? 0) state_diffs in
  let repeated_writes := List.filter (fun r => negb (enumeration_index r =? 0)) state_diffs in
  let res := be_bytes 2 (wrap 16 (Z.of_nat (length initial_writes))) in
  res ← extend_compressed res initial_writes;
  res ← extend_compressed res repeated_writes;
  Ret (prepend_header res).

(** ** Tree writes *)

Record TreeWrite := {
  tw_address : Z;
  tw_key : Z;
  tw_value : Z;
  tw_leaf_index : Z;
}.

(** Elements of a serialized tuple, in serde's data model. *)
Inductive tuple_element : Type :=
| EByteArray (bs : list Z)
| EU64 (z : Z).

Inductive de_error : Type :=
| invalid_length (i : nat)
| invalid_type (i : nat).

Definition serialize (w : TreeWrite) : list tuple_element :=
  [EByteArray (be_bytes 20 (tw_address w)); EByteArray (be_bytes 32 (tw_key w));
   EByteArray (be_bytes 32 (tw_value w)); EU64 (tw_leaf_index w)].

(** [seq.next_element::<[u8; n]>()?.ok_or_else(..)?] *)
Definition next_array (seq : list tuple_element) (n i : nat) : result (list Z) de_error :=
  match seq !! i with
  | None => Err (invalid_length i)
  | Some (EByteArray bs) => if (length bs =? n)%nat then Ok bs else Err (invalid_type i)
  | Some (EU64 _) => Err (invalid_type i)
  end.

Definition next_u64 (seq : list tuple_element) (i : nat) : result Z de_error :=
  match seq !! i with
  | None => Err (invalid_length i)
  | Some (EU64 z) => Ok z
  | Some (EByteArray _) => Err (invalid_type i)
  end.

Definition visit_seq (seq : list tuple_element) : result TreeWrite de_error :=
  match next_array seq 20 0 with
  | Err e => Err e
  | Ok address =>
  match next_array seq 32 1 with
  | Err e => Err e
  | Ok key =>
  match next_array seq 32 2 with
  | Err e => Err e
  | Ok value =>
  match next_u64 seq 3 with
  | Err e => Err e
  | Ok leaf_index =>
      Ok {| tw_address := be_value address; tw_key := be_value key;
            tw_value := be_value value; tw_leaf_index := leaf_index |}
  end end end end.

(** ** Decoding

    What a reader of the pubdata does: it knows the previous value of every slot
    and recovers the new one. *)

Definition take_value (n : nat) (rest : list Z) (f : Z -> Z) : option (Z * list Z) :=
  if (n <=? length rest)%nat then Some (f (be_value (take n rest)), drop n rest) else None.

Definition apply_operation (prev operation d : Z) : Z :=
  if operation =? 1 then (prev + d) mod 2 ^ 256
  else if operation =? 2 then (prev - d) mod 2 ^ 256
  else d.

Definition decompress_value (prev : Z) (bs : list Z) : option (Z * list Z) :=
  match bs with
  | [] => None
  | metadata :: rest =>
      let size := Z.to_nat (Z.shiftr metadata 3) in
      let operation := Z.land metadata 7 in
      if metadata =? 0 then take_value 32 rest id
      else if (1 <=? operation) && (operation <=? 3) then
        take_value size rest (apply_operation prev operation)
      else None
  end.

(** ** Byte sizes *)

Lemma bits_nonneg z : 0 <= bits z.
Proof. unfold bits. pose proof (Z.log2_nonneg z). case_match; lia. Qed.

Lemma byte_size_lt z : 0 <= z -> z < 256 ^ Z.of_nat (byte_size z).
Proof.
  intros Hz. pose proof (bits_nonneg z). unfold byte_size. rewrite pow256.
  rewrite Z2Nat.id by (apply Z.div_pos; lia).
  apply Z.lt_le_trans with (2 ^ bits z); [|apply Z.pow_le_mono_r; [lia|div_lia]].
  unfold bits. destruct (Z.eqb_spec z 0); [subst; done|].
  rewrite Z.add_1_r. apply Z.log2_spec. lia.
Qed.

(** [byte_size] is the least number of bytes that hold the value. *)
Lemma byte_size_le z n : 0 <= z -> (byte_size z <= n)%nat <-> z < 256 ^ Z.of_nat n.
Proof.
  intros Hz. split; intros Hn.
  - eapply Z.lt_le_trans; [by apply byte_size_lt|]. apply Z.pow_le_mono_r; lia.
  - unfold byte_size, bits. destruct (Z.eqb_spec z 0); [simpl; lia|].
    rewrite pow256 in Hn. apply Z.log2_lt_pow2 in Hn; [|lia].
    pose proof (Z.log2_nonneg z). div_lia.
Qed.

Lemma overflowing_sub_u256 a b : unsigned 256 (overflowing_sub a b).
Proof. apply Z.mod_pos_bound. apply Z.pow_pos_nonneg; lia. Qed.

Lemma metadata_byte_spec n id :
  (n <= 31)%nat -> 1 <= id <= 3 ->
  metadata_byte n id <> 0 /\ Z.to_nat (Z.shiftr (metadata_byte n id) 3) = n /\
  Z.land (metadata_byte n id) 7 = id.
Proof.
  intros Hn Hid. assert (id = 1 \/ id = 2 \/ id = 3) as Hcases by lia.
  do 32 (destruct n as [|n]; [by destruct Hcases as [->|[->| ->]]|]). lia.
Qed.

(** ** The compression modes *)

Lemma compress_extended_provided id d :
  compress_extended (provided_methods id (limited_size d)) =
    if (31 <=? byte_size d)%nat then None
    else Some (metadata_byte (byte_size d) id :: be_bytes (byte_size d) d).
Proof.
  unfold limited_size. destruct (Nat.leb_spec 31 (byte_size d)); [done|].
  cbn -[be_bytes Nat.sub metadata_byte byte_size]. do 2 f_equal.
  replace 32%nat with ((32 - byte_size d) + byte_size d)%nat at 2 by lia. apply drop_be_bytes.
Qed.

Lemma take_value_be_bytes n d rest f :
  0 <= d < 256 ^ Z.of_nat n -> take_value n (be_bytes n d ++ rest) f = Some (f d, rest).
Proof.
  intros Hd. unfold take_value. rewrite length_app, be_bytes_length.
  rewrite (proj2 (Nat.leb_le _ _)) by lia.
  rewrite take_app_length', drop_app_length' by (by rewrite be_bytes_length).
  by rewrite be_value_be_bytes.
Qed.

Section Values.
Context (prev new : Z).
Hypothesis prev_u256 : unsigned 256 prev.
Hypothesis new_u256 : unsigned 256 new.

Lemma decompress_fallback rest :
  decompress_value prev ((0 :: be_bytes 32 new) ++ rest) = Some (new, rest).
Proof.
  cbn -[be_bytes take_value]. apply take_value_be_bytes. by rewrite pow256.
Qed.

(** Every mode that applies is decoded to the new value. *)
Lemma decompress_mode mode m rest :
  mode ∈ default_passes prev new -> compress_extended mode = Some m ->
  decompress_value prev (m ++ rest) = Some (new, rest).
Proof.
  assert (forall op d, unsigned 256 d -> 1 <= op <= 3 -> apply_operation prev op d = new ->
    compress_extended (provided_methods op (limited_size d)) = Some m ->
    decompress_value prev (m ++ rest) = Some (new, rest)) as Hmode.
  { intros op d [Hd _] Hop Hnew. rewrite compress_extended_provided.
    destruct (Nat.leb_spec 31 (byte_size d)); [done|]. intros [= <-].
    destruct (metadata_byte_spec (byte_size d) op) as (H0 & Hsize & Hland); [lia..|].
    cbn [app decompress_value]. rewrite Hsize, Hland, (proj2 (Z.eqb_neq _ _) H0).
    rewrite (proj2 (Z.leb_le 1 op)), (proj2 (Z.leb_le op 3)) by lia. cbn [andb].
    rewrite take_value_be_bytes by (split; [done|by apply byte_size_lt]). by rewrite Hnew. }
  unfold default_passes. rewrite !elem_of_cons. intros [->|[->|[->|[]%elem_of_nil]]].
  - apply (Hmode 1); [apply overflowing_sub_u256|lia|]. unfold apply_operation, overflowing_sub.
    cbn [Z.eqb Pos.eqb]. rewrite Zplus_mod_idemp_r, Zplus_minus. by apply Z.mod_small.
  - apply (Hmode 2); [apply overflowing_sub_u256|lia|]. unfold apply_operation, overflowing_sub.
    cbn [Z.eqb Pos.eqb]. rewrite Zminus_mod_idemp_r, Z.sub_sub_distr, Z.sub_diag.
    by apply Z.mod_small.
  - by apply (Hmode 3).
Qed.
End Values.

Lemma decompress_compress prev new rest :
  unsigned 256 prev -> unsigned 256 new ->
  decompress_value prev (compress_with_best_strategy prev new ++ rest) = Some (new, rest).
Proof.
  intros Hp Hn. unfold compress_with_best_strategy.
  pose proof (min_by_key_spec length (omap compress_extended (default_passes prev new))) as Hmin.
  destruct (min_by_key _ _) as [m|]; [|by apply decompress_fallback].
  destruct Hmin as [(mode & Hmode & Hm)%list_elem_of_omap _]. by eapply decompress_mode.
Qed.

Lemma best_strategy_length prev new :
  let n := Nat.min (byte_size (overflowing_sub new prev))
             (Nat.min (byte_size (overflowing_sub prev new)) (byte_size new)) in
  length (compress_with_best_strategy prev new) = (if 31 <=? n then 33 else S n)%nat.
Proof.
  intros n. unfold compress_with_best_strategy, default_passes, CompressionByteAdd, CompressionByteSub,
    CompressionByteTransform. cbn [omap list_omap]. rewrite !compress_extended_provided.
  subst n. set (a := byte_size (overflowing_sub new prev)).
  set (b := byte_size (overflowing_sub prev new)). set (c := byte_size new).
  destruct (Nat.leb_spec 31 a), (Nat.leb_spec 31 b), (Nat.leb_spec 31 c),
    (Nat.leb_spec 31 (Nat.min a (Nat.min b c))); try lia;
    [cbn [min_by_key from_option id compress_extended CompressionByteNone]|
     match goal with |- context [min_by_key length (?x :: ?l)] =>
       destruct (min_by_key_key length x l) as (m & -> & ->) end..];
    cbn [length foldl]; rewrite ?be_bytes_length; lia.
Qed.

(** C26: Value compression is lossless and optimal: a reader that knows the previous value
    of a slot recovers the new value from the compressed bytes, whichever of the four modes
    was chosen, and stops exactly at their end; the compressed value has one metadata byte
    followed by the fewest bytes any of the three modes needs, or by all 32 bytes of the
    new value when none of them fits in 30 bytes. *)
Theorem compress_with_best_strategy_correct prev new rest :
  unsigned 256 prev -> unsigned 256 new ->
  let n := Nat.min (byte_size (overflowing_sub new prev))
             (Nat.min (byte_size (overflowing_sub prev new)) (byte_size new)) in
  decompress_value prev (compress_with_best_strategy prev new ++ rest) = Some (new, rest) /\
  length (compress_with_best_strategy prev new) = (if 31 <=? n then 33 else S n)%nat.
Proof.
  intros Hp Hn n. split; [by apply decompress_compress|]. apply best_strategy_length.
Qed.

Lemma compress_with_best_strategy_33 prev new :
  (length (compress_with_best_strategy prev new) <= 33)%nat.
Proof. rewrite best_strategy_length. case_match; [lia|]. apply Nat.leb_gt in H. lia. Qed.


(** ** Records *)

Record wf_record (r : StateDiffRecord) : Prop := {
  wf_address : unsigned 160 (address r);
  wf_key : unsigned 256 (key r);
  wf_derived_key : bytes (derived_key r) /\ length (derived_key r) = 32%nat;
  wf_enumeration_index : unsigned 64 (enumeration_index r);
  wf_initial_value : unsigned 256 (initial_value r);
  wf_final_value : unsigned 256 (final_value r);
}.

Lemma range_app_skip l1 l2 a b :
  (length l1 <= a)%nat -> range (l1 ++ l2) a b = range l2 (a - length l1) (b - length l1).
Proof.
  intros Ha. unfold range. rewrite drop_app_ge by done. f_equal. lia.
Qed.

Lemma range_app_here l1 l2 b : length l1 = b -> range (l1 ++ l2) 0 b = l1.
Proof. intros <-. unfold range. rewrite Nat.sub_0_r, drop_0. by rewrite take_app_length. Qed.

Lemma range_all l b : length l = b -> range l 0 b = l.
Proof. intros <-. unfold range. rewrite Nat.sub_0_r. by rewrite firstn_all. Qed.

Lemma encode_length r : wf_record r -> length (encode r) = STATE_DIFF_RECORD_SIZE.
Proof.
  intros [_ _ [_ Hd] _ _ _]. unfold encode. rewrite !length_app, !be_bytes_length, Hd. done.
Qed.

(** A state diff record is encoded in 156 bytes (padded to 272) and decoded back without
    loss, from the packed encoding and from the first 156 bytes of the padded one. *)
Theorem state_diff_record_roundtrip r :
  wf_record r ->
  length (encode r) = STATE_DIFF_RECORD_SIZE /\
  length (encode_padded r) = PADDED_ENCODED_STORAGE_DIFF_LEN_BYTES /\
  try_from_slice (encode r) = Some r /\
  try_from_slice (take STATE_DIFF_RECORD_SIZE (encode_padded r)) = Some r.
Proof.
  intros Hr. pose proof (encode_length r Hr) as Hlen.
  assert (try_from_slice (encode r) = Some r) as Hdec.
  { unfold try_from_slice. rewrite Hlen. unfold encode. destruct r as [a k d e i f].
    destruct Hr as [Ha Hk [Hd Hdl] He Hi Hf]. cbn [address key derived_key enumeration_index
      initial_value final_value Nat.eqb STATE_DIFF_RECORD_SIZE] in *.
    repeat match goal with |- context [range (?l1 ++ ?l2) ?a ?b] =>
      rewrite (range_app_skip l1 l2 a b) by (rewrite ?be_bytes_length, ?Hdl; lia);
      rewrite ?be_bytes_length, ?Hdl; cbn [Nat.sub] end.
    rewrite !range_app_here by (rewrite ?be_bytes_length; done).
    rewrite range_all by (by rewrite be_bytes_length).
    rewrite (be_value_be_bytes_unsigned 20 160), (be_value_be_bytes_unsigned 8 64) by done.
    by rewrite !(be_value_be_bytes_unsigned 32 256) by done. }
  split; [done|]. unfold encode_padded. rewrite length_app, length_drop, length_replicate, Hlen.
  split; [done|]. split; [done|]. rewrite take_app_length' by done. done.
Qed.

(** ** The published state diffs *)

(** The identifier a write is published under: the derived key of an initial write, the
    4-byte enumeration index of a repeated one. *)
Definition write_id (r : StateDiffRecord) : list Z :=
  if enumeration_index r =? 0 then derived_key r else be_bytes 4 (enumeration_index r).

Section Decoder.
(** The reader's previous state: the value of the slot behind an identifier. *)
Variable previous : list Z -> Z.

Definition decode_write (id_size : nat) (bs : list Z) : option (list Z * Z * list Z) :=
  if (id_size <=? length bs)%nat then
    let id := take id_size bs in
    '(v, rest) ← decompress_value (previous id) (drop id_size bs); Some (id, v, rest)
  else None.

Fixpoint decode_initial (n : nat) (bs : list Z) : option (list (list Z * Z) * list Z) :=
  match n with
  | O => Some ([], bs)
  | S n' =>
      '(id, v, rest) ← decode_write 32 bs;
      '(ws, rest) ← decode_initial n' rest;
      Some ((id, v) :: ws, rest)
  end.

(** Reads writes until the end; the fuel is the number of remaining bytes. *)
Fixpoint decode_repeated (fuel : nat) (bs : list Z) : option (list (list Z * Z)) :=
  match bs, fuel with
  | [], _ => Some []
  | _, O => None
  | _, S fuel' =>
      '(id, v, rest) ← decode_write 4 bs;
      ws ← decode_repeated fuel' rest;
      Some ((id, v) :: ws)
  end.

Definition decode_state_diffs (pubdata : list Z) :
    option (list (list Z * Z) * list (list Z * Z)) :=
  let body := drop 5 pubdata in
  if bool_decide (take 5 pubdata = 1 :: be_bytes 3 (Z.of_nat (length body)) ++ [4]) then
    '(initial, rest) ← decode_initial (Z.to_nat (be_value (take 2 body))) (drop 2 body);
    repeated ← decode_repeated (length rest) rest;
    Some (initial, repeated)
  else None.

(** What the reader should learn from a record. *)
Definition published (r : StateDiffRecord) : list Z * Z := (write_id r, final_value r).

Record publishable (r : StateDiffRecord) : Prop := {
  pub_wf : wf_record r;
  pub_index : enumeration_index r <= 2 ^ 32 - 1;
  pub_previous : previous (write_id r) = initial_value r;
}.

Definition compressed_record (r : StateDiffRecord) : list Z :=
  write_id r ++ compress_with_best_strategy (initial_value r) (final_value r).

Lemma compress_publishable r : publishable r -> compress r = Ret (compressed_record r).
Proof.
  intros [[_ _ _ [He _] _ _] Hi _]. unfold compress, compressed_record, write_id.
  destruct (Z.eqb_spec (enumeration_index r) 0); [done|].
  rewrite (proj2 (Z.leb_le _ _)) by done. rewrite wrap_small by (unfold unsigned; lia). done.
Qed.

Lemma decode_compressed_record r n rest :
  publishable r -> length (write_id r) = n ->
  decode_write n (compressed_record r ++ rest) = Some (write_id r, final_value r, rest).
Proof.
  intros [[_ _ _ _ Hiv Hfv] _ Hprev] Hn. unfold decode_write, compressed_record.
  rewrite <- app_assoc, length_app, (proj2 (Nat.leb_le _ _)) by lia.
  rewrite take_app_length', drop_app_length' by done. rewrite Hprev.
  by rewrite decompress_compress.
Qed.

Lemma extend_compressed_publishable res writes :
  Forall publishable writes ->
  extend_compressed res writes = Ret (res ++ concat (compressed_record <$> writes)).
Proof.
  intros Hw. unfold extend_compressed.
  rewrite (foldM_pure _ (fun res r => res ++ compressed_record r)).
  - f_equal. clear Hw. revert res. induction writes as [|r writes IH]; intros res; cbn [foldl].
    + by rewrite app_nil_r.
    + rewrite IH, fmap_cons. cbn [concat]. by rewrite app_assoc.
  - intros acc r Hr. rewrite Forall_forall in Hw. by rewrite compress_publishable by auto.
Qed.

Lemma decode_initial_spec writes rest :
  Forall publishable writes -> Forall (fun r => enumeration_index r = 0) writes ->
  decode_initial (length writes) (concat (compressed_record <$> writes) ++ rest)
  = Some (published <$> writes, rest).
Proof.
  intros Hp Hz. revert Hp. induction Hz as [|r writes Hr Hz IH]; intros Hp; [done|].
  apply Forall_cons in Hp as [Hpr Hp]. rewrite !fmap_cons. cbn [concat length decode_initial].
  rewrite <- app_assoc, decode_compressed_record; [|done|].
  - cbn. by rewrite IH.
  - unfold write_id. rewrite Hr. apply Hpr.
Qed.

Lemma decode_repeated_spec writes fuel :
  Forall publishable writes -> Forall (fun r => enumeration_index r <> 0) writes ->
  (length writes <= fuel)%nat ->
  decode_repeated fuel (concat (compressed_record <$> writes)) = Some (published <$> writes).
Proof.
  intros Hp Hz. revert fuel Hp. induction Hz as [|r writes Hr Hz IH]; intros fuel Hp Hf.
  { by destruct fuel. }
  apply Forall_cons in Hp as [Hpr Hp]. rewrite !fmap_cons. cbn [concat length].
  assert (length (write_id r) = 4%nat) as Hid.
  { unfold write_id. rewrite (proj2 (Z.eqb_neq _ _) Hr). apply be_bytes_length. }
  assert (length (compressed_record r) <> 0%nat) as Hne.
  { unfold compressed_record. rewrite length_app. lia. }
  destruct fuel as [|fuel]; [simpl in Hf; lia|].
  destruct (compressed_record r ++ _) as [|b bs] eqn:Heq.
  { apply (f_equal length) in Heq. rewrite length_app in Heq. simpl in Heq. lia. }
  cbn [decode_repeated]. rewrite <- Heq, (decode_compressed_record _ 4) by done. cbn.
  by rewrite IH by (done || simpl in Hf; lia).
Qed.
End Decoder.

Definition sorted_diffs (ds : list StateDiffRecord) : list StateDiffRecord :=
  stable_sort address_key_leb ds.

Definition initial_diffs (ds : list StateDiffRecord) : list StateDiffRecord :=
  List.filter (fun r => enumeration_index r =? 0) (sorted_diffs ds).

Definition repeated_diffs (ds : list StateDiffRecord) : list StateDiffRecord :=
  List.filter (fun r => negb (enumeration_index r =? 0)) (sorted_diffs ds).

Lemma Forall_sorted_filter (P : StateDiffRecord -> Prop) f ds :
  Forall P ds ->
  Forall P (List.filter f (sorted_diffs ds)) /\
  Forall (fun r => f r = true) (List.filter f (sorted_diffs ds)) /\
  (length (List.filter f (sorted_diffs ds)) <= length ds)%nat.
Proof.
  intros Hd. assert (Forall P (sorted_diffs ds)) as Hs.
  { unfold sorted_diffs. by rewrite stable_sort_Permutation. }
  rewrite !List.Forall_forall in *. split; [|split].
  - intros r [Hr _]%filter_In. by apply Hs.
  - by intros r [_ Hr]%filter_In.
  - etrans; [apply filter_length_le|]. unfold sorted_diffs. by rewrite stable_sort_Permutation.
Qed.

Lemma compressed_record_length r :
  wf_record r -> (length (compressed_record r) <= 65)%nat.
Proof.
  intros Hr. unfold compressed_record, write_id. rewrite length_app.
  pose proof (compress_with_best_strategy_33 (initial_value r) (final_value r)).
  case_match; [|rewrite be_bytes_length; lia]. destruct (wf_derived_key r Hr). lia.
Qed.

Lemma concat_compressed_length rs :
  Forall wf_record rs -> (length (concat (compressed_record <$> rs)) <= 65 * length rs)%nat.
Proof.
  induction 1 as [|r rs Hr _ IH]; [done|]. rewrite fmap_cons. cbn [concat length].
  rewrite length_app. pose proof (compressed_record_length r Hr). lia.
Qed.

Lemma prepend_header_app body :
  Z.of_nat (length body) < 2 ^ 24 ->
  prepend_header body = (1 :: be_bytes 3 (Z.of_nat (length body)) ++ [4]) ++ body.
Proof.
  intros Hb. unfold prepend_header. rewrite wrap_small by (unfold unsigned; lia).
  rewrite (drop_be_bytes 1 3). cbn [app]. by rewrite <- app_assoc.
Qed.

Lemma filters_Permutation ds : initial_diffs ds ++ repeated_diffs ds ≡ₚ ds.
Proof.
  unfold initial_diffs, repeated_diffs. rewrite <- (stable_sort_Permutation address_key_leb ds) at 3.
  fold (sorted_diffs ds). induction (sorted_diffs ds) as [|r l IH]; [done|].
  cbn [List.filter]. destruct (enumeration_index r =? 0); cbn [negb].
  - by rewrite <- IH at 3.
  - by rewrite <- Permutation_middle, IH.
Qed.

(** The reader on a well-framed body. *)
Lemma decode_framed previous ini rep :
  Forall (publishable previous) ini -> Forall (fun r => (enumeration_index r =? 0) = true) ini ->
  Forall (publishable previous) rep ->
  Forall (fun r => negb (enumeration_index r =? 0) = true) rep ->
  Z.of_nat (length ini) < 2 ^ 16 ->
  let body := (be_bytes 2 (Z.of_nat (length ini)) ++ concat (compressed_record <$> ini))
              ++ concat (compressed_record <$> rep) in
  decode_state_diffs previous ((1 :: be_bytes 3 (Z.of_nat (length body)) ++ [4]) ++ body)
  = Some (published <$> ini, published <$> rep).
Proof.
  intros Hi1 Hi2 Hr1 Hr2 Hlen body. unfold decode_state_diffs.
  assert (length (1 :: be_bytes 3 (Z.of_nat (length body)) ++ [4]) = 5%nat) as H5.
  { cbn [length]. rewrite length_app, be_bytes_length. done. }
  rewrite take_app_length', drop_app_length' by done. rewrite bool_decide_eq_true_2 by done.
  subst body. rewrite <- app_assoc. rewrite take_app_length', drop_app_length'
    by (by rewrite be_bytes_length).
  rewrite (be_value_be_bytes_unsigned 2 16), Nat2Z.id by (unfold unsigned; lia || done).
  rewrite decode_initial_spec; [|done|].
  2:{ eapply Forall_impl; [exact Hi2|]. intros r Hr. by apply Z.eqb_eq. }
  cbn -[decode_repeated]. rewrite decode_repeated_spec; [done|done|..].
  - eapply Forall_impl; [exact Hr2|]. intros r Hr. cbn in Hr.
    by apply negb_true_iff, Z.eqb_neq in Hr.
  - clear. induction rep as [|r rep IH]; [done|]. rewrite fmap_cons. cbn [concat length].
    rewrite length_app. unfold compressed_record at 1. rewrite length_app.
    pose proof (best_strategy_length (initial_value r) (final_value r)) as Hb. cbn in Hb.
    case_match; lia.
Qed.

(** C25: The published state diffs are decodable.  For fewer than 2^16 well-formed records
    whose enumeration indexes fit in 32 bits, [compress_state_diffs] returns without
    panicking, and a reader that knows the previous value of every slot recovers from the
    pubdata exactly the identifier and the new value of every record, initial writes
    first, each group sorted by address and key. *)
Theorem compress_state_diffs_decodable previous ds :
  Forall (publishable previous) ds -> Z.of_nat (length ds) < 2 ^ 16 ->
  exists pubdata, compress_state_diffs ds = Ret pubdata /\
    decode_state_diffs previous pubdata
    = Some (published <$> initial_diffs ds, published <$> repeated_diffs ds) /\
    initial_diffs ds ++ repeated_diffs ds ≡ₚ ds /\
    StronglySorted (fun r1 r2 => address_key_leb r1 r2) (sorted_diffs ds).
Proof.
  intros Hds Hlen.
  destruct (Forall_sorted_filter _ (fun r => enumeration_index r =? 0) ds Hds) as (Hi1 & Hi2 & Hi3).
  destruct (Forall_sorted_filter _ (fun r => negb (enumeration_index r =? 0)) ds Hds)
    as (Hr1 & Hr2 & Hr3). fold (initial_diffs ds) in Hi1, Hi2, Hi3. fold (repeated_diffs ds) in Hr1, Hr2, Hr3.
  assert (initial_diffs ds ++ repeated_diffs ds ≡ₚ ds) as Hperm by apply filters_Permutation.
  eexists. split; [|split; [|split; [done|]]].
  - unfold compress_state_diffs. fold (sorted_diffs ds) (initial_diffs ds) (repeated_diffs ds).
    rewrite (extend_compressed_publishable previous), outcome_Ret_bind by done.
    by rewrite (extend_compressed_publishable previous), outcome_Ret_bind by done.
  - rewrite wrap_small by (unfold unsigned; lia). rewrite prepend_header_app.
    2:{ apply Permutation_length in Hperm.
        rewrite !length_app, be_bytes_length in *.
        pose proof (concat_compressed_length _ (Forall_impl _ _ _ Hi1 (pub_wf previous))).
        pose proof (concat_compressed_length _ (Forall_impl _ _ _ Hr1 (pub_wf previous))). lia. }
    apply decode_framed; [done..|lia].
  - apply stable_sort_sorted; unfold address_key_leb; intros;
      rewrite ?Is_true_true in *; rewrite ?orb_true_iff, ?andb_true_iff in *;
      rewrite ?Z.ltb_lt, ?Z.eqb_eq, ?Z.leb_le in *; lia.
Qed.

Lemma extend_compressed_panics res writes :
  (exists msg, extend_compressed res writes = Panics msg) <->
  Exists (fun r => 2 ^ 32 - 1 < enumeration_index r) writes.
Proof.
  revert res. unfold extend_compressed. induction writes as [|r writes IH]; intros res.
  { split; [by intros [msg ?]|by intros ?%Exists_nil]. }
  rewrite Exists_cons. cbn [foldM].
  assert (compress r = Panics "enumeration_index is too large" /\ 2 ^ 32 - 1 < enumeration_index r
          \/ enumeration_index r <= 2 ^ 32 - 1 /\ exists c, compress r = Ret c) as [[-> Hi]|[Hi [c ->]]].
  { unfold compress. destruct (Z.eqb_spec (enumeration_index r) 0); [right; split; [lia|by eexists]|].
    destruct (Z.leb_spec (enumeration_index r) (2 ^ 32 - 1)); [right|left]; eauto. }
  - split; [by left|intros _; by eexists].
  - rewrite !outcome_Ret_bind, IH. split; [by right|intros [?|?]; [lia|done]].
Qed.

(** Compressing a batch of state diffs panics exactly when some record's enumeration
    index does not fit in 32 bits. *)
Theorem compress_state_diffs_panics_iff ds :
  (exists msg, compress_state_diffs ds = Panics msg) <->
  exists r, r ∈ ds /\ 2 ^ 32 - 1 < enumeration_index r.
Proof.
  rewrite <- Exists_exists.
  assert (Exists (fun r => 2 ^ 32 - 1 < enumeration_index r) ds <->
          Exists (fun r => 2 ^ 32 - 1 < enumeration_index r) (initial_diffs ds ++ repeated_diffs ds))
    as -> by (rewrite !Exists_exists; by setoid_rewrite (filters_Permutation ds)).
  rewrite Exists_app. unfold compress_state_diffs.
  fold (sorted_diffs ds) (initial_diffs ds) (repeated_diffs ds).
  set (res := be_bytes 2 _). rewrite <- (extend_compressed_panics res (initial_diffs ds)).
  destruct (extend_compressed res (initial_diffs ds)) as [res'|msg]; [|naive_solver].
  rewrite outcome_Ret_bind, <- (extend_compressed_panics res' (repeated_diffs ds)).
  destruct (extend_compressed res' (repeated_diffs ds)); naive_solver.
Qed.

(** Tree writes survive serialization. *)
Lemma tree_write_roundtrip w :
  unsigned 160 (tw_address w) -> unsigned 256 (tw_key w) -> unsigned 256 (tw_value w) ->
  visit_seq (serialize w) = Ok w.
Proof.
  intros Ha Hk Hv. destruct w as [a k v i]. cbn [tw_address tw_key tw_value] in *.
  unfold visit_seq, serialize, next_array, next_u64. cbn [lookup list_lookup tw_address tw_key tw_value tw_leaf_index].
  rewrite !be_bytes_length. cbn [Nat.eqb].
  rewrite (be_value_be_bytes_unsigned 20 160) by done.
  by rewrite !(be_value_be_bytes_unsigned 32 256) by done.
Qed.

(** ** Concrete inputs *)

Definition example_repeated : StateDiffRecord :=
  {| address := 7; key := 2; derived_key := replicate 32 9; enumeration_index := 5;
     initial_value := 1000; final_value := 998 |}.

Definition example_initial : StateDiffRecord :=
  {| address := 7; key := 1; derived_key := replicate 32 8; enumeration_index := 0;
     initial_value := 0; final_value := 2 ^ 255 + 12345 |}.

Definition example_diffs : list StateDiffRecord := [example_repeated; example_initial].

Definition example_previous (id : list Z) : Z := if (length id =? 4)%nat then 1000 else 0.

Lemma compress_with_best_strategy_correct_witness :
  unsigned 256 1000 /\ unsigned 256 998 /\
  decompress_value 1000 (compress_with_best_strategy 1000 998 ++ [77]) = Some (998, [77]) /\
  length (compress_with_best_strategy 1000 998) = 2%nat.
Proof.
  assert (unsigned 256 1000) as H1 by (split; [lia|reflexivity]).
  assert (unsigned 256 998) as H2 by (split; [lia|reflexivity]).
  destruct (compress_with_best_strategy_correct 1000 998 [77] H1 H2) as [Hd Hl].
  split; [exact H1|]. split; [exact H2|]. split; [exact Hd|]. etransitivity; [exact Hl|].
  vm_compute. reflexivity.
Defined.

Lemma example_publishable : Forall (publishable example_previous) example_diffs.
Proof.
  repeat constructor; cbn [address key derived_key enumeration_index initial_value final_value];
    try lia; try (apply bool_decide_unpack; vm_compute; exact I); vm_compute; try reflexivity;
    discriminate.
Defined.

Lemma state_diff_record_roundtrip_witness :
  wf_record example_repeated /\ try_from_slice (encode example_repeated) = Some example_repeated.
Proof.
  pose proof example_publishable as H. apply Forall_cons in H as [[Hwf _ _] _].
  split; [exact Hwf|].
  destruct (state_diff_record_roundtrip _ Hwf) as (_ & _ & Hrt & _). exact Hrt.
Defined.

Lemma compress_state_diffs_decodable_witness :
  exists pubdata, compress_state_diffs example_diffs = Ret pubdata /\
    decode_state_diffs example_previous pubdata
    = Some ([(replicate 32 8, 2 ^ 255 + 12345)], [([0; 0; 0; 5], 998)]).
Proof.
  destruct (compress_state_diffs_decodable example_previous example_diffs example_publishable)
    as (pubdata & Hc & Hd & _); [reflexivity|].
  exists pubdata. split; [exact Hc|]. etransitivity; [exact Hd|]. vm_compute. reflexivity.
Defined.
