(* ===== verification/Storage.v ===== *)
(** * Storage keys and logs

    Model of [src/core/lib/types/src/storage/mod.rs], [storage/log.rs] and
    [zk_evm_types.rs] (log queries): the keys of storage slots, the storage logs of
    the VM and the conversions between log formats. *)

From S2P Require Import Prelude Bytes Utils.
Open Scope Z_scope.

(** ** Keys *)

(** [StorageKey]: the account (an [AccountTreeId], that is, an address) and the slot. *)
Record StorageKey := StorageKey_new { account : Z; key : Z }.

#[export] Instance StorageKey_eq_dec : EqDecision StorageKey.
Proof. solve_decision. Defined.

#[export] Instance StorageKey_countable : Countable StorageKey.
Proof.
  apply (inj_countable' (fun k => (account k, key k)) (fun p => StorageKey_new p.1 p.2)).
  by intros [].
Defined.

Definition ACCOUNT_CODE_STORAGE_ADDRESS : Z := be_value (replicate 18 0 ++ [0x80; 0x02]).
Definition NONCE_HOLDER_ADDRESS : Z := be_value (replicate 18 0 ++ [0x80; 0x03]).
Definition KNOWN_CODES_STORAGE_ADDRESS : Z := be_value (replicate 18 0 ++ [0x80; 0x04]).
Definition CONTRACT_DEPLOYER_ADDRESS : Z := be_value (replicate 18 0 ++ [0x80; 0x06]).
Definition SYSTEM_CONTEXT_ADDRESS : Z := be_value (replicate 18 0 ++ [0x80; 0x0b]).

(** [U256::from_little_endian] *)
Definition le_value (bs : list Z) : Z := be_value (reverse bs).

Section Hashing.
(** Blake2s-256 and Keccak-256, on byte strings. *)
Variable blake2s256 : list Z -> list Z.
Variable keccak256 : list Z -> list Z.

Definition raw_hashed_key (address key : Z) : list Z :=
  blake2s256 (replicate 12 0 ++ be_bytes 20 address ++ be_bytes 32 key).

Definition hashed_key (k : StorageKey) : Z := be_value (raw_hashed_key (account k) (key k)).

Definition hashed_key_u256 (k : StorageKey) : Z := le_value (raw_hashed_key (account k) (key k)).

Definition get_address_mapping_key (address position : Z) : Z :=
  let padded_address := address_to_h256 address in
  be_value (keccak256 (be_bytes 32 padded_address ++ be_bytes 32 position)).

Definition get_nonce_key (account : Z) : StorageKey :=
  StorageKey_new NONCE_HOLDER_ADDRESS (get_address_mapping_key account 0).

Definition get_code_key (account : Z) : StorageKey :=
  StorageKey_new ACCOUNT_CODE_STORAGE_ADDRESS (address_to_h256 account).

Definition get_known_code_key (hash : Z) : StorageKey :=
  StorageKey_new KNOWN_CODES_STORAGE_ADDRESS hash.

Definition get_system_context_key (key : Z) : StorageKey :=
  StorageKey_new SYSTEM_CONTEXT_ADDRESS key.

Definition get_is_account_key (account : Z) : StorageKey :=
  StorageKey_new CONTRACT_DEPLOYER_ADDRESS (get_address_mapping_key account 0).
End Hashing.

(** ** Logs *)

Inductive StorageLogKind : Type := Read | InitialWrite | RepeatedWrite.

#[export] Instance StorageLogKind_eq_dec : EqDecision StorageLogKind.
Proof. solve_decision. Defined.

Record StorageLog := {
  log_kind : StorageLogKind;
  log_key : StorageKey;
  log_value : Z;
}.

Record StorageLogWithPreviousValue := {
  log : StorageLog;
  previous_value : Z;
}.

Record LogQuery := {
  timestamp : Z;
  tx_number_in_block : Z;
  aux_byte : Z;
  shard_id : Z;
  q_address : Z;
  q_key : Z;
  read_value : Z;
  written_value : Z;
  rw_flag : bool;
  q_rollback : bool;
  is_service : bool;
}.

Definition new_read_log (k : StorageKey) (value : Z) : StorageLog :=
  {| log_kind := Read; log_key := k; log_value := value |}.

Definition new_write_log (k : StorageKey) (value : Z) : StorageLog :=
  {| log_kind := RepeatedWrite; log_key := k; log_value := value |}.

Definition from_log_query (q : LogQuery) : StorageLog :=
  let k := StorageKey_new (q_address q) (u256_to_h256 (q_key q)) in
  if rw_flag q then
    if q_rollback q then new_write_log k (u256_to_h256 (read_value q))
    else new_write_log k (u256_to_h256 (written_value q))
  else new_read_log k (u256_to_h256 (read_value q)).

Definition is_write (l : StorageLog) : bool :=
  match log_kind l with Read => false | _ => true end.

Definition to_test_log_query (l : StorageLog) : LogQuery :=
  let v := be_value (be_bytes 32 (log_value l)) in
  let '(read_value, written_value) :=
    if bool_decide (log_kind l = Read) then (v, 0) else (0, v) in
  {| timestamp := 0; tx_number_in_block := 0; aux_byte := 0; shard_id := 0;
     q_address := account (log_key l);
     q_key := be_value (be_bytes 32 (key (log_key l)));
     read_value := read_value; written_value := written_value;
     rw_flag := is_write l; q_rollback := false; is_service := false |}.

Record ApiStorageLog := {
  api_address : Z;
  api_key : Z;
  api_written_value : Z;
}.

Definition api_log_of_storage_log (l : StorageLog) : ApiStorageLog :=
  {| api_address := account (log_key l);
     api_key := h256_to_u256 (key (log_key l));
     api_written_value := h256_to_u256 (log_value l) |}.

Definition api_log_of_log_query (q : LogQuery) : ApiStorageLog :=
  {| api_address := q_address q; api_key := q_key q; api_written_value := written_value q |}.

(** A well-formed log: its key and value are 256-bit words. *)
Definition wf_log (l : StorageLog) : Prop :=
  unsigned 160 (account (log_key l)) /\ unsigned 256 (key (log_key l)) /\ unsigned 256 (log_value l).

(** A log survives the trip through a log query, up to the distinction of initial and
    repeated writes, which queries do not carry. *)
Lemma log_query_roundtrip l :
  wf_log l ->
  from_log_query (to_test_log_query l) =
    {| log_kind := if is_write l then RepeatedWrite else Read;
       log_key := log_key l; log_value := log_value l |}.
Proof.
  destruct l as [kd [a k] v]. intros (_ & Hk & Hv). cbn [log_key log_value account key] in *.
  pose proof (h256_to_u256_id k Hk) as Hk'. pose proof (h256_to_u256_id v Hv) as Hv'.
  unfold h256_to_u256 in Hk', Hv'. unfold to_test_log_query, from_log_query.
  cbn [log_key log_value account key]. rewrite Hk', Hv'.
  destruct kd; unfold is_write; cbn [log_kind]; case_bool_decide; try done;
    cbn [rw_flag q_rollback q_address q_key read_value written_value];
    rewrite !u256_to_h256_id by assumption; reflexivity.
Qed.

(** Both conversions to the API format agree on writes. *)
Lemma api_log_of_write l :
  wf_log l -> is_write l = true ->
  api_log_of_log_query (to_test_log_query l) = api_log_of_storage_log l.
Proof.
  destruct l as [kd [a k] v]. intros _ Hw. unfold to_test_log_query.
  rewrite bool_decide_eq_false_2; [done|]. by destruct kd.
Qed.
