(* ===== verification/Deduplicator.v ===== *)
(** * Storage writes deduplicator

    Model of [src/core/lib/multivm/src/utils/deduplicator.rs] and of the write metrics of
    [src/core/lib/vm_interface/src/types/outputs/statistic.rs]: the deduplicator tracks
    which slots a batch really changes and how much pubdata publishing them takes; it can
    try out the logs of a transaction and roll them back. *)

From S2P Require Import Prelude Bytes Utils StateDiffs Storage.
Open Scope Z_scope.

(** ** Data *)

Record ModifiedSlot := {
  value : Z;
  slot_size : Z;
}.

Inductive UpdateType : Type :=
| Remove (slot : ModifiedSlot)
| Update (slot : ModifiedSlot)
| Insert.

Record UpdateItem := {
  item_key : StorageKey;
  update_type : UpdateType;
  item_is_write_initial : bool;
}.

Record DeduplicatedWritesMetrics := {
  initial_storage_writes : Z;
  repeated_storage_writes : Z;
  total_updated_values_size : Z;
}.

Record StorageWritesDeduplicator := {
  initial_values : gmap StorageKey Z;
  modified_key_values : gmap StorageKey ModifiedSlot;
  metrics : DeduplicatedWritesMetrics;
}.

(** ** Operations *)

Definition new : StorageWritesDeduplicator :=
  {| initial_values := ∅; modified_key_values := ∅;
     metrics := {| initial_storage_writes := 0; repeated_storage_writes := 0;
                   total_updated_values_size := 0 |} |}.

(** [*field_to_change += delta; *total_size += size_delta], on 64-bit counters. *)
Definition change_metrics (m : DeduplicatedWritesMetrics) (is_write_initial : bool)
    (delta size_delta : Z) : DeduplicatedWritesMetrics :=
  {| initial_storage_writes :=
       if is_write_initial then wrap 64 (initial_storage_writes m + delta)
       else initial_storage_writes m;
     repeated_storage_writes :=
       if is_write_initial then repeated_storage_writes m
       else wrap 64 (repeated_storage_writes m + delta);
     total_updated_values_size := wrap 64 (total_updated_values_size m + size_delta) |}.

(** Size of the compressed value of a slot. *)
Definition value_size (initial_value new_value : Z) : Z :=
  Z.of_nat (length (compress_with_best_strategy (h256_to_u256 initial_value)
                      (h256_to_u256 new_value))).

(** The body of the loop of [process_storage_logs], for a write log. *)
Definition process_write (st : StorageWritesDeduplicator * list UpdateItem)
    (l : StorageLogWithPreviousValue) :
    outcome (StorageWritesDeduplicator * list UpdateItem) :=
  let '(d, updates) := st in
  let key := log_key (log l) in
  let initial_value := default (previous_value l) (initial_values d !! key) in
  let initial_values := <[key := initial_value]> (initial_values d) in
  let was_key_modified := bool_decide (is_Some (modified_key_values d !! key)) in
  let modified_value :=
    if negb (initial_value =? log_value (log l)) then Some (log_value (log l)) else None in
  let is_write_initial := bool_decide (log_kind (log l) = InitialWrite) in
  match was_key_modified, modified_value with
  | true, None =>
      slot ← expect (modified_key_values d !! key) "tried removing key before insertion";
      Ret ({| initial_values := initial_values;
              modified_key_values := delete key (modified_key_values d);
              metrics := change_metrics (metrics d) is_write_initial (-1) (- slot_size slot) |},
           updates ++ [{| item_key := key; update_type := Remove slot;
                          item_is_write_initial := is_write_initial |}])
  | true, Some new_value =>
      let size := value_size initial_value new_value in
      old_value ← expect (modified_key_values d !! key) "tried removing key before insertion";
      Ret ({| initial_values := initial_values;
              modified_key_values :=
                <[key := {| value := new_value; slot_size := size |}]> (modified_key_values d);
              metrics := change_metrics (metrics d) is_write_initial 0 (- slot_size old_value + size) |},
           updates ++ [{| item_key := key; update_type := Update old_value;
                          item_is_write_initial := is_write_initial |}])
  | false, Some new_value =>
      let size := value_size initial_value new_value in
      Ret ({| initial_values := initial_values;
              modified_key_values :=
                <[key := {| value := new_value; slot_size := size |}]> (modified_key_values d);
              metrics := change_metrics (metrics d) is_write_initial 1 size |},
           updates ++ [{| item_key := key; update_type := Insert;
                          item_is_write_initial := is_write_initial |}])
  | false, None =>
      Ret ({| initial_values := initial_values;
              modified_key_values := modified_key_values d;
              metrics := metrics d |}, updates)
  end.

Definition process_storage_logs (d : StorageWritesDeduplicator)
    (logs : list StorageLogWithPreviousValue) :
    outcome (StorageWritesDeduplicator * list UpdateItem) :=
  foldM process_write (d, []) (List.filter (fun l => is_write (log l)) logs).

(** The body of the loop of [rollback]. *)
Definition rollback_item (d : StorageWritesDeduplicator) (item : UpdateItem) :
    outcome StorageWritesDeduplicator :=
  let key := item_key item in
  let is_write_initial := item_is_write_initial item in
  match update_type item with
  | Insert =>
      slot ← expect (modified_key_values d !! key) "tried removing key before insertion";
      Ret {| initial_values := initial_values d;
             modified_key_values := delete key (modified_key_values d);
             metrics := change_metrics (metrics d) is_write_initial (-1) (- slot_size slot) |}
  | Update slot =>
      old_value ← expect (modified_key_values d !! key) "tried removing key before insertion";
      Ret {| initial_values := initial_values d;
             modified_key_values := <[key := slot]> (modified_key_values d);
             metrics := change_metrics (metrics d) is_write_initial 0
                          (slot_size slot - slot_size old_value) |}
  | Remove slot =>
      Ret {| initial_values := initial_values d;
             modified_key_values := <[key := slot]> (modified_key_values d);
             metrics := change_metrics (metrics d) is_write_initial 1 (slot_size slot) |}
  end.

Definition rollback (d : StorageWritesDeduplicator) (updates : list UpdateItem) :
    outcome StorageWritesDeduplicator :=
  foldM rollback_item d (reverse updates).

Definition apply (d : StorageWritesDeduplicator) (logs : list StorageLogWithPreviousValue) :
    outcome StorageWritesDeduplicator :=
  '(d, _) ← process_storage_logs d logs; Ret d.

Definition apply_and_rollback (d : StorageWritesDeduplicator)
    (logs : list StorageLogWithPreviousValue) :
    outcome (StorageWritesDeduplicator * DeduplicatedWritesMetrics) :=
  '(d, updates) ← process_storage_logs d logs;
  let result := metrics d in
  d ← rollback d updates;
  Ret (d, result).

Definition apply_on_empty_state (logs : list StorageLogWithPreviousValue) :
    outcome DeduplicatedWritesMetrics :=
  d ← apply new logs; Ret (metrics d).

(** ** Metrics arithmetic *)

Definition metrics_ok (m : DeduplicatedWritesMetrics) : Prop :=
  unsigned 64 (initial_storage_writes m) /\ unsigned 64 (repeated_storage_writes m) /\
  unsigned 64 (total_updated_values_size m).

Lemma change_metrics_ok m b x y : metrics_ok m -> metrics_ok (change_metrics m b x y).
Proof.
  intros (H1 & H2 & H3). unfold metrics_ok, change_metrics. cbn.
  destruct b; repeat split; try apply H1; try apply H2; apply Z.mod_pos_bound; lia.
Qed.

Lemma change_metrics_undo m b x y :
  metrics_ok m -> change_metrics (change_metrics m b x y) b (- x) (- y) = m.
Proof.
  intros (H1 & H2 & H3). destruct m as [i r t]. unfold change_metrics. cbn in *.
  assert (forall a d, unsigned 64 a -> wrap 64 (wrap 64 (a + d) + - d) = a) as Hundo.
  { intros a d Ha. unfold wrap. rewrite Zplus_mod_idemp_l.
    replace (a + d + - d) with a by lia. by apply Z.mod_small. }
  destruct b; cbn; rewrite !Hundo by done; done.
Qed.

(** ** Rolling back *)

(** The part of the state that [rollback] restores. *)
Definition same_changes (d1 d2 : StorageWritesDeduplicator) : Prop :=
  modified_key_values d1 = modified_key_values d2 /\ metrics d1 = metrics d2.

#[export] Instance same_changes_equiv : Equivalence same_changes.
Proof. split; unfold same_changes; [done|intros ?? []; done|intros ??? [] []; split; congruence]. Qed.

(** Every iteration succeeds, and the updates it records undo it. *)
Lemma process_write_undo d u l :
  metrics_ok (metrics d) ->
  exists d' u', process_write (d, u) l = Ret (d', u ++ u') /\ metrics_ok (metrics d') /\
    forall e, same_changes e d' -> exists e', rollback e u' = Ret e' /\ same_changes e' d.
Proof.
  intros Hok. unfold process_write.
  set (iv := default _ _). destruct d as [init mods m]. cbn [initial_values modified_key_values metrics] in *.
  set (b := bool_decide (log_kind (log l) = InitialWrite)). set (k := log_key (log l)).
  destruct (mods !! k) as [slot|] eqn:Hk.
  - rewrite bool_decide_eq_true_2 by done. cbn [expect].
    destruct (negb (iv =? log_value (log l))).
    + eexists _, [_]. split; [done|]. split; [by apply change_metrics_ok|].
      intros e [He1 He2]. unfold rollback, reverse. cbn. rewrite He1. cbn.
      rewrite lookup_insert_eq. cbn. eexists. split; [done|]. split; cbn.
      * rewrite insert_insert_eq. by apply insert_id.
      * rewrite He2. cbn. set (x := - slot_size slot + _).
        replace (slot_size slot - _) with (- x) by (unfold x; lia).
        by apply (change_metrics_undo m b 0 x).
    + eexists _, [_]. split; [done|]. split; [by apply change_metrics_ok|].
      intros e [He1 He2]. eexists. split; [done|]. split; cbn.
      * rewrite He1. cbn. by rewrite insert_delete_id.
      * rewrite He2. cbn. pose proof (change_metrics_undo m b (-1) (- slot_size slot) Hok) as Hu.
        by rewrite Z.opp_involutive in Hu.
  - rewrite bool_decide_eq_false_2 by (intros [? ?]; congruence).
    destruct (negb (iv =? log_value (log l))).
    + eexists _, [_]. split; [done|]. split; [by apply change_metrics_ok|].
      intros e [He1 He2]. unfold rollback, reverse. cbn. rewrite He1. cbn.
      rewrite lookup_insert_eq. cbn. eexists. split; [done|]. split; cbn.
      * by rewrite delete_insert_id.
      * rewrite He2. by apply (change_metrics_undo m b 1).
    + eexists _, []. rewrite app_nil_r. split; [done|]. split; [done|].
      intros e [He1 He2]. by exists e.
Qed.

Lemma process_writes_undo ws : forall d u,
  metrics_ok (metrics d) ->
  exists d' u', foldM process_write (d, u) ws = Ret (d', u ++ u') /\ metrics_ok (metrics d') /\
    forall e, same_changes e d' -> exists e', rollback e u' = Ret e' /\ same_changes e' d.
Proof.
  induction ws as [|l ws IH]; intros d u Hok.
  { exists d, []. rewrite app_nil_r. split; [done|]. split; [done|]. intros e He. by exists e. }
  destruct (process_write_undo d u l Hok) as (d1 & u1 & Hp & Hok1 & Hback1).
  destruct (IH d1 (u ++ u1) Hok1) as (d2 & u2 & Hps & Hok2 & Hback2).
  exists d2, (u1 ++ u2). cbn [foldM]. rewrite Hp, outcome_Ret_bind, Hps, app_assoc.
  split; [done|]. split; [done|]. intros e He.
  destruct (Hback2 e He) as (e1 & He1 & Hsame1). destruct (Hback1 e1 Hsame1) as (e2 & He2 & Hsame2).
  exists e2. split; [|done]. unfold rollback in *. rewrite reverse_app, foldM_app, He1. exact He2.
Qed.

Lemma rollback_initial_values e updates e' :
  rollback e updates = Ret e' -> initial_values e' = initial_values e.
Proof.
  unfold rollback. generalize (reverse updates). clear updates. intros items. revert e.
  induction items as [|item items IH]; intros e; cbn [foldM]; [by intros [= <-]|].
  intros (e1 & Hstep & Hrest)%outcome_bind_Ret. rewrite (IH e1 Hrest). revert Hstep.
  unfold rollback_item. destruct (update_type item), (modified_key_values e !! item_key item);
    cbn; by intros [= <-].
Qed.

(** ** The recorded initial values do not matter *)

Definition initial_ok (s0 : StorageKey -> Z) (d : StorageWritesDeduplicator) : Prop :=
  forall k v, initial_values d !! k = Some v -> v = s0 k.

(** The VM reports the value of a slot at the start of the batch as the previous value of
    the first write to it; [seen] holds the slots already recorded. *)
Fixpoint first_writes_consistent (s0 : StorageKey -> Z) (seen : gset StorageKey)
    (ws : list StorageLogWithPreviousValue) : Prop :=
  match ws with
  | [] => True
  | l :: ws' =>
      let k := log_key (log l) in
      (k ∈ seen \/ previous_value l = s0 k) /\ first_writes_consistent s0 ({[k]} ∪ seen) ws'
  end.

Lemma process_write_sim s0 seen d1 d2 u l d1' u' :
  initial_ok s0 d1 -> initial_ok s0 d2 ->
  seen ⊆ dom (initial_values d1) -> seen ⊆ dom (initial_values d2) ->
  same_changes d1 d2 ->
  (log_key (log l) ∈ seen \/ previous_value l = s0 (log_key (log l))) ->
  process_write (d1, u) l = Ret (d1', u') ->
  exists d2', process_write (d2, u) l = Ret (d2', u') /\ same_changes d1' d2' /\
    initial_values d1' = <[log_key (log l) := s0 (log_key (log l))]> (initial_values d1) /\
    initial_values d2' = <[log_key (log l) := s0 (log_key (log l))]> (initial_values d2).
Proof.
  intros Hi1 Hi2 Hs1 Hs2 [Hm Hmet] Hl. set (k := log_key (log l)) in *.
  assert (forall d, initial_ok s0 d -> seen ⊆ dom (initial_values d) ->
            default (previous_value l) (initial_values d !! k) = s0 k) as Hdef.
  { intros d Hi Hs. destruct (initial_values d !! k) as [v|] eqn:Hv; cbn; [by apply Hi|].
    destruct Hl as [Hl|Hl]; [|done]. apply Hs in Hl. apply elem_of_dom in Hl as [? ?]. congruence. }
  unfold process_write. fold k. rewrite (Hdef d1 Hi1 Hs1), (Hdef d2 Hi2 Hs2).
  rewrite <- Hm, <- Hmet. destruct (modified_key_values d1 !! k) as [slot|] eqn:Hk.
  - rewrite bool_decide_eq_true_2 by done.
    destruct (negb _); cbn; intros [= <- <-]; eexists; (split; [done|]); done.
  - rewrite bool_decide_eq_false_2 by (intros [? ?]; congruence).
    destruct (negb _); cbn; intros [= <- <-]; eexists; (split; [done|]); done.
Qed.

Lemma initial_ok_insert s0 d d' k :
  initial_ok s0 d -> initial_values d' = <[k := s0 k]> (initial_values d) -> initial_ok s0 d'.
Proof.
  intros Hi Heq k' v. rewrite Heq, lookup_insert_Some. intros [[<- <-]|[_ Hv]]; [done|by apply Hi].
Qed.

Lemma process_writes_sim s0 ws : forall seen d1 d2 u d1' u',
  initial_ok s0 d1 -> initial_ok s0 d2 ->
  seen ⊆ dom (initial_values d1) -> seen ⊆ dom (initial_values d2) ->
  same_changes d1 d2 -> first_writes_consistent s0 seen ws ->
  foldM process_write (d1, u) ws = Ret (d1', u') ->
  initial_ok s0 d1' /\ dom (initial_values d1) ⊆ dom (initial_values d1') /\
  exists d2', foldM process_write (d2, u) ws = Ret (d2', u') /\ same_changes d1' d2'.
Proof.
  induction ws as [|l ws IH]; intros seen d1 d2 u d1' u' Hi1 Hi2 Hs1 Hs2 Hsame Hc Hrun.
  { injection Hrun as <- <-. split; [done|]. split; [done|]. by exists d2. }
  destruct Hc as [Hl Hc]. cbn [foldM] in Hrun.
  apply outcome_bind_Ret in Hrun as ([dm um] & Hstep & Hrun).
  destruct (process_write_sim s0 seen d1 d2 u l dm um) as (d2m & Hstep2 & Hsame2 & He1 & He2);
    [done..|].
  destruct (IH ({[log_key (log l)]} ∪ seen) dm d2m um d1' u') as (Hi1' & Hdom & d2' & Hrun2 & Hsame').
  1: exact (initial_ok_insert _ _ _ _ Hi1 He1).
  1: exact (initial_ok_insert _ _ _ _ Hi2 He2).
  1, 2: rewrite ?He1, ?He2, dom_insert_L; by apply union_mono_l.
  1, 2, 3: done.
  split; [done|]. split; [rewrite He1, dom_insert_L in Hdom; etrans; [apply union_subseteq_r|exact Hdom]|].
  exists d2'. cbn [foldM]. by rewrite Hstep2.
Qed.

Definition writes (logs : list StorageLogWithPreviousValue) : list StorageLogWithPreviousValue :=
  List.filter (fun l => is_write (log l)) logs.

(** C27: Trying logs out leaves no trace.  [apply_and_rollback] never panics, returns the
    metrics the deduplicator would have after applying the logs, and restores the modified
    slots and the metrics; although the initial values it recorded stay behind, applying
    further logs afterwards gives the same slots and metrics as without the trial, provided
    the previous value of the first write to a slot is its value at the start of the batch. *)
Theorem apply_and_rollback_transparent s0 d logs1 logs2 :
  metrics_ok (metrics d) -> initial_ok s0 d ->
  first_writes_consistent s0 (dom (initial_values d)) (writes logs1) ->
  first_writes_consistent s0 (dom (initial_values d)) (writes logs2) ->
  exists d' m d1 d2 d2',
    apply_and_rollback d logs1 = Ret (d', m) /\ same_changes d' d /\
    apply d logs1 = Ret d1 /\ m = metrics d1 /\
    apply d logs2 = Ret d2 /\ apply d' logs2 = Ret d2' /\ same_changes d2' d2.
Proof.
  intros Hok Hinit Hc1 Hc2. unfold apply_and_rollback, apply, process_storage_logs.
  fold (writes logs1) (writes logs2).
  destruct (process_writes_undo (writes logs1) d [] Hok) as (d1 & u1 & Hrun1 & _ & Hback).
  destruct (process_writes_undo (writes logs2) d [] Hok) as (d2 & u2 & Hrun2 & _ & _).
  destruct (Hback d1) as (d' & Hd' & Hsame); [done|].
  destruct (process_writes_sim s0 (writes logs1) (dom (initial_values d)) d d [] d1 ([] ++ u1))
    as (Hi1 & Hdom & _); [done..|].
  assert (initial_values d' = initial_values d1) as Hiv by by eapply rollback_initial_values.
  destruct (process_writes_sim s0 (writes logs2) (dom (initial_values d)) d d' [] d2 ([] ++ u2))
    as (_ & _ & d2' & Hrun2' & Hsame2); try done.
  { intros k v. rewrite Hiv. apply Hi1. }
  { by rewrite Hiv. }
  exists d', (metrics d1), d1, d2, d2'. rewrite Hrun1, Hrun2, Hrun2', !outcome_Ret_bind.
  cbn [app]. rewrite Hd'. done.
Qed.

(** ** What the deduplicator computes *)

Definition writes_to (k : StorageKey) (ws : list StorageLogWithPreviousValue) :
    list StorageLogWithPreviousValue :=
  filter (fun l => log_key (log l) = k) ws.

(** Value of a slot before the first write to it, and the last value written. *)
Definition first_previous (ws : list StorageLogWithPreviousValue) (k : StorageKey) : option Z :=
  previous_value <$> head (writes_to k ws).

Definition last_written (ws : list StorageLogWithPreviousValue) (k : StorageKey) : option Z :=
  (fun l => log_value (log l)) <$> last (writes_to k ws).

(** The slot is modified when its last value differs from the one it started with. *)
Definition net_change (ws : list StorageLogWithPreviousValue) (k : StorageKey) :
    option ModifiedSlot :=
  i ← first_previous ws k;
  v ← last_written ws k;
  if i =? v then None else Some {| value := v; slot_size := value_size i v |}.

(** The counters for a set of modified slots, given which slots are written initially. *)
Definition metrics_of (initially : StorageKey -> bool) (m : gmap StorageKey ModifiedSlot) :
    DeduplicatedWritesMetrics :=
  {| initial_storage_writes := wrap 64 (map_sum (fun k _ => Z.b2z (initially k)) m);
     repeated_storage_writes := wrap 64 (map_sum (fun k _ => Z.b2z (negb (initially k))) m);
     total_updated_values_size := wrap 64 (map_sum (fun _ s => slot_size s) m) |}.

Lemma writes_to_snoc k ws l :
  writes_to k (ws ++ [l]) =
    if decide (log_key (log l) = k) then writes_to k ws ++ [l] else writes_to k ws.
Proof.
  unfold writes_to. rewrite filter_app, filter_cons. case_decide; cbn; by rewrite ?app_nil_r.
Qed.

Lemma first_previous_snoc ws l k :
  first_previous (ws ++ [l]) k =
    if decide (log_key (log l) = k) then
      Some (default (previous_value l) (first_previous ws k))
    else first_previous ws k.
Proof.
  unfold first_previous. rewrite writes_to_snoc. case_decide; [|done].
  by destruct (writes_to k ws).
Qed.

Lemma last_written_snoc ws l k :
  last_written (ws ++ [l]) k =
    if decide (log_key (log l) = k) then Some (log_value (log l)) else last_written ws k.
Proof.
  unfold last_written. rewrite writes_to_snoc. case_decide; [|done]. by rewrite last_snoc.
Qed.

Lemma wrap_add_l w a b : wrap w (wrap w a + b) = wrap w (a + b).
Proof. apply Zplus_mod_idemp_l. Qed.

Section NetChange.
Variable initially : StorageKey -> bool.

(** The state after the write logs [ws]. *)
Record tracks (ws : list StorageLogWithPreviousValue) (d : StorageWritesDeduplicator) : Prop := {
  tracks_initial : forall k, initial_values d !! k = first_previous ws k;
  tracks_modified : forall k, modified_key_values d !! k = net_change ws k;
  tracks_metrics : metrics d = metrics_of initially (modified_key_values d);
}.

Lemma change_metrics_delete m k slot :
  m !! k = Some slot ->
  change_metrics (metrics_of initially m) (initially k) (-1) (- slot_size slot)
  = metrics_of initially (delete k m).
Proof.
  intros Hk. unfold change_metrics, metrics_of. rewrite !(map_sum_delete _ _ _ _ Hk). cbn.
  rewrite !wrap_add_l. destruct (initially k); cbn; rewrite Z.sub_0_r; f_equal; f_equal; lia.
Qed.

Lemma change_metrics_update m k old slot :
  m !! k = Some old ->
  change_metrics (metrics_of initially m) (initially k) 0 (- slot_size old + slot_size slot)
  = metrics_of initially (<[k := slot]> m).
Proof.
  intros Hk. unfold change_metrics, metrics_of. rewrite !(map_sum_insert_Some _ _ _ _ _ Hk). cbn.
  rewrite !wrap_add_l. destruct (initially k); cbn; f_equal; f_equal; lia.
Qed.

Lemma change_metrics_insert m k slot :
  m !! k = None ->
  change_metrics (metrics_of initially m) (initially k) 1 (slot_size slot)
  = metrics_of initially (<[k := slot]> m).
Proof.
  intros Hk. unfold change_metrics, metrics_of. rewrite !map_sum_insert_None by done. cbn.
  rewrite !wrap_add_l. destruct (initially k); cbn; f_equal; f_equal; lia.
Qed.

Lemma process_write_tracks ws d u l :
  tracks ws d -> bool_decide (log_kind (log l) = InitialWrite) = initially (log_key (log l)) ->
  exists d' u', process_write (d, u) l = Ret (d', u') /\ tracks (ws ++ [l]) d'.
Proof.
  intros [Hi Hm Hmet] Hkind. unfold process_write. rewrite Hkind.
  set (k := log_key (log l)) in *. rewrite Hi.
  set (iv := default (previous_value l) (first_previous ws k)).
  assert (forall k', <[k := iv]> (initial_values d) !! k' = first_previous (ws ++ [l]) k') as Hi'.
  { intros k'. rewrite first_previous_snoc. fold k. destruct (decide (k = k')) as [<-|Hk].
    - by rewrite lookup_insert_eq.
    - by rewrite lookup_insert_ne. }
  assert (forall k', net_change (ws ++ [l]) k' =
    if decide (k = k') then
      if iv =? log_value (log l) then None
      else Some {| value := log_value (log l); slot_size := value_size iv (log_value (log l)) |}
    else modified_key_values d !! k') as Hnet.
  { intros k'. unfold net_change. rewrite first_previous_snoc, last_written_snoc. fold k.
    destruct (decide (k = k')) as [<-|Hk]; [done|]. by rewrite Hm. }
  destruct (modified_key_values d !! k) as [slot|] eqn:Hslot;
    [rewrite bool_decide_eq_true_2 by done
    |rewrite bool_decide_eq_false_2 by (intros [? ?]; congruence)];
    destruct (iv =? log_value (log l)) eqn:Hiv; cbn;
    (do 2 eexists; split; [done|]); (split; cbn; [exact Hi'| |rewrite Hmet]).
  all: try (intros k'; rewrite Hnet; destruct (decide (k = k')) as [<-|?];
    rewrite ?lookup_delete_eq, ?lookup_delete_ne, ?lookup_insert_eq, ?lookup_insert_ne by done; done).
  - by apply change_metrics_delete.
  - by apply (change_metrics_update _ _ _ {| value := _; slot_size := _ |}).
  - done.
  - by apply (change_metrics_insert _ _ {| value := _; slot_size := _ |}).
Qed.

Lemma process_writes_track ws' : forall ws d u,
  tracks ws d ->
  Forall (fun l => bool_decide (log_kind (log l) = InitialWrite) = initially (log_key (log l))) ws' ->
  exists d' u', foldM process_write (d, u) ws' = Ret (d', u') /\ tracks (ws ++ ws') d'.
Proof.
  induction ws' as [|l ws' IH]; intros ws d u Ht Hall.
  { exists d, u. by rewrite app_nil_r. }
  apply Forall_cons in Hall as [Hl Hall].
  destruct (process_write_tracks ws d u l Ht Hl) as (d1 & u1 & Hstep & Ht1).
  destruct (IH (ws ++ [l]) d1 u1 Ht1 Hall) as (d2 & u2 & Hrun & Ht2).
  exists d2, u2. cbn [foldM]. rewrite Hstep, outcome_Ret_bind. split; [done|].
  by rewrite <- app_assoc in Ht2.
Qed.
End NetChange.

(** C28: The deduplicator computes net changes.  After applying any logs to an empty
    deduplicator, the modified slots are exactly those whose last written value differs
    from the value before the first write, each with its last value and the size of its
    compressed update, and the metrics (as 64-bit counters) count the initially and the
    repeatedly written ones among them and add up their sizes; slots are assumed to be
    written either always initially or always repeatedly within the batch. *)
Theorem apply_computes_net_changes initially logs :
  Forall (fun l => bool_decide (log_kind (log l) = InitialWrite) = initially (log_key (log l)))
    (writes logs) ->
  exists d, apply new logs = Ret d /\
    (forall k, modified_key_values d !! k = net_change (writes logs) k) /\
    metrics d = metrics_of initially (modified_key_values d) /\
    apply_on_empty_state logs = Ret (metrics d).
Proof.
  intros Hall. destruct (process_writes_track initially (writes logs) [] new []) as (d & u & Hrun & Ht);
    [|exact Hall|].
  { by split. }
  exists d. unfold apply_on_empty_state, apply, process_storage_logs. fold (writes logs).
  rewrite Hrun, !outcome_Ret_bind. destruct Ht. done.
Qed.

(** ** Concrete inputs *)

Definition write (kind : StorageLogKind) (slot previous_value value : Z) :
    StorageLogWithPreviousValue :=
  {| log := {| log_kind := kind; log_key := StorageKey_new 1 slot; log_value := value |};
     previous_value := previous_value |}.

Definition example_logs : list StorageLogWithPreviousValue :=
  [write InitialWrite 1 0 5; write Read 1 5 5; write RepeatedWrite 2 7 9;
   write RepeatedWrite 2 9 7; write RepeatedWrite 3 7 8].

Definition example_initially (k : StorageKey) : bool := key k =? 1.

Definition example_start (k : StorageKey) : Z := if key k =? 1 then 0 else 7.

Lemma apply_computes_net_changes_witness :
  exists d, apply new example_logs = Ret d /\
    modified_key_values d !! StorageKey_new 1 1 = Some {| value := 5; slot_size := 2 |} /\
    modified_key_values d !! StorageKey_new 1 2 = None /\
    metrics d = {| initial_storage_writes := 1; repeated_storage_writes := 1;
                   total_updated_values_size := 4 |}.
Proof.
  destruct (apply_computes_net_changes example_initially example_logs) as (d & Hd & Hm & Hmet & He).
  { repeat constructor. }
  exists d. split; [exact Hd|]. rewrite !Hm. split; [vm_compute; reflexivity|].
  split; [vm_compute; reflexivity|].
  assert (apply_on_empty_state example_logs =
    Ret {| initial_storage_writes := 1; repeated_storage_writes := 1;
           total_updated_values_size := 4 |}) as Hc by (vm_compute; reflexivity).
  rewrite Hc in He. injection He as <-. reflexivity.
Defined.

Lemma apply_and_rollback_transparent_witness :
  exists d' m, apply_and_rollback new example_logs = Ret (d', m) /\
    total_updated_values_size m = 4 /\ metrics d' = metrics new.
Proof.
  destruct (apply_and_rollback_transparent example_start new example_logs example_logs)
    as (d' & m & d1 & d2 & d2' & Hrb & [_ Hsame] & Hap & Hmet & _).
  - repeat split; discriminate.
  - intros k v Hk. discriminate Hk.
  - repeat (split; [try (right; reflexivity); left; set_solver|]). exact I.
  - repeat (split; [try (right; reflexivity); left; set_solver|]). exact I.
  - exists d', m. split; [exact Hrb|]. split; [|exact Hsame].
    assert (apply_on_empty_state example_logs = Ret m) as He.
    { unfold apply_on_empty_state. rewrite Hap, Hmet. reflexivity. }
    vm_compute in He. injection He as <-. reflexivity.
Defined.
