(* ===== verification/StorageView.v ===== *)
(** * Storage of the VM

    Model of [src/core/lib/vm_interface/src/storage]: the [ReadStorage] interface
    ([mod.rs]), the in-memory storage ([in_memory.rs]) and the caching view through which the
    VM reads and writes ([view.rs]).  Methods take [&mut self], so they return the new state.
    The view and the immutable view over it share one state.  Time measurements are left out. *)

From S2P Require Import Prelude Bytes Utils Storage.
Open Scope Z_scope.

(** ** The interface *)

(** [trait ReadStorage] *)
Class ReadStorage (S : Type) := {
  read_value : S -> StorageKey -> S * Z;
  is_write_initial : S -> StorageKey -> S * bool;
  load_factory_dep : S -> Z -> S * option (list Z);
  get_enumeration_index : S -> StorageKey -> S * option Z;
}.

(** The default method [ReadStorage::is_bytecode_known]. *)
Definition is_bytecode_known {S} `{ReadStorage S} (s : S) (bytecode_hash : Z) : S * bool :=
  let code_key := get_known_code_key bytecode_hash in
  let '(s, value) := read_value s code_key in
  (s, negb (value =? 0)).

(** What a storage answers. *)
Record Contents := {
  value_at : StorageKey -> Z;
  initial_at : StorageKey -> bool;
  dep_at : Z -> option (list Z);
  index_at : StorageKey -> option Z;
}.

#[export] Instance Contents_equiv : Equiv Contents := fun c1 c2 =>
  (forall k, value_at c1 k = value_at c2 k) /\ (forall k, initial_at c1 k = initial_at c2 k) /\
  (forall h, dep_at c1 h = dep_at c2 h) /\ (forall k, index_at c1 k = index_at c2 k).

#[export] Instance Contents_equivalence : Equivalence (≡@{Contents}).
Proof.
  split.
  - by intros c.
  - intros c1 c2 (H1 & H2 & H3 & H4). by repeat split.
  - intros c1 c2 c3 (H1 & H2 & H3 & H4) (G1 & G2 & G3 & G4).
    split_and!; intros; etransitivity; eauto.
Qed.

#[export] Instance value_at_proper : Proper ((≡) ==> eq ==> eq) value_at.
Proof. intros c1 c2 (H & _) k ? <-. apply H. Qed.
#[export] Instance initial_at_proper : Proper ((≡) ==> eq ==> eq) initial_at.
Proof. intros c1 c2 (_ & H & _) k ? <-. apply H. Qed.
#[export] Instance dep_at_proper : Proper ((≡) ==> eq ==> eq) dep_at.
Proof. intros c1 c2 (_ & _ & H & _) k ? <-. apply H. Qed.
#[export] Instance index_at_proper : Proper ((≡) ==> eq ==> eq) index_at.
Proof. intros c1 c2 (_ & _ & _ & H) k ? <-. apply H. Qed.

(** A read that answers from the contents and does not change them. *)
Definition answers {S A} (valid : S -> Prop) (contents : S -> Contents) (s : S) (r : S * A) (a : A) :
    Prop :=
  r.2 = a /\ valid r.1 /\ contents r.1 ≡ contents s.

(** Storages that behave like their contents, in valid states. *)
Class ReadStorageSpec (S : Type) `{ReadStorage S} := {
  valid : S -> Prop;
  contents : S -> Contents;
  read_value_spec s k :
    valid s -> answers valid contents s (read_value s k) (value_at (contents s) k);
  is_write_initial_spec s k :
    valid s -> answers valid contents s (is_write_initial s k) (initial_at (contents s) k);
  load_factory_dep_spec s h :
    valid s -> answers valid contents s (load_factory_dep s h) (dep_at (contents s) h);
  get_enumeration_index_spec s k :
    valid s -> answers valid contents s (get_enumeration_index s k) (index_at (contents s) k);
}.

(** ** in_memory.rs *)

Record InMemoryStorage := {
  mem_state : gmap Z (Z * Z);
  mem_factory_deps : gmap Z (list Z);
  last_enum_index_set : Z;
}.

Definition in_memory_default : InMemoryStorage :=
  {| mem_state := ∅; mem_factory_deps := ∅; last_enum_index_set := 0 |}.

Section InMemory.
Variable blake2s256 : list Z -> list Z.

Definition set_value_hashed_enum (s : InMemoryStorage) (key enum_index_set value : Z) :
    InMemoryStorage :=
  {| mem_state :=
       match mem_state s !! key with
       | Some (_, index) => <[key := (value, index)]> (mem_state s)
       | None => <[key := (value, enum_index_set)]> (mem_state s)
       end;
     mem_factory_deps := mem_factory_deps s;
     last_enum_index_set := last_enum_index_set s |}.

(** [InMemoryStorage::set_value] *)
Definition in_memory_set_value (s : InMemoryStorage) (key : StorageKey) (value : Z) :
    InMemoryStorage :=
  let hashed := hashed_key blake2s256 key in
  match mem_state s !! hashed with
  | Some (_, index) =>
      {| mem_state := <[hashed := (value, index)]> (mem_state s);
         mem_factory_deps := mem_factory_deps s;
         last_enum_index_set := last_enum_index_set s |}
  | None =>
      let index := wrap 64 (last_enum_index_set s + 1) in
      {| mem_state := <[hashed := (value, index)]> (mem_state s);
         mem_factory_deps := mem_factory_deps s;
         last_enum_index_set := index |}
  end.

Definition store_factory_dep (s : InMemoryStorage) (hash : Z) (bytecode : list Z) :
    InMemoryStorage :=
  {| mem_state := mem_state s;
     mem_factory_deps := <[hash := bytecode]> (mem_factory_deps s);
     last_enum_index_set := last_enum_index_set s |}.

#[export] Instance in_memory_read : ReadStorage InMemoryStorage := {
  read_value s k := (s, default 0 (fst <$> mem_state s !! hashed_key blake2s256 k));
  is_write_initial s k := (s, bool_decide (mem_state s !! hashed_key blake2s256 k = None));
  load_factory_dep s h := (s, mem_factory_deps s !! h);
  get_enumeration_index s k := (s, snd <$> mem_state s !! hashed_key blake2s256 k);
}.

Definition in_memory_contents (s : InMemoryStorage) : Contents :=
  {| value_at k := default 0 (fst <$> mem_state s !! hashed_key blake2s256 k);
     initial_at k := bool_decide (mem_state s !! hashed_key blake2s256 k = None);
     dep_at h := mem_factory_deps s !! h;
     index_at k := snd <$> mem_state s !! hashed_key blake2s256 k |}.

#[export] Instance in_memory_spec : ReadStorageSpec InMemoryStorage.
Proof. refine {| valid _ := True; contents := in_memory_contents |}; by intros. Defined.
End InMemory.

(** ** view.rs *)

Record StorageViewMetrics := {
  cache_size_bytes : Z;
  storage_invocations_missed : Z;
  get_value_storage_invocations : Z;
  set_value_storage_invocations : Z;
}.

Record StorageViewCache := {
  read_storage_keys : gmap StorageKey Z;
  initial_writes : gmap StorageKey bool;
}.

Record StorageView (S : Type) := {
  storage_handle : S;
  modified_storage_keys : gmap StorageKey Z;
  cache : StorageViewCache;
  view_metrics : StorageViewMetrics;
}.
Arguments storage_handle {S} _.
Arguments modified_storage_keys {S} _.
Arguments cache {S} _.
Arguments view_metrics {S} _.
Arguments Build_StorageView {S} _ _ _ _.

Section View.
Context {S : Type} `{!ReadStorage S}.
Implicit Types (v : StorageView S) (k : StorageKey).

Definition view_new (storage_handle : S) : StorageView S :=
  {| storage_handle := storage_handle;
     modified_storage_keys := ∅;
     cache := {| read_storage_keys := ∅; initial_writes := ∅ |};
     view_metrics := {| cache_size_bytes := 0; storage_invocations_missed := 0;
                        get_value_storage_invocations := 0;
                        set_value_storage_invocations := 0 |} |}.

Definition count_missed (m : StorageViewMetrics) : StorageViewMetrics :=
  {| cache_size_bytes := cache_size_bytes m;
     storage_invocations_missed := wrap 64 (storage_invocations_missed m + 1);
     get_value_storage_invocations := get_value_storage_invocations m;
     set_value_storage_invocations := set_value_storage_invocations m |}.

Definition count_get (m : StorageViewMetrics) : StorageViewMetrics :=
  {| cache_size_bytes := cache_size_bytes m;
     storage_invocations_missed := storage_invocations_missed m;
     get_value_storage_invocations := wrap 64 (get_value_storage_invocations m + 1);
     set_value_storage_invocations := set_value_storage_invocations m |}.

Definition count_set (m : StorageViewMetrics) : StorageViewMetrics :=
  {| cache_size_bytes := cache_size_bytes m;
     storage_invocations_missed := storage_invocations_missed m;
     get_value_storage_invocations := get_value_storage_invocations m;
     set_value_storage_invocations := wrap 64 (set_value_storage_invocations m + 1) |}.

(** Reads the value from the underlying storage and caches it. *)
Definition read_missed v k : StorageView S * Z :=
  let '(handle, value) := read_value (storage_handle v) k in
  ({| storage_handle := handle;
      modified_storage_keys := modified_storage_keys v;
      cache := {| read_storage_keys := <[k := value]> (read_storage_keys (cache v));
                  initial_writes := initial_writes (cache v) |};
      view_metrics := count_missed (view_metrics v) |}, value).

Definition get_value_no_log v k : StorageView S * Z :=
  let cached_value :=
    match modified_storage_keys v !! k with
    | Some value => Some value
    | None => read_storage_keys (cache v) !! k
    end in
  match cached_value with
  | Some value => (v, value)
  | None => read_missed v k
  end.

(** [mem::size_of] of the entries: a key takes 52 bytes, a value 32. *)
Definition cache_size v : Z :=
  Z.of_nat (size (modified_storage_keys v)) * 84
  + Z.of_nat (size (initial_writes (cache v))) * 53
  + Z.of_nat (size (read_storage_keys (cache v))) * 84.

Definition metrics v : StorageViewMetrics :=
  {| cache_size_bytes := cache_size v;
     storage_invocations_missed := storage_invocations_missed (view_metrics v);
     get_value_storage_invocations := get_value_storage_invocations (view_metrics v);
     set_value_storage_invocations := set_value_storage_invocations (view_metrics v) |}.

Definition with_metrics v (m : StorageViewMetrics) : StorageView S :=
  {| storage_handle := storage_handle v; modified_storage_keys := modified_storage_keys v;
     cache := cache v; view_metrics := m |}.

Definition with_handle v (handle : S) : StorageView S :=
  {| storage_handle := handle; modified_storage_keys := modified_storage_keys v;
     cache := cache v; view_metrics := view_metrics v |}.

Definition view_read_value v k : StorageView S * Z :=
  get_value_no_log (with_metrics v (count_get (view_metrics v))) k.

Definition view_is_write_initial v k : StorageView S * bool :=
  match initial_writes (cache v) !! k with
  | Some is_write_initial => (v, is_write_initial)
  | None =>
      let '(handle, is_write_initial) := is_write_initial (storage_handle v) k in
      ({| storage_handle := handle;
          modified_storage_keys := modified_storage_keys v;
          cache := {| read_storage_keys := read_storage_keys (cache v);
                      initial_writes := <[k := is_write_initial]> (initial_writes (cache v)) |};
          view_metrics := view_metrics v |}, is_write_initial)
  end.

#[export] Instance view_read : ReadStorage (StorageView S) := {
  read_value := view_read_value;
  is_write_initial := view_is_write_initial;
  load_factory_dep v h :=
    let '(handle, dep) := load_factory_dep (storage_handle v) h in (with_handle v handle, dep);
  get_enumeration_index v k :=
    let '(handle, index) := get_enumeration_index (storage_handle v) k in
    (with_handle v handle, index);
}.

(** [WriteStorage::set_value] *)
Definition set_value v k (value : Z) : StorageView S * Z :=
  let '(v, original) := get_value_no_log (with_metrics v (count_set (view_metrics v))) k in
  ({| storage_handle := storage_handle v;
      modified_storage_keys := <[k := value]> (modified_storage_keys v);
      cache := cache v;
      view_metrics := view_metrics v |}, original).

Definition missed_storage_invocations v : Z := storage_invocations_missed (view_metrics v).
End View.

(** [trait WriteStorage], implemented by the view. *)
Class WriteStorage (S : Type) `{!ReadStorage S} := {
  write_read_storage_keys : S -> gmap StorageKey Z;
  write_set_value : S -> StorageKey -> Z -> S * Z;
  write_modified_storage_keys : S -> gmap StorageKey Z;
  write_missed_storage_invocations : S -> Z;
}.

#[export] Instance view_write {S} `{!ReadStorage S} : WriteStorage (StorageView S) := {
  write_read_storage_keys v := read_storage_keys (cache v);
  write_set_value := set_value;
  write_modified_storage_keys := modified_storage_keys;
  write_missed_storage_invocations := missed_storage_invocations;
}.

(** A write changes the value of its key only. *)
Definition with_value (c : Contents) (k : StorageKey) (x : Z) : Contents :=
  {| value_at k' := if decide (k = k') then x else value_at c k';
     initial_at := initial_at c; dep_at := dep_at c; index_at := index_at c |}.

#[export] Instance with_value_proper : Proper ((≡) ==> eq ==> eq ==> (≡)) with_value.
Proof.
  intros c c' Hc k ? <- x ? <-. split_and!; cbn; [|apply Hc..].
  intros k'. case_decide; [done|]. by rewrite Hc.
Qed.

Class WriteStorageSpec (S : Type) `{!ReadStorage S, !ReadStorageSpec S, !WriteStorage S} :=
  write_set_value_spec (s : S) k x :
    valid s ->
    (write_set_value s k x).2 = value_at (contents s) k /\ valid (write_set_value s k x).1 /\
    contents (write_set_value s k x).1 ≡ with_value (contents s) k x.

(** [ImmutableStorageView]: shares the state of the view. *)
Record ImmutableStorageView (S : Type) := Immutable { shared_view : StorageView S }.
Arguments Immutable {S} _.
Arguments shared_view {S} _.

Section ImmutableView.
Context {S : Type} `{!ReadStorage S}.

Definition immutable_read_value (i : ImmutableStorageView S) (k : StorageKey) :
    ImmutableStorageView S * Z :=
  match read_storage_keys (cache (shared_view i)) !! k with
  | Some value => (i, value)
  | None => let '(v, value) := read_missed (shared_view i) k in (Immutable v, value)
  end.

#[export] Instance immutable_read : ReadStorage (ImmutableStorageView S) := {
  read_value := immutable_read_value;
  is_write_initial i k :=
    let '(v, r) := is_write_initial (shared_view i) k in (Immutable v, r);
  load_factory_dep i h :=
    let '(v, r) := load_factory_dep (shared_view i) h in (Immutable v, r);
  get_enumeration_index i k :=
    let '(v, r) := get_enumeration_index (shared_view i) k in (Immutable v, r);
}.
End ImmutableView.

(** ** The view behaves like an overlay over the contents of the storage *)

Section ViewSpec.
Context {S : Type} `{!ReadStorage S, !ReadStorageSpec S}.
Implicit Types (v : StorageView S) (k : StorageKey).

Definition base v : Contents := contents (storage_handle v).

Record view_valid v : Prop := {
  handle_valid : valid (storage_handle v);
  reads_cached : forall k x, read_storage_keys (cache v) !! k = Some x -> x = value_at (base v) k;
  initial_cached : forall k b, initial_writes (cache v) !! k = Some b -> b = initial_at (base v) k;
  modified_read : dom (modified_storage_keys v) ⊆ dom (read_storage_keys (cache v));
  missed_counted :
    missed_storage_invocations v = wrap 64 (Z.of_nat (size (dom (read_storage_keys (cache v)))));
}.

Definition view_contents v : Contents :=
  {| value_at k := default (value_at (base v) k) (modified_storage_keys v !! k);
     initial_at := initial_at (base v); dep_at := dep_at (base v); index_at := index_at (base v) |}.

(** What a read through the cache leaves behind. *)
Record cached v v' k : Prop := {
  cached_valid : view_valid v';
  cached_base : base v' ≡ base v;
  cached_modified : modified_storage_keys v' = modified_storage_keys v;
  cached_keys : dom (read_storage_keys (cache v')) = {[k]} ∪ dom (read_storage_keys (cache v));
}.

Lemma view_contents_equiv v v' :
  base v' ≡ base v -> modified_storage_keys v' = modified_storage_keys v ->
  view_contents v' ≡ view_contents v.
Proof.
  intros Hb Hm. split_and!; cbn; [|apply Hb..]. intros k. rewrite Hm. by rewrite Hb.
Qed.

Lemma with_metrics_valid v m :
  view_valid v -> storage_invocations_missed m = missed_storage_invocations v ->
  view_valid (with_metrics v m).
Proof. intros [H1 H2 H3 H4 H5] Hm. split; try done. unfold missed_storage_invocations in *. cbn. congruence. Qed.

Lemma read_missed_spec v k :
  view_valid v -> read_storage_keys (cache v) !! k = None ->
  (read_missed v k).2 = value_at (base v) k /\ cached v (read_missed v k).1 k.
Proof.
  intros [Hv Hr Hi Hm Hc] Hk. unfold read_missed.
  destruct (read_value_spec (storage_handle v) k Hv) as (Hval & Hv' & Hb).
  destruct (read_value (storage_handle v) k) as [h x]. cbn in *. split; [done|].
  fold (base v) in *. split; cbn; [split; cbn|done|done|by rewrite dom_insert_L].
  - done.
  - unfold base. cbn. intros k' x'. rewrite Hb, lookup_insert_Some.
    intros [[<- <-]|[_ Hx']]; [done|by apply Hr].
  - unfold base. cbn. intros k' b. rewrite Hb. apply Hi.
  - rewrite dom_insert_L. set_solver.
  - unfold missed_storage_invocations in *. cbn. rewrite Hc, dom_insert_L, size_union, size_singleton.
    + unfold wrap. rewrite Zplus_mod_idemp_l. f_equal. lia.
    + apply not_elem_of_dom in Hk. set_solver.
Qed.

Lemma cached_refl v k :
  view_valid v -> k ∈ dom (read_storage_keys (cache v)) -> cached v v k.
Proof. intros Hv Hk. split; [done..|]. set_solver. Qed.

Lemma get_value_no_log_spec v k :
  view_valid v ->
  (get_value_no_log v k).2 = value_at (view_contents v) k /\ cached v (get_value_no_log v k).1 k.
Proof.
  intros Hv. unfold get_value_no_log. cbn.
  destruct (modified_storage_keys v !! k) as [x|] eqn:Hm; cbn.
  { split; [done|]. apply cached_refl; [done|]. apply (modified_read _ Hv).
    apply elem_of_dom. by exists x. }
  destruct (read_storage_keys (cache v) !! k) as [x|] eqn:Hr; cbn.
  - split; [by apply (reads_cached _ Hv)|]. apply cached_refl; [done|].
    apply elem_of_dom. by exists x.
  - by apply read_missed_spec.
Qed.

Lemma view_read_value_spec v k :
  view_valid v ->
  (view_read_value v k).2 = value_at (view_contents v) k /\ cached v (view_read_value v k).1 k.
Proof.
  intros Hv. unfold view_read_value.
  destruct (get_value_no_log_spec (with_metrics v (count_get (view_metrics v))) k) as [Hx [H1 H2 H3 H4]];
    [by apply with_metrics_valid|]. split; [done|]. by split.
Qed.

Lemma set_value_spec v k x :
  view_valid v ->
  (set_value v k x).2 = value_at (view_contents v) k /\ view_valid (set_value v k x).1 /\
  base (set_value v k x).1 ≡ base v /\
  modified_storage_keys (set_value v k x).1 = <[k := x]> (modified_storage_keys v) /\
  dom (read_storage_keys (cache (set_value v k x).1)) = {[k]} ∪ dom (read_storage_keys (cache v)).
Proof.
  intros Hv. unfold set_value.
  destruct (get_value_no_log_spec (with_metrics v (count_set (view_metrics v))) k)
    as [Hx [[H1 H2 H3 H4 H5] Hb Hm Hk]]; [by apply with_metrics_valid|].
  destruct (get_value_no_log _ k) as [v' o]. cbn in *.
  split_and!; [done| |done|by rewrite Hm|done].
  split; cbn; try done. rewrite dom_insert_L, Hk. rewrite Hm in *. rewrite Hk in H4. set_solver.
Qed.

Lemma view_is_write_initial_spec v k :
  view_valid v ->
  (view_is_write_initial v k).2 = initial_at (base v) k /\
  view_valid (view_is_write_initial v k).1 /\ base (view_is_write_initial v k).1 ≡ base v /\
  modified_storage_keys (view_is_write_initial v k).1 = modified_storage_keys v /\
  read_storage_keys (cache (view_is_write_initial v k).1) = read_storage_keys (cache v).
Proof.
  intros Hv. unfold view_is_write_initial.
  destruct (initial_writes (cache v) !! k) as [b|] eqn:Hi.
  { split_and!; try done. by apply (initial_cached _ Hv). }
  destruct Hv as [Hv Hr Hin Hm Hc].
  destruct (is_write_initial_spec (storage_handle v) k Hv) as (Hb & Hv' & Hcon).
  destruct (is_write_initial (storage_handle v) k) as [h b]. cbn in *. fold (base v) in *.
  split_and!; try done. split; cbn; try done; unfold base; cbn.
  - intros k' x. rewrite Hcon. apply Hr.
  - intros k' b'. rewrite Hcon, lookup_insert_Some. intros [[<- <-]|[_ H]]; [done|by apply Hin].
Qed.

Lemma with_handle_spec v h :
  view_valid v -> valid h -> contents h ≡ base v -> view_valid (with_handle v h).
Proof.
  intros [H1 H2 H3 H4 H5] Hh Hc. split; cbn; try done; unfold base; cbn; intros k x; rewrite Hc; auto.
Qed.

Lemma load_factory_dep_view v h :
  view_valid v ->
  (load_factory_dep v h).2 = dep_at (base v) h /\ view_valid (load_factory_dep v h).1 /\
  base (load_factory_dep v h).1 ≡ base v /\
  modified_storage_keys (load_factory_dep v h).1 = modified_storage_keys v /\
  cache (load_factory_dep v h).1 = cache v.
Proof.
  intros Hv. cbn.
  destruct (load_factory_dep_spec (storage_handle v) h (handle_valid _ Hv)) as (Hd & Hh & Hc).
  destruct (load_factory_dep (storage_handle v) h) as [h' d]. cbn in *.
  split_and!; try done. by apply with_handle_spec.
Qed.

Lemma get_enumeration_index_view v k :
  view_valid v ->
  (get_enumeration_index v k).2 = index_at (base v) k /\ view_valid (get_enumeration_index v k).1 /\
  base (get_enumeration_index v k).1 ≡ base v /\
  modified_storage_keys (get_enumeration_index v k).1 = modified_storage_keys v /\
  cache (get_enumeration_index v k).1 = cache v.
Proof.
  intros Hv. cbn.
  destruct (get_enumeration_index_spec (storage_handle v) k (handle_valid _ Hv)) as (Hd & Hh & Hc).
  destruct (get_enumeration_index (storage_handle v) k) as [h' d]. cbn in *.
  split_and!; try done. by apply with_handle_spec.
Qed.

(** The view is again a storage that behaves like its contents. *)
#[export] Instance view_spec : ReadStorageSpec (StorageView S).
Proof.
  refine {| valid := view_valid; contents := view_contents |}; intros v k Hv.
  - destruct (view_read_value_spec v k Hv) as [Hx [H1 H2 H3 _]]. split; [done|].
    split; [done|]. by apply view_contents_equiv.
  - destruct (view_is_write_initial_spec v k Hv) as (Hx & H1 & H2 & H3 & _). split; [done|].
    split; [done|]. by apply view_contents_equiv.
  - destruct (load_factory_dep_view v k Hv) as (Hx & H1 & H2 & H3 & _). split; [done|].
    split; [done|]. by apply view_contents_equiv.
  - destruct (get_enumeration_index_view v k Hv) as (Hx & H1 & H2 & H3 & _). split; [done|].
    split; [done|]. by apply view_contents_equiv.
Defined.

Lemma immutable_read_value_spec v k :
  view_valid v ->
  (immutable_read_value (Immutable v) k).2 = value_at (base v) k /\
  cached v (shared_view (immutable_read_value (Immutable v) k).1) k.
Proof.
  intros Hv. unfold immutable_read_value. cbn [shared_view].
  destruct (read_storage_keys (cache v) !! k) as [x|] eqn:Hr.
  - split; [by apply (reads_cached _ Hv)|]. apply cached_refl; [done|]. apply elem_of_dom. by exists x.
  - pose proof (read_missed_spec v k Hv Hr) as Hm. by destruct (read_missed v k).
Qed.

(** The immutable view behaves like the underlying storage, whatever was written. *)
#[export] Instance immutable_spec : ReadStorageSpec (ImmutableStorageView S).
Proof.
  refine {| valid i := view_valid (shared_view i); contents i := base (shared_view i) |};
    intros [v] k Hv; cbn [shared_view] in *.
  - destruct (immutable_read_value_spec v k Hv) as [Hx [H1 H2 H3 _]]. by split.
  - destruct (view_is_write_initial_spec v k Hv) as (Hx & H1 & H2 & H3 & _). cbn.
    destruct (view_is_write_initial v k). by split.
  - destruct (load_factory_dep_view v k Hv) as (Hx & H1 & H2 & H3 & _).
    unfold answers. cbn [load_factory_dep immutable_read shared_view].
    destruct (load_factory_dep v k). by split.
  - destruct (get_enumeration_index_view v k Hv) as (Hx & H1 & H2 & H3 & _).
    unfold answers. cbn [get_enumeration_index immutable_read shared_view].
    destruct (get_enumeration_index v k). by split.
Defined.

#[export] Instance view_write_spec : WriteStorageSpec (StorageView S).
Proof.
  intros v k x Hv. destruct (set_value_spec v k x Hv) as (Hx & H1 & H2 & H3 & _).
  split_and!; [done..|]. split_and!; cbn; [|apply H2..].
  intros k'. rewrite H3. destruct (decide (k = k')) as [<-|Hne].
  - by rewrite lookup_insert_eq.
  - rewrite lookup_insert_ne by done. by rewrite H2.
Qed.

(** *** Sequences of operations through the view and the immutable view *)

Inductive Op : Type :=
| OpRead (k : StorageKey)
| OpWrite (k : StorageKey) (x : Z)
| OpImmutableRead (k : StorageKey)
| OpInitial (k : StorageKey)
| OpKnown (bytecode_hash : Z)
| OpDep (h : Z)
| OpIndex (k : StorageKey).

Inductive Response : Type :=
| RespValue (x : Z)
| RespBool (b : bool)
| RespDep (d : option (list Z))
| RespIndex (i : option Z).

Definition view_op v (op : Op) : StorageView S * Response :=
  match op with
  | OpRead k => let '(v, x) := read_value v k in (v, RespValue x)
  | OpWrite k x => let '(v, o) := set_value v k x in (v, RespValue o)
  | OpImmutableRead k => let '(i, x) := read_value (Immutable v) k in (shared_view i, RespValue x)
  | OpInitial k => let '(v, b) := is_write_initial v k in (v, RespBool b)
  | OpKnown h => let '(v, b) := is_bytecode_known v h in (v, RespBool b)
  | OpDep h => let '(v, d) := load_factory_dep v h in (v, RespDep d)
  | OpIndex k => let '(v, i) := get_enumeration_index v k in (v, RespIndex i)
  end.

(** The specification: a map of writes over fixed contents. *)
Definition overlay_op (c : Contents) (writes : gmap StorageKey Z) (op : Op) :
    gmap StorageKey Z * Response :=
  let current k := default (value_at c k) (writes !! k) in
  match op with
  | OpRead k => (writes, RespValue (current k))
  | OpWrite k x => (<[k := x]> writes, RespValue (current k))
  | OpImmutableRead k => (writes, RespValue (value_at c k))
  | OpInitial k => (writes, RespBool (initial_at c k))
  | OpKnown h => (writes, RespBool (negb (current (get_known_code_key h) =? 0)))
  | OpDep h => (writes, RespDep (dep_at c h))
  | OpIndex k => (writes, RespIndex (index_at c k))
  end.

(** Keys whose value the operation needs. *)
Definition touched (op : Op) : gset StorageKey :=
  match op with
  | OpRead k | OpWrite k _ | OpImmutableRead k => {[k]}
  | OpKnown h => {[get_known_code_key h]}
  | OpInitial _ | OpDep _ | OpIndex _ => ∅
  end.
End ViewSpec.

(** Runs the operations in order and collects the responses. *)
Fixpoint run_ops {A} (f : A -> Op -> A * Response) (s : A) (ops : list Op) : A * list Response :=
  match ops with
  | [] => (s, [])
  | op :: ops' =>
      let '(s, r) := f s op in
      let '(s, rs) := run_ops f s ops' in (s, r :: rs)
  end.

Section Refinement.
Context {S : Type} `{!ReadStorage S, !ReadStorageSpec S}.
Implicit Types (v : StorageView S).

Lemma view_op_refines v c op :
  view_valid v -> base v ≡ c ->
  view_valid (view_op v op).1 /\ base (view_op v op).1 ≡ c /\
  (modified_storage_keys (view_op v op).1, (view_op v op).2) =
    overlay_op c (modified_storage_keys v) op /\
  dom (read_storage_keys (cache (view_op v op).1)) = touched op ∪ dom (read_storage_keys (cache v)).
Proof.
  intros Hv Hc. destruct op as [k|k x|k|k|h|h|k]; cbn [view_op overlay_op touched].
  - destruct (view_read_value_spec v k Hv) as [Hx [H1 H2 H3 H4]]. cbn [read_value view_read].
    destruct (view_read_value v k) as [v' x]. cbn in *. subst x.
    rewrite H2, H3. split_and!; [done..| |done]. by rewrite Hc.
  - destruct (set_value_spec v k x Hv) as (Hx & H1 & H2 & H3 & H4).
    destruct (set_value v k x) as [v' o]. cbn in *. subst o.
    rewrite H2, H3. split_and!; [done..| |done]. by rewrite Hc.
  - destruct (immutable_read_value_spec v k Hv) as [Hx [H1 H2 H3 H4]]. cbn [read_value immutable_read].
    destruct (immutable_read_value (Immutable v) k) as [[v'] x]. cbn in *. subst x.
    rewrite H2, H3. split_and!; [done..| |done]. by rewrite Hc.
  - destruct (view_is_write_initial_spec v k Hv) as (Hx & H1 & H2 & H3 & H4).
    cbn [is_write_initial view_read]. destruct (view_is_write_initial v k) as [v' b]. cbn in *. subst b.
    rewrite H2, H3, H4. split_and!; [done..| |set_solver]. by rewrite Hc.
  - unfold is_bytecode_known. cbn [read_value view_read].
    destruct (view_read_value_spec v (get_known_code_key h) Hv) as [Hx [H1 H2 H3 H4]].
    destruct (view_read_value v _) as [v' x]. cbn in *. subst x.
    rewrite H2, H3. split_and!; [done..| |done]. by rewrite Hc.
  - destruct (load_factory_dep_view v h Hv) as (Hx & H1 & H2 & H3 & H4).
    destruct (load_factory_dep v h) as [v' d]. cbn in *. subst d.
    rewrite H2, H3, H4. split_and!; [done..| |set_solver]. by rewrite Hc.
  - destruct (get_enumeration_index_view v k Hv) as (Hx & H1 & H2 & H3 & H4).
    destruct (get_enumeration_index v k) as [v' i]. cbn in *. subst i.
    rewrite H2, H3, H4. split_and!; [done..| |set_solver]. by rewrite Hc.
Qed.

Lemma run_ops_refines c ops : forall v,
  view_valid v -> base v ≡ c ->
  let '(v', rs) := run_ops view_op v ops in
  view_valid v' /\ (modified_storage_keys v', rs) = run_ops (overlay_op c) (modified_storage_keys v) ops /\
  dom (read_storage_keys (cache v')) = ⋃ (touched <$> ops) ∪ dom (read_storage_keys (cache v)).
Proof.
  induction ops as [|op ops IH]; intros v Hv Hc; cbn [run_ops].
  { split_and!; [done..|]. set_solver. }
  destruct (view_op_refines v c op Hv Hc) as (H1 & H2 & H3 & H4).
  destruct (view_op v op) as [v1 r]. cbn in H1, H2, H3, H4.
  specialize (IH v1 H1 H2). destruct (run_ops view_op v1 ops) as [v' rs].
  destruct IH as (I1 & I2 & I3). rewrite <- H3, <- I2. split_and!; [done..|].
  rewrite I3, H4, fmap_cons. cbn. set_solver.
Qed.
End Refinement.

(** ** Correctness *)

(** C29: Over any storage that behaves like fixed contents, a fresh view answers every sequence of
    reads, writes and queries (its own and those of the immutable view that shares its state)
    like a map of writes over those contents: reads see the latest write, writes return the
    previous value, the immutable view and the write kinds only see the underlying storage.  The
    value of every needed key is read from the underlying storage exactly once. *)
Theorem storage_view_refines_overlay {S} `{!ReadStorage S, !ReadStorageSpec S} (s : S) ops :
  valid s ->
  let '(v, responses) := run_ops view_op (view_new s) ops in
  let '(writes, expected) := run_ops (overlay_op (contents s)) ∅ ops in
  responses = expected /\ modified_storage_keys v = writes /\
  dom (read_storage_keys (cache v)) = ⋃ (touched <$> ops) /\
  missed_storage_invocations v = wrap 64 (Z.of_nat (size (⋃ (touched <$> ops)))).
Proof.
  intros Hs. assert (view_valid (view_new s)) as Hv.
  { by split; cbn. }
  pose proof (run_ops_refines (contents s) ops (view_new s) Hv (reflexivity _)) as Href.
  destruct (run_ops view_op (view_new s) ops) as [v rs]. cbn [modified_storage_keys view_new] in Href.
  destruct (run_ops (overlay_op (contents s)) ∅ ops) as [w es].
  destruct Href as (Hvalid & [= <- <-] & Hdom). cbn in Hdom.
  rewrite dom_empty_L, (right_id_L ∅ (∪)) in Hdom.
  split_and!; [done..|]. rewrite <- Hdom. apply (missed_counted _ Hvalid).
Qed.

(** ** Instances *)

Definition sample_blake (l : list Z) : list Z := drop 32 l.

Definition sample_storage : InMemoryStorage :=
  in_memory_set_value sample_blake in_memory_default (StorageKey_new 1 5) 50.

Definition sample_ops : list Op :=
  [OpRead (StorageKey_new 1 5); OpWrite (StorageKey_new 1 5) 51; OpRead (StorageKey_new 1 5);
   OpImmutableRead (StorageKey_new 1 5); OpWrite (StorageKey_new 1 6) 60;
   OpInitial (StorageKey_new 1 6); OpInitial (StorageKey_new 1 5)].

Lemma storage_view_refines_overlay_witness :
  (run_ops (view_op (ReadStorage0 := in_memory_read sample_blake))
     (view_new sample_storage) sample_ops).2 =
  [RespValue 50; RespValue 50; RespValue 51; RespValue 50; RespValue 0; RespBool true;
   RespBool false].
Proof.
  pose proof (storage_view_refines_overlay (ReadStorageSpec0 := in_memory_spec sample_blake)
                sample_storage sample_ops I) as H.
  destruct (run_ops view_op (view_new sample_storage) sample_ops) as [v rs].
  destruct (run_ops (overlay_op (contents sample_storage)) ∅ sample_ops) as [w es] eqn:He.
  destruct H as [-> _]. vm_compute in He. injection He as _ <-. reflexivity.
Defined.
