(* ===== verification/VmHistory.v ===== *)
(** * Components of the VM with a history

    Model of [src/core/lib/multivm/src/versions/vm_latest/old_vm/history_recorder.rs]: components
    that can undo a change ([WithHistory]), the recorder that keeps the undo records of a component
    with their timestamps and rolls back to a timestamp, and the components the VM records: vectors,
    maps, framed stacks, memory, storage and transient storage.  A [Vec] grows at its end. *)

From S2P Require Import Prelude Bytes Utils Storage StorageView.
Open Scope Z_scope.

(** What the code uses of the crate [zk_evm]: the number of timestamps of a cycle, and the value of
    a memory slot that was never written. *)
Record PrimitiveValue := { pv_value : Z; is_pointer : bool }.

#[export] Instance PrimitiveValue_eq_dec : EqDecision PrimitiveValue.
Proof. solve_decision. Defined.

Class ZkEvm := {
  TIME_DELTA_PER_CYCLE : Z;
  PRIMITIVE_VALUE_EMPTY : PrimitiveValue;
}.

Class ZkEvmLaws `{!ZkEvm} := { cycle_positive : 0 < TIME_DELTA_PER_CYCLE }.

Definition UNWRAP_NONE : string := "called `Option::unwrap()` on a `None` value".

Definition normalize_timestamp `{!ZkEvm} (timestamp : Z) : Z :=
  timestamp - timestamp mod TIME_DELTA_PER_CYCLE.

(** ** Recorders *)

(** [trait WithHistory]: applies a record of type [E]; returns the record that undoes it and a value of
    type [R]. *)
Class WithHistory (T E R : Type) := apply_record : T -> E -> outcome (T * (E * R)).
#[global] Hint Mode WithHistory ! - - : typeclass_instances.

Inductive HistoryMode := HistoryEnabled | HistoryDisabled.

(** Without history the field stays empty. *)
Record HistoryRecorder (T E : Type) := { inner : T; history : list (Z * E) }.
Arguments inner {T E} _.
Arguments history {T E} _.
Arguments Build_HistoryRecorder {T E} _ _.

Section Recorder.
Context `{!ZkEvm} {T E R : Type} `{!WithHistory T E R}.
Implicit Types r : HistoryRecorder T E.

Definition from_inner (x : T) : HistoryRecorder T E := {| inner := x; history := [] |}.

Definition mutate_history (H : HistoryMode) r (f : T -> list (Z * E) -> outcome (T * list (Z * E))) :
    outcome (HistoryRecorder T E) :=
  match H with
  | HistoryEnabled => '(x, h) ← f (inner r) (history r); Ret {| inner := x; history := h |}
  | HistoryDisabled => Ret r
  end.

Definition borrow_history {B} (H : HistoryMode) r (f : list (Z * E) -> B) (default : B) : B :=
  match H with
  | HistoryEnabled => f (history r)
  | HistoryDisabled => default
  end.

Definition apply_historic_record (H : HistoryMode) r (item : E) (timestamp : Z) :
    outcome (HistoryRecorder T E * R) :=
  '(x, (reversed_item, return_value)) ← apply_record (inner r) item;
  r ← mutate_history H {| inner := x; history := history r |} (fun x h =>
        let last_recorded_timestamp := default 0 (fst <$> last h) in
        let timestamp := normalize_timestamp timestamp in
        _ ← rust_assert (last_recorded_timestamp <=? timestamp) "Timestamps are not monotonic";
        Ret (x, h ++ [(timestamp, reversed_item)]));
  Ret (r, return_value).

Definition delete_history (H : HistoryMode) r : outcome (HistoryRecorder T E) :=
  mutate_history H r (fun x _ => Ret (x, [])).

(** The loop of [rollback_to_timestamp], on the history with the last record first. *)
Fixpoint undo_records (x : T) (records : list (Z * E)) (timestamp : Z) : outcome (T * list (Z * E)) :=
  match records with
  | [] => Ret (x, [])
  | (item_timestamp, item_to_apply) :: rest =>
      if timestamp <=? item_timestamp
      then '(x, _) ← apply_record x item_to_apply; undo_records x rest timestamp
      else Ret (x, records)
  end.

Definition rollback_to_timestamp r (timestamp : Z) : outcome (HistoryRecorder T E) :=
  '(x, rest) ← undo_records (inner r) (reverse (history r)) timestamp;
  Ret {| inner := x; history := reverse rest |}.
End Recorder.

(** *** Laws of a component

    Components are compared by a partial equivalence: what a user of the component can observe, in
    states that are well formed.  Equal components react in the same way, and the record that a call
    returns undoes the call. *)
Class HistoryLaws (T E R : Type) `{!WithHistory T E R} := {
  same : relation T;
  same_per :: RelationClasses.PER same;
  apply_same x y e x' e' r :
    same x y -> apply_record x e = Ret (x', (e', r)) ->
    exists y', apply_record y e = Ret (y', (e', r)) /\ same x' y';
  apply_undo x e x' e' r :
    same x x -> apply_record x e = Ret (x', (e', r)) ->
    exists x'' e'' r', apply_record x' e' = Ret (x'', (e'', r')) /\ same x'' x;
}.
#[global] Hint Mode HistoryLaws ! - - - : typeclass_instances.

(** The last change happened before [t]. *)
Definition older {E} (t : Z) (h : list (Z * E)) : Prop := forall p, last h = Some p -> p.1 < t.

Section Rollback.
Context `{!ZkEvm} {T E R : Type} `{!WithHistory T E R, !HistoryLaws T E R}.
Implicit Types (r : HistoryRecorder T E) (x y : T) (h : list (Z * E)).

(** Applying the records in turn leads from [x] to a state like [y]. *)
Fixpoint leads_to x (records : list (Z * E)) y : Prop :=
  match records with
  | [] => same x y
  | (_, e) :: rest => exists x' e' ret, apply_record x e = Ret (x', (e', ret)) /\ leads_to x' rest y
  end.

(** Since the recorder had the state [x0] and the history [h0], only records with timestamps from
    [t] on were added, and they undo what happened. *)
Definition since (t : Z) x0 h0 r : Prop :=
  exists h, history r = h0 ++ h /\ Forall (fun p => t <= p.1) h /\ leads_to (inner r) (reverse h) x0.

Lemma leads_to_same records : forall x x' y,
  same x x' -> leads_to x records y -> leads_to x' records y.
Proof.
  induction records as [|[t e] rest IH]; intros x x' y Hx Hl; cbn in *.
  { etransitivity; [|exact Hl]. by symmetry. }
  destruct Hl as (x1 & e1 & r & Ha & Hl).
  destruct (apply_same _ _ _ _ _ _ Hx Ha) as (x1' & Ha' & Hx1). exists x1', e1, r. eauto.
Qed.

Lemma leads_to_app l1 l2 y z : forall x,
  leads_to x l1 y -> leads_to y l2 z -> leads_to x (l1 ++ l2) z.
Proof.
  induction l1 as [|[t e] l1 IH]; intros x; cbn.
  - intros Hs. apply leads_to_same. by symmetry.
  - intros (x' & e' & ret & Ha & Hl) Hz. eauto 10.
Qed.

Lemma since_refl t r : same (inner r) (inner r) -> since t (inner r) (history r) r.
Proof. intros Hx. exists []. rewrite app_nil_r. by repeat split. Qed.

(** A change that no user of the component can observe needs no record. *)
Lemma since_same t x0 h0 r r' :
  since t x0 h0 r -> same (inner r) (inner r') -> history r' = history r -> since t x0 h0 r'.
Proof.
  intros (h & Hh & Ht & Hl) Hs Hr. exists h. rewrite Hr. split_and!; [done..|].
  by eapply leads_to_same.
Qed.

Lemma since_apply t x0 h0 r item ts r' ret :
  same (inner r) (inner r) -> since t x0 h0 r -> t <= normalize_timestamp ts ->
  apply_historic_record HistoryEnabled r item ts = Ret (r', ret) ->
  since t x0 h0 r' /\ same (inner r') (inner r').
Proof.
  intros Hs (h & Hh & Ht & Hl) Hts. unfold apply_historic_record, mutate_history.
  destruct (apply_record (inner r) item) as [[x [e' ret']]|] eqn:Ha; [|done]. cbn.
  unfold rust_assert. case_match; [|done]. cbn. intros [= <- _]. cbn. split.
  - exists (h ++ [(normalize_timestamp ts, e')]). cbn. split_and!.
    + by rewrite Hh, (assoc_L (++)).
    + apply Forall_app. split; [done|]. by constructor.
    + rewrite reverse_snoc. cbn. destruct (apply_undo _ _ _ _ _ Hs Ha) as (x'' & e'' & r'' & Hu & Hx).
      exists x'', e'', r''. split; [done|]. eapply leads_to_same; [|exact Hl]. by symmetry.
  - by destruct (apply_same _ _ _ _ _ _ Hs Ha) as (y' & [= <-]%(eq_trans (eq_sym Ha)) & H').
Qed.

Lemma undo_records_leads t x0 h0 : forall h x,
  Forall (fun p => t <= p.1) h -> leads_to x h x0 ->
  (forall p, head h0 = Some p -> p.1 < t) ->
  exists x', undo_records x (h ++ h0) t = Ret (x', h0) /\ same x' x0.
Proof.
  induction h as [|[ti e] h IH]; intros x Ht Hl H0; cbn [leads_to app] in *.
  - exists x. split; [|done]. destruct h0 as [|[ti e] h0]; [done|]. cbn.
    specialize (H0 _ eq_refl). cbn in H0. by rewrite (proj2 (Z.leb_gt _ _)).
  - destruct Hl as (x1 & e1 & r & Ha & Hl). inversion Ht as [|? ? Hti Ht']; subst. cbn in *.
    rewrite (proj2 (Z.leb_le _ _)) by done. rewrite Ha. cbn. by apply IH.
Qed.

(** Rolling back restores the state and the history. *)
Lemma since_rollback t x0 h0 r :
  since t x0 h0 r -> older t h0 ->
  exists r', rollback_to_timestamp r t = Ret r' /\ same (inner r') x0 /\ history r' = h0.
Proof.
  intros (h & Hh & Ht & Hl) H0. unfold rollback_to_timestamp. rewrite Hh, reverse_app.
  destruct (undo_records_leads t x0 (reverse h0) (reverse h) (inner r)) as (x' & -> & Hx).
  - by apply Forall_reverse.
  - done.
  - intros p. rewrite head_reverse. apply H0.
  - cbn. eexists. split; [done|]. cbn. by rewrite reverse_involutive.
Qed.
End Rollback.

(** *** Calls that may panic: what holds of a value they return *)

Definition ensures {A} (m : outcome A) (P : A -> Prop) : Prop := forall a, m = Ret a -> P a.

Lemma ensures_bind {A B} (m : outcome A) (f : A -> outcome B) Q P :
  ensures m Q -> (forall a, Q a -> ensures (f a) P) -> ensures (m ≫= f) P.
Proof. intros Hm Hf b Hb. apply outcome_bind_Ret in Hb as (a & Ha & Hb). eapply Hf; eauto. Qed.

Lemma ensures_Ret {A} (a : A) (P : A -> Prop) : P a -> ensures (Ret a) P.
Proof. by intros HP b [= <-]. Qed.

Lemma ensures_Panics {A} msg (P : A -> Prop) : ensures (Panics msg) P.
Proof. by intros a Ha. Qed.

Lemma ensures_assert b msg : ensures (rust_assert b msg) (fun _ => b = true).
Proof. by destruct b; intros [] Ha. Qed.

Lemma ensures_foldM {A B} (f : A -> B -> outcome A) (I : A -> Prop) l : forall a,
  I a -> (forall a x, I a -> ensures (f a x) I) -> ensures (foldM f a l) I.
Proof.
  induction l as [|x l IH]; intros a Ha Hf; cbn; [by apply ensures_Ret|].
  eapply ensures_bind; [by apply Hf|]. intros a' Ha'. by apply IH.
Qed.

Lemma ensures_impl {A} (m : outcome A) (Q P : A -> Prop) :
  ensures m Q -> (forall a, Q a -> P a) -> ensures m P.
Proof. intros Hm HQ a Ha. eauto. Qed.

#[export] Hint Resolve ensures_Ret ensures_Panics : zk.

(** *** Recorders that only changed since a timestamp *)

Section Tracked.
Context {zk : ZkEvm} {T E R : Type} `{!WithHistory T E R, !HistoryLaws T E R}.

Definition tracked (t : Z) (r0 r : HistoryRecorder T E) : Prop :=
  since t (inner r0) (history r0) r /\ same (inner r) (inner r).

Lemma tracked_refl t r : same (inner r) (inner r) -> tracked t r r.
Proof. intros Hr. split; [by apply since_refl|done]. Qed.

Lemma tracked_apply t r0 r item ts :
  tracked t r0 r -> t <= normalize_timestamp ts ->
  ensures (apply_historic_record HistoryEnabled r item ts) (fun p => tracked t r0 p.1).
Proof. intros [H1 H2] Hts [r' x] Ha. by eapply since_apply. Qed.

Lemma tracked_same t r0 r r' :
  tracked t r0 r -> same (inner r) (inner r') -> history r' = history r -> tracked t r0 r'.
Proof.
  intros [H1 H2] Hs Hh. split; [by eapply since_same|].
  transitivity (inner r); [by symmetry|done].
Qed.

Lemma tracked_rollback t r0 r :
  tracked t r0 r -> older t (history r0) ->
  exists r', rollback_to_timestamp r t = Ret r' /\ same (inner r') (inner r0) /\ history r' = history r0.
Proof. intros [Hs _]. by apply since_rollback. Qed.

Lemma tracked_exact t r0 r :
  (forall x y : T, same x y -> x = y) -> tracked t r0 r -> older t (history r0) ->
  rollback_to_timestamp r t = Ret r0.
Proof.
  intros Heq Hr Hlast. destruct (tracked_rollback t r0 r Hr Hlast) as (r' & -> & Hs%Heq & Hh).
  destruct r', r0. cbn in *. by subst.
Qed.
End Tracked.

(** ** Vectors *)

Inductive VectorHistoryEvent (X : Type) := VecPush (x : X) | VecPop.
Arguments VecPush {X} x.
Arguments VecPop {X}.

(** [Vec::pop] *)
Definition vec_pop {X} (l : list X) : option (list X * X) :=
  match reverse l with
  | [] => None
  | x :: l' => Some (reverse l', x)
  end.

#[export] Instance vec_history X : WithHistory (list X) (VectorHistoryEvent X) (option X) := fun l item =>
  match item with
  | VecPop =>
      '(l, poped_item) ← expect (vec_pop l) UNWRAP_NONE;
      Ret (l, (VecPush poped_item, Some poped_item))
  | VecPush x => Ret (l ++ [x], (VecPop, None))
  end.

Section VecRecorder.
Context `{!ZkEvm} {X : Type}.

Definition vec_recorder_push (H : HistoryMode) r (elem : X) (timestamp : Z) :
    outcome (HistoryRecorder (list X) (VectorHistoryEvent X)) :=
  '(r, _) ← apply_historic_record H r (VecPush elem) timestamp; Ret r.

Definition vec_recorder_pop (H : HistoryMode) r (timestamp : Z) :
    outcome (HistoryRecorder (list X) (VectorHistoryEvent X) * X) :=
  '(r, x) ← apply_historic_record H r VecPop timestamp; x ← expect x UNWRAP_NONE; Ret (r, x).
End VecRecorder.

Lemma vec_pop_snoc {X} (l : list X) x : vec_pop (l ++ [x]) = Some (l, x).
Proof. unfold vec_pop. by rewrite reverse_snoc, reverse_involutive. Qed.

Lemma vec_pop_Some {X} (l l' : list X) x : vec_pop l = Some (l', x) <-> l = l' ++ [x].
Proof.
  split; [|intros ->; apply vec_pop_snoc]. unfold vec_pop.
  destruct (reverse l) as [|y r] eqn:Hr; [done|]. intros [= <- <-].
  rewrite <- (reverse_involutive l), Hr, reverse_cons. done.
Qed.

(** Components whose calls are undone exactly. *)
Lemma exact_laws {T E R} `{!WithHistory T E R} :
  (forall (x : T) (e : E) (x' : T) e' (r : R), apply_record x e = Ret (x', (e', r)) ->
     exists e'' (r' : R), apply_record x' e' = Ret (x, (e'', r'))) ->
  HistoryLaws T E R.
Proof.
  intros Hu. refine {| same := eq |}.
  - intros x y e x' e' r -> Ha. by exists x'.
  - intros x e x' e' r _ Ha. destruct (Hu _ _ _ _ _ Ha) as (e'' & r' & ?). by exists x, e'', r'.
Defined.

#[export] Instance vec_laws X : HistoryLaws (list X) (VectorHistoryEvent X) (option X).
Proof.
  apply exact_laws. intros l [x|] l' e' r; unfold apply_record; cbn.
  - intros [= <- <- <-]. cbn. rewrite vec_pop_snoc. cbn. eauto.
  - destruct (vec_pop l) as [[l1 x]|] eqn:Hp; [|done]. cbn. intros [= <- <- <-].
    apply vec_pop_Some in Hp. subst l. cbn. eauto.
Defined.

(** ** Maps *)

Record HashMapHistoryEvent (K V : Type) := { hm_key : K; hm_value : option V }.
Arguments hm_key {K V} _.
Arguments hm_value {K V} _.
Arguments Build_HashMapHistoryEvent {K V} _ _.

#[export] Instance map_history K V `{Countable K} :
    WithHistory (gmap K V) (HashMapHistoryEvent K V) (option V) := fun m item =>
  let key := hm_key item in
  let prev_value := m !! key in
  let m := match hm_value item with
           | Some x => <[key := x]> m
           | None => delete key m
           end in
  Ret (m, ({| hm_key := key; hm_value := prev_value |}, prev_value)).

Definition map_recorder_insert `{!ZkEvm} {K V} `{Countable K} (H : HistoryMode) r (key : K) (value : V)
    (timestamp : Z) : outcome (HistoryRecorder (gmap K V) (HashMapHistoryEvent K V) * option V) :=
  apply_historic_record H r {| hm_key := key; hm_value := Some value |} timestamp.

#[export] Instance map_laws K V `{Countable K} :
  HistoryLaws (gmap K V) (HashMapHistoryEvent K V) (option V).
Proof.
  apply exact_laws. intros m [k v] m' e' r. unfold apply_record, map_history. cbn.
  intros [= <- <- <-]. cbn. do 2 eexists. f_equal. f_equal.
  apply map_eq. intros k'. destruct (decide (k = k')) as [<-|Hne].
  - by destruct (m !! k); simplify_map_eq.
  - by destruct v, (m !! k); simplify_map_eq.
Defined.

(** ** Framed stacks *)

Record FramedStack (X : Type) := { data : list X; frame_start_indices : list nat }.
Arguments data {X} _.
Arguments frame_start_indices {X} _.
Arguments Build_FramedStack {X} _ _.

Definition framed_default {X} : FramedStack X := {| data := []; frame_start_indices := [0%nat] |}.

Inductive FramedStackEvent (X : Type) := FsPush (x : X) | FsPop | FsPushFrame (i : nat) | FsMergeFrame.
Arguments FsPush {X} x.
Arguments FsPop {X}.
Arguments FsPushFrame {X} i.
Arguments FsMergeFrame {X}.

#[export] Instance framed_history X : WithHistory (FramedStack X) (FramedStackEvent X) unit := fun s item =>
  match item with
  | FsPush x =>
      Ret ({| data := data s ++ [x]; frame_start_indices := frame_start_indices s |}, (FsPop, tt))
  | FsPop =>
      '(d, x) ← expect (vec_pop (data s)) UNWRAP_NONE;
      Ret ({| data := d; frame_start_indices := frame_start_indices s |}, (FsPush x, tt))
  | FsPushFrame i =>
      Ret ({| data := data s; frame_start_indices := frame_start_indices s ++ [i] |}, (FsMergeFrame, tt))
  | FsMergeFrame =>
      '(f, pos) ← expect (vec_pop (frame_start_indices s)) UNWRAP_NONE;
      Ret ({| data := data s; frame_start_indices := f |}, (FsPushFrame pos, tt))
  end.

#[export] Instance framed_laws X : HistoryLaws (FramedStack X) (FramedStackEvent X) unit.
Proof.
  apply exact_laws. intros [d f] [x| |i|] s' e' r; unfold apply_record; cbn.
  - intros [= <- <- <-]. cbn. rewrite vec_pop_snoc. cbn. eauto.
  - destruct (vec_pop d) as [[d1 x]|] eqn:Hp; [|done]. cbn. intros [= <- <- <-].
    apply vec_pop_Some in Hp. subst d. cbn. eauto.
  - intros [= <- <- <-]. cbn. rewrite vec_pop_snoc. cbn. eauto.
  - destruct (vec_pop f) as [[f1 x]|] eqn:Hp; [|done]. cbn. intros [= <- <- <-].
    apply vec_pop_Some in Hp. subst f. cbn. eauto.
Defined.

(** [FramedStack::push_frame] *)
Definition framed_push_frame {X} (s : FramedStack X) : FramedStackEvent X :=
  FsPushFrame (length (data s)).

(** [self.data[start..]]: panics if the frame starts behind the end. *)
Definition current_frame {X} (s : FramedStack X) : outcome (list X) :=
  start ← expect (last (frame_start_indices s)) UNWRAP_NONE;
  _ ← rust_assert (start <=? length (data s))%nat "slice index starts behind its end";
  Ret (drop start (data s)).

(** [l.rsplit(older).next().unwrap_or(&[])]: what follows the last item that is [older]. *)
Fixpoint take_while {X} (f : X -> bool) (l : list X) : list X :=
  match l with
  | [] => []
  | x :: l => if f x then x :: take_while f l else []
  end.

Definition rsplit_next {X} (older : X -> bool) (l : list X) : list X :=
  reverse (take_while (fun x => negb (older x)) (reverse l)).

Definition framed_len {X} (s : FramedStack X) : nat := length (frame_start_indices s).

Definition FramedRecorder (X : Type) := HistoryRecorder (FramedStack X) (FramedStackEvent X).

Section FramedRecorder.
Context {zk : ZkEvm} {X : Type} (H : HistoryMode).
Implicit Types r : FramedRecorder X.

Definition push_to_frame r (x : X) (timestamp : Z) : outcome (FramedRecorder X) :=
  '(r, _) ← apply_historic_record H r (FsPush x) timestamp; Ret r.

(** [while self.inner.data.len() > start]: every round removes an item. *)
Fixpoint clear_frame_loop (fuel start : nat) r (timestamp : Z) : outcome (FramedRecorder X) :=
  if (start <? length (data (inner r)))%nat then
    match fuel with
    | O => Panics "out of fuel"
    | S fuel =>
        '(r, _) ← apply_historic_record H r FsPop timestamp; clear_frame_loop fuel start r timestamp
    end
  else Ret r.

Definition clear_frame r (timestamp : Z) : outcome (FramedRecorder X) :=
  start ← expect (last (frame_start_indices (inner r))) UNWRAP_NONE;
  clear_frame_loop (length (data (inner r))) start r timestamp.

Definition extend_frame r (items : list X) (timestamp : Z) : outcome (FramedRecorder X) :=
  foldM (fun r x => push_to_frame r x timestamp) r items.

Definition push_frame r (timestamp : Z) : outcome (FramedRecorder X) :=
  '(r, _) ← apply_historic_record H r (framed_push_frame (inner r)) timestamp; Ret r.

Definition merge_frame r (timestamp : Z) : outcome (FramedRecorder X) :=
  '(r, _) ← apply_historic_record H r FsMergeFrame timestamp; Ret r.
End FramedRecorder.

(** [AppDataFrameManagerWithHistory] *)
Record FrameManager (X : Type) := { fm_forward : FramedRecorder X; fm_rollback : FramedRecorder X }.
Arguments fm_forward {X} _.
Arguments fm_rollback {X} _.
Arguments Build_FrameManager {X} _ _.

Definition manager_default {X} : FrameManager X :=
  {| fm_forward := from_inner framed_default; fm_rollback := from_inner framed_default |}.

Section FrameManager.
Context {zk : ZkEvm} {X : Type} (H : HistoryMode).
Implicit Types m : FrameManager X.

Definition with_forward m (f : FramedRecorder X -> outcome (FramedRecorder X)) : outcome (FrameManager X) :=
  r ← f (fm_forward m); Ret {| fm_forward := r; fm_rollback := fm_rollback m |}.

Definition with_rollback m (f : FramedRecorder X -> outcome (FramedRecorder X)) : outcome (FrameManager X) :=
  r ← f (fm_rollback m); Ret {| fm_forward := fm_forward m; fm_rollback := r |}.

Definition manager_delete_history m : outcome (FrameManager X) :=
  m ← with_forward m (delete_history H); with_rollback m (delete_history H).

Definition push_forward m (item : X) (timestamp : Z) : outcome (FrameManager X) :=
  with_forward m (fun r => push_to_frame H r item timestamp).

Definition push_rollback m (item : X) (timestamp : Z) : outcome (FrameManager X) :=
  with_rollback m (fun r => push_to_frame H r item timestamp).

Definition manager_push_frame m (timestamp : Z) : outcome (FrameManager X) :=
  m ← with_forward m (fun r => push_frame H r timestamp);
  with_rollback m (fun r => push_frame H r timestamp).

Definition manager_merge_frame m (timestamp : Z) : outcome (FrameManager X) :=
  m ← with_forward m (fun r => merge_frame H r timestamp);
  with_rollback m (fun r => merge_frame H r timestamp).

Definition manager_len m : nat := framed_len (inner (fm_forward m)).
Definition forward_stack m : FramedStack X := inner (fm_forward m).
Definition rollback_stack m : FramedStack X := inner (fm_rollback m).

Definition move_rollback_to_forward m (filter : X -> bool) (timestamp : Z) : outcome (FrameManager X) :=
  frame ← current_frame (rollback_stack m);
  m ← foldM (fun m x => if filter x then push_forward m x timestamp else Ret m) m (reverse frame);
  with_rollback m (fun r => clear_frame H r timestamp).

Definition manager_rollback_to_timestamp m (timestamp : Z) : outcome (FrameManager X) :=
  m ← with_forward m (fun r => rollback_to_timestamp r timestamp);
  with_rollback m (fun r => rollback_to_timestamp r timestamp).
End FrameManager.

(** *** Frames and rollbacks *)

Section TrackedFrames.
Context {zk : ZkEvm} {X : Type}.
Implicit Types (r : FramedRecorder X) (m : FrameManager X).

Lemma push_to_frame_tracked t r0 r x ts :
  tracked t r0 r -> t <= normalize_timestamp ts ->
  ensures (push_to_frame HistoryEnabled r x ts) (tracked t r0).
Proof.
  intros Hr Hts. eapply ensures_bind; [by apply tracked_apply|]. intros [r' ?] Hr'. by apply ensures_Ret.
Qed.

Lemma push_frame_tracked t r0 r ts :
  tracked t r0 r -> t <= normalize_timestamp ts -> ensures (push_frame HistoryEnabled r ts) (tracked t r0).
Proof.
  intros Hr Hts. eapply ensures_bind; [by apply tracked_apply|]. intros [r' ?] Hr'. by apply ensures_Ret.
Qed.

Lemma merge_frame_tracked t r0 r ts :
  tracked t r0 r -> t <= normalize_timestamp ts -> ensures (merge_frame HistoryEnabled r ts) (tracked t r0).
Proof.
  intros Hr Hts. eapply ensures_bind; [by apply tracked_apply|]. intros [r' ?] Hr'. by apply ensures_Ret.
Qed.

Lemma clear_frame_tracked t r0 r ts :
  tracked t r0 r -> t <= normalize_timestamp ts -> ensures (clear_frame HistoryEnabled r ts) (tracked t r0).
Proof.
  intros Hr Hts. unfold clear_frame. eapply ensures_bind with (Q := fun _ => True); [done|].
  intros start _. generalize (length (data (inner r))) as fuel. intros fuel. revert r Hr.
  induction fuel as [|fuel IH]; intros r Hr; cbn [clear_frame_loop]; (case_match; [|by apply ensures_Ret]).
  - apply ensures_Panics.
  - eapply ensures_bind; [by apply tracked_apply|]. intros [r' ?] Hr'. by apply IH.
Qed.

Definition manager_tracked (t : Z) m0 m : Prop :=
  tracked t (fm_forward m0) (fm_forward m) /\ tracked t (fm_rollback m0) (fm_rollback m).

Lemma with_forward_tracked t m0 m f :
  manager_tracked t m0 m -> (forall r, tracked t (fm_forward m0) r -> ensures (f r) (tracked t (fm_forward m0))) ->
  ensures (with_forward m f) (manager_tracked t m0).
Proof.
  intros [H1 H2] Hf. eapply ensures_bind; [by apply Hf|]. intros r Hr. by apply ensures_Ret.
Qed.

Lemma with_rollback_tracked t m0 m f :
  manager_tracked t m0 m -> (forall r, tracked t (fm_rollback m0) r -> ensures (f r) (tracked t (fm_rollback m0))) ->
  ensures (with_rollback m f) (manager_tracked t m0).
Proof.
  intros [H1 H2] Hf. eapply ensures_bind; [by apply Hf|]. intros r Hr. by apply ensures_Ret.
Qed.

Lemma push_forward_tracked t m0 m x ts :
  manager_tracked t m0 m -> t <= normalize_timestamp ts ->
  ensures (push_forward HistoryEnabled m x ts) (manager_tracked t m0).
Proof. intros Hm Hts. apply with_forward_tracked; [done|]. intros r Hr. by apply push_to_frame_tracked. Qed.

Lemma push_rollback_tracked t m0 m x ts :
  manager_tracked t m0 m -> t <= normalize_timestamp ts ->
  ensures (push_rollback HistoryEnabled m x ts) (manager_tracked t m0).
Proof. intros Hm Hts. apply with_rollback_tracked; [done|]. intros r Hr. by apply push_to_frame_tracked. Qed.

Lemma manager_push_frame_tracked t m0 m ts :
  manager_tracked t m0 m -> t <= normalize_timestamp ts ->
  ensures (manager_push_frame HistoryEnabled m ts) (manager_tracked t m0).
Proof.
  intros Hm Hts. eapply ensures_bind.
  - apply with_forward_tracked; [done|]. intros r Hr. by apply push_frame_tracked.
  - intros m' Hm'. apply with_rollback_tracked; [done|]. intros r Hr. by apply push_frame_tracked.
Qed.

Lemma manager_merge_frame_tracked t m0 m ts :
  manager_tracked t m0 m -> t <= normalize_timestamp ts ->
  ensures (manager_merge_frame HistoryEnabled m ts) (manager_tracked t m0).
Proof.
  intros Hm Hts. eapply ensures_bind.
  - apply with_forward_tracked; [done|]. intros r Hr. by apply merge_frame_tracked.
  - intros m' Hm'. apply with_rollback_tracked; [done|]. intros r Hr. by apply merge_frame_tracked.
Qed.

Lemma move_rollback_to_forward_tracked t m0 m f ts :
  manager_tracked t m0 m -> t <= normalize_timestamp ts ->
  ensures (move_rollback_to_forward HistoryEnabled m f ts) (manager_tracked t m0).
Proof.
  intros Hm Hts. eapply ensures_bind with (Q := fun _ => True); [done|]. intros frame _.
  eapply ensures_bind.
  - apply (ensures_foldM _ (manager_tracked t m0)); [done|]. intros m' x Hm'.
    case_match; [by apply push_forward_tracked|by apply ensures_Ret].
  - intros m' Hm'. apply with_rollback_tracked; [done|]. intros r Hr. by apply clear_frame_tracked.
Qed.

Lemma manager_tracked_rollback t m0 m :
  manager_tracked t m0 m -> older t (history (fm_forward m0)) -> older t (history (fm_rollback m0)) ->
  manager_rollback_to_timestamp m t = Ret m0.
Proof.
  intros [H1 H2] O1 O2. unfold manager_rollback_to_timestamp, with_forward, with_rollback.
  rewrite (tracked_exact t (fm_forward m0)) by done. cbn.
  rewrite (tracked_exact t (fm_rollback m0)) by done. cbn. by destruct m0.
Qed.
End TrackedFrames.

(** ** Memory *)

Definition PAGE_SUBDIVISION_LEN : nat := 64.

(** [MemoryPage]: the root points to arrays of 64 values. *)
Record MemoryPage := { root : list (option (list PrimitiveValue)) }.

Definition page_default : MemoryPage := {| root := [] |}.

(** [leaf[i]] on an array *)
Definition array_get `{!ZkEvm} (leaf : list PrimitiveValue) (i : nat) : PrimitiveValue :=
  default PRIMITIVE_VALUE_EMPTY (leaf !! i).

Section Memory.
Context `{!ZkEvm}.
Open Scope nat_scope.

Definition page_get (p : MemoryPage) (slot : nat) : PrimitiveValue :=
  match root p !! (slot / PAGE_SUBDIVISION_LEN) ≫= id with
  | Some leaf => array_get leaf (slot mod PAGE_SUBDIVISION_LEN)
  | None => PRIMITIVE_VALUE_EMPTY
  end.

Definition page_set (p : MemoryPage) (slot : nat) (value : PrimitiveValue) :
    MemoryPage * PrimitiveValue :=
  let root_index := slot / PAGE_SUBDIVISION_LEN in
  let leaf_index := slot mod PAGE_SUBDIVISION_LEN in
  let root := if length (root p) <=? root_index then resize (root_index + 1) None (root p)
              else root p in
  match root !! root_index ≫= id with
  | Some leaf =>
      ({| root := <[root_index := Some (<[leaf_index := value]> leaf)]> root |},
       array_get leaf leaf_index)
  | None =>
      let leaf := replicate PAGE_SUBDIVISION_LEN PRIMITIVE_VALUE_EMPTY in
      ({| root := <[root_index := Some (<[leaf_index := value]> leaf)]> root |},
       PRIMITIVE_VALUE_EMPTY)
  end.

(** [MemoryPage::eq] *)
Definition page_eqb (a b : MemoryPage) : bool :=
  forallb (fun slot => bool_decide (page_get a slot = page_get b slot))
    (seq 0 (Nat.max (length (root a)) (length (root b)) * PAGE_SUBDIVISION_LEN)).

Record MemoryWrapper := { memory : list MemoryPage }.

Definition memory_default : MemoryWrapper := {| memory := [] |}.

(** [MemoryWrapper::eq]: missing pages are empty. *)
Definition memory_eqb (a b : MemoryWrapper) : bool :=
  forallb (fun i => page_eqb (default page_default (memory a !! i)) (default page_default (memory b !! i)))
    (seq 0 (Nat.max (length (memory a)) (length (memory b)))).

Record MemoryHistoryRecord := { mh_page : nat; mh_slot : nat; set_value : PrimitiveValue }.

Definition ensure_page_exists (m : MemoryWrapper) (page : nat) : MemoryWrapper :=
  if length (memory m) <=? page then {| memory := resize (page + 1) page_default (memory m) |} else m.

Definition read_slot (m : MemoryWrapper) (page slot : nat) : PrimitiveValue :=
  match memory m !! page with
  | Some p => page_get p slot
  | None => PRIMITIVE_VALUE_EMPTY
  end.

(** [dump_page_content_as_u256_words], on the range [start..end_]. *)
Definition dump_page_content_as_u256_words (m : MemoryWrapper) (page_number start end_ : nat) :
    list PrimitiveValue :=
  match memory m !! page_number with
  | Some page => page_get page <$> seq start (end_ - start)
  | None => replicate (end_ - start) PRIMITIVE_VALUE_EMPTY
  end.

#[export] Instance memory_history : WithHistory MemoryWrapper MemoryHistoryRecord PrimitiveValue := fun m item =>
  let m := ensure_page_exists m (mh_page item) in
  page_handle ← expect (memory m !! mh_page item) UNWRAP_NONE;
  let '(page_handle, prev_value) := page_set page_handle (mh_slot item) (set_value item) in
  let undo := {| mh_page := mh_page item; mh_slot := mh_slot item; set_value := prev_value |} in
  Ret ({| memory := <[mh_page item := page_handle]> (memory m) |}, (undo, prev_value)).

Definition MemoryWithHistory := HistoryRecorder MemoryWrapper MemoryHistoryRecord.

Definition write_to_memory (H : HistoryMode) (r : MemoryWithHistory) (page slot : nat)
    (value : PrimitiveValue) (timestamp : Z) : outcome (MemoryWithHistory * PrimitiveValue) :=
  apply_historic_record H r {| mh_page := page; mh_slot := slot; set_value := value |} timestamp.

(** The records [clear_page] keeps: one for every value of the page that is not empty. *)
Definition leaf_records (page i : nat) (x : option (list PrimitiveValue)) (timestamp : Z) :
    list (Z * MemoryHistoryRecord) :=
  match x with
  | Some slots =>
      omap (fun '(j, value) =>
              if bool_decide (value = PRIMITIVE_VALUE_EMPTY) then None
              else Some (timestamp, {| mh_page := page; mh_slot := PAGE_SUBDIVISION_LEN * i + j;
                                       set_value := value |}))
        (imap pair slots)
  | None => []
  end.

Definition page_records (page : nat) (p : MemoryPage) (timestamp : Z) : list (Z * MemoryHistoryRecord) :=
  mjoin (imap (fun i x => leaf_records page i x timestamp) (root p)).

Definition clear_page (H : HistoryMode) (r : MemoryWithHistory) (page : nat) (timestamp : Z) :
    outcome MemoryWithHistory :=
  mutate_history H r (fun m history =>
    match memory m !! page with
    | Some page_handle =>
        Ret ({| memory := <[page := page_default]> (memory m) |},
             history ++ page_records page page_handle timestamp)
    | None => Ret (m, history)
    end).
End Memory.

(** *** Memory behaves like a map of slots *)

Section MemorySpec.
Context {zk : ZkEvm}.
Open Scope nat_scope.

Definition page_wf (p : MemoryPage) : Prop :=
  Forall (fun x => from_option (fun leaf => length leaf = PAGE_SUBDIVISION_LEN) True x) (root p).

Definition memory_wf (m : MemoryWrapper) : Prop := Forall page_wf (memory m).

Lemma grow_lookup {A} (l : list (option A)) i j :
  (if length l <=? i then resize (i + 1) None l else l) !! j ≫= id = l !! j ≫= id.
Proof.
  destruct (Nat.leb_spec (length l) i); [|done].
  destruct (decide (j < length l)).
  - rewrite lookup_resize by lia. done.
  - rewrite (lookup_ge_None_2 l j) by lia. destruct (decide (j < i + 1)).
    + rewrite lookup_resize_new by lia. done.
    + rewrite lookup_resize_old by lia. done.
Qed.

Lemma grow_length {A} (l : list A) x i :
  i < length (if length l <=? i then resize (i + 1) x l else l).
Proof. destruct (Nat.leb_spec (length l) i); [rewrite length_resize|]; lia. Qed.

Lemma grow_wf p i :
  page_wf p ->
  page_wf {| root := if length (root p) <=? i then resize (i + 1) None (root p) else root p |}.
Proof.
  intros Hp. destruct (_ <=? _); [|done]. by apply Forall_resize.
Qed.

Lemma page_leaf_length p i leaf :
  page_wf p -> root p !! i ≫= id = Some leaf -> length leaf = PAGE_SUBDIVISION_LEN.
Proof.
  intros Hp Hl. destruct (root p !! i) as [[l|]|] eqn:Hi; cbn in Hl; simplify_eq.
  by eapply (Forall_lookup_1 _ _ _ _ Hp) in Hi.
Qed.

Lemma slot_split s s' :
  s / PAGE_SUBDIVISION_LEN = s' / PAGE_SUBDIVISION_LEN ->
  s mod PAGE_SUBDIVISION_LEN = s' mod PAGE_SUBDIVISION_LEN -> s = s'.
Proof.
  intros Hd Hm. rewrite (Nat.div_mod_eq s PAGE_SUBDIVISION_LEN), Hd, Hm.
  symmetry. apply Nat.div_mod_eq.
Qed.

Lemma slot_mod s : s mod PAGE_SUBDIVISION_LEN < PAGE_SUBDIVISION_LEN.
Proof. apply Nat.mod_upper_bound. unfold PAGE_SUBDIVISION_LEN. lia. Qed.

(** The array that [page_set] writes to. *)
Definition leaf_or_empty (p : MemoryPage) (i : nat) : list PrimitiveValue :=
  default (replicate PAGE_SUBDIVISION_LEN PRIMITIVE_VALUE_EMPTY) (root p !! i ≫= id).

Lemma page_get_leaf p s :
  page_get p s = array_get (leaf_or_empty p (s / PAGE_SUBDIVISION_LEN)) (s mod PAGE_SUBDIVISION_LEN).
Proof.
  unfold page_get, leaf_or_empty. destruct (root p !! _ ≫= id) as [leaf|]; [done|].
  unfold array_get. cbn [from_option]. by rewrite lookup_replicate_2 by apply slot_mod.
Qed.

Lemma page_set_eq p s v :
  let i := s / PAGE_SUBDIVISION_LEN in
  page_set p s v =
    ({| root := <[i := Some (<[s mod PAGE_SUBDIVISION_LEN := v]> (leaf_or_empty p i))]>
                  (if length (root p) <=? i then resize (i + 1) None (root p) else root p) |},
     page_get p s).
Proof.
  cbv zeta. unfold page_set, page_get, leaf_or_empty. rewrite grow_lookup.
  by destruct (root p !! _ ≫= id).
Qed.

Lemma leaf_or_empty_length p i : page_wf p -> length (leaf_or_empty p i) = PAGE_SUBDIVISION_LEN.
Proof.
  intros Hp. unfold leaf_or_empty. destruct (root p !! i ≫= id) eqn:Hl; cbn [from_option].
  - by eapply page_leaf_length.
  - apply length_replicate.
Qed.

Lemma page_set_wf p s v : page_wf p -> page_wf (page_set p s v).1.
Proof.
  intros Hp. rewrite page_set_eq. cbn [fst]. apply Forall_insert; [by apply (grow_wf p)|].
  cbn. rewrite length_insert. by apply leaf_or_empty_length.
Qed.

Lemma page_get_set p s v s' :
  page_wf p -> page_get (page_set p s v).1 s' = if decide (s = s') then v else page_get p s'.
Proof.
  intros Hp. rewrite !page_get_leaf, page_set_eq. cbn [fst]. unfold leaf_or_empty at 1. cbn [root].
  destruct (decide (s / PAGE_SUBDIVISION_LEN = s' / PAGE_SUBDIVISION_LEN)) as [Hd|Hd].
  - rewrite Hd, list_lookup_insert_eq by apply grow_length. cbn. unfold array_get.
    case_decide as Heq.
    + subst. rewrite list_lookup_insert_eq; [done|]. rewrite leaf_or_empty_length by done. apply slot_mod.
    + rewrite list_lookup_insert_ne; [done|]. intros Hm. by apply Heq, slot_split.
  - rewrite list_lookup_insert_ne, grow_lookup by done. case_decide; [by subst|done].
Qed.

Lemma page_get_default s : page_get page_default s = PRIMITIVE_VALUE_EMPTY.
Proof. done. Qed.

Lemma page_default_wf : page_wf page_default.
Proof. constructor. Qed.

Lemma read_slot_default m page s :
  read_slot m page s = page_get (default page_default (memory m !! page)) s.
Proof. unfold read_slot. by destruct (memory m !! page). Qed.

Lemma ensure_page_exists_spec m page :
  memory_wf m ->
  memory_wf (ensure_page_exists m page) /\ page < length (memory (ensure_page_exists m page)) /\
  forall i s, read_slot (ensure_page_exists m page) i s = read_slot m i s.
Proof.
  intros Hm. unfold ensure_page_exists. destruct (Nat.leb_spec (length (memory m)) page); [|done].
  cbn. split_and!.
  - apply Forall_resize; [apply page_default_wf|done].
  - rewrite length_resize. lia.
  - intros i s. unfold read_slot. cbn. destruct (decide (i < length (memory m))).
    + by rewrite lookup_resize by lia.
    + rewrite (lookup_ge_None_2 (memory m) i) by lia. destruct (decide (i < page + 1)).
      * by rewrite lookup_resize_new by lia.
      * by rewrite lookup_resize_old by lia.
Qed.

(** A write to memory: returns the previous value and changes one slot. *)
Lemma memory_apply m e :
  memory_wf m ->
  exists m', apply_record m e =
      Ret (m', ({| mh_page := mh_page e; mh_slot := mh_slot e;
                   set_value := read_slot m (mh_page e) (mh_slot e) |},
                read_slot m (mh_page e) (mh_slot e))) /\
    memory_wf m' /\
    forall i s, read_slot m' i s =
      if decide (mh_page e = i /\ mh_slot e = s) then set_value e else read_slot m i s.
Proof.
  intros Hm. destruct (ensure_page_exists_spec m (mh_page e) Hm) as (Hw & Hlen & Hr).
  unfold apply_record, memory_history.
  destruct (lookup_lt_is_Some_2 _ _ Hlen) as [p Hp]. rewrite Hp. cbn.
  pose proof (Forall_lookup_1 _ _ _ _ Hw Hp) as Hpw.
  assert (page_get p (mh_slot e) = read_slot m (mh_page e) (mh_slot e)) as Hprev.
  { rewrite <- Hr. unfold read_slot. by rewrite Hp. }
  rewrite (surjective_pairing (page_set p _ _)).
  assert ((page_set p (mh_slot e) (set_value e)).2 = read_slot m (mh_page e) (mh_slot e)) as ->.
  { by rewrite page_set_eq. }
  eexists. split; [done|]. split.
  - apply Forall_insert; [done|]. by apply page_set_wf.
  - intros i s. rewrite <- Hr. unfold read_slot at 1. cbn [memory].
    destruct (decide (mh_page e = i)) as [<-|Hne].
    + rewrite list_lookup_insert_eq by done. rewrite page_get_set by done.
      unfold read_slot. rewrite Hp. repeat case_decide; naive_solver.
    + rewrite list_lookup_insert_ne by done. case_decide; [naive_solver|done].
Qed.

Definition memory_same (m m' : MemoryWrapper) : Prop :=
  memory_wf m /\ memory_wf m' /\ forall i s, read_slot m i s = read_slot m' i s.

#[export] Instance memory_same_per : RelationClasses.PER memory_same.
Proof.
  split.
  - by intros m m' (H1 & H2 & H3).
  - intros m1 m2 m3 (H1 & H2 & H3) (H4 & H5 & H6). split_and!; [done..|]. intros. by rewrite H3.
Qed.

#[export] Instance memory_laws : HistoryLaws MemoryWrapper MemoryHistoryRecord PrimitiveValue.
Proof.
  refine {| same := memory_same |}.
  - intros m1 m2 e m1' e' r (H1 & H2 & H3) Ha.
    destruct (memory_apply m1 e H1) as (n1 & A1 & W1 & R1).
    destruct (memory_apply m2 e H2) as (n2 & A2 & W2 & R2).
    rewrite A1 in Ha. simplify_eq. exists n2. rewrite A2, !H3. split; [done|].
    split_and!; [done..|]. intros i s. rewrite R1, R2. by case_decide.
  - intros m e m' e' r (H1 & _ & _) Ha.
    destruct (memory_apply m e H1) as (n & A & W & R). rewrite A in Ha. simplify_eq.
    match goal with |- context [apply_record m' ?u] => destruct (memory_apply m' u W) as (n' & A' & W' & R') end.
    do 3 eexists. split; [exact A'|]. split_and!; [done..|].
    intros i s. rewrite R', R. cbn. repeat case_decide; naive_solver.
Defined.

Lemma page_eqb_spec a b : page_eqb a b = true <-> forall s, page_get a s = page_get b s.
Proof.
  unfold page_eqb. rewrite <- Is_true_true, forallb_True, Forall_seq. split; [|intros H s _; by apply bool_decide_spec].
  intros H s. set (n := Nat.max _ _) in H. destruct (decide (s < n * PAGE_SUBDIVISION_LEN)) as [Hs|Hs].
  - apply (bool_decide_spec (page_get a s = _)). apply H. lia.
  - assert (n <= s / PAGE_SUBDIVISION_LEN) as Hn.
    { apply Nat.div_le_lower_bound; unfold PAGE_SUBDIVISION_LEN in *; lia. }
    unfold page_get. rewrite !lookup_ge_None_2; [done|lia..].
Qed.

(** Memories are compared by what can be read. *)
Lemma memory_eqb_spec a b :
  memory_eqb a b = true <-> forall i s, read_slot a i s = read_slot b i s.
Proof.
  unfold memory_eqb. rewrite <- Is_true_true, forallb_True, Forall_seq. setoid_rewrite read_slot_default. split.
  - intros H i s. set (n := Nat.max _ _) in H. destruct (decide (i < n)) as [Hi|Hi].
    + specialize (H i ltac:(lia)). apply Is_true_true in H. exact (proj1 (page_eqb_spec _ _) H s).
    + by rewrite !lookup_ge_None_2 by lia.
  - intros H i _. apply Is_true_true, (proj2 (page_eqb_spec _ _)). apply H.
Qed.
End MemorySpec.

(** *** Clearing a page *)

Section ClearPage.
Context {zk : ZkEvm}.
Open Scope nat_scope.
Implicit Types (r : MemoryWithHistory) (m : MemoryWrapper).

Lemma page_records_elem page p ts rec :
  page_wf p ->
  rec ∈ page_records page p ts <->
    exists s, page_get p s <> PRIMITIVE_VALUE_EMPTY /\
      rec = (ts, {| mh_page := page; mh_slot := s; set_value := page_get p s |}).
Proof.
  intros Hp. unfold page_records. rewrite list_elem_of_join. setoid_rewrite elem_of_lookup_imap. split.
  - intros (l & Hl & i & x & -> & Hi). destruct x as [slots|]; [|by apply not_elem_of_nil in Hl].
    cbn in Hl. apply list_elem_of_omap in Hl as ([j v] & Hj & Hv).
    apply elem_of_lookup_imap in Hj as (j' & v' & [= <- <-] & Hj).
    case_bool_decide as Hne; [done|]. injection Hv as <-.
    pose proof (Forall_lookup_1 _ _ _ _ Hp Hi) as Hlen. cbn in Hlen.
    pose proof (lookup_lt_Some _ _ _ Hj) as Hjl. rewrite Hlen in Hjl.
    assert (page_get p (PAGE_SUBDIVISION_LEN * i + j) = v) as Hg.
    { unfold page_get. rewrite Nat.mul_comm, Nat.div_add_l, Nat.div_small, Nat.add_0_r by lia.
      rewrite Hi. cbn [mbind option_bind id]. rewrite Nat.add_comm, Nat.Div0.mod_add, Nat.mod_small by lia.
      unfold array_get. by rewrite Hj. }
    exists (PAGE_SUBDIVISION_LEN * i + j). by rewrite Hg.
  - intros (s & Hs & ->). unfold page_get in Hs.
    destruct (root p !! (s / PAGE_SUBDIVISION_LEN)) as [[slots|]|] eqn:Hi; cbn in Hs; try done.
    eexists. split; [|by exists (s / PAGE_SUBDIVISION_LEN), (Some slots)].
    cbn [leaf_records]. apply list_elem_of_omap.
    exists (s mod PAGE_SUBDIVISION_LEN, array_get slots (s mod PAGE_SUBDIVISION_LEN)). split.
    + apply elem_of_lookup_imap. do 2 eexists. split; [done|].
      pose proof (Forall_lookup_1 _ _ _ _ Hp Hi) as Hlen. cbn in Hlen.
      destruct (lookup_lt_is_Some_2 slots (s mod PAGE_SUBDIVISION_LEN)) as [v Hv];
        [rewrite Hlen; apply slot_mod|]. unfold array_get. by rewrite Hv.
    + rewrite bool_decide_eq_false_2 by done. repeat f_equal.
      * symmetry. apply Nat.div_mod_eq.
      * unfold page_get. by rewrite Hi.
Qed.

(** Writing back values of [target] leads to [target] if no other slot differs. *)
Lemma leads_to_writes target page l : forall m,
  memory_wf m -> memory_wf target ->
  (forall e, e ∈ l.*2 -> mh_page e = page /\ set_value e = read_slot target page (mh_slot e)) ->
  (forall i s, read_slot m i s = read_slot target i s \/ (i = page /\ s ∈ mh_slot <$> l.*2)) ->
  leads_to m l target.
Proof.
  induction l as [|[t e] l IH]; intros m Hm Ht Hl Hread; cbn [leads_to].
  { split_and!; [done..|]. intros i s. destruct (Hread i s) as [?|[_ ?%not_elem_of_nil]]; done. }
  destruct (memory_apply m e Hm) as (m' & Ha & Hm' & Hr). do 3 eexists. split; [exact Ha|].
  destruct (Hl e) as [Hp Hv]; [by left|]. apply IH; [done..| |].
  - intros e' He'. apply Hl. by right.
  - intros i s. rewrite Hr. case_decide as Hd.
    + destruct Hd as [<- <-]. left. by rewrite Hv, Hp.
    + destruct (Hread i s) as [?|[-> Hs]]; [by left|]. right. split; [done|]. cbn in Hs.
      apply elem_of_cons in Hs as [->|?]; [|done]. naive_solver.
Qed.

Lemma clear_page_read r page ts :
  exists r', clear_page HistoryEnabled r page ts = Ret r' /\
    (memory_wf (inner r) -> memory_wf (inner r')) /\
    forall i s, read_slot (inner r') i s =
      if decide (i = page) then PRIMITIVE_VALUE_EMPTY else read_slot (inner r) i s.
Proof.
  unfold clear_page, mutate_history. destruct (memory (inner r) !! page) as [p|] eqn:Hp; cbn.
  - eexists. split; [done|]. cbn. split.
    + intros Hm. apply Forall_insert; [done|apply page_default_wf].
    + intros i s. unfold read_slot. cbn. case_decide as Hi.
      * subst. by rewrite list_lookup_insert_eq by (by eapply lookup_lt_Some).
      * by rewrite list_lookup_insert_ne.
  - eexists. split; [done|]. split; [done|]. intros i s. cbn. case_decide as Hi; [|done].
    subst. unfold read_slot. by rewrite Hp.
Qed.

Lemma since_clear_page t x0 h0 r page ts r' :
  same (inner r) (inner r) -> since t x0 h0 r -> (t <= ts)%Z ->
  clear_page HistoryEnabled r page ts = Ret r' ->
  since t x0 h0 r' /\ same (inner r') (inner r').
Proof.
  intros (Hm & _ & _) (h & Hh & Ht & Hl) Hts Hc.
  destruct (clear_page_read r page ts) as (r1 & Hc' & Hw & Hread). rewrite Hc in Hc'.
  apply (inj Ret) in Hc'. subst r1. split; [|by split_and!; try apply Hw].
  unfold clear_page, mutate_history in Hc.
  destruct (memory (inner r) !! page) as [p|] eqn:Hp; cbn in Hc; apply (inj Ret) in Hc; subst r'; cbn in *.
  2:{ exists h. by destruct r. }
  pose proof (Forall_lookup_1 _ _ _ _ Hm Hp) as Hpw.
  exists (h ++ page_records page p ts). cbn. split_and!.
  - by rewrite Hh, (assoc_L (++)).
  - apply Forall_app. split; [done|]. apply Forall_forall. intros rec Hrec.
    apply page_records_elem in Hrec as (s & _ & ->); done.
  - rewrite reverse_app. eapply leads_to_app; [|exact Hl].
    apply leads_to_writes with page; [by apply Hw|done| |].
    + intros e (x & -> & Hx)%list_elem_of_fmap. rewrite elem_of_reverse in Hx.
      apply page_records_elem in Hx as (s & _ & ->); [|done]. cbn. unfold read_slot. by rewrite Hp.
    + intros i s. rewrite Hread. case_decide as Hi; [|by left]. subst i.
      unfold read_slot at 1. rewrite Hp.
      destruct (decide (page_get p s = PRIMITIVE_VALUE_EMPTY)) as [He|He]; [left; by rewrite He|].
      right. split; [done|]. apply list_elem_of_fmap.
      exists {| mh_page := page; mh_slot := s; set_value := page_get p s |}. split; [done|].
      apply list_elem_of_fmap. eexists. split; [|apply elem_of_reverse, page_records_elem; eauto]. done.
Qed.
End ClearPage.

(** ** Storage *)

(** [StorageWrapper]: the pointer to the storage; a read may change its caches. *)
Record StorageWrapper (S : Type) := { storage_ptr : S }.
Arguments storage_ptr {S} _.
Arguments Build_StorageWrapper {S} _.

Record StorageHistoryRecord := { sh_key : StorageKey; sh_value : Z }.

Section StorageWrapper.
Context {zk : ZkEvm} {S : Type} `{!ReadStorage S, !WriteStorage S}.

Definition wrapper_read_from_storage (w : StorageWrapper S) (key : StorageKey) : StorageWrapper S * Z :=
  let '(s, value) := read_value (storage_ptr w) key in
  ({| storage_ptr := s |}, h256_to_u256 value).

Definition get_modified_storage_keys (w : StorageWrapper S) : gmap StorageKey Z :=
  write_modified_storage_keys (storage_ptr w).

#[export] Instance storage_history : WithHistory (StorageWrapper S) StorageHistoryRecord Z := fun w item =>
  let '(s, prev) := write_set_value (storage_ptr w) (sh_key item) (u256_to_h256 (sh_value item)) in
  let prev_value := h256_to_u256 prev in
  Ret ({| storage_ptr := s |}, ({| sh_key := sh_key item; sh_value := prev_value |}, prev_value)).

Definition StorageRecorder := HistoryRecorder (StorageWrapper S) StorageHistoryRecord.

Definition read_from_storage (r : StorageRecorder) (key : StorageKey) : StorageRecorder * Z :=
  let '(w, value) := wrapper_read_from_storage (inner r) key in
  ({| inner := w; history := history r |}, value).

Definition write_to_storage (H : HistoryMode) (r : StorageRecorder) (key : StorageKey) (value timestamp : Z) :
    outcome (StorageRecorder * Z) :=
  apply_historic_record H r {| sh_key := key; sh_value := value |} timestamp.
End StorageWrapper.
Arguments StorageRecorder S : clear implicits.

(** Storages whose values are 256-bit words, compared by their contents. *)
Section StorageSpec.
Context {zk : ZkEvm} {S : Type} `{!ReadStorage S, !ReadStorageSpec S, !WriteStorage S, !WriteStorageSpec S}.
Implicit Types w : StorageWrapper S.

Definition value_of w (k : StorageKey) : Z := value_at (contents (storage_ptr w)) k.

Definition storage_wf w : Prop := valid (storage_ptr w) /\ forall k, unsigned 256 (value_of w k).

Definition storage_same w w' : Prop :=
  storage_wf w /\ storage_wf w' /\ contents (storage_ptr w) ≡ contents (storage_ptr w').

#[export] Instance storage_same_per : RelationClasses.PER storage_same.
Proof.
  split.
  - intros w w' (H1 & H2 & H3). by split_and!.
  - intros w1 w2 w3 (H1 & H2 & H3) (H4 & H5 & H6). split_and!; [done..|]. by etransitivity.
Qed.

Lemma u256_unsigned x : unsigned 256 (u256_to_h256 x).
Proof. unfold unsigned, u256_to_h256. rewrite be_value_be_bytes_mod. apply Z.mod_pos_bound. lia. Qed.

Lemma storage_apply w e :
  storage_wf w ->
  exists w', apply_record w e =
      Ret (w', ({| sh_key := sh_key e; sh_value := value_of w (sh_key e) |}, value_of w (sh_key e))) /\
    storage_wf w' /\
    contents (storage_ptr w') ≡
      with_value (contents (storage_ptr w)) (sh_key e) (u256_to_h256 (sh_value e)).
Proof.
  intros [Hv Hw]. unfold apply_record, storage_history.
  destruct (write_set_value_spec (storage_ptr w) (sh_key e) (u256_to_h256 (sh_value e)) Hv) as (H1 & H2 & H3).
  destruct (write_set_value _ _ _) as [s prev]. cbn in *. subst prev.
  rewrite h256_to_u256_id by apply Hw. eexists. split; [done|]. cbn. split; [|done].
  split; [done|]. intros k. unfold value_of. cbn. rewrite H3. cbn.
  case_decide; [apply u256_unsigned|apply Hw].
Qed.

#[export] Instance storage_laws : HistoryLaws (StorageWrapper S) StorageHistoryRecord Z.
Proof.
  refine {| same := storage_same |}.
  - intros w1 w2 e w1' e' r (H1 & H2 & H3) Ha.
    destruct (storage_apply w1 e H1) as (n1 & A1 & W1 & C1).
    destruct (storage_apply w2 e H2) as (n2 & A2 & W2 & C2).
    rewrite A1 in Ha. simplify_eq. exists n2. unfold value_of in *. rewrite A2, !H3. split; [done|].
    split_and!; [done..|]. by rewrite C1, C2, H3.
  - intros w e w' e' r (H1 & _ & _) Ha.
    destruct (storage_apply w e H1) as (n & A & W & C). rewrite A in Ha. simplify_eq.
    match goal with |- context [apply_record w' ?u] => destruct (storage_apply w' u W) as (n' & A' & W' & C') end.
    do 3 eexists. split; [exact A'|]. split_and!; [done..|]. cbn in C'. rewrite C', C.
    rewrite (u256_to_h256_id (value_of w _)) by apply H1. split_and!; cbn; try done.
    intros k. unfold value_of. case_decide; [by subst|done].
Defined.

Lemma read_from_storage_spec (r : StorageRecorder S) k :
  storage_wf (inner r) ->
  (read_from_storage r k).2 = value_of (inner r) k /\
  storage_same (inner r) (inner (read_from_storage r k).1) /\
  history (read_from_storage r k).1 = history r.
Proof.
  intros [Hv Hw]. unfold read_from_storage, wrapper_read_from_storage.
  destruct (read_value_spec (storage_ptr (inner r)) k Hv) as (H1 & H2 & H3).
  destruct (read_value _ k) as [s x]. cbn in *. subst x. split_and!; [by rewrite h256_to_u256_id by apply Hw| |done].
  split_and!; [done| |done]. split; [done|]. intros k'. unfold value_of. cbn. rewrite H3. apply Hw.
Qed.
End StorageSpec.

(** ** Transient storage *)

Record TransientStorageWrapper := { transient_inner : gmap StorageKey Z }.

Definition transient_default : TransientStorageWrapper := {| transient_inner := ∅ |}.

#[export] Instance transient_history : WithHistory TransientStorageWrapper StorageHistoryRecord Z := fun w item =>
  let prev_value := default 0 (transient_inner w !! sh_key item) in
  Ret ({| transient_inner := <[sh_key item := sh_value item]> (transient_inner w) |},
       ({| sh_key := sh_key item; sh_value := prev_value |}, prev_value)).

Definition TransientRecorder := HistoryRecorder TransientStorageWrapper StorageHistoryRecord.

Definition read_from_transient_storage (r : TransientRecorder) (key : StorageKey) : Z :=
  default 0 (transient_inner (inner r) !! key).

Definition write_to_transient_storage `{!ZkEvm} (H : HistoryMode) (r : TransientRecorder)
    (key : StorageKey) (value timestamp : Z) : outcome (TransientRecorder * Z) :=
  apply_historic_record H r {| sh_key := key; sh_value := value |} timestamp.

(** The entries in the order of the map; the history does not learn about it. *)
Definition drain_inner (r : TransientRecorder) : TransientRecorder * list (StorageKey * Z) :=
  ({| inner := transient_default; history := history r |}, map_to_list (transient_inner (inner r))).

Definition transient_same (w w' : TransientStorageWrapper) : Prop :=
  forall k, default 0 (transient_inner w !! k) = default 0 (transient_inner w' !! k).

#[export] Instance transient_same_per : RelationClasses.PER transient_same.
Proof.
  split.
  - intros w w' H k. by rewrite H.
  - intros w1 w2 w3 H1 H2 k. by rewrite H1.
Qed.

Lemma transient_insert_default m (k : StorageKey) x k' :
  default 0 ((<[k := x]> m : gmap StorageKey Z) !! k') =
    if decide (k = k') then x else default 0 (m !! k').
Proof. case_decide; [subst; by rewrite lookup_insert_eq|by rewrite lookup_insert_ne]. Qed.

#[export] Instance transient_laws : HistoryLaws TransientStorageWrapper StorageHistoryRecord Z.
Proof.
  refine {| same := transient_same |}.
  - intros w1 w2 [k x] w1' e' r Hs [= <- <- <-]. eexists. unfold apply_record, transient_history. cbn.
    rewrite (Hs k). split; [done|]. intros k'. cbn. rewrite !transient_insert_default.
    case_decide; [done|apply Hs].
  - intros w [k x] w' e' r _ [= <- <- <-]. do 3 eexists. split; [done|]. intros k'. cbn.
    rewrite !transient_insert_default. case_decide; [by subst|done].
Defined.

(** ** Correctness of recorders *)

Section Calls.
Context {zk : ZkEvm} {T E R : Type} `{!WithHistory T E R}.

(** A sequence of calls with their timestamps, and the values they return. *)
Fixpoint run_calls (r : HistoryRecorder T E) (calls : list (E * Z)) :
    outcome (HistoryRecorder T E * list R) :=
  match calls with
  | [] => Ret (r, [])
  | (item, timestamp) :: calls =>
      '(r, x) ← apply_historic_record HistoryEnabled r item timestamp;
      '(r, xs) ← run_calls r calls;
      Ret (r, x :: xs)
  end.

Context `{!HistoryLaws T E R}.

Lemma apply_historic_record_same (r1 r2 : HistoryRecorder T E) item ts r1' (x : R) :
  same (inner r1) (inner r2) -> history r1 = history r2 ->
  apply_historic_record HistoryEnabled r1 item ts = Ret (r1', x) ->
  exists r2', apply_historic_record HistoryEnabled r2 item ts = Ret (r2', x) /\
    same (inner r1') (inner r2') /\ history r1' = history r2'.
Proof.
  intros Hs Hh. unfold apply_historic_record, mutate_history. rewrite Hh.
  destruct (apply_record (inner r1) item) as [[y [e' x']]|] eqn:Ha; [|done]. cbn.
  destruct (apply_same _ _ _ _ _ _ Hs Ha) as (y' & -> & Hy). cbn.
  unfold rust_assert. case_match; [|done]. cbn. intros [= <- <-]. eexists. by split_and!.
Qed.

Lemma run_calls_same calls : forall (r1 r2 : HistoryRecorder T E) r1' (xs : list R),
  same (inner r1) (inner r2) -> history r1 = history r2 ->
  run_calls r1 calls = Ret (r1', xs) -> exists r2', run_calls r2 calls = Ret (r2', xs).
Proof.
  induction calls as [|[item ts] calls IH]; intros r1 r2 r1' xs Hs Hh; cbn.
  { intros [= <- <-]. eauto. }
  destruct (apply_historic_record HistoryEnabled r1 item ts) as [[r x]|] eqn:Ha; [|done]. cbn.
  destruct (apply_historic_record_same r1 r2 item ts r x Hs Hh Ha) as (r' & -> & Hs' & Hh'). cbn.
  destruct (run_calls r calls) as [[rr xs']|] eqn:Hr; [|done]. cbn. intros [= <- <-].
  destruct (IH r r' rr xs' Hs' Hh' Hr) as (r2' & ->). cbn. eauto.
Qed.

Lemma since_run_calls t x0 h0 calls : forall (r : HistoryRecorder T E) r' (xs : list R),
  same (inner r) (inner r) -> since t x0 h0 r ->
  Forall (fun c => t <= normalize_timestamp c.2) calls ->
  run_calls r calls = Ret (r', xs) -> since t x0 h0 r'.
Proof.
  induction calls as [|[item ts] calls IH]; intros r r' xs Hs Hsince Hts; cbn.
  { by intros [= <- <-]. }
  inversion Hts; subst.
  destruct (apply_historic_record HistoryEnabled r item ts) as [[r1 x]|] eqn:Ha; [|done]. cbn.
  destruct (since_apply t x0 h0 r item ts r1 x) as [Hr1 Hs1]; [done..|].
  destruct (run_calls r1 calls) as [[rr xs']|] eqn:Hr; [|done]. cbn. intros [= <- <-]. eauto.
Qed.
End Calls.

(** C20: A component that can undo its changes, behind a recorder: after any successful calls with
    timestamps of cycles from [t] on, rolling back to [t] does not panic, restores the history, and
    restores the component as far as any user can tell: every further sequence of calls returns the
    same values as if the calls had never happened. *)
Theorem recorder_rollback_restores {zk : ZkEvm} {T E R} `{!WithHistory T E R, !HistoryLaws T E R}
    (r r1 : HistoryRecorder T E) (t : Z) (calls : list (E * Z)) (xs : list R) :
  same (inner r) (inner r) ->
  older t (history r) ->
  Forall (fun c => t <= normalize_timestamp c.2) calls ->
  run_calls r calls = Ret (r1, xs) ->
  exists r2, rollback_to_timestamp r1 t = Ret r2 /\
    same (inner r2) (inner r) /\ history r2 = history r /\
    forall calls' ys,
      (exists r', run_calls r2 calls' = Ret (r', ys)) <-> (exists r', run_calls r calls' = Ret (r', ys)).
Proof.
  intros Hs Hlast Hts Hrun.
  destruct (since_rollback t (inner r) (history r) r1) as (r2 & Hr2 & Hs2 & Hh2); [|done|].
  { eapply since_run_calls; [exact Hs|by apply since_refl|done|exact Hrun]. }
  exists r2. split_and!; [done..|]. intros calls' ys. split; intros [r' Hr'].
  - by eapply run_calls_same.
  - eapply run_calls_same; [by symmetry|by symmetry|done].
Qed.

(** *** Instance: four-timestamp cycles, and a memory *)

#[export] Instance sample_evm : ZkEvm :=
  {| TIME_DELTA_PER_CYCLE := 4; PRIMITIVE_VALUE_EMPTY := {| pv_value := 0; is_pointer := false |} |}.

#[export] Instance sample_evm_laws : ZkEvmLaws.
Proof. by constructor. Qed.

Definition sample_word (x : Z) : PrimitiveValue := {| pv_value := x; is_pointer := false |}.

Definition sample_memory : MemoryWithHistory :=
  {| inner := {| memory := [(page_set page_default 70 (sample_word 5)).1] |}; history := [] |}.

Definition sample_calls : list (MemoryHistoryRecord * Z) :=
  [({| mh_page := 0; mh_slot := 70; set_value := sample_word 6 |}, 9);
   ({| mh_page := 2; mh_slot := 3; set_value := sample_word 7 |}, 14);
   ({| mh_page := 0; mh_slot := 70; set_value := sample_word 8 |}, 15)].

Lemma recorder_rollback_restores_witness :
  exists r1 r2, run_calls sample_memory sample_calls =
      Ret (r1, [sample_word 5; sample_word 0; sample_word 6]) /\
    rollback_to_timestamp r1 8 = Ret r2 /\ read_slot (inner r2) 0 70 = sample_word 5.
Proof.
  destruct (run_calls sample_memory sample_calls) as [[r1 xs]|] eqn:Hrun; [|by vm_compute in Hrun].
  assert (xs = [sample_word 5; sample_word 0; sample_word 6]) as ->.
  { vm_compute in Hrun. injection Hrun as _ <-. reflexivity. }
  assert (memory_same (inner sample_memory) (inner sample_memory)) as Hwf.
  { assert (memory_wf (inner sample_memory)) by (repeat constructor). by split_and!. }
  destruct (recorder_rollback_restores (HistoryLaws0 := memory_laws) sample_memory r1 8 sample_calls
              [sample_word 5; sample_word 0; sample_word 6] Hwf) as (r2 & Hr2 & Hs & _);
    [by intros p Hp|by apply (bool_decide_unpack _); vm_compute|exact Hrun|].
  exists r1, r2. split; [done|]. split; [exact Hr2|]. destruct Hs as (_ & _ & Hs). apply Hs.
Defined.
