(* ===== verification/VmStorageOracle.v ===== *)
(** * Storage oracle of the VM

    Model of [src/core/lib/multivm/src/versions/vm_latest/oracles/storage.rs]: execution of storage
    queries with the price of pubdata and cold or warm access, frames that may panic, transient storage
    and rollbacks, and of the keys of balances of [src/core/lib/types/src/utils.rs].  Storage is
    reached through any [WriteStorage]; a read may change its caches, so it returns the oracle. *)

From S2P Require Import Prelude Bytes Utils StateDiffs Storage StorageView VmHistory.
Open Scope Z_scope.

(** What the code uses of the crate [zk_evm]: system parameters, and the refund of an access. *)
Inductive StorageAccessRefund := Cold | Warm (ergs : Z).

Class SystemParams := {
  STORAGE_ACCESS_COLD_READ_COST : Z;
  STORAGE_ACCESS_COLD_WRITE_COST : Z;
  STORAGE_ACCESS_WARM_READ_COST : Z;
  STORAGE_ACCESS_WARM_WRITE_COST : Z;
  STORAGE_AUX_BYTE : Z;
  TRANSIENT_STORAGE_AUX_BYTE : Z;
  refund : StorageAccessRefund -> Z;
}.

(** ** Keys of balances *)

Definition BOOTLOADER_ADDRESS : Z := be_value (replicate 18 0 ++ [0x80; 0x01]).
Definition L2_BASE_TOKEN_ADDRESS : Z := be_value (replicate 18 0 ++ [0x80; 0x0a]).

Section Balances.
Variable keccak256 : list Z -> list Z.

Definition key_for_eth_balance (address : Z) : Z :=
  be_value (keccak256 (be_bytes 32 (address_to_h256 address) ++ replicate 32 0)).

Definition key_for_erc20_balance (address : Z) : Z :=
  be_value (keccak256 (be_bytes 32 (address_to_h256 address) ++ be_bytes 32 51)).

Definition storage_key_for_standard_token_balance (token_contract address : Z) : StorageKey :=
  let key := if token_contract =? L2_BASE_TOKEN_ADDRESS then key_for_eth_balance address
             else key_for_erc20_balance address in
  StorageKey_new token_contract key.

Definition storage_key_for_eth_balance (address : Z) : StorageKey :=
  storage_key_for_standard_token_balance L2_BASE_TOKEN_ADDRESS address.
End Balances.

(** ** State *)

Definition triplet_to_storage_key (shard_id address key : Z) : StorageKey :=
  StorageKey_new address (u256_to_h256 key).

Definition storage_key_of_log (query : LogQuery) : StorageKey :=
  triplet_to_storage_key (shard_id query) (q_address query) (q_key query).

(** [query.read_value = v] and [query.rollback = b] *)
Definition with_read_value (q : LogQuery) (v : Z) : LogQuery :=
  {| timestamp := timestamp q; tx_number_in_block := tx_number_in_block q; aux_byte := aux_byte q;
     shard_id := shard_id q; q_address := q_address q; q_key := q_key q; Storage.read_value := v;
     written_value := written_value q; rw_flag := rw_flag q; q_rollback := q_rollback q;
     is_service := is_service q |}.

Definition with_rollback_flag (q : LogQuery) (b : bool) : LogQuery :=
  {| timestamp := timestamp q; tx_number_in_block := tx_number_in_block q; aux_byte := aux_byte q;
     shard_id := shard_id q; q_address := q_address q; q_key := q_key q;
     Storage.read_value := Storage.read_value q; written_value := written_value q;
     rw_flag := rw_flag q; q_rollback := b; is_service := is_service q |}.

Record StorageLogQuery := { log_query : LogQuery; log_type : StorageLogKind }.

Record ReducedTstoreLogQuery := {
  t_shard_id : Z;
  t_address : Z;
  t_key : Z;
  t_written_value : Z;
  t_read_value : Z;
  t_rw_flag : bool;
  t_timestamp : Z;
  t_rollback : bool;
}.

Definition reduced_of_log_query (q : LogQuery) : ReducedTstoreLogQuery :=
  {| t_shard_id := shard_id q; t_address := q_address q; t_key := q_key q;
     t_written_value := written_value q; t_read_value := Storage.read_value q; t_rw_flag := rw_flag q;
     t_timestamp := timestamp q; t_rollback := q_rollback q |}.

Definition with_t_rollback (q : ReducedTstoreLogQuery) : ReducedTstoreLogQuery :=
  {| t_shard_id := t_shard_id q; t_address := t_address q; t_key := t_key q;
     t_written_value := t_written_value q; t_read_value := t_read_value q; t_rw_flag := t_rw_flag q;
     t_timestamp := t_timestamp q; t_rollback := true |}.

Definition MapRecorder (V : Type) := HistoryRecorder (gmap StorageKey V) (HashMapHistoryEvent StorageKey V).
Definition VecRecorder (X : Type) := HistoryRecorder (list X) (VectorHistoryEvent X).

Record StorageOracle (S : Type) := {
  storage : StorageRecorder S;
  transient_storage : TransientRecorder;
  storage_frames_stack : FrameManager StorageLogQuery;
  transient_storage_frames_stack : FrameManager ReducedTstoreLogQuery;
  paid_changes : MapRecorder Z;
  initial_values : MapRecorder Z;
  returned_io_refunds : VecRecorder Z;
  returned_pubdata_costs : VecRecorder Z;
  written_storage_keys : MapRecorder unit;
  read_storage_keys : MapRecorder unit;
}.
Arguments storage {S} _.
Arguments transient_storage {S} _.
Arguments storage_frames_stack {S} _.
Arguments transient_storage_frames_stack {S} _.
Arguments paid_changes {S} _.
Arguments initial_values {S} _.
Arguments returned_io_refunds {S} _.
Arguments returned_pubdata_costs {S} _.
Arguments written_storage_keys {S} _.
Arguments read_storage_keys {S} _.
Arguments Build_StorageOracle {S} _ _ _ _ _ _ _ _ _ _.

(** Assignments to the fields. *)
Section Setters.
Context {S : Type}.
Implicit Types o : StorageOracle S.

Definition set_storage o x : StorageOracle S := Build_StorageOracle x (transient_storage o) (storage_frames_stack o)
  (transient_storage_frames_stack o) (paid_changes o) (initial_values o) (returned_io_refunds o)
  (returned_pubdata_costs o) (written_storage_keys o) (read_storage_keys o).
Definition set_transient_storage o x : StorageOracle S := Build_StorageOracle (storage o) x (storage_frames_stack o)
  (transient_storage_frames_stack o) (paid_changes o) (initial_values o) (returned_io_refunds o)
  (returned_pubdata_costs o) (written_storage_keys o) (read_storage_keys o).
Definition set_storage_frames o x : StorageOracle S := Build_StorageOracle (storage o) (transient_storage o) x
  (transient_storage_frames_stack o) (paid_changes o) (initial_values o) (returned_io_refunds o)
  (returned_pubdata_costs o) (written_storage_keys o) (read_storage_keys o).
Definition set_transient_frames o x : StorageOracle S := Build_StorageOracle (storage o) (transient_storage o)
  (storage_frames_stack o) x (paid_changes o) (initial_values o) (returned_io_refunds o)
  (returned_pubdata_costs o) (written_storage_keys o) (read_storage_keys o).
Definition set_paid_changes o x : StorageOracle S := Build_StorageOracle (storage o) (transient_storage o)
  (storage_frames_stack o) (transient_storage_frames_stack o) x (initial_values o)
  (returned_io_refunds o) (returned_pubdata_costs o) (written_storage_keys o) (read_storage_keys o).
Definition set_initial_values o x : StorageOracle S := Build_StorageOracle (storage o) (transient_storage o)
  (storage_frames_stack o) (transient_storage_frames_stack o) (paid_changes o) x
  (returned_io_refunds o) (returned_pubdata_costs o) (written_storage_keys o) (read_storage_keys o).
Definition set_io_refunds o x : StorageOracle S := Build_StorageOracle (storage o) (transient_storage o)
  (storage_frames_stack o) (transient_storage_frames_stack o) (paid_changes o) (initial_values o) x
  (returned_pubdata_costs o) (written_storage_keys o) (read_storage_keys o).
Definition set_pubdata_costs o x : StorageOracle S := Build_StorageOracle (storage o) (transient_storage o)
  (storage_frames_stack o) (transient_storage_frames_stack o) (paid_changes o) (initial_values o)
  (returned_io_refunds o) x (written_storage_keys o) (read_storage_keys o).
Definition set_written_keys o x : StorageOracle S := Build_StorageOracle (storage o) (transient_storage o)
  (storage_frames_stack o) (transient_storage_frames_stack o) (paid_changes o) (initial_values o)
  (returned_io_refunds o) (returned_pubdata_costs o) x (read_storage_keys o).
Definition set_read_keys o x : StorageOracle S := Build_StorageOracle (storage o) (transient_storage o)
  (storage_frames_stack o) (transient_storage_frames_stack o) (paid_changes o) (initial_values o)
  (returned_io_refunds o) (returned_pubdata_costs o) (written_storage_keys o) x.
End Setters.

Definition oracle_new {S} (storage : S) : StorageOracle S :=
  {| storage := from_inner {| storage_ptr := storage |};
     transient_storage := from_inner transient_default;
     storage_frames_stack := manager_default;
     transient_storage_frames_stack := manager_default;
     paid_changes := from_inner ∅;
     initial_values := from_inner ∅;
     returned_io_refunds := from_inner [];
     returned_pubdata_costs := from_inner [];
     written_storage_keys := from_inner ∅;
     read_storage_keys := from_inner ∅ |}.

(** [get_pubdata_price_bytes] *)
Definition get_pubdata_price_bytes (initial_value final_value : Z) (is_initial : bool) : Z :=
  let compressed_value_size :=
    wrap 32 (Z.of_nat (length (compress_with_best_strategy initial_value final_value))) in
  if is_initial then BYTES_PER_DERIVED_KEY + compressed_value_size
  else BYTES_PER_ENUMERATION_INDEX + compressed_value_size.

(** ** Operations *)

Section Oracle.
Context {zk : ZkEvm} {params : SystemParams} {S : Type} `{!ReadStorage S, !WriteStorage S}.
Context (keccak256 : list Z -> list Z) (H : HistoryMode).
Implicit Types (o : StorageOracle S) (k : StorageKey).

Definition WARM_READ_REFUND : Z := STORAGE_ACCESS_COLD_READ_COST - STORAGE_ACCESS_WARM_READ_COST.
Definition WARM_WRITE_REFUND : Z := STORAGE_ACCESS_COLD_WRITE_COST - STORAGE_ACCESS_WARM_WRITE_COST.
Definition COLD_WRITE_AFTER_WARM_READ_REFUND : Z := STORAGE_ACCESS_COLD_READ_COST.

(** [OracleWithHistory::rollback_to_timestamp] *)
Definition oracle_rollback_to_timestamp o (t : Z) : outcome (StorageOracle S) :=
  r ← rollback_to_timestamp (storage o) t; let o := set_storage o r in
  m ← manager_rollback_to_timestamp (storage_frames_stack o) t; let o := set_storage_frames o m in
  r ← rollback_to_timestamp (transient_storage o) t; let o := set_transient_storage o r in
  m ← manager_rollback_to_timestamp (transient_storage_frames_stack o) t;
  let o := set_transient_frames o m in
  r ← rollback_to_timestamp (paid_changes o) t; let o := set_paid_changes o r in
  r ← rollback_to_timestamp (initial_values o) t; let o := set_initial_values o r in
  r ← rollback_to_timestamp (returned_io_refunds o) t; let o := set_io_refunds o r in
  r ← rollback_to_timestamp (returned_pubdata_costs o) t; let o := set_pubdata_costs o r in
  r ← rollback_to_timestamp (written_storage_keys o) t; let o := set_written_keys o r in
  r ← rollback_to_timestamp (read_storage_keys o) t; Ret (set_read_keys o r).

(** The history of the transient frames is kept. *)
Definition oracle_delete_history o : outcome (StorageOracle S) :=
  r ← delete_history H (storage o); let o := set_storage o r in
  r ← delete_history H (transient_storage o); let o := set_transient_storage o r in
  m ← manager_delete_history H (storage_frames_stack o); let o := set_storage_frames o m in
  r ← delete_history H (paid_changes o); let o := set_paid_changes o r in
  r ← delete_history H (initial_values o); let o := set_initial_values o r in
  r ← delete_history H (returned_io_refunds o); let o := set_io_refunds o r in
  r ← delete_history H (returned_pubdata_costs o); let o := set_pubdata_costs o r in
  r ← delete_history HistoryEnabled (written_storage_keys o); let o := set_written_keys o r in
  r ← delete_history HistoryEnabled (read_storage_keys o); Ret (set_read_keys o r).

Definition is_storage_key_free k : bool :=
  (account k =? SYSTEM_CONTEXT_ADDRESS)
  || bool_decide (k = storage_key_for_eth_balance keccak256 BOOTLOADER_ADDRESS).

Definition get_initial_value o k : option Z := inner (initial_values o) !! k.

Definition set_initial_value o k (value t : Z) : outcome (StorageOracle S) :=
  if bool_decide (is_Some (inner (initial_values o) !! k)) then Ret o
  else '(r, _) ← map_recorder_insert H (initial_values o) k value t; Ret (set_initial_values o r).

Definition record_storage_read o (query : LogQuery) : outcome (StorageOracle S) :=
  m ← push_forward H (storage_frames_stack o) {| log_query := query; log_type := Read |} (timestamp query);
  Ret (set_storage_frames o m).

(** [self.storage.get_ptr().borrow_mut().is_write_initial(key)] *)
Definition ptr_is_write_initial o k : StorageOracle S * bool :=
  let '(s, b) := is_write_initial (storage_ptr (inner (storage o))) k in
  (set_storage o {| inner := {| storage_ptr := s |}; history := history (storage o) |}, b).

Definition write_storage_value o (query : LogQuery) : outcome (StorageOracle S) :=
  let key := triplet_to_storage_key (shard_id query) (q_address query) (q_key query) in
  o ← (if bool_decide (is_Some (inner (written_storage_keys o) !! key)) then Ret o
       else '(r, _) ← map_recorder_insert HistoryEnabled (written_storage_keys o) key tt (timestamp query);
            Ret (set_written_keys o r));
  '(r, _) ← write_to_storage H (storage o) key (written_value query) (timestamp query);
  let o := set_storage o r in
  let '(o, is_initial_write) := ptr_is_write_initial o key in
  let log_query_type := if is_initial_write : bool then InitialWrite else RepeatedWrite in
  m ← push_forward H (storage_frames_stack o)
        {| log_query := query; log_type := log_query_type |} (timestamp query);
  m ← push_rollback H m
        {| log_query := with_rollback_flag query true; log_type := log_query_type |} (timestamp query);
  Ret (set_storage_frames o m).

Definition record_transient_storage_read o (query : ReducedTstoreLogQuery) : outcome (StorageOracle S) :=
  m ← push_forward H (transient_storage_frames_stack o) query (t_timestamp query);
  Ret (set_transient_frames o m).

Definition write_transient_storage_value o (query : ReducedTstoreLogQuery) : outcome (StorageOracle S) :=
  let key := triplet_to_storage_key (t_shard_id query) (t_address query) (t_key query) in
  '(r, _) ← write_to_transient_storage H (transient_storage o) key (t_written_value query) (t_timestamp query);
  let o := set_transient_storage o r in
  m ← push_forward H (transient_storage_frames_stack o) query (t_timestamp query);
  let query := with_t_rollback query in
  m ← push_rollback H m query (t_timestamp query);
  Ret (set_transient_frames o m).

Definition prepaid_for_write o k : Z := default 0 (inner (paid_changes o) !! k).

Definition base_price_for_write o k (prev_value new_value : Z) : StorageOracle S * Z :=
  if is_storage_key_free k || (prev_value =? new_value) then (o, 0)
  else
    let '(o, is_initial_write) := ptr_is_write_initial o k in
    (o, get_pubdata_price_bytes prev_value new_value is_initial_write).

(** The argument of [unwrap_or] is evaluated: the storage is read in any case. *)
Definition base_price_for_key_write o k (new_value : Z) : StorageOracle S * Z :=
  let '(r, current_value) := read_from_storage (storage o) k in
  let initial_value := default current_value (get_initial_value o k) in
  base_price_for_write (set_storage o r) k initial_value new_value.

Definition base_price_for_write_query o (query : LogQuery) : StorageOracle S * Z :=
  base_price_for_key_write o (storage_key_of_log query) (written_value query).

Definition get_storage_access_refund o (query : LogQuery) : StorageAccessRefund :=
  let key := storage_key_of_log query in
  if rw_flag query then
    if bool_decide (is_Some (inner (written_storage_keys o) !! key)) || is_storage_key_free key
    then Warm WARM_WRITE_REFUND
    else if bool_decide (is_Some (inner (read_storage_keys o) !! key))
    then Warm COLD_WRITE_AFTER_WARM_READ_REFUND
    else Cold
  else if bool_decide (is_Some (inner (read_storage_keys o) !! key)) || is_storage_key_free key
  then Warm WARM_READ_REFUND
  else Cold.

(** [logs.rsplit(|l| l.timestamp < from).next()]: what follows the last older log. *)
Definition storage_log_queries_after_timestamp o (from_timestamp : Z) : outcome (list StorageLogQuery) :=
  logs ← current_frame (forward_stack (storage_frames_stack o));
  Ret (rsplit_next (fun l => timestamp (log_query l) <? from_timestamp) logs).

Definition get_final_log_queries o : outcome (list StorageLogQuery) :=
  _ ← rust_assert (manager_len (storage_frames_stack o) =? 1)%nat "VM finished execution in unexpected state";
  current_frame (forward_stack (storage_frames_stack o)).

(** *** [VmStorageOracle] *)

Definition unreachable {A} : outcome A := Panics "internal error: entered unreachable code".

(** The read part of a query. *)
Definition query_read_value o (query : LogQuery) : outcome (StorageOracle S * Z) :=
  let storage_key := storage_key_of_log query in
  if aux_byte query =? TRANSIENT_STORAGE_AUX_BYTE then
    Ret (o, read_from_transient_storage (transient_storage o) storage_key)
  else if aux_byte query =? STORAGE_AUX_BYTE then
    o ← (if bool_decide (is_Some (inner (read_storage_keys o) !! storage_key)) then Ret o
         else '(r, _) ← map_recorder_insert HistoryEnabled (read_storage_keys o) storage_key tt (timestamp query);
              Ret (set_read_keys o r));
    let '(r, value) := read_from_storage (storage o) storage_key in
    o ← set_initial_value (set_storage o r) storage_key value (timestamp query);
    Ret (o, value)
  else unreachable.

(** The price of a write, on top of what was paid for the key before. *)
Definition query_pubdata_cost o (query : LogQuery) : outcome (StorageOracle S * Z) :=
  let storage_key := storage_key_of_log query in
  if (aux_byte query =? STORAGE_AUX_BYTE) && rw_flag query then
    let '(o, current_price) := base_price_for_write_query o query in
    let previous_price := prepaid_for_write o storage_key in
    let diff := current_price - previous_price in
    '(r, _) ← apply_historic_record H (paid_changes o)
                {| hm_key := storage_key; hm_value := Some current_price |} (timestamp query);
    Ret (set_paid_changes o r, diff)
  else Ret (o, 0).

Definition query_record o (query : LogQuery) : outcome (StorageOracle S) :=
  if aux_byte query =? TRANSIENT_STORAGE_AUX_BYTE then
    if rw_flag query then write_transient_storage_value o (reduced_of_log_query query)
    else record_transient_storage_read o (reduced_of_log_query query)
  else if aux_byte query =? STORAGE_AUX_BYTE then
    if rw_flag query then write_storage_value o query else record_storage_read o query
  else unreachable.

Definition execute_partial_query o (query : LogQuery) : outcome (StorageOracle S * (LogQuery * Z)) :=
  _ ← rust_assert (negb (q_rollback query)) "assertion failed: !query.rollback";
  '(o, value) ← query_read_value o query;
  let query := with_read_value query value in
  '(o, pubdata_cost) ← query_pubdata_cost o query;
  o ← query_record o query;
  '(r, _) ← apply_historic_record H (returned_pubdata_costs o) (VecPush pubdata_cost) (timestamp query);
  Ret (set_pubdata_costs o r, (query, pubdata_cost)).

Definition get_access_refund o (partial_query : LogQuery) : outcome (StorageOracle S * StorageAccessRefund) :=
  access ← (if aux_byte partial_query =? TRANSIENT_STORAGE_AUX_BYTE then Ret (Warm 0)
            else if aux_byte partial_query =? STORAGE_AUX_BYTE
            then Ret (get_storage_access_refund o partial_query)
            else unreachable);
  '(r, _) ← apply_historic_record H (returned_io_refunds o) (VecPush (refund access)) (timestamp partial_query);
  Ret (set_io_refunds o r, access).

Definition start_frame o (t : Z) : outcome (StorageOracle S) :=
  m ← manager_push_frame H (storage_frames_stack o) t; let o := set_storage_frames o m in
  m ← manager_push_frame H (transient_storage_frames_stack o) t; Ret (set_transient_frames o m).

(** A step of the loop that undoes the writes of a frame. *)
Definition restore_slot (t : Z) o (q : LogQuery) : outcome (StorageOracle S) :=
  let read_value := Storage.read_value q in
  let key := triplet_to_storage_key (shard_id q) (q_address q) (q_key q) in
  '(r, current_value) ← write_to_storage H (storage o) key read_value t;
  let o := set_storage o r in
  let '(o, price_for_writing_new_value) := base_price_for_key_write o key read_value in
  '(r, _) ← apply_historic_record H (paid_changes o)
              {| hm_key := key; hm_value := Some price_for_writing_new_value |} t;
  _ ← rust_assert (current_value =? written_value q) "assertion failed: current_value == written_value";
  Ret (set_paid_changes o r).

Definition undo_write (t : Z) o (query : StorageLogQuery) : outcome (StorageOracle S) :=
  match log_type query with
  | Read => Ret o
  | InitialWrite | RepeatedWrite => restore_slot t o (log_query query)
  end.

Definition undo_transient_write (t : Z) o (query : ReducedTstoreLogQuery) : outcome (StorageOracle S) :=
  if t_rw_flag query then
    let key := triplet_to_storage_key (t_shard_id query) (t_address query) (t_key query) in
    '(r, current_value) ← write_to_transient_storage H (transient_storage o) key (t_read_value query) t;
    _ ← rust_assert (current_value =? t_written_value query) "assertion failed: current_value == written_value";
    Ret (set_transient_storage o r)
  else Ret o.

Definition undo_frame o (t : Z) : outcome (StorageOracle S) :=
  frame ← current_frame (rollback_stack (storage_frames_stack o));
  o ← foldM (undo_write t) o (reverse frame);
  m ← move_rollback_to_forward H (storage_frames_stack o) (fun _ => true) t;
  let o := set_storage_frames o m in
  frame ← current_frame (rollback_stack (transient_storage_frames_stack o));
  o ← foldM (undo_transient_write t) o (reverse frame);
  m ← move_rollback_to_forward H (transient_storage_frames_stack o) (fun _ => true) t;
  Ret (set_transient_frames o m).

Definition merge_frames o (t : Z) : outcome (StorageOracle S) :=
  m ← manager_merge_frame H (storage_frames_stack o) t; let o := set_storage_frames o m in
  m ← manager_merge_frame H (transient_storage_frames_stack o) t; Ret (set_transient_frames o m).

Definition finish_frame o (t : Z) (panicked : bool) : outcome (StorageOracle S) :=
  o ← (if panicked then undo_frame o t else Ret o);
  merge_frames o t.

Definition start_new_tx o (t : Z) : outcome (StorageOracle S) :=
  let '(r, current_active_keys) := drain_inner (transient_storage o) in
  foldM (fun o '(key, current_value) =>
    write_transient_storage_value o
      {| t_shard_id := 0; t_address := account key; t_key := h256_to_u256 (Storage.key key);
         t_written_value := 0; t_read_value := current_value; t_rw_flag := true;
         t_timestamp := t; t_rollback := false |})
    (set_transient_storage o r) current_active_keys.
End Oracle.
