(* ===== verification/VmOracleRollback.v ===== *)
(** * Rollbacks of the storage oracle

    Every operation of the storage oracle leaves undo records for all that it changes, except that the
    start of a transaction forgets the transient storage.  So a rollback to a timestamp restores the
    oracle if no transaction started since. *)

From S2P Require Import Prelude Bytes Utils StateDiffs Storage StorageView VmHistory VmStorageOracle.
Open Scope Z_scope.

Section Tracked.
Context {zk : ZkEvm} {params : SystemParams} {S : Type}.
Context `{!ReadStorage S, !ReadStorageSpec S, !WriteStorage S, !WriteStorageSpec S}.
Context (keccak256 : list Z -> list Z).
Implicit Types (o : StorageOracle S) (k : StorageKey).

(** Since the oracle was [o0], every recorder only changed with undo records from [t] on. *)
Record oracle_tracked (t : Z) o0 o : Prop := {
  tr_storage : tracked t (storage o0) (storage o);
  tr_transient : tracked t (transient_storage o0) (transient_storage o);
  tr_frames : manager_tracked t (storage_frames_stack o0) (storage_frames_stack o);
  tr_transient_frames :
    manager_tracked t (transient_storage_frames_stack o0) (transient_storage_frames_stack o);
  tr_paid : tracked t (paid_changes o0) (paid_changes o);
  tr_initial : tracked t (initial_values o0) (initial_values o);
  tr_refunds : tracked t (returned_io_refunds o0) (returned_io_refunds o);
  tr_costs : tracked t (returned_pubdata_costs o0) (returned_pubdata_costs o);
  tr_written : tracked t (written_storage_keys o0) (written_storage_keys o);
  tr_read : tracked t (read_storage_keys o0) (read_storage_keys o);
}.

(** An update of one field, in a bind: the new value is tracked, the others are not touched. *)
Ltac track_field :=
  match goal with
  | H : oracle_tracked _ _ _ |- oracle_tracked _ _ _ => destruct H; split; cbn; assumption
  end.

Ltac track_apply :=
  match goal with
  | H : oracle_tracked _ _ _ |- tracked _ _ _ => apply H
  | H : oracle_tracked _ _ _ |- manager_tracked _ _ _ => apply H
  end.

(** One bind: by a lemma about the called operation. *)
Ltac track_step :=
  eapply ensures_bind;
    [first [ apply tracked_apply | apply push_forward_tracked | apply push_rollback_tracked
           | apply manager_push_frame_tracked | apply manager_merge_frame_tracked
           | apply move_rollback_to_forward_tracked ]; [cbn; track_apply|cbn; assumption]|].

Lemma tracked_read t o0 o k :
  oracle_tracked t o0 o -> oracle_tracked t o0 (set_storage o (read_from_storage (storage o) k).1).
Proof.
  intros Ho. destruct (read_from_storage_spec (storage o) k) as (_ & Hs & Hh).
  { by apply (tr_storage _ _ _ Ho). }
  assert (tracked t (storage o0) (read_from_storage (storage o) k).1).
  { eapply tracked_same; [apply Ho|exact Hs|exact Hh]. }
  track_field.
Qed.

Lemma tracked_initial_write t o0 o k :
  oracle_tracked t o0 o -> oracle_tracked t o0 (ptr_is_write_initial o k).1.
Proof.
  intros Ho. pose proof (tr_storage _ _ _ Ho) as [_ (Hw & _ & _)].
  unfold ptr_is_write_initial.
  destruct (is_write_initial_spec (storage_ptr (inner (storage o))) k (proj1 Hw)) as (_ & H2 & H3).
  destruct (is_write_initial _ k) as [s b]. cbn in *.
  assert (tracked t (storage o0) {| inner := {| storage_ptr := s |}; history := history (storage o) |}).
  { eapply tracked_same; [apply Ho| |done]. split_and!; cbn; [done| |done]. split; [done|].
    intros k'. unfold value_of. cbn. rewrite H3. apply Hw. }
  track_field.
Qed.

Lemma tracked_price t o0 o k x :
  oracle_tracked t o0 o -> oracle_tracked t o0 (base_price_for_key_write keccak256 o k x).1.
Proof.
  intros Ho. unfold base_price_for_key_write. pose proof (tracked_read t o0 o k Ho) as Ho'.
  destruct (read_from_storage (storage o) k) as [r v]. cbn in Ho'. unfold base_price_for_write.
  case_match; [done|]. pose proof (tracked_initial_write t o0 _ k Ho') as Ho2.
  by destruct (ptr_is_write_initial _ k).
Qed.

Lemma set_initial_value_tracked t o0 o k x ts :
  oracle_tracked t o0 o -> t <= normalize_timestamp ts ->
  ensures (set_initial_value HistoryEnabled o k x ts) (oracle_tracked t o0).
Proof.
  intros Ho Hts. unfold set_initial_value. case_match; [by apply ensures_Ret|].
  track_step. intros [r ?] Hr. apply ensures_Ret. track_field.
Qed.

Lemma write_storage_value_tracked t o0 o q :
  oracle_tracked t o0 o -> t <= normalize_timestamp (timestamp q) ->
  ensures (write_storage_value HistoryEnabled o q) (oracle_tracked t o0).
Proof.
  intros Ho Hts. unfold write_storage_value. apply ensures_bind with (oracle_tracked t o0).
  { case_match; [by apply ensures_Ret|]. track_step. intros [r ?] Hr. apply ensures_Ret. track_field. }
  clear o Ho. intros o Ho. track_step. intros [r x] Hr. cbn [fst] in Hr.
  assert (oracle_tracked t o0 (set_storage o r)) as Ho1 by track_field.
  apply (tracked_initial_write t o0 _ (triplet_to_storage_key (shard_id q) (q_address q) (q_key q))) in Ho1.
  destruct (ptr_is_write_initial _ _) as [o1 b]. cbn in Ho1. clear Ho.
  track_step. intros m Hm. eapply ensures_bind; [by apply push_rollback_tracked|].
  intros m' Hm'. apply ensures_Ret. track_field.
Qed.

Lemma write_transient_value_tracked t o0 o q :
  oracle_tracked t o0 o -> t <= normalize_timestamp (t_timestamp q) ->
  ensures (write_transient_storage_value HistoryEnabled o q) (oracle_tracked t o0).
Proof.
  intros Ho Hts. unfold write_transient_storage_value. track_step. intros [r x] Hr. cbn [fst] in Hr.
  assert (oracle_tracked t o0 (set_transient_storage o r)) as Ho1 by track_field. clear Ho.
  track_step. intros m Hm. eapply ensures_bind; [by apply push_rollback_tracked|].
  intros m' Hm'. apply ensures_Ret. track_field.
Qed.

Lemma query_read_value_tracked t o0 o q :
  oracle_tracked t o0 o -> t <= normalize_timestamp (timestamp q) ->
  ensures (query_read_value HistoryEnabled o q) (fun p => oracle_tracked t o0 p.1).
Proof.
  intros Ho Hts. unfold query_read_value. case_match; [by apply ensures_Ret|].
  case_match; [|apply ensures_Panics]. apply ensures_bind with (oracle_tracked t o0).
  { case_match; [by apply ensures_Ret|]. track_step. intros [r ?] Hr. apply ensures_Ret. track_field. }
  clear o Ho. intros o Ho. pose proof (tracked_read t o0 o (storage_key_of_log q) Ho) as Ho'.
  destruct (read_from_storage _ _) as [r v]. cbn in Ho'.
  eapply ensures_bind; [by apply set_initial_value_tracked|]. intros o' Ho1. by apply ensures_Ret.
Qed.

Lemma query_pubdata_cost_tracked t o0 o q :
  oracle_tracked t o0 o -> t <= normalize_timestamp (timestamp q) ->
  ensures (query_pubdata_cost keccak256 HistoryEnabled o q) (fun p => oracle_tracked t o0 p.1).
Proof.
  intros Ho Hts. unfold query_pubdata_cost. case_match; [|by apply ensures_Ret].
  pose proof (tracked_price t o0 o (storage_key_of_log q) (written_value q) Ho) as Ho'.
  unfold base_price_for_write_query. destruct (base_price_for_key_write _ _ _ _) as [o1 p]. cbn in Ho'.
  clear Ho. track_step. intros [r ?] Hr. apply ensures_Ret. cbn [fst] in *. track_field.
Qed.

Lemma query_record_tracked t o0 o q :
  oracle_tracked t o0 o -> t <= normalize_timestamp (timestamp q) ->
  ensures (query_record HistoryEnabled o q) (oracle_tracked t o0).
Proof.
  intros Ho Hts. unfold query_record. repeat case_match; try apply ensures_Panics.
  - by apply write_transient_value_tracked.
  - unfold record_transient_storage_read. track_step. intros m Hm. apply ensures_Ret. track_field.
  - by apply write_storage_value_tracked.
  - unfold record_storage_read. track_step. intros m Hm. apply ensures_Ret. track_field.
Qed.

Lemma execute_partial_query_tracked t o0 o q :
  oracle_tracked t o0 o -> t <= normalize_timestamp (timestamp q) ->
  ensures (execute_partial_query keccak256 HistoryEnabled o q) (fun p => oracle_tracked t o0 p.1).
Proof.
  intros Ho Hts. unfold execute_partial_query. eapply ensures_bind; [apply ensures_assert|]. intros _ _.
  eapply ensures_bind; [by apply query_read_value_tracked|]. intros [o1 v] Ho1. cbn [fst] in Ho1.
  eapply ensures_bind; [by apply query_pubdata_cost_tracked|]. intros [o2 c] Ho2. cbn [fst] in Ho2.
  eapply ensures_bind; [by apply query_record_tracked|]. intros o3 Ho3. clear o Ho o1 Ho1 o2 Ho2.
  track_step. intros [r ?] Hr. apply ensures_Ret. cbn [fst] in *. track_field.
Qed.

Lemma get_access_refund_tracked t o0 o q :
  oracle_tracked t o0 o -> t <= normalize_timestamp (timestamp q) ->
  ensures (get_access_refund keccak256 HistoryEnabled o q) (fun p => oracle_tracked t o0 p.1).
Proof.
  intros Ho Hts. unfold get_access_refund. eapply ensures_bind with (Q := fun _ => True); [done|].
  intros access _. track_step. intros [r ?] Hr. apply ensures_Ret. cbn [fst] in *. track_field.
Qed.

Lemma start_frame_tracked t o0 o ts :
  oracle_tracked t o0 o -> t <= normalize_timestamp ts ->
  ensures (start_frame HistoryEnabled o ts) (oracle_tracked t o0).
Proof.
  intros Ho Hts. unfold start_frame. track_step. intros m Hm. track_step. intros m' Hm'.
  apply ensures_Ret. track_field.
Qed.

Lemma restore_slot_tracked t o0 ts o q :
  oracle_tracked t o0 o -> t <= normalize_timestamp ts ->
  ensures (restore_slot keccak256 HistoryEnabled ts o q) (oracle_tracked t o0).
Proof.
  intros Ho Hts. unfold restore_slot. track_step. intros [r x] Hr. cbn [fst] in Hr.
  assert (oracle_tracked t o0 (set_storage o r)) as Ho1 by track_field.
  pose proof (fun k x => tracked_price t o0 _ k x Ho1) as Hp. clear Ho Ho1.
  match goal with |- context [base_price_for_key_write ?c ?o ?k ?x] =>
    specialize (Hp k x); destruct (base_price_for_key_write c o k x) as [o1 p] end. cbn in Hp.
  track_step. intros [r' ?] Hr'. eapply ensures_bind; [apply ensures_assert|]. intros _ _.
  apply ensures_Ret. cbn [fst] in *. track_field.
Qed.

Lemma undo_write_tracked t o0 ts o q :
  oracle_tracked t o0 o -> t <= normalize_timestamp ts ->
  ensures (undo_write keccak256 HistoryEnabled ts o q) (oracle_tracked t o0).
Proof.
  intros Ho Hts. unfold undo_write.
  destruct (log_type q); [by apply ensures_Ret|by apply restore_slot_tracked..].
Qed.

Lemma undo_transient_write_tracked t o0 ts o q :
  oracle_tracked t o0 o -> t <= normalize_timestamp ts ->
  ensures (undo_transient_write HistoryEnabled ts o q) (oracle_tracked t o0).
Proof.
  intros Ho Hts. unfold undo_transient_write. case_match; [|by apply ensures_Ret].
  track_step. intros [r x] Hr. eapply ensures_bind; [apply ensures_assert|]. intros _ _.
  apply ensures_Ret. cbn [fst] in *. track_field.
Qed.

Lemma undo_frame_tracked t o0 o ts :
  oracle_tracked t o0 o -> t <= normalize_timestamp ts ->
  ensures (undo_frame keccak256 HistoryEnabled o ts) (oracle_tracked t o0).
Proof.
  intros Ho Hts. unfold undo_frame. eapply ensures_bind with (Q := fun _ => True); [done|]. intros frame _.
  eapply ensures_bind.
  { apply (ensures_foldM _ (oracle_tracked t o0)); [done|]. intros. by apply undo_write_tracked. }
  clear o Ho. intros o Ho. track_step. intros m Hm.
  assert (oracle_tracked t o0 (set_storage_frames o m)) as Ho1 by track_field. clear Ho.
  eapply ensures_bind with (Q := fun _ => True); [done|]. intros frame' _.
  eapply ensures_bind.
  { apply (ensures_foldM _ (oracle_tracked t o0)); [done|]. intros. by apply undo_transient_write_tracked. }
  clear o m Hm Ho1. intros o Ho. track_step. intros m Hm. apply ensures_Ret. track_field.
Qed.

Lemma finish_frame_tracked t o0 o ts panicked :
  oracle_tracked t o0 o -> t <= normalize_timestamp ts ->
  ensures (finish_frame keccak256 HistoryEnabled o ts panicked) (oracle_tracked t o0).
Proof.
  intros Ho Hts. unfold finish_frame. apply ensures_bind with (oracle_tracked t o0).
  { case_match; [by apply undo_frame_tracked|by apply ensures_Ret]. }
  clear o Ho. intros o Ho. unfold merge_frames. track_step. intros m Hm. track_step. intros m' Hm'.
  apply ensures_Ret. track_field.
Qed.
End Tracked.

(** ** Sequences of operations *)

Inductive OracleOp :=
| OpQuery (query : LogQuery)
| OpRefund (partial_query : LogQuery)
| OpStartFrame (t : Z)
| OpFinishFrame (t : Z) (panicked : bool).

Definition op_time (op : OracleOp) : Z :=
  match op with
  | OpQuery q | OpRefund q => timestamp q
  | OpStartFrame t | OpFinishFrame t _ => t
  end.

Section Restores.
Context {zk : ZkEvm} {params : SystemParams} {S : Type}.
Context `{!ReadStorage S, !WriteStorage S} (keccak256 : list Z -> list Z).
Implicit Types o : StorageOracle S.

Definition oracle_op o (op : OracleOp) : outcome (StorageOracle S) :=
  match op with
  | OpQuery q => '(o, _) ← execute_partial_query keccak256 HistoryEnabled o q; Ret o
  | OpRefund q => '(o, _) ← get_access_refund keccak256 HistoryEnabled o q; Ret o
  | OpStartFrame t => start_frame HistoryEnabled o t
  | OpFinishFrame t panicked => finish_frame keccak256 HistoryEnabled o t panicked
  end.

Definition run_oracle o (ops : list OracleOp) : outcome (StorageOracle S) := foldM oracle_op o ops.

Context `{!ReadStorageSpec S, !WriteStorageSpec S}.

(** Oracles that no caller can tell apart. *)
Record oracle_same o o' : Prop := {
  same_storage : storage_same (inner (storage o)) (inner (storage o'));
  same_storage_history : history (storage o) = history (storage o');
  same_transient : transient_same (inner (transient_storage o)) (inner (transient_storage o'));
  same_transient_history : history (transient_storage o) = history (transient_storage o');
  same_frames : storage_frames_stack o = storage_frames_stack o';
  same_transient_frames : transient_storage_frames_stack o = transient_storage_frames_stack o';
  same_paid : paid_changes o = paid_changes o';
  same_initial : initial_values o = initial_values o';
  same_refunds : returned_io_refunds o = returned_io_refunds o';
  same_costs : returned_pubdata_costs o = returned_pubdata_costs o';
  same_written : written_storage_keys o = written_storage_keys o';
  same_read : read_storage_keys o = read_storage_keys o';
}.

(** The last change of every part of the oracle happened before [t]. *)
Record oracle_older (t : Z) o : Prop := {
  older_storage : older t (history (storage o));
  older_transient : older t (history (transient_storage o));
  older_frames : older t (history (fm_forward (storage_frames_stack o)));
  older_frames' : older t (history (fm_rollback (storage_frames_stack o)));
  older_transient_frames : older t (history (fm_forward (transient_storage_frames_stack o)));
  older_transient_frames' : older t (history (fm_rollback (transient_storage_frames_stack o)));
  older_paid : older t (history (paid_changes o));
  older_initial : older t (history (initial_values o));
  older_refunds : older t (history (returned_io_refunds o));
  older_costs : older t (history (returned_pubdata_costs o));
  older_written : older t (history (written_storage_keys o));
  older_read : older t (history (read_storage_keys o));
}.

Lemma oracle_tracked_refl t o : storage_wf (inner (storage o)) -> oracle_tracked t o o.
Proof.
  intros Ho. assert (storage_same (inner (storage o)) (inner (storage o))) by done.
  split; try (by apply tracked_refl); split; by apply tracked_refl.
Qed.

Lemma oracle_op_tracked t o0 o op :
  oracle_tracked t o0 o -> t <= normalize_timestamp (op_time op) ->
  ensures (oracle_op o op) (oracle_tracked t o0).
Proof.
  intros Ho Ht. destruct op as [q|q|ts|ts p]; cbn [oracle_op op_time] in *.
  - eapply ensures_bind; [by apply execute_partial_query_tracked|]. intros [o' ?] Ho'. by apply ensures_Ret.
  - eapply ensures_bind; [by apply get_access_refund_tracked|]. intros [o' ?] Ho'. by apply ensures_Ret.
  - by apply start_frame_tracked.
  - by apply finish_frame_tracked.
Qed.

Lemma run_oracle_tracked t o0 ops : forall o,
  oracle_tracked t o0 o -> Forall (fun op => t <= normalize_timestamp (op_time op)) ops ->
  ensures (run_oracle o ops) (oracle_tracked t o0).
Proof.
  induction ops as [|op ops IH]; intros o Ho Ht; [by apply ensures_Ret|]. inversion Ht; subst.
  unfold run_oracle. cbn [foldM]. eapply ensures_bind; [by apply oracle_op_tracked|].
  intros o' Ho'. by apply IH.
Qed.

Ltac reduce := cbn -[manager_rollback_to_timestamp rollback_to_timestamp].

Lemma oracle_tracked_rollback t o0 o :
  oracle_tracked t o0 o -> oracle_older t o0 ->
  exists o', oracle_rollback_to_timestamp o t = Ret o' /\ oracle_same o' o0.
Proof.
  intros [] []. unfold oracle_rollback_to_timestamp.
  destruct (tracked_rollback t (storage o0) (storage o)) as (r1 & -> & Hs1 & Hh1); [done..|]. reduce.
  rewrite (manager_tracked_rollback t (storage_frames_stack o0)) by done. reduce.
  destruct (tracked_rollback t (transient_storage o0) (transient_storage o)) as (r2 & -> & Hs2 & Hh2);
    [done..|]. reduce.
  rewrite (manager_tracked_rollback t (transient_storage_frames_stack o0)) by done. reduce.
  rewrite (tracked_exact t (paid_changes o0) (paid_changes o)) by done. reduce.
  rewrite (tracked_exact t (initial_values o0) (initial_values o)) by done. reduce.
  rewrite (tracked_exact t (returned_io_refunds o0) (returned_io_refunds o)) by done. reduce.
  rewrite (tracked_exact t (returned_pubdata_costs o0) (returned_pubdata_costs o)) by done. reduce.
  rewrite (tracked_exact t (written_storage_keys o0) (written_storage_keys o)) by done. reduce.
  rewrite (tracked_exact t (read_storage_keys o0) (read_storage_keys o)) by done. reduce.
  eexists. split; [done|]. by split.
Qed.
End Restores.

(** C19: After any successful sequence of queries, refunds and frames, panicked or not, in cycles from
    [t] on, a rollback of the storage oracle to [t] does not panic, and restores storage, transient
    storage, frames, prices paid, initial values, refunds, costs, and the sets of keys read and
    written. *)
Theorem storage_oracle_rollback_restores {zk : ZkEvm} {params : SystemParams} {S}
    `{!ReadStorage S, !WriteStorage S, !ReadStorageSpec S, !WriteStorageSpec S}
    keccak256 (o o1 : StorageOracle S) t ops :
  storage_wf (inner (storage o)) -> oracle_older t o ->
  Forall (fun op => t <= normalize_timestamp (op_time op)) ops ->
  run_oracle keccak256 o ops = Ret o1 ->
  exists o2, oracle_rollback_to_timestamp o1 t = Ret o2 /\ oracle_same o2 o.
Proof.
  intros Hw Hold Ht Hrun. apply oracle_tracked_rollback; [|done].
  eapply run_oracle_tracked; [by apply oracle_tracked_refl|exact Ht|exact Hrun].
Qed.

(** C21: Not undone is the start of a transaction: it drains the transient storage before it writes the
    zeros, so the undo records hold zeros.  A rollback to a time before the start of the transaction
    restores everything else, but all slots of the transient storage read zero. *)
Theorem start_new_tx_forgets_transient_storage {zk : ZkEvm} {params : SystemParams} {S}
    `{!ReadStorage S, !WriteStorage S, !ReadStorageSpec S, !WriteStorageSpec S}
    (o o1 : StorageOracle S) t ts :
  storage_wf (inner (storage o)) -> oracle_older t o -> t <= normalize_timestamp ts ->
  start_new_tx HistoryEnabled o ts = Ret o1 ->
  exists o2, oracle_rollback_to_timestamp o1 t = Ret o2 /\
    oracle_same o2 (set_transient_storage o (drain_inner (transient_storage o)).1) /\
    forall k, read_from_transient_storage (transient_storage o2) k = 0.
Proof.
  intros Hw Hold Hts Hrun. set (o0 := set_transient_storage o (drain_inner (transient_storage o)).1).
  assert (oracle_tracked t o0 o1) as Htr.
  { unfold start_new_tx in Hrun. cbn [drain_inner] in Hrun. revert Hrun.
    apply (ensures_foldM _ (oracle_tracked t o0)); [by apply oracle_tracked_refl|].
    intros o' [k v] Ho'. by apply write_transient_value_tracked. }
  destruct (oracle_tracked_rollback t o0 o1) as (o2 & Ho2 & Hsame); [done|by destruct Hold|].
  exists o2. split_and!; [done..|]. intros k. apply (same_transient _ _ Hsame).
Qed.

(** *** Instance: the storage view over a storage in memory *)

#[export] Instance sample_params : SystemParams :=
  {| STORAGE_ACCESS_COLD_READ_COST := 2000; STORAGE_ACCESS_COLD_WRITE_COST := 4000;
     STORAGE_ACCESS_WARM_READ_COST := 30; STORAGE_ACCESS_WARM_WRITE_COST := 60;
     STORAGE_AUX_BYTE := 0; TRANSIENT_STORAGE_AUX_BYTE := 4;
     refund access := match access with Cold => 0 | Warm ergs => ergs end |}.

Definition sample_keccak (l : list Z) : list Z := take 32 l.

#[export] Instance sample_read : ReadStorage InMemoryStorage := in_memory_read sample_blake.
#[export] Instance sample_read_spec : ReadStorageSpec InMemoryStorage := in_memory_spec sample_blake.

Definition sample_oracle : StorageOracle (StorageView InMemoryStorage) := oracle_new (view_new sample_storage).

Definition sample_query (aux slot value : Z) (write : bool) (t : Z) : LogQuery :=
  {| timestamp := t; tx_number_in_block := 0; aux_byte := aux; shard_id := 0; q_address := 1;
     q_key := slot; Storage.read_value := 0; written_value := value; rw_flag := write;
     q_rollback := false; is_service := false |}.

Definition sample_oracle_ops : list OracleOp :=
  [OpStartFrame 8; OpRefund (sample_query 0 5 51 true 9); OpQuery (sample_query 0 5 51 true 9);
   OpQuery (sample_query 4 7 70 true 12); OpStartFrame 16; OpQuery (sample_query 0 6 60 true 17);
   OpFinishFrame 20 true; OpFinishFrame 24 false].

Lemma sample_storage_values h : unsigned 256 (default 0 (fst <$> mem_state sample_storage !! h)).
Proof.
  unfold sample_storage, in_memory_set_value. generalize (hashed_key sample_blake (StorageKey_new 1 5)).
  intros h0. cbn [in_memory_default mem_state]. rewrite lookup_empty. cbn [mem_state].
  destruct (decide (h0 = h)) as [<-|Hne].
  - rewrite lookup_insert_eq. by split.
  - rewrite lookup_insert_ne by done. rewrite lookup_empty. by split.
Qed.

Lemma memory_oracle_wf (s : InMemoryStorage) :
  (forall h, unsigned 256 (default 0 (fst <$> mem_state s !! h))) ->
  storage_wf (inner (storage (oracle_new (view_new s)))).
Proof. intros Hs. split; [by split|]. intros k. apply Hs. Qed.

Lemma sample_oracle_wf : storage_wf (inner (storage sample_oracle)).
Proof. exact (memory_oracle_wf sample_storage sample_storage_values). Qed.

Lemma sample_oracle_older t : oracle_older t sample_oracle.
Proof. by split. Qed.

Lemma storage_oracle_rollback_restores_witness :
  exists o1 o2, run_oracle sample_keccak sample_oracle sample_oracle_ops = Ret o1 /\
    prepaid_for_write o1 (StorageKey_new 1 5) = 6 /\
    oracle_rollback_to_timestamp o1 8 = Ret o2 /\ inner (paid_changes o2) = ∅.
Proof.
  destruct (run_oracle sample_keccak sample_oracle sample_oracle_ops) as [o1|] eqn:Hrun;
    [|by vm_compute in Hrun].
  assert (Hp : prepaid_for_write o1 (StorageKey_new 1 5) = 6).
  { vm_compute in Hrun. injection Hrun as <-. by vm_compute. }
  destruct (storage_oracle_rollback_restores sample_keccak sample_oracle o1 8 sample_oracle_ops
              sample_oracle_wf (sample_oracle_older 8)) as (o2 & Ho2 & Hs);
    [by apply (bool_decide_unpack _); vm_compute|exact Hrun|].
  exists o1, o2. split; [done|]. split; [done|]. split; [exact Ho2|]. by rewrite (same_paid _ _ Hs).
Defined.

Definition transient_oracle : outcome (StorageOracle (StorageView InMemoryStorage)) :=
  run_oracle sample_keccak sample_oracle [OpQuery (sample_query 4 7 70 true 4)].

Lemma start_new_tx_forgets_transient_storage_witness :
  exists o o1 o2, transient_oracle = Ret o /\ start_new_tx HistoryEnabled o 8 = Ret o1 /\
    oracle_rollback_to_timestamp o1 8 = Ret o2 /\
    read_from_transient_storage (transient_storage o) (StorageKey_new 1 7) = 70 /\
    read_from_transient_storage (transient_storage o2) (StorageKey_new 1 7) = 0.
Proof.
  destruct transient_oracle as [o|] eqn:Ho; [|by vm_compute in Ho].
  assert (Hw : storage_wf (inner (storage o))).
  { assert (oracle_tracked 0 sample_oracle o) as Htr.
    { eapply run_oracle_tracked; [apply oracle_tracked_refl, sample_oracle_wf| |exact Ho].
      by apply (bool_decide_unpack _); vm_compute. }
    apply (tr_storage _ _ _ Htr). }
  assert (Hold : oracle_older 8 o).
  { clear Hw. vm_compute in Ho. injection Ho as <-. split; intros p Hp; vm_compute in Hp; by simplify_eq. }
  destruct (start_new_tx HistoryEnabled o 8) as [o1|] eqn:H1.
  2:{ clear Hw Hold. vm_compute in Ho. injection Ho as <-. by vm_compute in H1. }
  destruct (start_new_tx_forgets_transient_storage o o1 8 8 Hw Hold) as (o2 & H2 & _ & Hk); [by vm_compute|done|].
  exists o, o1, o2. split; [done|]. split; [done|]. split; [done|]. split; [|apply Hk].
  clear Hw Hold H1 H2 Hk. vm_compute in Ho. injection Ho as <-. by vm_compute.
Defined.
