(* ===== verification/VmOracleFrames.v ===== *)
(** * Frames and pubdata of the storage oracle

    What the operations of the storage oracle do to the values of slots, whether or not a history is
    kept: the rollback log of a frame undoes its writes, so a frame that panics has no effect, and what
    was paid for a slot is always the price of publishing its net change. *)

From S2P Require Import Prelude Bytes Utils StateDiffs Storage StorageView VmHistory VmStorageOracle VmOracleRollback.
Open Scope Z_scope.

(** ** Recorders, whatever their history *)

Section Recorders.
Context {zk : ZkEvm} {T E R : Type} `{!WithHistory T E R} (H : HistoryMode).
Implicit Types r : HistoryRecorder T E.

(** A change at time [t] does not go back in time. *)
Definition timely r (t : Z) : Prop :=
  H = HistoryEnabled -> default 0 (fst <$> last (history r)) <= normalize_timestamp t.

Lemma apply_inner r e t r' x :
  apply_historic_record H r e t = Ret (r', x) ->
  exists e', apply_record (inner r) e = Ret (inner r', (e', x)).
Proof.
  unfold apply_historic_record, mutate_history.
  destruct (apply_record (inner r) e) as [[y [e' x']]|]; [|done]. cbn. destruct H; cbn.
  - unfold rust_assert. case_match; [|done]. cbn. intros [= <- <-]. eauto.
  - intros [= <- <-]. eauto.
Qed.

Lemma apply_returns r e t y e' x :
  apply_record (inner r) e = Ret (y, (e', x)) -> timely r t ->
  exists r', apply_historic_record H r e t = Ret (r', x) /\ inner r' = y /\ timely r' t.
Proof.
  unfold apply_historic_record, mutate_history, timely. intros -> Ht. cbn. destruct H; cbn.
  - rewrite rust_assert_true by (apply Z.leb_le; auto). cbn. eexists. split_and!; [done..|].
    cbn. rewrite last_snoc. cbn. lia.
  - eexists. by split_and!.
Qed.
End Recorders.

(** ** Framed stacks *)

Section Frames.
Context {zk : ZkEvm} {X : Type} (H : HistoryMode).
Implicit Types (r : FramedRecorder X) (m : FrameManager X).

Definition with_item (s : FramedStack X) (x : X) : FramedStack X :=
  {| data := data s ++ [x]; frame_start_indices := frame_start_indices s |}.

Definition with_frame (s : FramedStack X) : FramedStack X :=
  {| data := data s; frame_start_indices := frame_start_indices s ++ [length (data s)] |}.

Definition cut (s : FramedStack X) (start : nat) : FramedStack X :=
  {| data := take start (data s); frame_start_indices := frame_start_indices s |}.

Lemma push_to_frame_inner r x t r' :
  push_to_frame H r x t = Ret r' -> inner r' = with_item (inner r) x.
Proof.
  unfold push_to_frame. intros ([r1 ?] & Ha & [= <-])%outcome_bind_Ret.
  by apply apply_inner in Ha as (e' & [= <- _ _]).
Qed.

Lemma push_to_frame_returns r x t :
  timely H r t -> exists r', push_to_frame H r x t = Ret r' /\ inner r' = with_item (inner r) x /\ timely H r' t.
Proof.
  intros Ht. unfold push_to_frame.
  destruct (apply_returns H r (FsPush x) t _ _ _ eq_refl Ht) as (r' & -> & Hr & Ht'). cbn. eauto.
Qed.

Lemma push_frame_inner r t r' : push_frame H r t = Ret r' -> inner r' = with_frame (inner r).
Proof.
  unfold push_frame. intros ([r1 ?] & Ha & [= <-])%outcome_bind_Ret.
  by apply apply_inner in Ha as (e' & [= <- _ _]).
Qed.

Lemma push_frame_returns r t :
  timely H r t -> exists r', push_frame H r t = Ret r' /\ inner r' = with_frame (inner r) /\ timely H r' t.
Proof.
  intros Ht. unfold push_frame.
  destruct (apply_returns H r (framed_push_frame (inner r)) t _ _ _ eq_refl Ht) as (r' & -> & Hr & Ht').
  cbn. eauto.
Qed.

Lemma merge_frame_inner r t r' f i :
  frame_start_indices (inner r) = f ++ [i] -> merge_frame H r t = Ret r' ->
  inner r' = {| data := data (inner r); frame_start_indices := f |}.
Proof.
  intros Hf. unfold merge_frame. intros ([r1 ?] & Ha & [= <-])%outcome_bind_Ret.
  apply apply_inner in Ha as (e' & Ha). unfold apply_record in Ha. cbn in Ha.
  rewrite Hf, vec_pop_snoc in Ha. by injection Ha as <- _ _.
Qed.

Lemma merge_frame_returns r t f i :
  frame_start_indices (inner r) = f ++ [i] -> timely H r t ->
  exists r', merge_frame H r t = Ret r' /\
    inner r' = {| data := data (inner r); frame_start_indices := f |} /\ timely H r' t.
Proof.
  intros Hf Ht. unfold merge_frame.
  destruct (apply_returns H r FsMergeFrame t {| data := data (inner r); frame_start_indices := f |}
              (FsPushFrame i) tt) as (r' & -> & Hr & Ht'); [|done|].
  { unfold apply_record. cbn. by rewrite Hf, vec_pop_snoc. }
  cbn. eauto.
Qed.

Lemma clear_frame_loop_returns start t : forall fuel r,
  (length (data (inner r)) <= start + fuel)%nat -> (start <= length (data (inner r)))%nat -> timely H r t ->
  exists r', clear_frame_loop H fuel start r t = Ret r' /\ inner r' = cut (inner r) start /\ timely H r' t.
Proof.
  induction fuel as [|fuel IH]; intros r Hf Hs Ht; cbn [clear_frame_loop];
    (destruct (Nat.ltb_spec start (length (data (inner r)))) as [Hlt|Hge]; [|exists r]).
  1: lia.
  1,3: split_and!; [done| |done]; unfold cut; rewrite take_ge by lia; by destruct (inner r).
  destruct (exists_last (l := data (inner r))) as (d & x & Hd).
  { intros Hd. rewrite Hd in Hlt. cbn in Hlt. lia. }
  destruct (apply_returns H r FsPop t {| data := d; frame_start_indices := frame_start_indices (inner r) |}
              (FsPush x) tt) as (r' & -> & Hr & Ht'); [|done|].
  { unfold apply_record. cbn. by rewrite Hd, vec_pop_snoc. }
  rewrite outcome_Ret_bind. cbv beta iota. rewrite Hd, length_app in *. cbn in *.
  destruct (IH r') as (r2 & H2 & Hr2 & Ht2); [rewrite Hr; cbn; lia..|done|].
  exists r2. split_and!; [done| |done]. rewrite Hr2, Hr. unfold cut. cbn. rewrite Hd.
  by rewrite take_app_le by lia.
Qed.

Lemma clear_frame_returns r t start :
  last (frame_start_indices (inner r)) = Some start -> (start <= length (data (inner r)))%nat -> timely H r t ->
  exists r', clear_frame H r t = Ret r' /\ inner r' = cut (inner r) start /\ timely H r' t.
Proof.
  intros Hl Hs Ht. unfold clear_frame. rewrite Hl. cbn [expect]. rewrite outcome_Ret_bind.
  apply clear_frame_loop_returns; [lia|done..].
Qed.

Lemma push_forward_inner m x t m' :
  push_forward H m x t = Ret m' ->
  forward_stack m' = with_item (forward_stack m) x /\ rollback_stack m' = rollback_stack m.
Proof. intros (r & Hr & [= <-])%outcome_bind_Ret. by apply push_to_frame_inner in Hr. Qed.

Lemma push_forward_returns m x t :
  timely H (fm_forward m) t ->
  exists r, push_forward H m x t = Ret {| fm_forward := r; fm_rollback := fm_rollback m |} /\
    inner r = with_item (forward_stack m) x /\ timely H r t.
Proof.
  intros Ht. unfold push_forward, with_forward.
  destruct (push_to_frame_returns (fm_forward m) x t Ht) as (r & -> & Hr & Tr). cbn. eauto.
Qed.

Lemma push_rollback_inner m x t m' :
  push_rollback H m x t = Ret m' ->
  forward_stack m' = forward_stack m /\ rollback_stack m' = with_item (rollback_stack m) x.
Proof. intros (r & Hr & [= <-])%outcome_bind_Ret. by apply push_to_frame_inner in Hr. Qed.

Lemma manager_push_frame_inner m t m' :
  manager_push_frame H m t = Ret m' ->
  forward_stack m' = with_frame (forward_stack m) /\ rollback_stack m' = with_frame (rollback_stack m).
Proof.
  intros (m1 & (r & Hr & [= <-])%outcome_bind_Ret & (r' & Hr' & [= <-])%outcome_bind_Ret)%outcome_bind_Ret.
  by apply push_frame_inner in Hr, Hr'.
Qed.

Definition manager_timely m (t : Z) : Prop := timely H (fm_forward m) t /\ timely H (fm_rollback m) t.

(** Leaving a frame: both stacks keep their items. *)
Lemma manager_merge_frame_returns m t f i g j :
  frame_start_indices (forward_stack m) = f ++ [i] -> frame_start_indices (rollback_stack m) = g ++ [j] ->
  manager_timely m t ->
  exists m', manager_merge_frame H m t = Ret m' /\
    forward_stack m' = {| data := data (forward_stack m); frame_start_indices := f |} /\
    rollback_stack m' = {| data := data (rollback_stack m); frame_start_indices := g |} /\
    manager_timely m' t.
Proof.
  intros Hf Hg [T1 T2]. unfold manager_merge_frame, with_forward, with_rollback.
  destruct (merge_frame_returns (fm_forward m) t f i) as (r1 & -> & H1 & ?); [done..|]. cbn -[merge_frame].
  destruct (merge_frame_returns (fm_rollback m) t g j) as (r2 & -> & H2 & ?); [done..|]. cbn.
  eexists. by split_and!.
Qed.

(** Entering a frame. *)
Lemma manager_push_frame_returns m t :
  manager_timely m t ->
  exists m', manager_push_frame H m t = Ret m' /\ forward_stack m' = with_frame (forward_stack m) /\
    rollback_stack m' = with_frame (rollback_stack m) /\ manager_timely m' t.
Proof.
  intros [T1 T2]. unfold manager_push_frame, with_forward, with_rollback.
  destruct (push_frame_returns (fm_forward m) t T1) as (r1 & -> & H1 & ?). cbn -[push_frame].
  destruct (push_frame_returns (fm_rollback m) t T2) as (r2 & -> & H2 & ?). cbn. eexists. by split_and!.
Qed.

(** A query is logged with its rollback. *)
Lemma push_both_returns m x y t :
  manager_timely m t ->
  exists m', (push_forward H m x t ≫= (fun m => push_rollback H m y t)) = Ret m' /\
    forward_stack m' = with_item (forward_stack m) x /\
    rollback_stack m' = with_item (rollback_stack m) y /\ manager_timely m' t.
Proof.
  intros [T1 T2]. destruct (push_forward_returns m x t T1) as (r1 & -> & H1 & ?).
  rewrite outcome_Ret_bind. unfold push_rollback, with_rollback. cbn [fm_rollback fm_forward].
  destruct (push_to_frame_returns (fm_rollback m) y t T2) as (r2 & -> & H2 & ?). cbn.
  eexists. by split_and!.
Qed.

Lemma move_rollback_to_forward_returns m filter t start :
  last (frame_start_indices (rollback_stack m)) = Some start ->
  (start <= length (data (rollback_stack m)))%nat -> manager_timely m t ->
  exists m', move_rollback_to_forward H m filter t = Ret m' /\ rollback_stack m' = cut (rollback_stack m) start /\
    frame_start_indices (forward_stack m') = frame_start_indices (forward_stack m) /\
    data (forward_stack m') =
      data (forward_stack m) ++ List.filter filter (reverse (drop start (data (rollback_stack m)))) /\
    manager_timely m' t.
Proof.
  intros Hl Hs [T1 T2]. unfold move_rollback_to_forward, current_frame. rewrite Hl. cbn [expect].
  rewrite outcome_Ret_bind, rust_assert_true by (by apply Nat.leb_le). rewrite !outcome_Ret_bind.
  generalize (reverse (drop start (data (rollback_stack m)))) as items. intros items.
  assert (exists m1, foldM (fun m x => if filter x then push_forward H m x t else Ret m) m items = Ret m1 /\
    fm_rollback m1 = fm_rollback m /\ timely H (fm_forward m1) t /\
    frame_start_indices (forward_stack m1) = frame_start_indices (forward_stack m) /\
    data (forward_stack m1) = data (forward_stack m) ++ List.filter filter items)
    as (m1 & -> & Hrb & T1' & Hfs & Hd).
  { clear Hl Hs T2. revert m T1. induction items as [|x items IH]; intros m T1; cbn [foldM List.filter].
    { exists m. by rewrite app_nil_r. }
    destruct (filter x).
    - destruct (push_forward_returns m x t T1) as (r & -> & Hr & Tr). rewrite outcome_Ret_bind.
      destruct (IH {| fm_forward := r; fm_rollback := fm_rollback m |}) as (m1 & H1 & H2 & H3 & H4 & H5); [done|].
      exists m1. split_and!; [done..| |].
      + rewrite H4. unfold forward_stack. cbn. by rewrite Hr.
      + rewrite H5. unfold forward_stack. cbn. rewrite Hr. cbn. by rewrite <- (assoc_L (++)).
    - rewrite outcome_Ret_bind. by apply IH. }
  rewrite outcome_Ret_bind. unfold with_rollback. rewrite Hrb.
  destruct (clear_frame_returns (fm_rollback m) t start) as (r & -> & Hr & Tr); [done..|]. cbn.
  eexists. by split_and!.
Qed.
End Frames.

(** ** What a caller sees of an oracle, and what the operations do to it *)

Definition upd (f : StorageKey -> Z) (k : StorageKey) (x : Z) : StorageKey -> Z :=
  fun k' => if decide (k = k') then x else f k'.

Record View := {
  v_values : StorageKey -> Z;
  v_initial : gmap StorageKey Z;
  v_paid : gmap StorageKey Z;
  v_forward : FramedStack StorageLogQuery;
  v_rollback : FramedStack StorageLogQuery;
  v_transient : StorageKey -> Z;
  v_transient_forward : FramedStack ReducedTstoreLogQuery;
  v_transient_rollback : FramedStack ReducedTstoreLogQuery;
}.

Definition vset_initial (v : View) x : View := Build_View (v_values v) x (v_paid v) (v_forward v)
  (v_rollback v) (v_transient v) (v_transient_forward v) (v_transient_rollback v).
Definition vset_paid (v : View) x : View := Build_View (v_values v) (v_initial v) x (v_forward v)
  (v_rollback v) (v_transient v) (v_transient_forward v) (v_transient_rollback v).
Definition vset_values (v : View) x : View := Build_View x (v_initial v) (v_paid v) (v_forward v)
  (v_rollback v) (v_transient v) (v_transient_forward v) (v_transient_rollback v).
Definition vset_frames (v : View) x y : View := Build_View (v_values v) (v_initial v) (v_paid v) x y
  (v_transient v) (v_transient_forward v) (v_transient_rollback v).
Definition vset_transient (v : View) x : View := Build_View (v_values v) (v_initial v) (v_paid v)
  (v_forward v) (v_rollback v) x (v_transient_forward v) (v_transient_rollback v).
Definition vset_transient_frames (v : View) x y : View := Build_View (v_values v) (v_initial v) (v_paid v)
  (v_forward v) (v_rollback v) (v_transient v) x y.

Section Spec.
Context {params : SystemParams} (keccak256 : list Z -> list Z) (is_new : StorageKey -> bool).
Implicit Types v : View.

(** The price of publishing a change of a slot, where [is_new] slots are published by their key. *)
Definition change_price (k : StorageKey) (old new : Z) : Z :=
  if is_storage_key_free keccak256 k || (old =? new) then 0 else get_pubdata_price_bytes old new (is_new k).

Definition write_kind (k : StorageKey) : StorageLogKind := if is_new k then InitialWrite else RepeatedWrite.

Definition first_value (m : gmap StorageKey Z) (k : StorageKey) (x : Z) : gmap StorageKey Z :=
  match m !! k with Some _ => m | None => <[k := x]> m end.

Definition spec_write v (q : LogQuery) : View :=
  let k := storage_key_of_log q in
  vset_frames (vset_values v (upd (v_values v) k (u256_to_h256 (written_value q))))
    (with_item (v_forward v) {| log_query := q; log_type := write_kind k |})
    (with_item (v_rollback v) {| log_query := with_rollback_flag q true; log_type := write_kind k |}).

Definition transient_key (q : ReducedTstoreLogQuery) : StorageKey :=
  triplet_to_storage_key (t_shard_id q) (t_address q) (t_key q).

Definition spec_transient_write v (q : ReducedTstoreLogQuery) : View :=
  vset_transient_frames (vset_transient v (upd (v_transient v) (transient_key q) (t_written_value q)))
    (with_item (v_transient_forward v) q) (with_item (v_transient_rollback v) (with_t_rollback q)).

(** A query, and the pubdata to pay for it. *)
Definition spec_query v (q : LogQuery) : View * Z :=
  let k := storage_key_of_log q in
  if aux_byte q =? TRANSIENT_STORAGE_AUX_BYTE then
    let q := reduced_of_log_query (with_read_value q (v_transient v k)) in
    if t_rw_flag q then (spec_transient_write v q, 0)
    else (vset_transient_frames v (with_item (v_transient_forward v) q) (v_transient_rollback v), 0)
  else
    let x := v_values v k in
    let q := with_read_value q x in
    let v := vset_initial v (first_value (v_initial v) k x) in
    if rw_flag q then
      let price := change_price k (default x (v_initial v !! k)) (written_value q) in
      (spec_write (vset_paid v (<[k := price]> (v_paid v))) q, price - default 0 (v_paid v !! k))
    else (vset_frames v (with_item (v_forward v) {| log_query := q; log_type := Read |}) (v_rollback v), 0).

Definition spec_start_frame v : View :=
  vset_transient_frames (vset_frames v (with_frame (v_forward v)) (with_frame (v_rollback v)))
    (with_frame (v_transient_forward v)) (with_frame (v_transient_rollback v)).
End Spec.

(** ** Logs that undo writes *)

(** Undoing the writes [(key, value before, value written)] in turn leads from [f] to [g], and each of
    them finds the value it wrote. *)
Fixpoint undoes (f : StorageKey -> Z) (writes : list (StorageKey * Z * Z)) (g : StorageKey -> Z) : Prop :=
  match writes with
  | [] => forall k, f k = g k
  | (k, before, written) :: rest => f k = written /\ undoes (upd f k before) rest g
  end.

Definition storage_undo (l : StorageLogQuery) : StorageKey * Z * Z :=
  (storage_key_of_log (log_query l), Storage.read_value (log_query l), written_value (log_query l)).

Definition transient_undo (q : ReducedTstoreLogQuery) : StorageKey * Z * Z :=
  (transient_key q, t_read_value q, t_written_value q).

Lemma undoes_ext writes : forall f f' g,
  (forall k, f k = f' k) -> undoes f writes g -> undoes f' writes g.
Proof.
  induction writes as [|[[k x] y] rest IH]; intros f f' g Hf; cbn.
  - intros Hg k. by rewrite <- Hf.
  - intros [Hk Hr]. split; [by rewrite <- Hf|]. eapply IH; [|exact Hr].
    intros k'. unfold upd. case_decide; [done|apply Hf].
Qed.

Lemma undoes_app w1 w2 g h : forall f, undoes f w1 g -> undoes g w2 h -> undoes f (w1 ++ w2) h.
Proof.
  induction w1 as [|[[k x] y] rest IH]; intros f; cbn.
  - intros Hf. by apply undoes_ext.
  - intros [Hk Hr] Hg. eauto.
Qed.

Lemma undoes_write f k x : undoes (upd f k x) [(k, f k, x)] f.
Proof.
  cbn. unfold upd. rewrite decide_True by done. split; [done|]. intros k'. case_decide; [by subst|done].
Qed.

Section Refinement.
Context {zk : ZkEvm} {params : SystemParams} {S : Type}.
Context `{!ReadStorage S, !WriteStorage S, !ReadStorageSpec S, !WriteStorageSpec S}.
Context (keccak256 : list Z -> list Z) (H : HistoryMode) (is_new : StorageKey -> bool).
Implicit Types (o : StorageOracle S) (v : View) (k : StorageKey).

Record looks o v : Prop := {
  l_wf : storage_wf (inner (storage o));
  l_new : forall k, initial_at (contents (storage_ptr (inner (storage o)))) k = is_new k;
  l_values : forall k, value_of (inner (storage o)) k = v_values v k;
  l_initial : inner (initial_values o) = v_initial v;
  l_paid : inner (paid_changes o) = v_paid v;
  l_forward : forward_stack (storage_frames_stack o) = v_forward v;
  l_rollback : rollback_stack (storage_frames_stack o) = v_rollback v;
  l_transient : forall k, read_from_transient_storage (transient_storage o) k = v_transient v k;
  l_transient_forward : forward_stack (transient_storage_frames_stack o) = v_transient_forward v;
  l_transient_rollback : rollback_stack (transient_storage_frames_stack o) = v_transient_rollback v;
}.

Lemma map_apply_inner {V} (r : MapRecorder V) (k : StorageKey) (x : V) t r' y :
  apply_historic_record H r {| hm_key := k; hm_value := Some x |} t = Ret (r', y) ->
  inner r' = <[k := x]> (inner r).
Proof. intros (e' & [= <- _ _])%apply_inner. done. Qed.

(** Reads of the storage only change its caches. *)
Lemma looks_storage o v r :
  looks o v -> storage_same (inner (storage o)) (inner r) -> looks (set_storage o r) v.
Proof.
  intros [] (_ & Hw & Hc). split; cbn; try done.
  - intros k. by rewrite <- Hc.
  - intros k. unfold value_of. rewrite <- Hc. apply l_values0.
Qed.

Lemma looks_read o v k :
  looks o v ->
  (read_from_storage (storage o) k).2 = v_values v k /\
  looks (set_storage o (read_from_storage (storage o) k).1) v.
Proof.
  intros Ho. destruct (read_from_storage_spec (storage o) k (l_wf _ _ Ho)) as (H1 & H2 & _).
  split; [|by apply looks_storage]. rewrite H1. apply Ho.
Qed.

Lemma looks_is_write_initial o v k :
  looks o v -> looks (ptr_is_write_initial o k).1 v /\ (ptr_is_write_initial o k).2 = is_new k.
Proof.
  intros Ho. pose proof (l_wf _ _ Ho) as [Hv Hw]. unfold ptr_is_write_initial.
  destruct (is_write_initial_spec (storage_ptr (inner (storage o))) k Hv) as (H1 & H2 & H3).
  destruct (is_write_initial _ k) as [s b]. cbn in *. split; [|rewrite H1; apply Ho].
  apply looks_storage; [done|]. split_and!; cbn; [done| |done]. split; [done|].
  intros k'. unfold value_of. cbn. rewrite H3. apply Hw.
Qed.

Lemma looks_price o v k x :
  looks o v ->
  looks (base_price_for_key_write keccak256 o k x).1 v /\
  (base_price_for_key_write keccak256 o k x).2 =
    change_price keccak256 is_new k (default (v_values v k) (v_initial v !! k)) x.
Proof.
  intros Ho. unfold base_price_for_key_write, get_initial_value. destruct (looks_read o v k Ho) as [H1 H2].
  destruct (read_from_storage (storage o) k) as [r y]. cbn in H1, H2. subst y.
  rewrite (l_initial _ _ Ho). unfold base_price_for_write, change_price.
  destruct (is_storage_key_free keccak256 k || _); [done|].
  destruct (looks_is_write_initial _ v k H2) as [H3 H4].
  destruct (ptr_is_write_initial _ k) as [o' b]. cbn in *. by subst b.
Qed.

Lemma looks_write o v k x t r y :
  looks o v -> write_to_storage H (storage o) k x t = Ret (r, y) ->
  y = v_values v k /\ looks (set_storage o r) (vset_values v (upd (v_values v) k (u256_to_h256 x))).
Proof.
  intros Ho (e' & Ha)%apply_inner.
  destruct (storage_apply (inner (storage o)) {| sh_key := k; sh_value := x |} (l_wf _ _ Ho))
    as (w & Hw & Hwf & Hc). rewrite Hw in Ha. injection Ha as Ha _ <-. cbn in *. subst w.
  split; [apply Ho|]. destruct Ho. split; cbn; try done.
  - intros k'. rewrite Hc. apply l_new0.
  - intros k'. unfold value_of, upd. rewrite Hc. cbn. case_decide; [done|]. apply l_values0.
Qed.

Lemma write_storage_value_refines o v q o' :
  looks o v -> write_storage_value H o q = Ret o' -> looks o' (spec_write is_new v q).
Proof.
  intros Ho. unfold write_storage_value. intros (o1 & H1 & Hw)%outcome_bind_Ret.
  assert (looks o1 v) as Ho1.
  { destruct (bool_decide _); [by injection H1 as <-|]. apply outcome_bind_Ret in H1 as ([r ?] & _ & [= <-]).
    by destruct Ho. }
  clear Ho H1. apply outcome_bind_Ret in Hw as ([r x] & Hr & Hw).
  destruct (looks_write _ _ _ _ _ _ _ Ho1 Hr) as [_ Ho2]. clear Ho1 Hr.
  match type of Hw with context [ptr_is_write_initial ?o ?k] =>
    destruct (looks_is_write_initial o _ k Ho2) as [Ho3 Hb]; destruct (ptr_is_write_initial o k) as [o3 b] end.
  cbn in Ho3, Hb. subst b. clear Ho2 r.
  apply outcome_bind_Ret in Hw as (m & Hm & Hw). apply outcome_bind_Ret in Hw as (m' & Hm' & [= <-]).
  apply push_forward_inner in Hm as [F1 R1]. apply push_rollback_inner in Hm' as [F2 R2].
  destruct Ho3. split; cbn in *; try done; unfold write_kind, storage_key_of_log; congruence.
Qed.

Lemma write_transient_refines o v q o' :
  looks o v -> write_transient_storage_value H o q = Ret o' -> looks o' (spec_transient_write v q).
Proof.
  intros Ho. unfold write_transient_storage_value. intros ([r x] & Hr & Hw)%outcome_bind_Ret.
  apply outcome_bind_Ret in Hw as (m & Hm & Hw). apply outcome_bind_Ret in Hw as (m' & Hm' & [= <-]).
  apply push_forward_inner in Hm as [F1 R1]. apply push_rollback_inner in Hm' as [F2 R2].
  apply apply_inner in Hr as (e' & [= Hr _ _]).
  destruct Ho. split; cbn in *; try done; try congruence.
  intros k. unfold read_from_transient_storage in *. rewrite <- Hr. cbn.
  rewrite transient_insert_default. unfold upd, transient_key. case_decide; [done|]. apply l_transient0.
Qed.

Lemma set_initial_value_refines o v k x t o' :
  looks o v -> set_initial_value H o k x t = Ret o' ->
  looks o' (vset_initial v (first_value (v_initial v) k x)).
Proof.
  intros Ho. unfold set_initial_value, first_value. rewrite (l_initial _ _ Ho).
  destruct (v_initial v !! k) as [y|] eqn:Hk.
  - rewrite bool_decide_eq_true_2 by eauto. intros [= <-]. by destruct Ho.
  - rewrite bool_decide_eq_false_2 by (intros [? ?]; congruence).
    intros ([r ?] & Hr & [= <-])%outcome_bind_Ret. apply map_apply_inner in Hr.
    destruct Ho. split; cbn; try done. congruence.
Qed.

Lemma query_read_refines o v q o' x :
  looks o v -> query_read_value H o q = Ret (o', x) ->
  let k := storage_key_of_log q in
  if aux_byte q =? TRANSIENT_STORAGE_AUX_BYTE then x = v_transient v k /\ looks o' v
  else x = v_values v k /\ looks o' (vset_initial v (first_value (v_initial v) k x)) /\
       aux_byte q = STORAGE_AUX_BYTE.
Proof.
  intros Ho. unfold query_read_value. cbv zeta. destruct (aux_byte q =? TRANSIENT_STORAGE_AUX_BYTE).
  { intros [= <- <-]. split; [apply Ho|done]. }
  destruct (Z.eqb_spec (aux_byte q) STORAGE_AUX_BYTE) as [Haux|]; [|done].
  intros (o1 & H1 & Hw)%outcome_bind_Ret. assert (looks o1 v) as Ho1.
  { destruct (bool_decide _); [by injection H1 as <-|]. apply outcome_bind_Ret in H1 as ([r ?] & _ & [= <-]).
    by destruct Ho. }
  destruct (looks_read o1 v (storage_key_of_log q) Ho1) as [Hx Ho2].
  destruct (read_from_storage _ _) as [r y]. cbn in Hx, Ho2. subst y.
  apply outcome_bind_Ret in Hw as (o2 & H2 & [= <- <-]). split_and!; [done| |done].
  by eapply set_initial_value_refines.
Qed.

Lemma query_cost_refines o v q o' c :
  looks o v -> query_pubdata_cost keccak256 H o q = Ret (o', c) ->
  if (aux_byte q =? STORAGE_AUX_BYTE) && rw_flag q then
    let k := storage_key_of_log q in
    let price := change_price keccak256 is_new k (default (v_values v k) (v_initial v !! k)) (written_value q) in
    c = price - default 0 (v_paid v !! k) /\ looks o' (vset_paid v (<[k := price]> (v_paid v)))
  else c = 0 /\ looks o' v.
Proof.
  intros Ho. unfold query_pubdata_cost, base_price_for_write_query. cbv zeta.
  destruct (_ && _); [|by intros [= <- <-]].
  destruct (looks_price o v (storage_key_of_log q) (written_value q) Ho) as [Ho1 Hp].
  destruct (base_price_for_key_write _ _ _ _) as [o1 p]. cbn in Ho1, Hp. subst p.
  intros ([r y] & Hr & [= <- <-])%outcome_bind_Ret. apply map_apply_inner in Hr.
  unfold prepaid_for_write. rewrite (l_paid _ _ Ho1). split; [done|].
  destruct Ho1. split; cbn; try done. congruence.
Qed.

Context (Haux : TRANSIENT_STORAGE_AUX_BYTE <> STORAGE_AUX_BYTE).

Lemma query_refines o v q o' q' c :
  looks o v -> execute_partial_query keccak256 H o q = Ret (o', (q', c)) ->
  looks o' (spec_query keccak256 is_new v q).1 /\ c = (spec_query keccak256 is_new v q).2.
Proof.
  intros Ho. unfold execute_partial_query, spec_query. intros (_ & _ & He)%outcome_bind_Ret.
  apply outcome_bind_Ret in He as ([o1 x] & H1 & He). apply (query_read_refines o v) in H1; [|done].
  apply outcome_bind_Ret in He as ([o2 c2] & H2 & He).
  apply outcome_bind_Ret in He as (o3 & H3 & He).
  apply outcome_bind_Ret in He as ([r ?] & _ & [= <- <- <-]).
  enough (looks o3 (spec_query keccak256 is_new v q).1 /\ c2 = (spec_query keccak256 is_new v q).2) as [Ho3 ->].
  { split; [|done]. by destruct Ho3. }
  unfold spec_query. unfold query_record in H3. cbv zeta in H1. cbn [aux_byte with_read_value] in H3.
  destruct (Z.eqb_spec (aux_byte q) TRANSIENT_STORAGE_AUX_BYTE) as [Ht|Ht].
  - destruct H1 as [-> Ho1]. apply (query_cost_refines o1 v) in H2; [|done]. cbn [aux_byte with_read_value] in H2.
    rewrite (proj2 (Z.eqb_neq (aux_byte q) STORAGE_AUX_BYTE)) in H2 by congruence.
    destruct H2 as [-> Ho2]. cbn [t_rw_flag reduced_of_log_query rw_flag with_read_value] in *.
    destruct (rw_flag q); cbn [fst snd]; split; [|done| |done].
    + by eapply write_transient_refines.
    + apply outcome_bind_Ret in H3 as (m & Hm & [= <-]). apply push_forward_inner in Hm as [F R].
      destruct Ho2. split; cbn in *; try done; congruence.
  - destruct H1 as (-> & Ho1 & Hs). apply (query_cost_refines o1 _) with (2 := H2) in Ho1.
    cbn [aux_byte with_read_value rw_flag] in Ho1. rewrite Hs, Z.eqb_refl in Ho1, H3. cbn [andb] in Ho1.
    cbn [rw_flag with_read_value] in *. destruct (rw_flag q); cbn [fst snd].
    + destruct Ho1 as [-> Ho2]. split; [|done]. eapply write_storage_value_refines; [exact Ho2|done].
    + destruct Ho1 as [-> Ho2]. split; [|done].
      apply outcome_bind_Ret in H3 as (m & Hm & [= <-]). apply push_forward_inner in Hm as [F R].
      destruct Ho2. split; cbn in *; try done; congruence.
Qed.

Lemma refund_refines o v q o' a :
  looks o v -> get_access_refund keccak256 H o q = Ret (o', a) -> looks o' v.
Proof.
  intros Ho. unfold get_access_refund. intros (a' & _ & He)%outcome_bind_Ret.
  apply outcome_bind_Ret in He as ([r ?] & _ & [= <- _]). by destruct Ho.
Qed.

Lemma start_frame_refines o v t o' : looks o v -> start_frame H o t = Ret o' -> looks o' (spec_start_frame v).
Proof.
  intros Ho. unfold start_frame. intros (m & Hm & He)%outcome_bind_Ret.
  apply outcome_bind_Ret in He as (m' & Hm' & [= <-]).
  apply manager_push_frame_inner in Hm as [F1 R1]. apply manager_push_frame_inner in Hm' as [F2 R2].
  destruct Ho. split; cbn in *; try done; congruence.
Qed.

(** *** Undoing a frame *)

Record oracle_timely o (t : Z) : Prop := {
  ti_storage : timely H (storage o) t;
  ti_transient : timely H (transient_storage o) t;
  ti_frames : manager_timely H (storage_frames_stack o) t;
  ti_transient_frames : manager_timely H (transient_storage_frames_stack o) t;
  ti_paid : timely H (paid_changes o) t;
}.

(** What is paid for a slot is the price of its change since it had the value [b k]. *)
Definition paid_ok (b : StorageKey -> Z) v : Prop :=
  forall k, default 0 (v_paid v !! k) = change_price keccak256 is_new k (b k) (v_values v k).

(** A write log of the storage: its slot was read before. *)
Definition write_log_ok (b : StorageKey -> Z) v (l : StorageLogQuery) : Prop :=
  log_type l <> Read /\ unsigned 256 (Storage.read_value (log_query l)) /\
  v_initial v !! storage_key_of_log (log_query l) = Some (b (storage_key_of_log (log_query l))).

Lemma price_history o k x :
  exists r, (base_price_for_key_write keccak256 o k x).1 = set_storage o r /\ history r = history (storage o).
Proof.
  unfold base_price_for_key_write, read_from_storage.
  destruct (wrapper_read_from_storage _ _) as [w y]. unfold base_price_for_write, ptr_is_write_initial.
  case_match; [by eexists|]. cbn. destruct (is_write_initial _ _) as [s b]. by eexists.
Qed.

Lemma write_returns o v k x t :
  looks o v -> timely H (storage o) t ->
  exists r, write_to_storage H (storage o) k x t = Ret (r, v_values v k) /\ timely H r t.
Proof.
  intros Ho Ht.
  destruct (storage_apply (inner (storage o)) {| sh_key := k; sh_value := x |} (l_wf _ _ Ho)) as (w & Hw & _).
  destruct (apply_returns H _ _ t _ _ _ Hw Ht) as (r & Hr & _ & Hr'). exists r. unfold write_to_storage.
  rewrite Hr. cbn. by rewrite (l_values _ _ Ho).
Qed.

Lemma restore_slot_returns b o v q t :
  let k := storage_key_of_log q in
  let x := Storage.read_value q in
  looks o v -> oracle_timely o t -> unsigned 256 x -> v_initial v !! k = Some (b k) ->
  v_values v k = written_value q ->
  exists o', restore_slot keccak256 H t o q = Ret o' /\ oracle_timely o' t /\
    looks o' (vset_values (vset_paid v (<[k := change_price keccak256 is_new k (b k) x]> (v_paid v)))
                (upd (v_values v) k x)).
Proof.
  intros k x Ho Ht Hrange Hinit Hcur. unfold restore_slot. fold (storage_key_of_log q). fold k x. cbv zeta.
  destruct (write_returns o v k x t Ho (ti_storage _ _ Ht)) as (r & Hr & Htr).
  destruct (looks_write _ _ _ _ _ _ _ Ho Hr) as [_ Ho1]. rewrite u256_to_h256_id in Ho1 by done.
  destruct (looks_price _ _ k x Ho1) as [Ho2 Hp]. destruct (price_history (set_storage o r) k x) as (r2 & H2 & Hh2).
  rewrite Hr, outcome_Ret_bind. cbv beta iota zeta.
  destruct (base_price_for_key_write keccak256 (set_storage o r) k x) as [o2 p]. cbn [fst snd] in *.
  subst o2 p. cbn [v_initial vset_values] in *. rewrite Hinit. cbn [from_option id].
  destruct (apply_returns H (paid_changes o) {| hm_key := k;
    hm_value := Some (change_price keccak256 is_new k (b k) x) |} t _ _ _ eq_refl (ti_paid _ _ Ht))
    as (r3 & H3 & Hr3 & Ht3).
  change (paid_changes (set_storage (set_storage o r) r2)) with (paid_changes o).
  rewrite H3, outcome_Ret_bind. cbv beta iota.
  rewrite rust_assert_true by (by apply Z.eqb_eq). rewrite outcome_Ret_bind.
  eexists. split; [done|]. split.
  - destruct Ht. split; cbn; try done. unfold timely in *. by rewrite Hh2.
  - destruct Ho2. split; cbn in *; try done. rewrite Hr3. cbn. by rewrite (l_paid _ _ Ho).
Qed.

Lemma undo_write_returns b o v l t :
  looks o v -> oracle_timely o t -> paid_ok b v -> write_log_ok b v l ->
  let '(k, before, written) := storage_undo l in
  v_values v k = written ->
  exists o' paid, undo_write keccak256 H t o l = Ret o' /\ oracle_timely o' t /\
    let v' := vset_values (vset_paid v paid) (upd (v_values v) k before) in
    looks o' v' /\ paid_ok b v'.
Proof.
  intros Ho Ht Hpaid (Hkind & Hrange & Hinit). unfold storage_undo. intros Hcur.
  destruct (restore_slot_returns b o v (log_query l) t Ho Ht Hrange Hinit Hcur) as (o' & Hrun & Ht' & Ho').
  eexists o', _. split_and!; [unfold undo_write; by destruct (log_type l)|done|exact Ho'|].
  intros k'. cbn. rewrite transient_insert_default. unfold upd. case_decide; [by subst|]. apply Hpaid.
Qed.

Lemma undo_writes_returns b g t logs : forall o v,
  looks o v -> oracle_timely o t -> paid_ok b v -> Forall (write_log_ok b v) logs ->
  undoes (v_values v) (storage_undo <$> logs) g ->
  exists o' paid values, foldM (undo_write keccak256 H t) o logs = Ret o' /\ oracle_timely o' t /\
    let v' := vset_values (vset_paid v paid) values in
    looks o' v' /\ paid_ok b v' /\ forall k, values k = g k.
Proof.
  induction logs as [|l logs IH]; intros o v Ho Ht Hp Hlogs Hu.
  { exists o, (v_paid v), (v_values v). cbv zeta. split_and!; [done|done|by destruct Ho|exact Hp|exact Hu]. }
  inversion Hlogs as [|? ? Hl Hlogs']; subst. cbn [foldM].
  pose proof (undo_write_returns b o v l t Ho Ht Hp Hl) as Hw. rewrite fmap_cons in Hu. cbn [undoes] in Hu.
  destruct (storage_undo l) as [[k x] y]. destruct Hu as [Hcur Hu].
  destruct (Hw Hcur) as (o1 & paid & -> & Ht1 & Ho1 & Hp1). rewrite outcome_Ret_bind.
  destruct (IH o1 _ Ho1 Ht1 Hp1 Hlogs' Hu) as (o' & paid' & values' & Hrun & Ht' & Ho' & Hp' & Hv').
  exists o', paid', values'. by split_and!.
Qed.

Lemma undo_transient_write_returns o v q t :
  looks o v -> oracle_timely o t -> t_rw_flag q = true ->
  let '(k, before, written) := transient_undo q in
  v_transient v k = written ->
  exists o', undo_transient_write H t o q = Ret o' /\ oracle_timely o' t /\
    looks o' (vset_transient v (upd (v_transient v) k before)).
Proof.
  intros Ho Ht Hrw. unfold transient_undo. intros Hcur. unfold undo_transient_write. rewrite Hrw.
  unfold write_to_transient_storage. fold (transient_key q).
  destruct (apply_returns H (transient_storage o) {| sh_key := transient_key q; sh_value := t_read_value q |} t
              _ _ _ eq_refl (ti_transient _ _ Ht)) as (r & -> & Hr & Hr').
  rewrite outcome_Ret_bind. cbv beta iota.
  rewrite rust_assert_true.
  2:{ apply Z.eqb_eq. rewrite <- Hcur. apply Ho. }
  rewrite outcome_Ret_bind. eexists. split; [done|]. split; [by destruct Ht|].
  destruct Ho. split; cbn in *; try done. intros k. unfold read_from_transient_storage in *. rewrite Hr. cbn.
  rewrite transient_insert_default. unfold upd. case_decide; [done|]. apply l_transient0.
Qed.

Lemma undo_transient_writes_returns g t logs : forall o v,
  looks o v -> oracle_timely o t -> Forall (fun q => t_rw_flag q = true) logs ->
  undoes (v_transient v) (transient_undo <$> logs) g ->
  exists o' values, foldM (undo_transient_write H t) o logs = Ret o' /\ oracle_timely o' t /\
    looks o' (vset_transient v values) /\ forall k, values k = g k.
Proof.
  induction logs as [|q logs IH]; intros o v Ho Ht Hlogs Hu.
  { exists o, (v_transient v). split_and!; [done|done|by destruct Ho|exact Hu]. }
  inversion Hlogs as [|? ? Hl Hlogs']; subst. cbn [foldM].
  pose proof (undo_transient_write_returns o v q t Ho Ht Hl) as Hw. rewrite fmap_cons in Hu. cbn [undoes] in Hu.
  destruct (transient_undo q) as [[k x] y]. destruct Hu as [Hcur Hu].
  destruct (Hw Hcur) as (o1 & -> & Ht1 & Ho1). rewrite outcome_Ret_bind.
  destruct (IH o1 _ Ho1 Ht1 Hlogs' Hu) as (o' & values' & Hrun & Ht' & Ho' & Hv').
  exists o', values'. by split_and!.
Qed.

(** The last frame of a stack starts at [start], within its items. *)
Definition frame_at {X} (s : FramedStack X) (start : nat) : Prop :=
  last (frame_start_indices s) = Some start /\ (start <= length (data s))%nat.

Lemma current_frame_at {X} (s : FramedStack X) start :
  frame_at s start -> current_frame s = Ret (drop start (data s)).
Proof.
  intros [Hl Hs]. unfold current_frame. rewrite Hl. cbn [expect]. rewrite outcome_Ret_bind.
  by rewrite rust_assert_true by (by apply Nat.leb_le).
Qed.

(** The rollback logs of the current frame restore the values [g] and [h]. *)
Lemma undo_frame_returns b g h t o v i j :
  looks o v -> oracle_timely o t -> paid_ok b v ->
  frame_at (v_rollback v) i -> frame_at (v_transient_rollback v) j ->
  Forall (write_log_ok b v) (data (v_rollback v)) ->
  Forall (fun q => t_rw_flag q = true) (data (v_transient_rollback v)) ->
  undoes (v_values v) (storage_undo <$> reverse (drop i (data (v_rollback v)))) g ->
  undoes (v_transient v) (transient_undo <$> reverse (drop j (data (v_transient_rollback v)))) h ->
  exists o' v', undo_frame keccak256 H o t = Ret o' /\ oracle_timely o' t /\ looks o' v' /\ paid_ok b v' /\
    (forall k, v_values v' k = g k) /\ (forall k, v_transient v' k = h k) /\ v_initial v' = v_initial v /\
    frame_start_indices (v_forward v') = frame_start_indices (v_forward v) /\
    frame_start_indices (v_transient_forward v') = frame_start_indices (v_transient_forward v) /\
    v_rollback v' = cut (v_rollback v) i /\ v_transient_rollback v' = cut (v_transient_rollback v) j.
Proof.
  intros Ho Ht Hp Hi Hj Hl Hl' Hu Hu'. unfold undo_frame.
  rewrite (l_rollback _ _ Ho), (current_frame_at _ _ Hi), outcome_Ret_bind.
  destruct (undo_writes_returns b g t (reverse (drop i (data (v_rollback v)))) o v)
    as (o1 & paid & values & -> & Ht1 & Ho1 & Hp1 & Hv1); [done..|by apply Forall_reverse, Forall_drop|done|].
  rewrite outcome_Ret_bind.
  destruct (move_rollback_to_forward_returns H (storage_frames_stack o1) (fun _ => true) t i)
    as (m & -> & Hm1 & Hm2 & Hm3 & Hm4);
    [rewrite (l_rollback _ _ Ho1); apply Hi..|apply Ht1|]. rewrite outcome_Ret_bind. cbv zeta.
  set (v1 := vset_frames (vset_values (vset_paid v paid) values) (forward_stack m) (rollback_stack m)).
  assert (looks (set_storage_frames o1 m) v1) as Ho2 by (by destruct Ho1).
  assert (oracle_timely (set_storage_frames o1 m) t) as Ht2 by (by destruct Ht1).
  rewrite (l_transient_rollback _ _ Ho2), (current_frame_at (v_transient_rollback v1) j Hj), outcome_Ret_bind.
  change (v_transient_rollback v1) with (v_transient_rollback v).
  destruct (undo_transient_writes_returns h t (reverse (drop j (data (v_transient_rollback v)))) _ v1 Ho2 Ht2)
    as (o2 & tvalues & -> & Ht3 & Ho3 & Hv3); [by apply Forall_reverse, Forall_drop|done|].
  rewrite outcome_Ret_bind.
  destruct (move_rollback_to_forward_returns H (transient_storage_frames_stack o2) (fun _ => true) t j)
    as (m' & -> & Hm1' & Hm2' & Hm3' & Hm4');
    [rewrite (l_transient_rollback _ _ Ho3); apply Hj..|apply Ht3|]. rewrite outcome_Ret_bind.
  exists (set_transient_frames o2 m'),
    (vset_transient_frames (vset_transient v1 tvalues) (forward_stack m') (rollback_stack m')).
  split; [done|]. split; [by destruct Ht3|]. split; [by destruct Ho3|]. cbn.
  rewrite Hm1, Hm1', Hm2, Hm2', (l_forward _ _ Ho1), (l_rollback _ _ Ho1), (l_transient_forward _ _ Ho3),
    (l_transient_rollback _ _ Ho3). by split_and!.
Qed.

Lemma finish_frame_merges o v t f i f' i' g j g' j' :
  looks o v -> manager_timely H (storage_frames_stack o) t ->
  manager_timely H (transient_storage_frames_stack o) t ->
  frame_start_indices (v_forward v) = f ++ [i] -> frame_start_indices (v_rollback v) = g ++ [j] ->
  frame_start_indices (v_transient_forward v) = f' ++ [i'] ->
  frame_start_indices (v_transient_rollback v) = g' ++ [j'] ->
  exists o', merge_frames H o t = Ret o' /\
    looks o' (vset_transient_frames (vset_frames v {| data := data (v_forward v); frame_start_indices := f |}
                                       {| data := data (v_rollback v); frame_start_indices := g |})
                {| data := data (v_transient_forward v); frame_start_indices := f' |}
                {| data := data (v_transient_rollback v); frame_start_indices := g' |}).
Proof.
  intros Ho Ht Ht' Hf Hg Hf' Hg'. unfold merge_frames. rewrite <- (l_forward _ _ Ho) in Hf. rewrite <- (l_rollback _ _ Ho) in Hg.
  rewrite <- (l_transient_forward _ _ Ho) in Hf'. rewrite <- (l_transient_rollback _ _ Ho) in Hg'.
  destruct (manager_merge_frame_returns H _ t _ _ _ _ Hf Hg Ht) as (m & -> & F1 & R1 & _).
  rewrite outcome_Ret_bind. cbv zeta. cbn [transient_storage_frames_stack set_storage_frames].
  destruct (manager_merge_frame_returns H _ t _ _ _ _ Hf' Hg' Ht') as (m' & -> & F2 & R2 & _).
  rewrite outcome_Ret_bind. eexists. split; [done|]. destruct Ho. split; cbn in *; try done; congruence.
Qed.
End Refinement.

(** ** Invariants of a batch *)

(** The sum of what is paid for the slots. *)
Definition total (m : gmap StorageKey Z) : Z := map_fold (fun _ p sum => p + sum) 0 m.

Lemma total_insert_new m k p : m !! k = None -> total (<[k := p]> m) = p + total m.
Proof. intros Hk. unfold total. rewrite map_fold_insert_L; [done| |done]. intros. lia. Qed.

Lemma total_insert m k p : total (<[k := p]> m) = total m - default 0 (m !! k) + p.
Proof.
  destruct (m !! k) as [x|] eqn:Hk; cbn; [|rewrite total_insert_new by done; lia].
  rewrite <- (insert_delete_id m k x Hk) at 2. rewrite <- insert_delete_eq, !total_insert_new by apply lookup_delete_eq.
  lia.
Qed.

Lemma total_nonzero m : total m = total (filter (fun kp => kp.2 <> 0) m).
Proof.
  induction m as [|k p m Hk IH] using map_ind; [done|]. rewrite total_insert_new by done.
  destruct (decide (p = 0)) as [->|Hp].
  - rewrite map_filter_insert_False by (cbn; lia). rewrite delete_id by done. lia.
  - rewrite map_filter_insert_True, total_insert_new by (done || apply map_lookup_filter_None; by left). lia.
Qed.

Lemma total_ext m1 m2 : (forall k, default 0 (m1 !! k) = default 0 (m2 !! k)) -> total m1 = total m2.
Proof.
  intros Hm. rewrite (total_nonzero m1), (total_nonzero m2). f_equal. apply map_eq. intros k.
  specialize (Hm k). apply option_eq. intros p. rewrite !map_lookup_filter_Some. cbn.
  destruct (m1 !! k), (m2 !! k); cbn in *; naive_solver.
Qed.

Section Invariant.
Context {params : SystemParams} (keccak256 : list Z -> list Z) (is_new : StorageKey -> bool).
Context (b : StorageKey -> Z).
Implicit Types (v : View) (k : StorageKey).

Record view_ok v : Prop := {
  vo_base : forall k x, v_initial v !! k = Some x -> x = b k;
  vo_untouched : forall k, v_initial v !! k = None -> v_values v k = b k;
  vo_range : forall k, unsigned 256 (v_values v k);
  vo_logs : Forall (write_log_ok b v) (data (v_rollback v));
  vo_transient_logs : Forall (fun q => t_rw_flag q = true) (data (v_transient_rollback v));
  vo_paid : paid_ok keccak256 is_new b v;
}.

(** The view later in the same frame: the new rollback logs restore the old values. *)
Record extends v v' : Prop := {
  ex_initial : forall k x, v_initial v !! k = Some x -> v_initial v' !! k = Some x;
  ex_forward : frame_start_indices (v_forward v') = frame_start_indices (v_forward v);
  ex_transient_forward :
    frame_start_indices (v_transient_forward v') = frame_start_indices (v_transient_forward v);
  ex_rollback : frame_start_indices (v_rollback v') = frame_start_indices (v_rollback v);
  ex_transient_rollback :
    frame_start_indices (v_transient_rollback v') = frame_start_indices (v_transient_rollback v);
  ex_undo : exists d, data (v_rollback v') = data (v_rollback v) ++ d /\
    undoes (v_values v') (storage_undo <$> reverse d) (v_values v);
  ex_transient_undo : exists d, data (v_transient_rollback v') = data (v_transient_rollback v) ++ d /\
    undoes (v_transient v') (transient_undo <$> reverse d) (v_transient v);
}.

Lemma extends_refl v : extends v v.
Proof. split; try done; exists []; by rewrite app_nil_r. Qed.

Lemma extends_trans v1 v2 v3 : extends v1 v2 -> extends v2 v3 -> extends v1 v3.
Proof.
  intros [I1 ? ? ? ? (d1 & D1 & U1) (e1 & E1 & W1)] [I2 ? ? ? ? (d2 & D2 & U2) (e2 & E2 & W2)].
  split; [by eauto|congruence..| |].
  - exists (d1 ++ d2). rewrite D2, D1, reverse_app, fmap_app, (assoc_L (++)). split; [done|].
    by eapply undoes_app.
  - exists (e1 ++ e2). rewrite E2, E1, reverse_app, fmap_app, (assoc_L (++)). split; [done|].
    by eapply undoes_app.
Qed.

Lemma change_price_same k x : change_price keccak256 is_new k x x = 0.
Proof. unfold change_price. by rewrite Z.eqb_refl, orb_true_r. Qed.

Lemma write_log_ok_initial v v' l :
  (forall k x, v_initial v !! k = Some x -> v_initial v' !! k = Some x) ->
  write_log_ok b v l -> write_log_ok b v' l.
Proof. intros Hi (H1 & H2 & H3). split_and!; [done..|]. by apply Hi. Qed.

(** The first access to a slot remembers its value. *)
Lemma first_value_ok v k :
  view_ok v ->
  let v' := vset_initial v (first_value (v_initial v) k (v_values v k)) in
  view_ok v' /\ v_initial v' !! k = Some (b k) /\ forall k' x, v_initial v !! k' = Some x -> v_initial v' !! k' = Some x.
Proof.
  intros [H1 H2 H3 H4 H5 H6]. cbv zeta. cbn. unfold first_value. destruct (v_initial v !! k) as [x|] eqn:Hk.
  - split_and!; [by split|by rewrite Hk, (H1 _ _ Hk)|done].
  - rewrite (H2 k Hk).
    assert (forall k' x, v_initial v !! k' = Some x -> <[k := b k]> (v_initial v) !! k' = Some x) as Hi.
    { intros k' x Hx. rewrite lookup_insert_ne; congruence. }
    split_and!; [|apply lookup_insert_eq|done]. split; cbn; try done.
    + intros k' x. rewrite lookup_insert_Some. intros [[<- <-]|[_ Hx]]; [done|by apply H1].
    + intros k'. rewrite lookup_insert_None. intros [Hx _]. by apply H2.
    + eapply Forall_impl; [exact H4|]. intros l. by apply write_log_ok_initial.
Qed.

Lemma spec_transient_write_ok v q :
  view_ok v -> t_rw_flag q = true -> t_read_value q = v_transient v (transient_key q) ->
  view_ok (spec_transient_write v q) /\ extends v (spec_transient_write v q).
Proof.
  intros [H1 H2 H3 H4 H5 H6] Hrw Hread. split.
  - split; cbn; try done. apply Forall_app. split; [done|]. by constructor.
  - split; try done.
    + exists []. by rewrite app_nil_r.
    + exists [with_t_rollback q]. split; [done|]. cbn -[undoes]. unfold transient_undo. cbn -[undoes].
      rewrite Hread. apply undoes_write.
Qed.

Lemma spec_query_ok v q :
  view_ok v -> unsigned 256 (written_value q) ->
  let '(v', c) := spec_query keccak256 is_new v q in
  view_ok v' /\ extends v v' /\ total (v_paid v') = total (v_paid v) + c.
Proof.
  intros Hv Hq. unfold spec_query. destruct (aux_byte q =? TRANSIENT_STORAGE_AUX_BYTE).
  { set (q' := reduced_of_log_query _). destruct (t_rw_flag q') eqn:Hrw.
    - destruct (spec_transient_write_ok v q' Hv Hrw eq_refl) as [H1 H2]. split_and!; [done..|]. cbn. lia.
    - destruct Hv. split_and!; [by split| |cbn; lia]. split; try done; exists []; by rewrite app_nil_r. }
  set (k := storage_key_of_log q). destruct (first_value_ok v k Hv) as (Hv1 & Hk & Hi). cbv zeta.
  set (v1 := vset_initial v _) in *. set (q' := with_read_value q (v_values v k)).
  change (rw_flag q') with (rw_flag q). destruct (rw_flag q).
  2:{ destruct Hv1. split_and!; [by split| |cbn; lia]. split; try done; exists []; by rewrite app_nil_r. }
  rewrite Hk. cbn [from_option id]. change (written_value q') with (written_value q).
  set (p := change_price _ _ _ _ _). destruct Hv1 as [H1 H2 H3 H4 H5 H6]. split_and!.
  - split; cbn; fold k; try done.
    + intros k' Hk'. change (v_initial v1 !! k' = None) in Hk'. unfold upd.
      change (storage_key_of_log q') with k. case_decide; [subst; congruence|by apply H2].
    + intros k'. unfold upd. case_decide; [apply u256_unsigned|apply H3].
    + apply Forall_app. split; [by eapply Forall_impl; [exact H4|]; intros l; apply write_log_ok_initial|].
      constructor; [|done]. split_and!; cbn; [unfold write_kind; by destruct (is_new _)|apply H3|done].
    + intros k'. cbn. change (storage_key_of_log q') with k. rewrite transient_insert_default. unfold upd.
      case_decide as Hd; [|apply H6]. subst k'. unfold p. by rewrite u256_to_h256_id.
  - split; try done; [|exists []; by rewrite app_nil_r].
    eexists [_]. split; [done|]. cbn -[undoes]. unfold storage_undo. cbn -[undoes].
    change (storage_key_of_log (with_rollback_flag q' true)) with k. change (storage_key_of_log q') with k.
    rewrite u256_to_h256_id by done. apply (undoes_write (v_values v1)).
  - cbn. rewrite total_insert. lia.
Qed.
End Invariant.

(** ** Runs of the VM *)

Section Runs.
Context {zk : ZkEvm} {params : SystemParams} {S : Type}.
Context `{!ReadStorage S, !WriteStorage S} (keccak256 : list Z -> list Z) (H : HistoryMode).
Implicit Types o : StorageOracle S.

(** Queries and nested frames of a transaction, in time, and the pubdata to pay for them: a frame that
    panicked does not count. *)
Inductive runs : StorageOracle S -> Z -> StorageOracle S -> Prop :=
| runs_done o : runs o 0 o
| runs_query o q o1 q' c1 c2 o2 :
    unsigned 256 (written_value q) -> execute_partial_query keccak256 H o q = Ret (o1, (q', c1)) ->
    runs o1 c2 o2 -> runs o (c1 + c2) o2
| runs_refund o q o1 a c o2 :
    get_access_refund keccak256 H o q = Ret (o1, a) -> runs o1 c o2 -> runs o c o2
| runs_frame o t o1 c1 o2 t' (panicked : bool) o3 c2 o4 :
    start_frame H o t = Ret o1 -> runs o1 c1 o2 ->
    oracle_timely H o2 t' -> finish_frame keccak256 H o2 t' panicked = Ret o3 -> runs o3 c2 o4 ->
    runs o ((if panicked then 0 else c1) + c2) o4.

Context `{!ReadStorageSpec S, !WriteStorageSpec S} (is_new : StorageKey -> bool) (b : StorageKey -> Z).
Context (Haux : TRANSIENT_STORAGE_AUX_BYTE <> STORAGE_AUX_BYTE).
Abbreviation looks := (looks is_new).
Abbreviation view_ok := (view_ok keccak256 is_new b).

Lemma frame_at_extends {X} (s s' : FramedStack X) d :
  frame_start_indices s' = frame_start_indices (with_frame s) -> data s' = data s ++ d ->
  frame_at s' (length (data s)) /\ drop (length (data s)) (data s') = d /\
  take (length (data s)) (data s') = data s.
Proof.
  intros Hf Hd. unfold frame_at. rewrite Hf, Hd, drop_app_length, take_app_length, length_app. cbn.
  rewrite last_snoc. split_and!; [done|lia|done..].
Qed.

(** The end of a frame: without panic its effects stay, a panic undoes them. *)
Lemma frame_end v v2 o2 t (panicked : bool) :
  view_ok v -> extends (spec_start_frame v) v2 -> looks o2 v2 -> view_ok v2 ->
  oracle_timely H o2 t ->
  exists o3 v3, finish_frame keccak256 H o2 t panicked = Ret o3 /\ looks o3 v3 /\ view_ok v3 /\ extends v v3 /\
    total (v_paid v3) = total (v_paid (if panicked then v else v2)) /\
    (panicked = true -> v_initial v3 = v_initial v2 /\ v_rollback v3 = v_rollback v /\
       v_transient_rollback v3 = v_transient_rollback v /\
       (forall k, v_values v3 k = v_values v k) /\ (forall k, v_transient v3 k = v_transient v k)).
Proof.
  intros Hv [XI X1 X2 X3 X4 (d & D & U) (e & E & W)] Ho2 Hv2 Ht. unfold finish_frame.
  cbn [spec_start_frame vset_frames vset_transient_frames v_forward v_rollback v_transient_forward
       v_transient_rollback v_values v_transient with_frame data] in *.
  destruct (frame_at_extends (v_rollback v) (v_rollback v2) d X3 D) as (A1 & A2 & A3).
  destruct (frame_at_extends (v_transient_rollback v) (v_transient_rollback v2) e X4 E) as (B1 & B2 & B3).
  destruct panicked.
  - destruct (undo_frame_returns keccak256 H is_new b (v_values v) (v_transient v) t o2 v2
                (length (data (v_rollback v))) (length (data (v_transient_rollback v))))
      as (o3 & v3 & -> & Ht3 & Ho3 & Hp3 & V1 & V2 & V3 & V4 & V5 & V6 & V7); try apply Hv2; try done.
    { by rewrite A2. } { by rewrite B2. }
    rewrite outcome_Ret_bind. unfold cut in V6, V7. rewrite A3 in V6. rewrite B3 in V7.
    destruct (finish_frame_merges H is_new o3 v3 t _ _ _ _ _ _ _ _ Ho3 (ti_frames _ _ _ Ht3) (ti_transient_frames _ _ _ Ht3)
                (eq_trans V4 X1) (eq_trans (f_equal frame_start_indices V6) X3) (eq_trans V5 X2)
                (eq_trans (f_equal frame_start_indices V7) X4)) as (o4 & -> & Ho4).
    eexists o4, _. split; [done|]. split; [exact Ho4|].
    rewrite V6, V7. cbn [data]. split_and!.
    + destruct Hv, Hv2. split; cbn; rewrite ?V3; try done.
      * intros k Hk. rewrite V1. apply vo_untouched0. destruct (v_initial v !! k) eqn:Hvk; [|done].
        apply XI in Hvk. congruence.
      * intros k. by rewrite V1.
      * eapply Forall_impl; [exact vo_logs0|]. intros l. apply write_log_ok_initial. cbn. by rewrite V3.
    + split; [cbn; by rewrite V3|done..| |]; exists []; by rewrite app_nil_r.
    + cbn. apply total_ext. intros k. rewrite (Hp3 k), (vo_paid _ _ _ _ Hv k). by rewrite V1.
    + intros _. by destruct v as [? ? ? ? [] ? ? []].
  - rewrite outcome_Ret_bind. 
    destruct (finish_frame_merges H is_new o2 v2 t _ _ _ _ _ _ _ _ Ho2 (ti_frames _ _ _ Ht) (ti_transient_frames _ _ _ Ht)
                X1 X3 X2 X4) as (o4 & -> & Ho4).
    eexists o4, _. split; [done|]. split; [exact Ho4|]. split_and!.
    + by destruct Hv2.
    + split; cbn; try done; eauto.
    + done.
    + done.
Qed.

Lemma spec_start_frame_ok v : view_ok v -> view_ok (spec_start_frame v).
Proof. by intros []. Qed.

Lemma runs_refine o c o' :
  runs o c o' -> forall v, looks o v -> view_ok v ->
  exists v', looks o' v' /\ view_ok v' /\ extends v v' /\ total (v_paid v') = total (v_paid v) + c.
Proof.
  induction 1 as [o|o q o1 q' c1 c2 o2 Hq Hrun _ IH|o q o1 a c o2 Hrun _ IH
                  |o t o1 c1 o2 t' panicked o3 c2 o4 Hs _ IH1 Ht Hf _ IH2]; intros v Ho Hv.
  - exists v. split_and!; [done..|apply extends_refl|lia].
  - destruct (query_refines keccak256 H is_new Haux o v q o1 q' c1 Ho Hrun) as [Ho1 Hc].
    pose proof (spec_query_ok keccak256 is_new b v q Hv Hq) as Hok.
    destruct (spec_query keccak256 is_new v q) as [v1 c']. cbn in Ho1, Hc. subst c'. destruct Hok as (Hv1 & X1 & T1).
    destruct (IH v1 Ho1 Hv1) as (v' & Ho' & Hv' & X' & T'). exists v'. split_and!; [done..|by eapply extends_trans|lia].
  - apply IH; [|done]. by eapply refund_refines.
  - destruct (IH1 (spec_start_frame v)) as (v2 & Ho2 & Hv2 & X2 & T2);
      [by eapply start_frame_refines|by apply spec_start_frame_ok|].
    destruct (frame_end v v2 o2 t' panicked Hv X2 Ho2 Hv2 Ht) as (o3' & v3 & Hf' & Ho3 & Hv3 & X3 & T3 & _).
    rewrite Hf in Hf'. apply (inj Ret) in Hf'. subst o3'.
    destruct (IH2 v3 Ho3 Hv3) as (v' & Ho' & Hv' & X' & T'). exists v'.
    split_and!; [done..|by eapply extends_trans|]. rewrite T', T3. destruct panicked; [lia|].
    rewrite T2. cbn. lia.
Qed.
End Runs.

(** The view of a new oracle. *)
Definition view_of_storage (c : Contents) : View :=
  {| v_values := value_at c; v_initial := ∅; v_paid := ∅; v_forward := framed_default;
     v_rollback := framed_default; v_transient _ := 0; v_transient_forward := framed_default;
     v_transient_rollback := framed_default |}.

Section Batch.
Context {zk : ZkEvm} {params : SystemParams} {S : Type}.
Context `{!ReadStorage S, !WriteStorage S, !ReadStorageSpec S, !WriteStorageSpec S}.
Context (keccak256 : list Z -> list Z) (H : HistoryMode) (s : S).

Lemma new_oracle_ok :
  storage_wf {| storage_ptr := s |} ->
  looks (initial_at (contents s)) (oracle_new s) (view_of_storage (contents s)) /\
  view_ok keccak256 (initial_at (contents s)) (value_at (contents s)) (view_of_storage (contents s)).
Proof.
  intros Hw. split; [by split|]. split; cbn; try done.
  - apply Hw.
  - intros k. cbn. rewrite lookup_empty. by rewrite change_price_same.
Qed.
End Batch.

(** C7: A frame that panics has no effect.  In any run of queries and nested frames over a storage of
    256-bit words, ending a frame with a panic never fails an assertion, and restores the values of all
    slots and transient slots, what was paid for them, and the logs that undo the enclosing frames. *)
Theorem panicked_frame_has_no_effect {zk : ZkEvm} {params : SystemParams} {S}
    `{!ReadStorage S, !WriteStorage S, !ReadStorageSpec S, !WriteStorageSpec S}
    keccak256 H (s : S) o c t o1 c1 o2 t' :
  TRANSIENT_STORAGE_AUX_BYTE <> STORAGE_AUX_BYTE -> storage_wf {| storage_ptr := s |} ->
  runs keccak256 H (oracle_new s) c o ->
  start_frame H o t = Ret o1 -> runs keccak256 H o1 c1 o2 -> oracle_timely H o2 t' ->
  exists o3, finish_frame keccak256 H o2 t' true = Ret o3 /\
    forall k, value_of (inner (storage o3)) k = value_of (inner (storage o)) k /\
      read_from_transient_storage (transient_storage o3) k = read_from_transient_storage (transient_storage o) k /\
      prepaid_for_write o3 k = prepaid_for_write o k /\
      rollback_stack (storage_frames_stack o3) = rollback_stack (storage_frames_stack o) /\
      rollback_stack (transient_storage_frames_stack o3) = rollback_stack (transient_storage_frames_stack o).
Proof.
  intros Haux Hw Hrun Hs Hrun1 Ht. destruct (new_oracle_ok keccak256 s Hw) as [Ho0 Hv0].
  destruct (runs_refine keccak256 H _ _ Haux _ _ _ Hrun _ Ho0 Hv0) as (v & Ho & Hv & _ & _).
  destruct (runs_refine keccak256 H (initial_at (contents s)) (value_at (contents s)) Haux _ _ _ Hrun1
              (spec_start_frame v)) as (v2 & Ho2 & Hv2 & X2 & _);
    [by eapply start_frame_refines|by apply spec_start_frame_ok|].
  destruct (frame_end keccak256 H _ _ v v2 o2 t' true Hv X2 Ho2 Hv2 Ht)
    as (o3 & v3 & Hf & Ho3 & Hv3 & _ & _ & V). destruct (V eq_refl) as (V1 & V2 & V3 & V4 & V5).
  exists o3. split; [done|]. intros k. unfold prepaid_for_write.
  rewrite (l_values _ _ _ Ho3), (l_values _ _ _ Ho), (l_transient _ _ _ Ho3), (l_transient _ _ _ Ho),
    (l_paid _ _ _ Ho3), (l_paid _ _ _ Ho), (l_rollback _ _ _ Ho3), (l_rollback _ _ _ Ho),
    (l_transient_rollback _ _ _ Ho3), (l_transient_rollback _ _ _ Ho).
  rewrite (vo_paid _ _ _ _ Hv3 k), (vo_paid _ _ _ _ Hv k). by rewrite V2, V3, V4, V5.
Qed.


(** *** Instance: a write of a slot in a frame *)

Definition ret_or {A} (d : A) (m : outcome A) : A := match m with Ret a => a | Panics _ => d end.

Definition slot_write : LogQuery := sample_query 0 5 51 true 9.
Definition frame_oracle := ret_or sample_oracle (start_frame HistoryEnabled sample_oracle 8).
Definition written_oracle :=
  ret_or sample_oracle (fst <$> execute_partial_query sample_keccak HistoryEnabled frame_oracle slot_write).

Lemma frame_oracle_eq : start_frame HistoryEnabled sample_oracle 8 = Ret frame_oracle.
Proof. by vm_compute. Qed.

Lemma written_oracle_eq :
  execute_partial_query sample_keccak HistoryEnabled frame_oracle slot_write =
    Ret (written_oracle, (with_read_value slot_write 50, 6)).
Proof. by vm_compute. Qed.

Lemma written_runs : runs sample_keccak HistoryEnabled frame_oracle (6 + 0) written_oracle.
Proof. eapply runs_query; [|exact written_oracle_eq|apply runs_done]. by split. Qed.

Lemma written_timely : oracle_timely HistoryEnabled written_oracle 12.
Proof. split; try split; intros _; by vm_compute. Qed.

Lemma panicked_frame_has_no_effect_witness :
  exists o3, finish_frame sample_keccak HistoryEnabled written_oracle 12 true = Ret o3 /\
    value_of (inner (storage o3)) (StorageKey_new 1 5) = value_of (inner (storage sample_oracle)) (StorageKey_new 1 5).
Proof.
  destruct (panicked_frame_has_no_effect sample_keccak HistoryEnabled (view_new sample_storage) sample_oracle 0 8
              frame_oracle (6 + 0) written_oracle 12) as (o3 & Hf & Hk).
  - by vm_compute.
  - apply sample_oracle_wf.
  - apply runs_done.
  - exact frame_oracle_eq.
  - exact written_runs.
  - exact written_timely.
  - exists o3. split; [exact Hf|]. apply Hk.
Defined.

