(* ===== verification/VmEvents.v ===== *)
(** * Events of the VM

    Model of [src/core/lib/multivm/src/versions/vm_latest/old_vm]: the sink of events and messages to L1
    with its frames ([event_sink.rs]), and the assembly of Solidity-like events from the messages of
    the event writer contract ([events.rs]). *)

From S2P Require Import Prelude Bytes Utils Storage StorageView VmHistory VmStorageOracle VmOracleFrames.
Open Scope Z_scope.

(** What the code uses of the crate [zk_evm]. *)
Class EventParams := {
  BOOTLOADER_FORMAL_ADDRESS : Z;
  EVENT_AUX_BYTE : Z;
  L1_MESSAGE_AUX_BYTE : Z;
}.

Record EventMessage := {
  em_shard_id : Z;
  is_first : bool;
  em_tx_number_in_block : Z;
  em_address : Z;
  em_key : Z;
  em_value : Z;
}.

(** ** The sink *)

Record InMemoryEventSink := { frames_stack : FrameManager LogQuery }.

Definition sink_default : InMemoryEventSink := {| frames_stack := manager_default |}.

Section Sink.
Context {zk : ZkEvm} {params : EventParams} (H : HistoryMode).
Implicit Types s : InMemoryEventSink.

Definition sink_rollback_to_timestamp s (t : Z) : outcome InMemoryEventSink :=
  m ← manager_rollback_to_timestamp (frames_stack s) t; Ret {| frames_stack := m |}.

(** The queries that were not rolled back, by their timestamps. *)
Definition apply_log (tmp : gmap Z LogQuery) (el : LogQuery) : outcome (gmap Z LogQuery) :=
  match tmp !! timestamp el with
  | Some _ => _ ← rust_assert (q_rollback el) "assertion failed: el.rollback"; Ret (delete (timestamp el) tmp)
  | None => _ ← rust_assert (negb (q_rollback el)) "assertion failed: !el.rollback";
            Ret (<[timestamp el := el]> tmp)
  end.

Definition event_of_query (el : LogQuery) : EventMessage :=
  {| em_shard_id := shard_id el; is_first := is_service el; em_tx_number_in_block := tx_number_in_block el;
     em_address := q_address el; em_key := q_key el; em_value := written_value el |}.

Definition take_event (acc : gmap Z LogQuery * list EventMessage * list EventMessage) (k : Z) :
    outcome (gmap Z LogQuery * list EventMessage * list EventMessage) :=
  let '(tmp, events, l1_messages) := acc in
  el ← expect (tmp !! k) UNWRAP_NONE;
  let tmp := delete k tmp in
  let event := event_of_query el in
  if aux_byte el =? EVENT_AUX_BYTE then Ret (tmp, events ++ [event], l1_messages)
  else Ret (tmp, events, l1_messages ++ [event]).

Definition events_and_l1_messages_from_history (history : list LogQuery) :
    outcome (list EventMessage * list EventMessage) :=
  tmp ← foldM apply_log ∅ history;
  let keys := stable_sort Z.leb (fst <$> map_to_list tmp) in
  '(_, events, l1_messages) ← foldM take_event (tmp, [], []) keys;
  Ret (events, l1_messages).

Definition flatten s : outcome (list EventMessage * list EventMessage) :=
  _ ← rust_assert (manager_len (frames_stack s) =? 1)%nat "there must exist an initial keeper frame";
  history ← current_frame (forward_stack (frames_stack s));
  events_and_l1_messages_from_history history.

Definition get_log_queries s : outcome nat :=
  frame ← current_frame (forward_stack (frames_stack s)); Ret (length frame).

Definition log_queries_after_timestamp s (from_timestamp : Z) : outcome (list LogQuery) :=
  events ← current_frame (forward_stack (frames_stack s));
  Ret (rsplit_next (fun e => timestamp e <? from_timestamp) events).

Definition get_events_and_l2_l1_logs_after_timestamp s (from_timestamp : Z) :
    outcome (list EventMessage * list EventMessage) :=
  history ← log_queries_after_timestamp s from_timestamp;
  events_and_l1_messages_from_history history.

Definition sink_delete_history s : outcome InMemoryEventSink :=
  m ← manager_delete_history H (frames_stack s); Ret {| frames_stack := m |}.

(** [EventSink::add_partial_query] *)
Definition add_partial_query s (query : LogQuery) : outcome InMemoryEventSink :=
  _ ← rust_assert (rw_flag query) "assertion failed: query.rw_flag";
  _ ← rust_assert ((aux_byte query =? EVENT_AUX_BYTE) || (aux_byte query =? L1_MESSAGE_AUX_BYTE))
        "assertion failed: query.aux_byte";
  _ ← rust_assert (negb (q_rollback query)) "assertion failed: !query.rollback";
  m ← push_forward H (frames_stack s) query (timestamp query);
  m ← push_rollback H m (with_rollback_flag query true) (timestamp query);
  Ret {| frames_stack := m |}.

Definition sink_start_frame s (t : Z) : outcome InMemoryEventSink :=
  m ← manager_push_frame H (frames_stack s) t; Ret {| frames_stack := m |}.

(** Rollbacks of events of the bootloader are not logged. *)
Definition rolled_back (q : LogQuery) : bool :=
  negb (q_address q =? BOOTLOADER_FORMAL_ADDRESS) || negb (aux_byte q =? EVENT_AUX_BYTE).

Definition sink_finish_frame s (panicked : bool) (t : Z) : outcome InMemoryEventSink :=
  m ← (if panicked then move_rollback_to_forward H (frames_stack s) rolled_back t else Ret (frames_stack s));
  m ← manager_merge_frame H m t;
  Ret {| frames_stack := m |}.
End Sink.

(** ** What the sink promises: a stack of frames, each with the queries that survive in it *)

Inductive SinkOp :=
  | SinkQuery (query : LogQuery)
  | SinkStart (at_time : Z)
  | SinkFinish (panicked : bool) (at_time : Z).

Definition sink_op_time (op : SinkOp) : Z :=
  match op with SinkQuery q => timestamp q | SinkStart t | SinkFinish _ t => t end.

Section SinkSpec.
Context {zk : ZkEvm} {params : EventParams} (H : HistoryMode).
Implicit Types (s : InMemoryEventSink) (frames : list (list LogQuery)).

Definition sink_op s (op : SinkOp) : outcome InMemoryEventSink :=
  match op with
  | SinkQuery q => add_partial_query H s q
  | SinkStart t => sink_start_frame H s t
  | SinkFinish panicked t => sink_finish_frame H s panicked t
  end.

(** The frames with the innermost first.  A frame that panics keeps the events of the bootloader only;
    the initial frame is never left. *)
Definition spec_op frames (op : SinkOp) : option (list (list LogQuery)) :=
  match op, frames with
  | SinkQuery q, frame :: outer => Some ((frame ++ [q]) :: outer)
  | SinkStart _, _ => Some ([] :: frames)
  | SinkFinish panicked _, frame :: parent :: outer =>
      let kept := if panicked then List.filter (fun q => negb (rolled_back q)) frame else frame in
      Some ((parent ++ kept) :: outer)
  | _, _ => None
  end.

Fixpoint spec_ops frames (ops : list SinkOp) : option (list (list LogQuery)) :=
  match ops with
  | [] => Some frames
  | op :: ops => frames ← spec_op frames op; spec_ops frames ops
  end.

(** Time does not go back, and two queries have different timestamps. *)
Fixpoint well_timed (t : Z) (ops : list SinkOp) : bool :=
  match ops with
  | [] => true
  | op :: ops =>
      match op with SinkQuery _ => t <? sink_op_time op | _ => t <=? sink_op_time op end && well_timed (sink_op_time op) ops
  end.

Definition sink_query_ok (q : LogQuery) : bool :=
  rw_flag q && ((aux_byte q =? EVENT_AUX_BYTE) || (aux_byte q =? L1_MESSAGE_AUX_BYTE)) && negb (q_rollback q).

Definition sink_op_ok (op : SinkOp) : bool :=
  match op with SinkQuery q => sink_query_ok q | _ => true end.

(** *** The log as a map *)

Definition by_time (l : list LogQuery) : gmap Z LogQuery := list_to_map ((fun q => (timestamp q, q)) <$> l).

Lemma by_time_fst l : ((fun q => (timestamp q, q)) <$> l).*1 = timestamp <$> l.
Proof. rewrite <- list_fmap_compose. by apply list_fmap_ext. Qed.

Lemma by_time_elem l q : NoDup (timestamp <$> l) -> by_time l !! timestamp q = Some q <-> q ∈ l.
Proof.
  intros Hl. unfold by_time. rewrite <- elem_of_list_to_map by (by rewrite by_time_fst).
  rewrite list_elem_of_fmap. split; [by intros (q' & [= _ ->] & Hq)|by exists q].
Qed.

Lemma by_time_None l t : t ∉ timestamp <$> l -> by_time l !! t = None.
Proof. intros Ht. apply not_elem_of_list_to_map_1. by rewrite by_time_fst. Qed.

Lemma by_time_snoc l q : timestamp q ∉ timestamp <$> l -> by_time (l ++ [q]) = <[timestamp q := q]> (by_time l).
Proof.
  intros Hq. unfold by_time. rewrite fmap_app. cbn. rewrite list_to_map_snoc; [done|]. by rewrite by_time_fst.
Qed.

Lemma by_time_delete l1 q l2 :
  NoDup (timestamp <$> l1 ++ q :: l2) -> delete (timestamp q) (by_time (l1 ++ q :: l2)) = by_time (l1 ++ l2).
Proof.
  intros Hnd. rewrite <- Permutation_middle in Hnd. apply NoDup_cons in Hnd as [Hq Hnd].
  replace (by_time (l1 ++ q :: l2)) with (<[timestamp q := q]> (by_time (l1 ++ l2))).
  { rewrite delete_insert_id; [done|]. by apply by_time_None. }
  unfold by_time. rewrite <- list_to_map_cons, <- (fmap_cons (fun q => (timestamp q, q))).
  apply list_to_map_proper; [|by rewrite Permutation_middle].
  rewrite by_time_fst. by constructor.
Qed.

Lemma apply_log_new tmp q :
  tmp !! timestamp q = None -> q_rollback q = false -> apply_log tmp q = Ret (<[timestamp q := q]> tmp).
Proof. unfold apply_log. by intros -> ->. Qed.

Lemma apply_log_undo tmp q q' :
  tmp !! timestamp q = Some q' -> apply_log tmp (with_rollback_flag q true) = Ret (delete (timestamp q) tmp).
Proof. unfold apply_log. cbn. by intros ->. Qed.

(** Logging the rollbacks of a frame, the last query first, leaves the queries that are not rolled back. *)
Lemma undo_logs pre frame : forall post,
  NoDup (timestamp <$> pre ++ frame ++ post) ->
  foldM apply_log (by_time (pre ++ frame ++ post))
    ((fun q => with_rollback_flag q true) <$> reverse (List.filter rolled_back frame)) =
  Ret (by_time (pre ++ List.filter (fun q => negb (rolled_back q)) frame ++ post)).
Proof.
  induction frame as [|q frame IH] using rev_ind; intros post Hnd; [done|].
  rewrite <- (assoc_L (++)) in Hnd |- *. cbn [app] in Hnd |- *. rewrite !List.filter_app. cbn [List.filter].
  destruct (rolled_back q) eqn:Hq; cbn [negb].
  - rewrite reverse_snoc, fmap_cons, app_nil_r. cbn [foldM].
    rewrite (apply_log_undo _ q q) by (apply by_time_elem; [done|set_solver]). rewrite outcome_Ret_bind.
    rewrite (assoc_L (++)) in Hnd |- *. rewrite by_time_delete by done. rewrite <- (assoc_L (++)).
    apply IH. rewrite <- Permutation_middle, fmap_cons in Hnd. apply NoDup_cons in Hnd as [_ Hnd].
    by rewrite (assoc_L (++)).
  - rewrite app_nil_r, <- (assoc_L (++)). apply IH. done.
Qed.

Definition flat frames : list LogQuery := concat (reverse frames).

Lemma flat_cons frame frames : flat (frame :: frames) = flat frames ++ frame.
Proof. unfold flat. by rewrite reverse_cons, concat_app, concat_cons, app_nil_r. Qed.

Lemma flat_snoc frame l frames : flat ((frame ++ l) :: frames) = flat (frame :: frames) ++ l.
Proof. by rewrite !flat_cons, (assoc_L (++)). Qed.

Fixpoint starts frames : list nat :=
  match frames with
  | [] => []
  | _ :: frames => starts frames ++ [length (flat frames)]
  end.

(** A frame and its rollbacks that are still pending. *)
Definition pending_of (rollbacks frame : list LogQuery) : Prop :=
  List.filter rolled_back rollbacks = List.filter rolled_back frame.

Record sink_view s frames (t : Z) : Prop := {
  sv_log : foldM apply_log ∅ (data (forward_stack (frames_stack s))) = Ret (by_time (flat frames));
  sv_sorted : StronglySorted Z.lt (timestamp <$> flat frames);
  sv_time : Forall (fun q => timestamp q <= t) (flat frames);
  sv_frames : exists inner_starts,
    frame_start_indices (forward_stack (frames_stack s)) = 0%nat :: inner_starts /\
    length frames = S (length inner_starts);
  sv_pending : exists pending, Forall2 pending_of pending frames /\
    data (rollback_stack (frames_stack s)) = (fun q => with_rollback_flag q true) <$> flat pending /\
    frame_start_indices (rollback_stack (frames_stack s)) = starts pending;
  sv_timely : manager_timely H (frames_stack s) t;
}.

Lemma sorted_impl {A} (R R' : relation A) l :
  (forall x y, R x y -> R' x y) -> StronglySorted R l -> StronglySorted R' l.
Proof. intros HR. induction 1; constructor; [done|]. eapply Forall_impl; [done|]. auto. Qed.

Lemma sorted_NoDup l : StronglySorted Z.lt l -> NoDup l.
Proof.
  induction 1 as [|x l Hl IH Hx]; constructor; [|done].
  intros Hin. rewrite Forall_forall in Hx. specialize (Hx x Hin). lia.
Qed.

Lemma sorted_snoc l (x : Z) : StronglySorted Z.lt l -> Forall (fun y => y < x) l -> StronglySorted Z.lt (l ++ [x]).
Proof.
  induction 1 as [|y l Hl IH Hy]; intros Hx; cbn; [by repeat constructor|].
  inversion Hx; subst. constructor; [by apply IH|]. apply Forall_app. by repeat constructor.
Qed.

Lemma timely_later m t t' :
  ZkEvmLaws -> manager_timely (X := LogQuery) H m t -> t <= t' -> manager_timely H m t'.
Proof.
  intros Hzk [H1 H2] Ht.
  assert (normalize_timestamp t <= normalize_timestamp t').
  { unfold normalize_timestamp. pose proof cycle_positive.
    rewrite !Z.mod_eq by lia. pose proof (Z.div_le_mono t t' TIME_DELTA_PER_CYCLE). nia. }
  split; intros HH; [specialize (H1 HH)|specialize (H2 HH)]; lia.
Qed.

Context {zk_laws : ZkEvmLaws}.

Lemma query_simulates s frame outer t q :
  sink_view s (frame :: outer) t -> t < timestamp q -> sink_query_ok q ->
  exists s', add_partial_query H s q = Ret s' /\ sink_view s' ((frame ++ [q]) :: outer) (timestamp q).
Proof.
  intros [Hlog Hsort Htime (ins & Hfs & Hlen) (pending & Hpend & Hrd & Hrs) Htm] Ht Hq.
  unfold sink_query_ok in Hq. rewrite !andb_True, negb_True in Hq. destruct Hq as [[Hrw Haux] Hrb].
  apply Is_true_true in Hrw, Haux. apply Is_true_false in Hrb.
  apply (timely_later _ _ (timestamp q)) in Htm; [|done|lia].
  destruct (push_both_returns H (frames_stack s) q (with_rollback_flag q true) (timestamp q) Htm)
    as (m & Hm & Hf & Hr & Htm').
  unfold add_partial_query. rewrite Hrw, Haux, Hrb. cbn [rust_assert negb]. rewrite !outcome_Ret_bind.
  apply outcome_bind_Ret in Hm as (m1 & -> & Hm1). rewrite outcome_Ret_bind, Hm1, outcome_Ret_bind.
  eexists. split; [done|].
  inversion Hpend as [|p ? ps ? Hp Hps]; subst.
  assert (Hall : Forall (fun y => y < timestamp q) (timestamp <$> flat (frame :: outer))).
  { apply Forall_fmap. eapply Forall_impl; [exact Htime|]. cbn. lia. }
  assert (Hnew : timestamp q ∉ timestamp <$> flat (frame :: outer)).
  { intros Hin. rewrite Forall_forall in Hall. specialize (Hall _ Hin). lia. }
  split; cbn [frames_stack]; rewrite ?Hf, ?Hr; cbn [with_item data frame_start_indices];
    rewrite ?flat_snoc.
  - rewrite foldM_app, Hlog, outcome_Ret_bind. cbn [foldM].
    rewrite apply_log_new by (by try apply by_time_None). by rewrite by_time_snoc.
  - rewrite fmap_app. by apply sorted_snoc.
  - apply Forall_app. split; [eapply Forall_impl; [exact Htime|cbn; lia]|by repeat constructor].
  - by exists ins.
  - exists ((p ++ [q]) :: ps). split_and!.
    + constructor; [|done]. unfold pending_of in *. by rewrite !List.filter_app, Hp.
    + by rewrite Hrd, flat_snoc, fmap_app.
    + by rewrite Hrs.
  - done.
Qed.

Lemma start_simulates s frames t t' :
  sink_view s frames t -> t <= t' ->
  exists s', sink_start_frame H s t' = Ret s' /\ sink_view s' ([] :: frames) t'.
Proof.
  intros [Hlog Hsort Htime (ins & Hfs & Hlen) (pending & Hpend & Hrd & Hrs) Htm] Ht.
  apply (timely_later _ _ t') in Htm; [|done..].
  destruct (manager_push_frame_returns H (frames_stack s) t' Htm) as (m & Hm & Hf & Hr & Htm').
  unfold sink_start_frame. rewrite Hm, outcome_Ret_bind. eexists. split; [done|].
  split; cbn [frames_stack]; rewrite ?Hf, ?Hr; cbn [with_frame data frame_start_indices];
    rewrite ?flat_cons, ?app_nil_r; try done.
  - eapply Forall_impl; [exact Htime|cbn; lia].
  - rewrite Hfs. eexists. split; [done|]. rewrite length_app. cbn. lia.
  - exists ([] :: pending). split_and!.
    + by constructor.
    + by rewrite flat_cons, app_nil_r.
    + cbn [starts]. by rewrite Hrs, Hrd, length_fmap.
Qed.

Lemma sink_view_later s frames t t' : sink_view s frames t -> t <= t' -> sink_view s frames t'.
Proof.
  intros [Hlog Hsort Htime Hfs Hpend Htm] Ht. split; try done.
  - eapply Forall_impl; [exact Htime|cbn; lia].
  - by eapply timely_later.
Qed.

Lemma filter_rolled_back_flag l :
  List.filter rolled_back ((fun q => with_rollback_flag q true) <$> l) =
  (fun q => with_rollback_flag q true) <$> List.filter rolled_back l.
Proof. induction l as [|q l IH]; cbn; [done|]. unfold rolled_back in *. cbn. case_match; cbn; by rewrite IH. Qed.

Lemma filter_rolled_back_kept l :
  List.filter rolled_back (List.filter (fun q => negb (rolled_back q)) l) = [].
Proof.
  induction l as [|q l IH]; cbn; [done|]. destruct (rolled_back q) eqn:Hq; cbn; [done|]. by rewrite Hq.
Qed.

Lemma kept_sublist (f : LogQuery -> bool) l : List.filter f l `sublist_of` l.
Proof. induction l as [|q l IH]; cbn; [done|]. case_match; by constructor. Qed.

Lemma Forall_sublist {A} (P : A -> Prop) l l' : l `sublist_of` l' -> Forall P l' -> Forall P l.
Proof. induction 1; intros HP; [done|..]; inversion HP; subst; auto. Qed.

Lemma sorted_sublist (l l' : list Z) : l `sublist_of` l' -> StronglySorted Z.lt l' -> StronglySorted Z.lt l.
Proof.
  induction 1 as [|x l l' Hl IH|x l l' Hl IH]; intros Hs; [done|..]; inversion Hs; subst; [|by apply IH].
  constructor; [by apply IH|]. by eapply Forall_sublist.
Qed.

Lemma panic_simulates s frame outer t :
  sink_view s (frame :: outer) t ->
  exists m, move_rollback_to_forward H (frames_stack s) rolled_back t = Ret m /\
    sink_view {| frames_stack := m |} (List.filter (fun q => negb (rolled_back q)) frame :: outer) t.
Proof.
  intros [Hlog Hsort Htime (ins & Hfs & Hlen) (pending & Hpend & Hrd & Hrs) Htm].
  inversion Hpend as [|p ? ps ? Hp Hps]; subst.
  set (start := length (flat ps)).
  assert (Hcut : take start (data (rollback_stack (frames_stack s))) =
                 (fun q => with_rollback_flag q true) <$> flat ps).
  { rewrite Hrd, flat_cons, fmap_app. apply take_app_length'. by rewrite length_fmap. }
  assert (Hdrop : drop start (data (rollback_stack (frames_stack s))) =
                  (fun q => with_rollback_flag q true) <$> p).
  { rewrite Hrd, flat_cons, fmap_app. apply drop_app_length'. by rewrite length_fmap. }
  destruct (move_rollback_to_forward_returns H (frames_stack s) rolled_back t start)
    as (m & Hm & Hr & Hfi & Hfd & Htm'); [rewrite Hrs; cbn [starts]; by rewrite last_snoc| |done|].
  { rewrite Hrd, flat_cons, length_fmap, length_app. unfold start. lia. }
  exists m. split; [done|].
  assert (Hsub : flat (List.filter (fun q => negb (rolled_back q)) frame :: outer)
                   `sublist_of` flat (frame :: outer)).
  { rewrite !flat_cons. apply sublist_app; [done|apply kept_sublist]. }
  split; cbn [frames_stack].
  - rewrite Hfd, foldM_app, Hlog, outcome_Ret_bind, Hdrop, <- fmap_reverse, filter_rolled_back_flag.
    rewrite !flat_cons. pose proof (undo_logs (flat outer) frame []) as Hu. rewrite !app_nil_r in Hu.
    rewrite <- Hu by (rewrite <- flat_cons; by apply sorted_NoDup).
    do 2 f_equal. unfold pending_of in Hp. rewrite <- Hp.
    unfold reverse. rewrite !rev_append_rev, !app_nil_r. by rewrite List.filter_rev.
  - eapply sorted_sublist; [|exact Hsort]. by apply fmap_sublist.
  - by eapply Forall_sublist.
  - exists ins. by rewrite Hfi.
  - exists ([] :: ps). split_and!.
    + constructor; [|done]. unfold pending_of. by rewrite filter_rolled_back_kept.
    + rewrite Hr, flat_cons, app_nil_r. exact Hcut.
    + by rewrite Hr.
  - done.
Qed.

Lemma merge_simulates s frame parent outer t :
  sink_view s (frame :: parent :: outer) t ->
  exists m, manager_merge_frame H (frames_stack s) t = Ret m /\
    sink_view {| frames_stack := m |} ((parent ++ frame) :: outer) t.
Proof.
  intros [Hlog Hsort Htime (ins & Hfs & Hlen) (pending & Hpend & Hrd & Hrs) Htm].
  inversion Hpend as [|p ? ps0 ? Hp Hps]; subst. inversion Hps as [|p' ? ps ? Hp' Hps']; subst.
  destruct (exists_last (l := ins)) as (ins' & i & ->).
  { intros ->. cbn in Hlen. lia. }
  destruct (manager_merge_frame_returns H (frames_stack s) t (0%nat :: ins') i _ _ Hfs Hrs Htm)
    as (m & Hm & Hf & Hr & Htm').
  exists m. split; [done|].
  split; cbn [frames_stack]; rewrite ?Hf, ?Hr; cbn [data frame_start_indices];
    rewrite ?flat_snoc, <- ?(flat_cons frame); try done.
  - exists ins'. split; [done|]. rewrite length_app in Hlen. cbn in *. lia.
  - exists ((p' ++ p) :: ps). split_and!.
    + constructor; [|done]. unfold pending_of in *. by rewrite !List.filter_app, Hp, Hp'.
    + by rewrite Hrd, flat_snoc, (flat_cons p).
    + done.
Qed.

Lemma op_simulates s frames t op frames' :
  sink_view s frames t -> well_timed t [op] -> sink_op_ok op -> spec_op frames op = Some frames' ->
  exists s', sink_op s op = Ret s' /\ sink_view s' frames' (sink_op_time op).
Proof.
  intros Hv Ht Hok Hspec. destruct op as [q|t'|panicked t']; cbn -[rolled_back] in *;
    rewrite andb_true_r in Ht; apply Is_true_true in Ht.
  - destruct frames as [|frame outer]; [done|]. injection Hspec as <-.
    eapply query_simulates; [done|lia|done].
  - injection Hspec as <-. eapply start_simulates; [done|lia].
  - destruct frames as [|frame [|parent outer]]; [done..|]. injection Hspec as <-.
    apply (sink_view_later _ _ _ t') in Hv; [|lia]. unfold sink_finish_frame.
    assert (exists m, (if panicked then move_rollback_to_forward H (frames_stack s) rolled_back t'
                       else Ret (frames_stack s)) = Ret m /\
      sink_view {| frames_stack := m |}
        ((if panicked then List.filter (fun q => negb (rolled_back q)) frame else frame) :: parent :: outer) t')
      as (m & -> & Hv').
    { destruct panicked; [by apply panic_simulates|]. exists (frames_stack s). by destruct s. }
    apply merge_simulates in Hv' as (m' & Hm' & Hv'). cbn [frames_stack] in Hm'.
    rewrite outcome_Ret_bind, Hm', outcome_Ret_bind. eauto.
Qed.

Lemma ops_simulate ops : forall s frames t frames',
  sink_view s frames t -> well_timed t ops -> forallb sink_op_ok ops -> spec_ops frames ops = Some frames' ->
  exists s' t', foldM sink_op s ops = Ret s' /\ sink_view s' frames' t'.
Proof.
  induction ops as [|op ops IH]; intros s frames t frames' Hv Ht Hok Hspec.
  { injection Hspec as <-. by exists s, t. }
  cbn [well_timed forallb spec_ops] in *. apply andb_True in Ht as [Ht Ht'], Hok as [Hok Hok'].
  apply bind_Some in Hspec as (frames1 & Hs1 & Hs2).
  destruct (op_simulates s frames t op frames1) as (s1 & Hop & Hv1); [done|cbn; by rewrite andb_true_r|done..|].
  cbn [foldM]. rewrite Hop, outcome_Ret_bind. by eapply IH.
Qed.

Lemma sink_default_view : sink_view sink_default [[]] 0.
Proof.
  split; [done|apply SSorted_nil|done|by exists []|..].
  - exists [[]]. by repeat constructor.
  - pose proof cycle_positive. split; intros _; unfold normalize_timestamp; cbn; by rewrite Z.mod_0_l by lia.
Qed.

(** *** Reading the log *)

Lemma take_event_Some tmp events msgs k q :
  tmp !! k = Some q ->
  take_event (tmp, events, msgs) k =
    if aux_byte q =? EVENT_AUX_BYTE then Ret (delete k tmp, events ++ [event_of_query q], msgs)
    else Ret (delete k tmp, events, msgs ++ [event_of_query q]).
Proof. unfold take_event. by intros ->. Qed.

Lemma take_events l : forall events msgs,
  NoDup (timestamp <$> l) ->
  exists tmp, foldM take_event (by_time l, events, msgs) (timestamp <$> l) =
    Ret (tmp, events ++ (event_of_query <$> List.filter (fun q => aux_byte q =? EVENT_AUX_BYTE) l),
         msgs ++ (event_of_query <$> List.filter (fun q => negb (aux_byte q =? EVENT_AUX_BYTE)) l)).
Proof.
  induction l as [|q l IH]; intros events msgs Hnd.
  { exists ∅. cbn. by rewrite !app_nil_r. }
  pose proof (by_time_delete [] q l Hnd) as Hdel. cbn [app] in Hdel.
  rewrite fmap_cons. cbn [foldM].
  rewrite (take_event_Some _ _ _ _ q) by (apply by_time_elem; [done|set_solver]). rewrite Hdel.
  rewrite fmap_cons in Hnd. apply NoDup_cons in Hnd as [_ Hnd].
  cbn [List.filter]. destruct (aux_byte q =? EVENT_AUX_BYTE); cbn [negb]; rewrite outcome_Ret_bind.
  - destruct (IH (events ++ [event_of_query q]) msgs Hnd) as (tmp & ->). exists tmp.
    by rewrite <- (assoc_L (++)).
  - destruct (IH events (msgs ++ [event_of_query q]) Hnd) as (tmp & ->). exists tmp.
    by rewrite <- (assoc_L (++)).
Qed.

Lemma by_time_keys l :
  StronglySorted Z.lt (timestamp <$> l) -> stable_sort Z.leb (map_to_list (by_time l)).*1 = timestamp <$> l.
Proof.
  intros Hl. apply (StronglySorted_unique Z.le).
  - eapply sorted_impl; [|apply stable_sort_sorted].
    + intros x y. cbn. rewrite Is_true_true. lia.
    + intros x y z. rewrite !Is_true_true. lia.
    + intros x y. rewrite !Is_true_true. lia.
  - eapply sorted_impl; [|exact Hl]. intros x y. lia.
  - rewrite stable_sort_Permutation. unfold by_time.
    rewrite map_to_list_to_map by (rewrite by_time_fst; by apply sorted_NoDup). by rewrite by_time_fst.
Qed.
End SinkSpec.

(** C9: Whatever the frames entered, left and rolled back, at the end the event sink reports exactly the
    events and the L1 messages that survive, each list in the order in which they were emitted: those
    of frames that succeeded together with all frames around them, and the events of the bootloader in any
    frame.  No assertion of the sink fails on the way if time does not go back. *)
Theorem event_sink_refines {zk : ZkEvm} {laws : ZkEvmLaws} {params : EventParams} (H : HistoryMode)
    (ops : list SinkOp) (survivors : list LogQuery) :
  well_timed 0 ops -> forallb sink_op_ok ops -> spec_ops [[]] ops = Some [survivors] ->
  exists s, foldM (sink_op H) sink_default ops = Ret s /\
    flatten s = Ret (event_of_query <$> List.filter (fun q => aux_byte q =? EVENT_AUX_BYTE) survivors,
                     event_of_query <$> List.filter (fun q => negb (aux_byte q =? EVENT_AUX_BYTE)) survivors).
Proof.
  intros Ht Hok Hspec.
  destruct (ops_simulate H ops _ _ _ _ (sink_default_view H) Ht Hok Hspec) as (s & t & Hs & Hv).
  exists s. split; [done|]. destruct Hv as [Hlog Hsort _ (ins & Hfs & Hlen) _ _].
  destruct ins; [|done]. replace (flat [survivors]) with survivors in * by (by cbn; rewrite app_nil_r).
  unfold flatten, manager_len, framed_len, current_frame. fold (forward_stack (frames_stack s)).
  rewrite Hfs. cbn [length Nat.eqb last expect rust_assert]. rewrite !outcome_Ret_bind.
  rewrite rust_assert_true, !outcome_Ret_bind, drop_0 by done.
  unfold events_and_l1_messages_from_history. rewrite Hlog, outcome_Ret_bind, by_time_keys by done.
  destruct (take_events survivors [] []) as (tmp & ->); [by apply sorted_NoDup|]. done.
Qed.

(** *** An instance *)

Definition sample_event_params : EventParams :=
  {| BOOTLOADER_FORMAL_ADDRESS := 32769; EVENT_AUX_BYTE := 2; L1_MESSAGE_AUX_BYTE := 3 |}.

Definition sample_event (t address aux : Z) : LogQuery :=
  {| timestamp := t; tx_number_in_block := 0; aux_byte := aux; shard_id := 0; q_address := address;
     q_key := t; Storage.read_value := 0; written_value := 7; rw_flag := true; q_rollback := false;
     is_service := true |}.

Definition sample_ops : list SinkOp :=
  [SinkQuery (sample_event 4 1 2); SinkStart 8; SinkQuery (sample_event 12 1 2);
   SinkStart 16; SinkQuery (sample_event 20 32769 2); SinkFinish false 24;
   SinkQuery (sample_event 28 1 3); SinkFinish true 32; SinkQuery (sample_event 36 1 3)].

Definition sample_survivors : list LogQuery :=
  [sample_event 4 1 2; sample_event 20 32769 2; sample_event 36 1 3].

Lemma event_sink_refines_witness :
  exists s, foldM (sink_op (params := sample_event_params) HistoryEnabled) sink_default sample_ops = Ret s /\
    flatten (params := sample_event_params) s =
      Ret ([event_of_query (sample_event 4 1 2); event_of_query (sample_event 20 32769 2)],
           [event_of_query (sample_event 36 1 3)]).
Proof.
  exact (event_sink_refines (params := sample_event_params) HistoryEnabled sample_ops sample_survivors I I
           eq_refl).
Defined.

(** ** Solidity-like events *)

Definition EVENT_WRITER_ADDRESS : Z := 32781.

Record SolidityLikeEvent := {
  e_shard_id : Z;
  e_tx_number_in_block : Z;
  e_address : Z;
  topics : list (list Z);
  e_data : list Z;
}.

(** [VmEvent] of [core/lib/vm_interface] *)
Record VmEvent := {
  location : Z * Z;
  vm_event_address : Z;
  indexed_topics : list Z;
  vm_event_value : list Z;
}.

Definition into_vm_event (e : SolidityLikeEvent) (block_number : Z) : VmEvent :=
  {| location := (block_number, e_tx_number_in_block e); vm_event_address := e_address e;
     indexed_topics := be_chunks_to_h256_words (topics e); vm_event_value := e_data e |}.

Definition push_topic (e : SolidityLikeEvent) (t : list Z) : SolidityLikeEvent :=
  {| e_shard_id := e_shard_id e; e_tx_number_in_block := e_tx_number_in_block e; e_address := e_address e;
     topics := topics e ++ [t]; e_data := e_data e |}.

Definition extend_data (e : SolidityLikeEvent) (d : list Z) : SolidityLikeEvent :=
  {| e_shard_id := e_shard_id e; e_tx_number_in_block := e_tx_number_in_block e; e_address := e_address e;
     topics := topics e; e_data := e_data e ++ d |}.

(** Remaining bytes of data, remaining topics and what was assembled so far. *)
Definition PartialEvent : Type := Z * Z * SolidityLikeEvent.

(** The body of the loop over [[data_0, data_1]]. *)
Definition add_word (current : PartialEvent) (el : list Z) : PartialEvent :=
  let '(remaining_data_length, remaining_topics, event) := current in
  if negb (remaining_topics =? 0) then (remaining_data_length, remaining_topics - 1, push_topic event el)
  else if negb (remaining_data_length =? 0) then
    if 32 <=? remaining_data_length
    then (remaining_data_length - 32, remaining_topics, extend_data event el)
    else (0, remaining_topics, extend_data event (take (Z.to_nat remaining_data_length) el))
  else current.

Definition continue_event (result : list SolidityLikeEvent) (current : PartialEvent) (message : EventMessage) :
    list SolidityLikeEvent * option PartialEvent :=
  let event := current.2 in
  if negb (e_address event =? em_address message) || negb (e_shard_id event =? em_shard_id message)
     || negb (e_tx_number_in_block event =? em_tx_number_in_block message)
  then (result, None)
  else
    let '(remaining_data_length, remaining_topics, event) :=
      foldl add_word current [be_bytes 32 (em_key message); be_bytes 32 (em_value message)] in
    if negb (remaining_data_length =? 0) || negb (remaining_topics =? 0)
    then (result, Some (remaining_data_length, remaining_topics, event))
    else (result ++ [event], None).

(** Takes the event that was assembled only if it is well formed. *)
Definition push_complete (result : list SolidityLikeEvent) (current : option PartialEvent) :
    list SolidityLikeEvent :=
  match current with
  | Some (remaining_data_length, remaining_topics, event) =>
      if (remaining_data_length =? 0) && (remaining_topics =? 0) then result ++ [event] else result
  | None => result
  end.

(** [key.0[0]] is the low limb; [data_length -= 32] wraps around for shorter data. *)
Definition start_event (message : EventMessage) : PartialEvent :=
  let limb := wrap 64 (em_key message) in
  let num_topics := wrap 32 limb in
  let data_length := Z.shiftr limb 32 in
  let buffer := be_bytes 32 (em_value message) in
  let new_event topics data :=
    {| e_shard_id := em_shard_id message; e_tx_number_in_block := em_tx_number_in_block message;
       e_address := em_address message; topics := topics; e_data := data |} in
  if (num_topics =? 0) && (data_length =? 0) then (data_length, num_topics, new_event [] [])
  else if num_topics =? 0 then (wrap 64 (data_length - 32), num_topics, new_event [] buffer)
  else (data_length, num_topics - 1, new_event [buffer] []).

Definition merge_message (acc : list SolidityLikeEvent * option PartialEvent) (message : EventMessage) :
    list SolidityLikeEvent * option PartialEvent :=
  let '(result, current) := acc in
  if negb (is_first message) then
    match current with
    | Some current => continue_event result current message
    | None => (result, None)
    end
  else (push_complete result current, Some (start_event message)).

Definition merge_events_inner (events : list EventMessage) : list SolidityLikeEvent :=
  let '(result, current) := foldl merge_message ([], None) events in push_complete result current.

Definition user_event (event : SolidityLikeEvent) : outcome SolidityLikeEvent :=
  topic ← index_vec (topics event) 0;
  Ret {| e_shard_id := e_shard_id event; e_tx_number_in_block := e_tx_number_in_block event;
         e_address := h256_to_account_address (be_value topic);
         topics := drop 1 (topics event); e_data := e_data event |}.

Definition merge_events (events : list EventMessage) : outcome (list SolidityLikeEvent) :=
  map_outcome user_event
    (List.filter (fun e => e_address e =? EVENT_WRITER_ADDRESS) (merge_events_inner events)).

(** *** The format of the event writer

    The first message carries the number of topics and the length of the data, then the topics and the
    data follow word by word, two in a message. *)

Definition data_words (d : list Z) : list (list Z) :=
  (fun c => c ++ replicate (32 - length c) 0) <$> chunks 32 d.

Definition event_words (e : SolidityLikeEvent) : list (list Z) := topics e ++ data_words (e_data e).

Definition message_of (e : SolidityLikeEvent) (first : bool) (key value : Z) : EventMessage :=
  {| em_shard_id := e_shard_id e; is_first := first; em_tx_number_in_block := e_tx_number_in_block e;
     em_address := e_address e; em_key := key; em_value := value |}.

Fixpoint messages_of (e : SolidityLikeEvent) (words : list (list Z)) : list EventMessage :=
  match words with
  | [] => []
  | [w] => [message_of e false (be_value w) 0]
  | w1 :: w2 :: words => message_of e false (be_value w1) (be_value w2) :: messages_of e words
  end.

Definition encode_event (e : SolidityLikeEvent) : list EventMessage :=
  let header := Z.of_nat (length (topics e)) + 2 ^ 32 * Z.of_nat (length (e_data e)) in
  match event_words e with
  | [] => [message_of e true header 0]
  | w :: words => message_of e true header (be_value w) :: messages_of e words
  end.

Definition word (w : list Z) : Prop := bytes w /\ length w = 32%nat.

Record event_ok (e : SolidityLikeEvent) : Prop := {
  ok_topics : Forall word (topics e);
  ok_data : bytes (e_data e);
  ok_topics_count : Z.of_nat (length (topics e)) < 2 ^ 32;
  ok_data_length : Z.of_nat (length (e_data e)) < 2 ^ 32;
  ok_first_word : topics e = [] -> e_data e = [] \/ (32 <= length (e_data e))%nat;
}.

Definition with_words (e : SolidityLikeEvent) (ts : list (list Z)) (d : list Z) : SolidityLikeEvent :=
  {| e_shard_id := e_shard_id e; e_tx_number_in_block := e_tx_number_in_block e; e_address := e_address e;
     topics := topics e ++ ts; e_data := e_data e ++ d |}.

Lemma add_topics ts : forall n e,
  foldl add_word (n, Z.of_nat (length ts), e) ts = (n, 0, with_words e ts []).
Proof.
  induction ts as [|t ts IH]; intros n e; cbn [foldl length].
  { unfold with_words. rewrite !app_nil_r. by destruct e. }
  unfold add_word at 2. rewrite (proj2 (Z.eqb_neq _ 0)) by lia. cbn [negb].
  replace (Z.of_nat (S (length ts)) - 1) with (Z.of_nat (length ts)) by lia.
  rewrite IH. unfold with_words. cbn. by rewrite <- (assoc_L (++)).
Qed.

Lemma add_data_fuel fuel : forall d e, (length d <= fuel)%nat ->
  foldl add_word (Z.of_nat (length d), 0, e) ((fun c => c ++ replicate (32 - length c) 0) <$> chunks_fuel fuel 32 d) =
  (0, 0, with_words e [] d).
Proof.
  induction fuel as [|fuel IH]; intros d e Hd.
  { destruct d; [|cbn in Hd; lia]. unfold with_words. cbn. rewrite !app_nil_r. by destruct e. }
  destruct d as [|x d']; [unfold with_words; cbn; rewrite !app_nil_r; by destruct e|].
  set (d := x :: d') in *.
  change (chunks_fuel (S fuel) 32 d) with (take 32 d :: chunks_fuel fuel 32 (drop 32 d)). rewrite fmap_cons. cbn [foldl].
  assert (0 < length d)%nat by (cbn; lia). unfold add_word at 2. cbn [Z.eqb negb].
  rewrite (proj2 (Z.eqb_neq _ 0)) by lia. cbn [negb].
  destruct (Z.leb_spec 32 (Z.of_nat (length d))) as [Hl|Hl].
  - rewrite (length_take_le d 32) by lia. cbn [Nat.sub replicate]. rewrite app_nil_r.
    replace (Z.of_nat (length d) - 32) with (Z.of_nat (length (drop 32 d))) by (rewrite length_drop; lia).
    rewrite IH by (rewrite length_drop; lia). unfold with_words, extend_data.
    cbn [e_shard_id e_tx_number_in_block e_address topics e_data].
    by rewrite <- (assoc_L (++)), (take_drop 32 d).
  - rewrite Nat2Z.id, (take_ge d) by lia. rewrite take_app_length, (drop_ge d) by lia.
    destruct fuel; unfold with_words, extend_data; cbn; by rewrite !app_nil_r.
Qed.

Lemma add_event_words e ts d :
  foldl add_word (Z.of_nat (length d), Z.of_nat (length ts), e) (ts ++ data_words d) =
  (0, 0, with_words e ts d).
Proof.
  rewrite foldl_app, add_topics. unfold data_words, chunks. rewrite add_data_fuel by lia.
  unfold with_words. cbn. by rewrite !app_nil_r.
Qed.

(** Messages of words that the event still needs. *)
Definition words_needed (current : PartialEvent) : Z :=
  let '(remaining_data_length, remaining_topics, _) := current in
  remaining_topics + (remaining_data_length + 31) / 32.

Definition counts_ok (current : PartialEvent) : Prop :=
  let '(remaining_data_length, remaining_topics, _) := current in
  0 <= remaining_data_length /\ 0 <= remaining_topics.

Lemma add_word_needed current w :
  counts_ok current -> 0 < words_needed current ->
  counts_ok (add_word current w) /\ words_needed (add_word current w) = words_needed current - 1.
Proof.
  destruct current as [[n k] e]. cbn. intros [Hn Hk] Hpos.
  destruct (Z.eqb_spec k 0) as [->|Hk0]; cbn [negb]; [|cbn; lia].
  destruct (Z.eqb_spec n 0) as [->|Hn0]; cbn [negb]; [done|].
  destruct (Z.leb_spec 32 n); cbn; div_lia.
Qed.

Lemma needed_0 current :
  counts_ok current -> words_needed current = 0 <-> exists e, current = (0, 0, e).
Proof.
  destruct current as [[n k] e]. cbn. intros [Hn Hk]. split; [|by intros (e' & [= -> -> ->])].
  intros H0. assert (n = 0 /\ k = 0) as [-> ->] by div_lia. eauto.
Qed.

Definition same_source (e e' : SolidityLikeEvent) : Prop :=
  e_shard_id e = e_shard_id e' /\ e_tx_number_in_block e = e_tx_number_in_block e' /\
  e_address e = e_address e'.

Lemma add_word_source current w : same_source (add_word current w).2 current.2.
Proof. destruct current as [[n k] e]. unfold add_word. by repeat case_match. Qed.

Lemma add_word_done w e : add_word (0, 0, e) w = (0, 0, e).
Proof. done. Qed.

Lemma continue_event_needed result current e key value :
  same_source current.2 e -> counts_ok current ->
  let next := foldl add_word current [be_bytes 32 key; be_bytes 32 value] in
  counts_ok next ->
  continue_event result current (message_of e false key value) =
    if words_needed next =? 0 then (result ++ [next.2], None) else (result, Some next).
Proof.
  intros (Hs & Ht & Ha) Hc next Hn. unfold continue_event. cbn [message_of em_address em_shard_id
    em_tx_number_in_block em_key em_value]. rewrite Hs, Ht, Ha, !Z.eqb_refl. cbn [negb orb].
  fold next. destruct next as [[n k] e'] eqn:Hnext.
  destruct (Z.eqb_spec (words_needed (n, k, e')) 0) as [H0|H0].
  - apply needed_0 in H0 as (e1 & [= -> -> ->]); done.
  - destruct (Z.eqb_spec n 0) as [->|]; [|done]. destruct (Z.eqb_spec k 0) as [->|]; [|done]. done.
Qed.

Lemma merge_words e : forall n words, (length words <= n)%nat -> forall result current,
  Forall word words -> same_source current.2 e -> counts_ok current ->
  words_needed current = Z.of_nat (length words) -> words <> [] ->
  foldl merge_message (result, Some current) (messages_of e words) =
    (result ++ [(foldl add_word current words).2], None).
Proof.
  induction n as [|n IH]; intros words Hn result current Hw Hs Hc Hneed Hne.
  { destruct words; [done|cbn in Hn; lia]. }
  assert (Hsource : forall c w, same_source c.2 e -> same_source (add_word c w).2 e).
  { intros c w (H1 & H2 & H3). destruct (add_word_source c w) as (H1' & H2' & H3').
    unfold same_source. by rewrite H1', H2', H3'. }
  destruct words as [|w1 [|w2 words]]; [done|..]; inversion Hw as [|?? [Hb1 Hl1] Hw1]; subst.
  - cbn [length] in Hneed. destruct (add_word_needed current w1 Hc) as [Hc1 Hn1]; [lia|].
    destruct (proj1 (needed_0 _ Hc1)) as (e1 & He1); [lia|].
    cbn [messages_of foldl merge_message]. unfold merge_message. cbn [message_of is_first negb].
    rewrite continue_event_needed; [|done|done|]; cbn [foldl];
      rewrite <- Hl1, be_bytes_be_value, He1, add_word_done by done; done.
  - inversion Hw1 as [|?? [Hb2 Hl2] Hw2]; subst. cbn [length] in *.
    destruct (add_word_needed current w1 Hc) as [Hc1 Hn1]; [lia|].
    destruct (add_word_needed (add_word current w1) w2 Hc1) as [Hc2 Hn2]; [lia|].
    cbn [messages_of foldl]. unfold merge_message at 2. cbn [message_of is_first negb].
    assert (Hb : foldl add_word current [be_bytes 32 (be_value w1); be_bytes 32 (be_value w2)] =
                 add_word (add_word current w1) w2).
    { cbn [foldl]. rewrite <- Hl1 at 1. rewrite be_bytes_be_value by done.
      rewrite <- Hl2. by rewrite be_bytes_be_value. }
    rewrite continue_event_needed by (rewrite ?Hb; done). rewrite Hb.
    destruct words as [|w3 words].
    + rewrite (proj2 (Z.eqb_eq _ 0)) by (cbn in *; lia). done.
    + rewrite (proj2 (Z.eqb_neq _ 0)) by (cbn [length] in *; lia).
      apply IH; [cbn [length] in *; lia|done|by apply Hsource, Hsource|done|cbn [length] in *; lia|done].
Qed.

Lemma data_words_length d : Z.of_nat (length (data_words d)) = (Z.of_nat (length d) + 31) / 32.
Proof. unfold data_words. rewrite length_fmap, chunks_count. div_lia. Qed.

Lemma data_words_word d : bytes d -> Forall word (data_words d).
Proof.
  unfold data_words, chunks. generalize (length d) as fuel. intros fuel. revert d.
  induction fuel as [|fuel IH]; intros d Hd; [constructor|].
  destruct d as [|x d']; [constructor|]. set (d := x :: d') in *.
  change (chunks_fuel (S fuel) 32 d) with (take 32 d :: chunks_fuel fuel 32 (drop 32 d)).
  rewrite fmap_cons. constructor; [|by apply IH, Forall_drop]. split.
  - apply Forall_app. split; [by apply Forall_take|]. by apply Forall_replicate.
  - rewrite length_app, length_replicate, length_take. lia.
Qed.

Lemma data_words_full d :
  (32 <= length d)%nat -> data_words d = take 32 d :: data_words (drop 32 d).
Proof.
  intros Hd. unfold data_words, chunks. destruct (length d) as [|n] eqn:Hn; [lia|].
  destruct d as [|x d']; [done|]. set (d := x :: d') in *.
  change (chunks_fuel (S n) 32 d) with (take 32 d :: chunks_fuel n 32 (drop 32 d)).
  rewrite fmap_cons, length_take_le, app_nil_r by lia. do 2 f_equal.
  apply chunks_fuel_enough; rewrite ?length_drop; lia.
Qed.

Lemma header_fields e :
  event_ok e ->
  let limb := wrap 64 (Z.of_nat (length (topics e)) + 2 ^ 32 * Z.of_nat (length (e_data e))) in
  wrap 32 limb = Z.of_nat (length (topics e)) /\ Z.shiftr limb 32 = Z.of_nat (length (e_data e)).
Proof.
  intros [_ _ Ht Hd _]. cbv zeta. unfold wrap. rewrite Z.shiftr_div_pow2 by lia.
  change (2 ^ 64) with 18446744073709551616. change (2 ^ 32) with 4294967296 in *.
  rewrite (Z.mod_small _ 18446744073709551616) by lia. split.
  - rewrite Z.mul_comm, Z.mod_add by lia. rewrite Z.mod_small; lia.
  - rewrite Z.mul_comm, Z.div_add by lia. rewrite Z.div_small; lia.
Qed.

(** The first message leaves an event that needs exactly the words that follow. *)
Lemma encode_event_starts e :
  event_ok e ->
  exists message words, encode_event e = message :: messages_of e words /\ is_first message = true /\
    Forall word words /\ same_source (start_event message).2 e /\ counts_ok (start_event message) /\
    words_needed (start_event message) = Z.of_nat (length words) /\
    foldl add_word (start_event message) words = (0, 0, e).
Proof.
  intros Hok. pose proof (header_fields e Hok) as [Hk Hn].
  destruct Hok as [Ht Hd Htc Hdc Hfirst]. unfold encode_event, event_words.
  pose proof (data_words_word _ Hd) as Hdw. pose proof (data_words_length (e_data e)) as Hdl.
  destruct e as [shard tx addr ts d]. cbn [topics e_data] in *.
  destruct ts as [|t ts]; [destruct (Hfirst eq_refl) as [->|Hlong]|].
  - exists (message_of (Build_SolidityLikeEvent shard tx addr [] []) true 0 0), []. by split_and!.
  - rewrite data_words_full by done. cbn [app]. do 2 eexists. split; [done|]. split; [done|].
    unfold start_event. cbn [message_of em_key em_value em_shard_id em_tx_number_in_block em_address topics e_data].
    rewrite Hk, Hn. rewrite (proj2 (Z.eqb_neq (Z.of_nat (length d)) 0)) by lia. cbn [length Z.of_nat Z.eqb andb].
    rewrite wrap_small by (unfold unsigned; change (2 ^ 64) with 18446744073709551616; lia).
    replace (Z.of_nat (length d) - 32) with (Z.of_nat (length (drop 32 d))) by (rewrite length_drop; lia).
    assert (Hw : be_bytes 32 (be_value (take 32 d)) = take 32 d).
    { rewrite <- (length_take_le d 32) at 1 by lia. apply be_bytes_be_value. by apply Forall_take. }
    rewrite Hw. split_and!; [by apply data_words_word, Forall_drop|done|split; lia|..].
    + cbn. by rewrite data_words_length.
    + etrans; [apply (add_event_words _ [] (drop 32 d))|]. unfold with_words. cbn -[take drop].
      by rewrite (take_drop 32 d).
  - inversion Ht as [|?? [Htb Htl] Hts]; subst. cbn [app]. do 2 eexists. split; [done|]. split; [done|].
    unfold start_event. cbn [message_of em_key em_value em_shard_id em_tx_number_in_block em_address topics e_data].
    rewrite Hk, Hn. rewrite (proj2 (Z.eqb_neq (Z.of_nat (length (t :: ts))) 0)) by (cbn [length]; lia).
    cbn [andb length]. replace (Z.of_nat (S (length ts)) - 1) with (Z.of_nat (length ts)) by lia.
    assert (Hw : be_bytes 32 (be_value t) = t) by (rewrite <- Htl at 1; by apply be_bytes_be_value).
    rewrite Hw. split_and!; [by apply Forall_app|done|split; lia|..].
    + cbn. rewrite length_app. lia.
    + by rewrite add_event_words.
Qed.

Lemma encode_event_merges e result current :
  event_ok e ->
  let '(result', current') := foldl merge_message (result, current) (encode_event e) in
  push_complete result' current' = push_complete result current ++ [e].
Proof.
  intros Hok.
  destruct (encode_event_starts e Hok) as (message & words & -> & Hm & Hw & Hs & Hc & Hn & Hfold).
  cbn [foldl]. unfold merge_message at 2. rewrite Hm. cbn [negb].
  destruct words as [|w words].
  - cbn in Hfold |- *. by rewrite Hfold.
  - rewrite (merge_words e (length (w :: words))) by done. by rewrite Hfold.
Qed.

Lemma encode_events_merge events : forall result current,
  Forall event_ok events ->
  let '(result', current') := foldl merge_message (result, current) (concat (encode_event <$> events)) in
  push_complete result' current' = push_complete result current ++ events.
Proof.
  induction events as [|e events IH]; intros result current Hok; [by rewrite app_nil_r|].
  inversion Hok as [|?? He Hes]; subst. rewrite fmap_cons, concat_cons, foldl_app.
  pose proof (encode_event_merges e result current He) as H1.
  destruct (foldl merge_message (result, current) (encode_event e)) as [result1 current1].
  pose proof (IH result1 current1 Hes) as H2.
  destruct (foldl merge_message (result1, current1) _) as [result2 current2].
  by rewrite H2, H1, <- (assoc_L (++)).
Qed.

Lemma merge_events_inner_encode events :
  Forall event_ok events -> merge_events_inner (concat (encode_event <$> events)) = events.
Proof.
  intros Hok. unfold merge_events_inner. pose proof (encode_events_merge events [] None Hok) as Hm.
  by destruct (foldl merge_message ([], None) _).
Qed.

(** Events of users go through the event writer, with the address of the emitter as the first topic. *)
Definition writer_event (e : SolidityLikeEvent) : SolidityLikeEvent :=
  {| e_shard_id := e_shard_id e; e_tx_number_in_block := e_tx_number_in_block e;
     e_address := EVENT_WRITER_ADDRESS;
     topics := be_bytes 32 (address_to_h256 (e_address e)) :: topics e; e_data := e_data e |}.

(** What is on the log: an event of a user, or something that another contract wrote. *)
Inductive LogItem := UserEvent (e : SolidityLikeEvent) | ForeignEvent (e : SolidityLikeEvent).

Definition item_event (i : LogItem) : SolidityLikeEvent :=
  match i with UserEvent e => writer_event e | ForeignEvent e => e end.

Definition item_ok (i : LogItem) : Prop :=
  event_ok (item_event i) /\
  match i with
  | UserEvent e => unsigned 160 (e_address e)
  | ForeignEvent e => e_address e <> EVENT_WRITER_ADDRESS
  end.

Definition user_events (items : list LogItem) : list SolidityLikeEvent :=
  omap (fun i => match i with UserEvent e => Some e | ForeignEvent _ => None end) items.

Lemma address_word_roundtrip a :
  unsigned 160 a -> h256_to_account_address (be_value (be_bytes 32 (address_to_h256 a))) = a.
Proof.
  intros Ha. rewrite (address_to_h256_id a Ha).
  rewrite (be_value_be_bytes_unsigned 32 256 a (unsigned_160_256 a Ha) eq_refl).
  unfold h256_to_account_address. rewrite (be_value_drop_be_bytes_wrap 32 20 160) by lia.
  by apply wrap_small.
Qed.

Lemma user_event_writer e : unsigned 160 (e_address e) -> user_event (writer_event e) = Ret e.
Proof.
  intros He. pose proof (address_word_roundtrip _ He) as Ha. unfold user_event, writer_event.
  cbn [topics]. rewrite (proj2 (index_vec_Ret _ 0 (be_bytes 32 (address_to_h256 (e_address e))))) by done.
  rewrite outcome_Ret_bind. cbn [e_shard_id e_tx_number_in_block topics e_data drop]. rewrite Ha.
  by destruct e.
Qed.


Definition sample_user_event : SolidityLikeEvent :=
  {| e_shard_id := 0; e_tx_number_in_block := 3; e_address := 4660; topics := [be_bytes 32 9];
     e_data := replicate 40 5 |}.

Definition sample_foreign_event : SolidityLikeEvent :=
  {| e_shard_id := 0; e_tx_number_in_block := 3; e_address := 32776; topics := []; e_data := [] |}.

Lemma sample_event_ok : event_ok (writer_event sample_user_event).
Proof.
  split; [|by apply Forall_replicate|done..].
  repeat apply Forall_cons_2; [..|by apply Forall_nil]; (split; [apply be_bytes_bytes|apply be_bytes_length]).
Qed.

Lemma sample_foreign_event_ok : event_ok sample_foreign_event.
Proof. split; [by apply Forall_nil|by apply Forall_nil|done|done|by left]. Qed.


(** An event without topics whose data does not fill a word is lost, together with the words behind it:
    the remaining length wraps around. *)
Example short_data_is_lost :
  let e := {| e_shard_id := 0; e_tx_number_in_block := 0; e_address := 7; topics := []; e_data := [1] |} in
  merge_events_inner (encode_event e) = [].
Proof. vm_compute. done. Qed.
