(* ===== verification/VmMemory.v ===== *)
(** * Memory of the VM

    Model of [src/core/lib/multivm/src/versions/vm_latest/old_vm/memory.rs]: pages of words with a
    history, and the frames of pages that a contract call can observe. *)

From S2P Require Import Prelude Bytes Utils Storage StorageView VmHistory VmStorageOracle VmOracleFrames.
Open Scope Z_scope.

Definition CODE_ORACLE_ADDRESS : Z := 32786.

(** What the code uses of the crate [zk_evm]. *)
Inductive MemoryType := Stack | Heap | AuxHeap | FatPtr | Code | StaticMemory.

#[export] Instance MemoryType_eq_dec : EqDecision MemoryType.
Proof. solve_decision. Defined.

Record MemoryQuery := {
  mq_timestamp : Z;
  memory_type : MemoryType;
  mq_page : nat;
  mq_index : nat;
  mq_value : Z;
  value_is_pointer : bool;
  mq_rw_flag : bool;
}.

Record FatPointer := { memory_page : nat; fp_length : Z }.

(** ** State and operations *)

Record SimpleMemory := {
  sm_memory : MemoryWithHistory;
  observable_pages : FramedRecorder nat;
}.

Definition stack_page_from_base (base : nat) : nat := (base + 1)%nat.
Definition heap_page_from_base (base : nat) : nat := (base + 2)%nat.
Definition aux_heap_page_from_base (base : nat) : nat := (base + 3)%nat.

Definition simple_memory_default : SimpleMemory :=
  {| sm_memory := from_inner memory_default; observable_pages := from_inner framed_default |}.

(** It is expected that there is some intersection between the word and [start..end_]. *)
Definition extract_needed_bytes_from_word (word_value : list Z) (word_number start end_ : nat) : list Z :=
  let word_start := (word_number * 32)%nat in
  let word_end := (word_start + 31)%nat in
  let intersection_left := Nat.max word_start start in
  let intersection_right := Nat.min word_end end_ in
  if (intersection_right <? intersection_left)%nat then []
  else
    let start_bytes := (intersection_left - word_start)%nat in
    let to_take := (intersection_right - intersection_left + 1)%nat in
    take to_take (drop start_bytes word_value).

Definition query_with_value (query : MemoryQuery) (v : PrimitiveValue) : MemoryQuery :=
  {| mq_timestamp := mq_timestamp query; memory_type := memory_type query; mq_page := mq_page query;
     mq_index := mq_index query; mq_value := pv_value v; value_is_pointer := is_pointer v;
     mq_rw_flag := mq_rw_flag query |}.

Section SimpleMemory.
Context {zk : ZkEvm} (H : HistoryMode).
Implicit Types m : SimpleMemory.

Definition with_memory m (r : MemoryWithHistory) : SimpleMemory :=
  {| sm_memory := r; observable_pages := observable_pages m |}.

Definition with_pages m (r : FramedRecorder nat) : SimpleMemory :=
  {| sm_memory := sm_memory m; observable_pages := r |}.

Definition memory_rollback_to_timestamp m (t : Z) : outcome SimpleMemory :=
  r ← rollback_to_timestamp (sm_memory m) t;
  p ← rollback_to_timestamp (observable_pages m) t;
  Ret {| sm_memory := r; observable_pages := p |}.

Definition memory_write m (page slot : nat) (value : PrimitiveValue) (t : Z) : outcome SimpleMemory :=
  '(r, _) ← write_to_memory H (sm_memory m) page slot value t; Ret (with_memory m r).

Definition populate_page m (page : nat) (elements : list (nat * Z)) (t : Z) : outcome SimpleMemory :=
  foldM (fun m '(offset, value) =>
    memory_write m page offset {| pv_value := value; is_pointer := false |} t) m elements.

Definition memory_populate m (elements : list (nat * list Z)) (t : Z) : outcome SimpleMemory :=
  foldM (fun m '(page, values) =>
    foldM (fun m '(i, value) => memory_write m page i {| pv_value := value; is_pointer := false |} t)
      m (imap pair values)) m elements.

Definition dump_page m (page start end_ : nat) : list Z :=
  pv_value <$> dump_page_content_as_u256_words (inner (sm_memory m)) page start end_.

Definition memory_read_slot m (page slot : nat) : PrimitiveValue := read_slot (inner (sm_memory m)) page slot.

(** The loop [while current_word * 32 <= end]. *)
Fixpoint read_words (fuel : nat) m (page current_word start end_ : nat) (result : list Z) : outcome (list Z) :=
  if (current_word * 32 <=? end_)%nat then
    match fuel with
    | O => Panics "out of fuel"
    | S fuel =>
        let word_value := be_bytes 32 (pv_value (memory_read_slot m page current_word)) in
        read_words fuel m page (S current_word) start end_
          (result ++ extract_needed_bytes_from_word word_value current_word start end_)
    end
  else Ret result.

Definition read_unaligned_bytes m (page start length : nat) : outcome (list Z) :=
  if (length =? 0)%nat then Ret []
  else
    let end_ := (start + length - 1)%nat in
    result ← read_words (S end_) m page (start / 32) start end_ [];
    _ ← rust_assert (List.length result =? length)%nat "assertion failed: result.len() == length";
    Ret result.

Definition memory_delete_history m : outcome SimpleMemory :=
  r ← delete_history H (sm_memory m);
  p ← delete_history H (observable_pages m);
  Ret {| sm_memory := r; observable_pages := p |}.

(** Writes the slot of a query, or reads it. *)
Definition access_slot m (query : MemoryQuery) : outcome (SimpleMemory * MemoryQuery) :=
  if mq_rw_flag query then
    m ← memory_write m (mq_page query) (mq_index query)
          {| pv_value := mq_value query; is_pointer := value_is_pointer query |} (mq_timestamp query);
    Ret (m, query)
  else Ret (m, query_with_value query (memory_read_slot m (mq_page query) (mq_index query))).

Definition memory_execute_partial_query m (query : MemoryQuery) : outcome (SimpleMemory * MemoryQuery) :=
  _ ← match memory_type query with
      | Stack => Ret tt
      | Heap | AuxHeap =>
          rust_assert (negb (value_is_pointer query)) "Pointers can only be stored on stack"
      | FatPtr =>
          _ ← rust_assert (negb (mq_rw_flag query)) "assertion failed: !query.rw_flag";
          rust_assert (negb (value_is_pointer query)) "Pointers can only be stored on stack"
      | Code => Panics "code should be through specialized query"
      | StaticMemory => Panics "internal error: entered unreachable code"
      end;
  access_slot m query.

Definition specialized_code_query m (query : MemoryQuery) : outcome (SimpleMemory * MemoryQuery) :=
  _ ← rust_assert (bool_decide (memory_type query = Code)) "assertion failed: memory_type";
  _ ← rust_assert (negb (value_is_pointer query)) "Pointers are not used for decommmits";
  access_slot m query.

Definition read_code_query m (query : MemoryQuery) : outcome MemoryQuery :=
  _ ← rust_assert (bool_decide (memory_type query = Code)) "assertion failed: memory_type";
  _ ← rust_assert (negb (value_is_pointer query)) "Pointers are not used for decommmits";
  _ ← rust_assert (negb (mq_rw_flag query)) "Only read queries can be processed";
  Ret (query_with_value query (memory_read_slot m (mq_page query) (mq_index query))).

Definition start_global_frame m (new_base_page : nat) (calldata_fat_pointer : FatPointer) (t : Z) :
    outcome SimpleMemory :=
  p ← push_frame H (observable_pages m) t;
  p ← extend_frame H p
        [memory_page calldata_fat_pointer; stack_page_from_base new_base_page;
         heap_page_from_base new_base_page; aux_heap_page_from_base new_base_page] t;
  Ret (with_pages m p).

Definition finish_global_frame m (base_page : nat) (last_callstack_this : Z)
    (returndata_fat_pointer : FatPointer) (t : Z) : outcome SimpleMemory :=
  current_observable_pages ← current_frame (inner (observable_pages m));
  let returndata_page := memory_page returndata_fat_pointer in
  let is_returndata_page_static :=
    (last_callstack_this =? CODE_ORACLE_ADDRESS) && (0 <? fp_length returndata_fat_pointer) in
  r ← foldM (fun r page =>
        if (base_page <=? page)%nat && negb (page =? returndata_page)%nat then clear_page H r page t else Ret r)
      (sm_memory m) current_observable_pages;
  p ← clear_frame H (observable_pages m) t;
  p ← merge_frame H p t;
  p ← (if negb is_returndata_page_static then push_to_frame H p returndata_page t else Ret p);
  Ret {| sm_memory := r; observable_pages := p |}.
End SimpleMemory.

(** ** Reading bytes *)

Section ReadBytes.
Context {zk : ZkEvm}.
Open Scope nat_scope.
Implicit Types m : SimpleMemory.

(** A page as an array of bytes. *)
Definition byte_at m (page k : nat) : Z :=
  nth (k mod 32) (be_bytes 32 (pv_value (memory_read_slot m page (k / 32)))) 0%Z.

Lemma slice_nth (l : list Z) a n :
  a + n <= length l -> take n (drop a l) = (fun i => nth i l 0%Z) <$> seq a n.
Proof.
  revert a l. induction n as [|n IH]; intros a l Hl; [done|]. cbn [seq]. rewrite fmap_cons.
  destruct (lookup_lt_is_Some_2 l a) as [x Hx]; [lia|].
  rewrite (drop_S l x a Hx). cbn [take]. rewrite IH by lia. f_equal. symmetry. by apply nth_lookup_Some.
Qed.

Lemma extract_bytes m page word start end_ :
  let left := Nat.max (word * 32) start in
  let right := Nat.min (word * 32 + 31) end_ in
  extract_needed_bytes_from_word (be_bytes 32 (pv_value (memory_read_slot m page word))) word start end_ =
  byte_at m page <$> seq left (right + 1 - left).
Proof.
  cbv zeta. unfold extract_needed_bytes_from_word.
  set (left := Nat.max _ _). set (right := Nat.min _ _).
  destruct (Nat.ltb_spec right left).
  { by replace (right + 1 - left) with 0 by lia. }
  replace (right - left + 1) with (right + 1 - left) by lia.
  rewrite slice_nth by (rewrite be_bytes_length; lia).
  replace left with (word * 32 + (left - word * 32)) at 3 by lia.
  rewrite <- fmap_add_seq, <- list_fmap_compose. apply list_fmap_ext.
  intros i k Hk. apply lookup_seq in Hk as [-> Hi]. unfold compose, byte_at.
  rewrite (Nat.add_comm (word * 32)), Nat.Div0.mod_add, Nat.div_add, Nat.mod_small, Nat.div_small by lia. done.
Qed.

Lemma read_words_correct m page start end_ fuel : forall word,
  start / 32 <= word -> end_ < fuel + word -> start <= end_ ->
  read_words fuel m page word start end_ (byte_at m page <$> seq start (Nat.min (word * 32) (end_ + 1) - start)) =
  Ret (byte_at m page <$> seq start (end_ + 1 - start)).
Proof.
  induction fuel as [|fuel IH]; intros word Hw Hf Hse; cbn [read_words];
    (destruct (Nat.leb_spec (word * 32) end_); [|by rewrite Nat.min_r by lia]); [lia|].
  rewrite extract_bytes, <- fmap_app. rewrite <- (IH (S word)) by lia. f_equal. f_equal.
  set (a := Nat.min (word * 32) (end_ + 1) - start).
  assert (Hss : start < word * 32 + 32).
  { pose proof (Nat.div_mod_eq start 32). pose proof (Nat.mod_upper_bound start 32). lia. }
  replace (Nat.max (word * 32) start) with (start + a) by lia. rewrite <- seq_app. f_equal. lia.
Qed.
End ReadBytes.


(** ** Leaving a call *)

Section Frames.
Context {zk : ZkEvm}.
Implicit Types m : SimpleMemory.

Lemma clear_pages_read (cleared : nat -> bool) t pages : forall r,
  exists r', foldM (fun r page => if cleared page then clear_page HistoryEnabled r page t else Ret r) r pages = Ret r' /\
    forall i s, read_slot (inner r') i s =
      if decide (i ∈ pages /\ cleared i) then PRIMITIVE_VALUE_EMPTY else read_slot (inner r) i s.
Proof.
  induction pages as [|page pages IH]; intros r; cbn [foldM].
  { exists r. split; [done|]. intros i s. rewrite decide_False; [done|]. by intros [?%not_elem_of_nil _]. }
  destruct (cleared page) eqn:Hc.
  - destruct (clear_page_read r page t) as (r1 & -> & _ & Hr1). rewrite outcome_Ret_bind.
    destruct (IH r1) as (r2 & -> & Hr2). exists r2. split; [done|]. intros i s. rewrite Hr2, Hr1.
    destruct (decide (i = page)) as [->|Hne].
    + rewrite (decide_True (P := page ∈ page :: pages /\ _)) by (rewrite Hc; split; [by left|done]).
      by case_decide.
    + apply decide_ext. rewrite elem_of_cons. naive_solver.
  - rewrite outcome_Ret_bind. destruct (IH r) as (r2 & -> & Hr2). exists r2. split; [done|].
    intros i s. rewrite Hr2. apply decide_ext. rewrite elem_of_cons.
    split; [naive_solver|]. intros [[->|?] Hi]; [by rewrite Hc in Hi|done].
Qed.

(** The pages of a call are cleared, but for the page with its result. *)
Definition cleared_page (base_page returndata_page page : nat) : bool :=
  (base_page <=? page)%nat && negb (page =? returndata_page)%nat.

(** The result of the code oracle stays observable forever, so it is not passed on to the caller. *)
Definition passed_on (this : Z) (returndata : FatPointer) : list nat :=
  if (this =? CODE_ORACLE_ADDRESS) && (0 <? fp_length returndata) then [] else [memory_page returndata].
End Frames.


(** ** Rollback *)

Section MemoryRollback.
Context {zk : ZkEvm}.
Implicit Types m : SimpleMemory.

Inductive MemoryOp :=
  | MopQuery (query : MemoryQuery)
  | MopCodeQuery (query : MemoryQuery)
  | MopPopulate (page : nat) (elements : list (nat * Z)) (t : Z)
  | MopStart (new_base_page : nat) (calldata : FatPointer) (t : Z)
  | MopFinish (base_page : nat) (this : Z) (returndata : FatPointer) (t : Z).

Definition memory_op m (op : MemoryOp) : outcome SimpleMemory :=
  match op with
  | MopQuery q => '(m, _) ← memory_execute_partial_query HistoryEnabled m q; Ret m
  | MopCodeQuery q => '(m, _) ← specialized_code_query HistoryEnabled m q; Ret m
  | MopPopulate page elements t => populate_page HistoryEnabled m page elements t
  | MopStart base calldata t => start_global_frame HistoryEnabled m base calldata t
  | MopFinish base this returndata t => finish_global_frame HistoryEnabled m base this returndata t
  end.

Definition memory_op_time (op : MemoryOp) : Z :=
  match op with
  | MopQuery q | MopCodeQuery q => mq_timestamp q
  | MopPopulate _ _ t | MopStart _ _ t | MopFinish _ _ _ t => t
  end.

Definition memory_tracked (t : Z) m0 m : Prop :=
  tracked t (sm_memory m0) (sm_memory m) /\ tracked t (observable_pages m0) (observable_pages m).

Lemma memory_tracked_refl t m : memory_wf (inner (sm_memory m)) -> memory_tracked t m m.
Proof. intros Hm. split; apply tracked_refl; [by split_and!|done]. Qed.

Lemma memory_write_tracked t m0 m page slot v ts :
  memory_tracked t m0 m -> t <= normalize_timestamp ts ->
  ensures (memory_write HistoryEnabled m page slot v ts) (memory_tracked t m0).
Proof.
  intros [H1 H2] Hts. eapply ensures_bind; [by apply tracked_apply|].
  intros [r x] Hr. by apply ensures_Ret.
Qed.

Lemma access_slot_tracked t m0 m q :
  memory_tracked t m0 m -> t <= normalize_timestamp (mq_timestamp q) ->
  ensures (access_slot HistoryEnabled m q) (fun p => memory_tracked t m0 p.1).
Proof.
  intros Hm Hts. unfold access_slot. destruct (mq_rw_flag q); [|by apply ensures_Ret].
  eapply ensures_bind; [by apply memory_write_tracked|]. intros m' Hm'. by apply ensures_Ret.
Qed.

Lemma clear_page_tracked t r0 (r : MemoryWithHistory) page ts :
  tracked t r0 r -> t <= ts -> ensures (clear_page HistoryEnabled r page ts) (tracked t r0).
Proof. intros [H1 H2] Hts r' Hr'. by eapply since_clear_page. Qed.

Lemma start_global_frame_tracked t m0 m base calldata ts :
  memory_tracked t m0 m -> t <= normalize_timestamp ts ->
  ensures (start_global_frame HistoryEnabled m base calldata ts) (memory_tracked t m0).
Proof.
  intros [H1 H2] Hts. eapply ensures_bind; [by apply push_frame_tracked|]. intros p Hp.
  eapply (ensures_bind _ _ (tracked t (observable_pages m0))); [|intros p' Hp'; by apply ensures_Ret].
  apply ensures_foldM; [done|]. intros r x Hr. by apply push_to_frame_tracked.
Qed.

Lemma finish_global_frame_tracked `{!ZkEvmLaws} t m0 m base this ret ts :
  memory_tracked t m0 m -> t <= normalize_timestamp ts ->
  ensures (finish_global_frame HistoryEnabled m base this ret ts) (memory_tracked t m0).
Proof.
  intros [H1 H2] Hts.
  assert (t <= ts) as Ht.
  { unfold normalize_timestamp in Hts. pose proof cycle_positive.
    pose proof (Z.mod_pos_bound ts TIME_DELTA_PER_CYCLE). lia. }
  eapply ensures_bind with (Q := fun _ => True); [done|]. intros pages _.
  eapply ensures_bind with (Q := tracked t (sm_memory m0)).
  { apply ensures_foldM; [done|]. intros r x Hr. case_match; [by apply clear_page_tracked|by apply ensures_Ret]. }
  intros r Hr. eapply ensures_bind; [by apply clear_frame_tracked|]. intros p1 Hp1.
  eapply ensures_bind; [by apply merge_frame_tracked|]. intros p2 Hp2.
  eapply ensures_bind with (Q := tracked t (observable_pages m0)).
  { case_match; [by apply push_to_frame_tracked|by apply ensures_Ret]. }
  intros p3 Hp3. by apply ensures_Ret.
Qed.

Lemma memory_op_tracked `{!ZkEvmLaws} t m0 m op :
  memory_tracked t m0 m -> t <= normalize_timestamp (memory_op_time op) ->
  ensures (memory_op m op) (memory_tracked t m0).
Proof.
  intros Hm Hts. destruct op as [q|q|page elements ts|base calldata ts|base this ret ts]; cbn [memory_op memory_op_time] in *.
  - eapply (ensures_bind _ _ (fun p => memory_tracked t m0 p.1)); [|intros [m' q'] Hm'; by apply ensures_Ret].
    eapply ensures_bind with (Q := fun _ => True); [done|]. intros _ _. by apply access_slot_tracked.
  - eapply (ensures_bind _ _ (fun p => memory_tracked t m0 p.1)); [|intros [m' q'] Hm'; by apply ensures_Ret].
    do 2 (eapply ensures_bind with (Q := fun _ => True); [done|]; intros _ _). by apply access_slot_tracked.
  - apply ensures_foldM; [done|]. intros m' [i v] Hm'. by apply memory_write_tracked.
  - by apply start_global_frame_tracked.
  - by apply finish_global_frame_tracked.
Qed.

(** Equal for every reader, with the same frames of observable pages. *)
Definition memory_equiv m m' : Prop :=
  (forall page slot, memory_read_slot m page slot = memory_read_slot m' page slot) /\
  observable_pages m = observable_pages m'.

Lemma memory_tracked_rollback t m0 m :
  memory_tracked t m0 m -> older t (history (sm_memory m0)) -> older t (history (observable_pages m0)) ->
  exists m', memory_rollback_to_timestamp m t = Ret m' /\ memory_equiv m' m0.
Proof.
  intros [H1 H2] O1 O2. unfold memory_rollback_to_timestamp.
  destruct (tracked_rollback t (sm_memory m0) (sm_memory m)) as (r & -> & (_ & _ & Hr) & Hh); [done..|].
  rewrite outcome_Ret_bind, (tracked_exact t (observable_pages m0)) by done. rewrite outcome_Ret_bind.
  eexists. split; [done|]. split; [exact Hr|done].
Qed.
End MemoryRollback.

(** *** An instance *)

Definition sample_call_memory : SimpleMemory :=
  {| sm_memory := sample_memory;
     observable_pages := from_inner {| data := [4; 0; 2]%nat; frame_start_indices := [0; 1]%nat |} |}.

