(* ===== verification/TreeUtils.v ===== *)
(** * Utilities of the state tree

    Model of [src/core/lib/merkle_tree/src/utils.rs]: the compact map from nibbles to
    children, the first bit in which two keys differ, and the merge of indexed parts. *)

From S2P Require Import Prelude.
Open Scope Z_scope.

(** [U256::leading_zeros] *)
Definition leading_zeros_256 (z : Z) : nat :=
  if z =? 0 then 256 else Z.to_nat (255 - Z.log2 z).

Definition find_diverging_bit (lhs rhs : Z) : nat := leading_zeros_256 (Z.lxor lhs rhs).

(** [count_ones] of the lower 16 bits. *)
Definition count_ones_16 (z : Z) : nat :=
  length (List.filter (fun i => Z.testbit z (Z.of_nat i)) (seq 0 16)).

(** [u16::leading_zeros] *)
Definition leading_zeros_16 (z : Z) : nat :=
  if z =? 0 then 16 else Z.to_nat (15 - Z.log2 z).

(** [Vec::insert] *)
Definition vec_insert {A} (l : list A) (i : nat) (x : A) : outcome (list A) :=
  if (i <=? length l)%nat then Ret (take i l ++ x :: drop i l)
  else Panics "insertion index should be <= len".

Module SmallMap.

Record t (V : Type) := mk { bitmap : Z; values : list V }.
#[global] Arguments mk {V} _ _.
#[global] Arguments bitmap {V} _.
#[global] Arguments values {V} _.

Definition CAPACITY : Z := 16.

Section Ops.
Context {V : Type}.
Implicit Types m : t V.

Definition default : t V := mk 0 [].

Definition with_capacity (capacity : nat) : outcome (t V) :=
  _ ← rust_assert (Z.of_nat capacity <=? CAPACITY) "capacity is too large";
  Ret (mk 0 []).

Definition len m : nat := count_ones_16 (bitmap m).

Definition mask (index : Z) : Z := Z.shiftl 1 index.

(** The number of set bits below [index]. *)
Definition rank m (index : Z) : nat := count_ones_16 (Z.land (bitmap m) (mask index - 1)).

Definition get m (index : Z) : outcome (option V) :=
  _ ← rust_assert (index <? CAPACITY) "index is too large";
  if Z.land (bitmap m) (mask index) =? 0 then Ret None
  else v ← index_vec (values m) (rank m index); Ret (Some v).

Definition indices (bitmap : Z) : list Z :=
  List.filter (fun index => negb (Z.land bitmap (mask index) =? 0)) (seqZ 0 CAPACITY).

Definition iter m : list (Z * V) := zip (indices (bitmap m)) (values m).

Definition last m : option (Z * V) :=
  if (16 - leading_zeros_16 (bitmap m) <? 1)%nat then None
  else
    let greatest_set_bit := Z.of_nat (16 - leading_zeros_16 (bitmap m) - 1) in
    v ← last (values m); Some (greatest_set_bit, v).

(** [get_mut(index)] followed by an assignment through the reference; the flag tells whether
    there was an entry. *)
Definition modify m (index : Z) (f : V -> V) : outcome (t V * bool) :=
  _ ← rust_assert (index <? CAPACITY) "index is too large";
  if Z.land (bitmap m) (mask index) =? 0 then Ret (m, false)
  else
    let i := rank m index in
    v ← index_vec (values m) i; Ret (mk (bitmap m) (<[i := f v]> (values m)), true).

Definition insert m (index : Z) (value : V) : outcome (t V) :=
  _ ← rust_assert (index <? CAPACITY) "index is too large";
  let i := rank m index in
  if Z.land (bitmap m) (mask index) =? 0 then
    vs ← vec_insert (values m) i value; Ret (mk (Z.lor (bitmap m) (mask index)) vs)
  else
    _ ← index_vec (values m) i; Ret (mk (bitmap m) (<[i := value]> (values m))).
End Ops.
End SmallMap.

(** [MergingIter::next]: the part with the least index at its head, and the rest. *)
Definition merge_next {T} (iterators : list (list (nat * T))) :
    option ((nat * T) * list (list (nat * T))) :=
  let items := omap (fun '(iter_idx, it) => (fun next => (iter_idx, next)) <$> head it)
                 (imap pair iterators) in
  '(min_iter_idx, _) ← min_by_key (fun '(_, (idx, _)) => idx) items;
  it ← iterators !! min_iter_idx;
  match it with
  | (_, item) :: rest => Some ((min_iter_idx, item), <[min_iter_idx := rest]> iterators)
  | [] => None
  end.

(** Collecting the iterator; it yields [total_len] items. *)
Fixpoint merge_collect {T} (total_len : nat) (iterators : list (list (nat * T))) : list (nat * T) :=
  match total_len with
  | O => []
  | S total_len' =>
      match merge_next iterators with
      | None => []
      | Some (item, iterators') => item :: merge_collect total_len' iterators'
      end
  end.

Definition merge_by_index {T} (parts : list (list (nat * T))) : list (nat * T) :=
  merge_collect (sum_list (length <$> parts)) parts.

(** ** Correctness of the small map *)

Module SmallMapFacts.
Import SmallMap.

(** The number of set bits below [i]. *)
Definition rk (b : Z) (i : nat) : nat :=
  length (List.filter (fun j => Z.testbit b (Z.of_nat j)) (seq 0 i)).

#[local] Arguments rk : simpl never.

Lemma rk_S b i : rk b (S i) = (rk b i + if Z.testbit b (Z.of_nat i) then 1 else 0)%nat.
Proof.
  unfold rk. rewrite seq_S, List.filter_app, length_app. cbn. by destruct (Z.testbit _ _).
Qed.

Lemma rk_mono b i j : (i <= j)%nat -> (rk b i <= rk b j)%nat.
Proof. induction 1 as [|j _ IH]; [done|]. rewrite rk_S. lia. Qed.

Lemma rk_lt b i j : (i < j)%nat -> Z.testbit b (Z.of_nat i) -> (rk b i < rk b j)%nat.
Proof.
  intros Hij Hi. pose proof (rk_mono b (S i) j Hij) as H. rewrite rk_S in H.
  destruct (Z.testbit _ _); [lia|done].
Qed.

Lemma rk_ext b b' i :
  (forall j, (j < i)%nat -> Z.testbit b (Z.of_nat j) = Z.testbit b' (Z.of_nat j)) -> rk b i = rk b' i.
Proof. induction i as [|i IH]; intros H; [done|]. rewrite !rk_S, IH, H by auto with lia. done. Qed.

Lemma mask_ones i : mask (Z.of_nat i) - 1 = Z.ones (Z.of_nat i).
Proof. unfold mask. rewrite Z.shiftl_1_l, Z.ones_equiv. lia. Qed.

Lemma rank_rk {V} (m : t V) i : (i <= 16)%nat -> rank m (Z.of_nat i) = rk (bitmap m) i.
Proof.
  intros Hi. unfold rank, count_ones_16. rewrite mask_ones. change (rk (Z.land (bitmap m) (Z.ones (Z.of_nat i))) 16 = rk (bitmap m) i).
  assert (forall j, rk (Z.land (bitmap m) (Z.ones (Z.of_nat i))) (i + j) = rk (bitmap m) i) as H.
  { induction j as [|j IH].
    - rewrite Nat.add_0_r. apply rk_ext. intros j Hj.
      rewrite Z.land_spec, Z.ones_spec_low by lia. by rewrite andb_true_r.
    - rewrite Nat.add_succ_r, rk_S, IH, Z.land_spec, Z.ones_spec_high by lia.
      rewrite andb_false_r. lia. }
  specialize (H (16 - i)%nat). by replace (i + (16 - i))%nat with 16%nat in H by lia.
Qed.

Lemma land_mask b i : (Z.land b (mask (Z.of_nat i)) =? 0) = negb (Z.testbit b (Z.of_nat i)).
Proof.
  unfold mask. rewrite Z.shiftl_1_l. destruct (Z.testbit b (Z.of_nat i)) eqn:Hb; cbn.
  - apply Z.eqb_neq. intros H. apply (f_equal (fun z => Z.testbit z (Z.of_nat i))) in H.
    rewrite Z.land_spec, Hb, Z.pow2_bits_true, Z.bits_0 in H by lia. done.
  - apply Z.eqb_eq. apply Z.bits_inj'. intros j Hj. rewrite Z.land_spec, Z.bits_0, Z.pow2_bits_eqb by lia.
    destruct (Z.eqb_spec (Z.of_nat i) j) as [<-|]; [by rewrite Hb|by rewrite andb_false_r].
Qed.

Lemma lor_mask_bit b i j :
  Z.testbit (Z.lor b (mask (Z.of_nat i))) (Z.of_nat j) = Z.testbit b (Z.of_nat j) || (i =? j)%nat.
Proof.
  unfold mask. rewrite Z.shiftl_1_l, Z.lor_spec, Z.pow2_bits_eqb by lia. f_equal.
  destruct (Nat.eqb_spec i j) as [->|]; [by apply Z.eqb_eq|apply Z.eqb_neq; lia].
Qed.

Lemma rk_set b i j :
  Z.testbit b (Z.of_nat i) = false ->
  rk (Z.lor b (mask (Z.of_nat i))) j = (rk b j + if (i <? j)%nat then 1 else 0)%nat.
Proof.
  intros Hb. induction j as [|j IH]; [done|].
  rewrite !rk_S, IH, lor_mask_bit. destruct (Nat.ltb_spec i j), (Nat.ltb_spec i (S j)), (Nat.eqb_spec i j);
    subst; rewrite ?Hb; destruct (Z.testbit b (Z.of_nat j)); cbn; lia.
Qed.

Section Facts.
Context {V : Type}.
Implicit Types (m : t V) (v : V).

Record wf m : Prop := {
  wf_bitmap : unsigned 16 (bitmap m);
  wf_values : length (values m) = rk (bitmap m) 16;
}.

(** The value stored at a key. *)
Definition lookup m (i : nat) : option V :=
  if Z.testbit (bitmap m) (Z.of_nat i) then values m !! rk (bitmap m) i else None.

Lemma lookup_bit m i :
  wf m -> (i < 16)%nat -> Z.testbit (bitmap m) (Z.of_nat i) -> exists v, values m !! rk (bitmap m) i = Some v.
Proof.
  intros Hm Hi Hb. apply lookup_lt_is_Some_2. rewrite (wf_values _ Hm). by apply rk_lt.
Qed.

Lemma wf_default : wf (@default V).
Proof. split; [by split|by rewrite (rk_ext _ 0)]. Qed.

Lemma lookup_default i : lookup default i = None.
Proof. unfold lookup. cbn. by rewrite Z.bits_0. Qed.

Lemma get_lookup m i : wf m -> (i < 16)%nat -> get m (Z.of_nat i) = Ret (lookup m i).
Proof.
  intros Hm Hi. unfold get, lookup, CAPACITY. rewrite rust_assert_true by lia.
  rewrite outcome_Ret_bind, land_mask, rank_rk by lia.
  destruct (Z.testbit _ _) eqn:Hb; [|done]. cbn [negb].
  destruct (lookup_bit m i) as [v Hv]; [done..|by rewrite Hb|].
  unfold index_vec. by rewrite Hv.
Qed.

Lemma wf_set_value m i v : wf m -> wf (mk (bitmap m) (<[i := v]> (values m))).
Proof. intros [H1 H2]. split; [done|]. cbn [values bitmap]. by rewrite length_insert. Qed.

Lemma lookup_set_value m i j v :
  wf m -> (i < 16)%nat -> (j < 16)%nat -> Z.testbit (bitmap m) (Z.of_nat i) ->
  lookup (mk (bitmap m) (<[rk (bitmap m) i := v]> (values m))) j =
    if decide (i = j) then Some v else lookup m j.
Proof.
  intros Hm Hi Hj Hb. unfold lookup. cbn [values bitmap]. destruct (decide (i = j)) as [<-|Hne].
  - destruct (Z.testbit _ _) eqn:E; [|done]. rewrite list_lookup_insert_eq; [done|].
    rewrite (wf_values _ Hm). apply rk_lt; [done|by rewrite E].
  - destruct (Z.testbit (bitmap m) (Z.of_nat j)) eqn:E; [|done].
    apply list_lookup_insert_ne. destruct (decide (i < j)%nat).
    + pose proof (rk_lt (bitmap m) i j). naive_solver lia.
    + pose proof (rk_lt (bitmap m) j i ltac:(lia)). rewrite E in *. naive_solver lia.
Qed.

Lemma modify_spec m i f :
  wf m -> (i < 16)%nat ->
  exists m', modify m (Z.of_nat i) f = Ret (m', bool_decide (is_Some (lookup m i))) /\ wf m' /\
    forall j, (j < 16)%nat -> lookup m' j = if decide (i = j) then f <$> lookup m i else lookup m j.
Proof.
  intros Hm Hi. unfold modify, CAPACITY. rewrite rust_assert_true by lia.
  rewrite outcome_Ret_bind, land_mask, rank_rk by lia.
  destruct (Z.testbit (bitmap m) (Z.of_nat i)) eqn:Hb; cbn [negb].
  - destruct (lookup_bit m i) as [v Hv]; [done..|by rewrite Hb|].
    assert (lookup m i = Some v) as Hl by (unfold lookup; by rewrite Hb).
    unfold index_vec. rewrite Hv, Hl, bool_decide_eq_true_2 by done. eexists.
    split; [done|]. split; [by apply wf_set_value|]. intros j Hj.
    apply lookup_set_value; [done..|by rewrite Hb].
  - assert (lookup m i = None) as Hl by (unfold lookup; by rewrite Hb).
    rewrite Hl, bool_decide_eq_false_2 by (by intros [? ?]). exists m. split; [done|]. split; [done|].
    intros j _. case_decide; [by subst|done].
Qed.

Lemma insert_spec m i v :
  wf m -> (i < 16)%nat ->
  exists m', insert m (Z.of_nat i) v = Ret m' /\ wf m' /\
    forall j, (j < 16)%nat -> lookup m' j = if decide (i = j) then Some v else lookup m j.
Proof.
  intros Hm Hi. unfold insert, CAPACITY. rewrite rust_assert_true by lia.
  rewrite outcome_Ret_bind, land_mask, rank_rk by lia.
  pose proof (wf_values _ Hm) as Hlen.
  destruct (Z.testbit (bitmap m) (Z.of_nat i)) eqn:Hb; cbn [negb].
  - destruct (lookup_bit m i) as [v' Hv]; [done..|by rewrite Hb|].
    unfold index_vec. rewrite Hv. eexists. split; [done|]. split; [by apply wf_set_value|].
    intros j Hj. apply lookup_set_value; [done..|by rewrite Hb].
  - assert (rk (bitmap m) i <= length (values m))%nat as Hr by (rewrite Hlen; apply rk_mono; lia).
    unfold vec_insert. destruct (Nat.leb_spec (rk (bitmap m) i) (length (values m))); [|lia].
    eexists. split; [done|]. split.
    + split; cbn [bitmap values].
      * destruct (wf_bitmap _ Hm) as [H0 H1]. split; [apply Z.lor_nonneg; split; [done|]|].
        { unfold mask. apply Z.shiftl_nonneg. lia. }
        destruct (decide (Z.lor (bitmap m) (mask (Z.of_nat i)) = 0)) as [->|Hne]; [done|].
        unfold mask in *. rewrite Z.shiftl_1_l in *.
        assert (0 <= Z.lor (bitmap m) (2 ^ Z.of_nat i)) by (apply Z.lor_nonneg; lia).
        apply Z.log2_lt_pow2; [lia|]. rewrite Z.log2_lor, Z.log2_pow2 by lia.
        apply Z.max_lub_lt; [|lia]. destruct (decide (bitmap m = 0)) as [->|]; [done|].
        apply Z.log2_lt_pow2; lia.
      * rewrite length_app, length_take, length_cons, length_drop, rk_set, Hlen by done.
        destruct (Nat.ltb_spec i 16); lia.
    + intros j Hj. unfold lookup. cbn [bitmap values]. rewrite lor_mask_bit, rk_set by done.
      destruct (decide (i = j)) as [<-|Hne].
      * rewrite Nat.eqb_refl, orb_true_r, Nat.ltb_irrefl, Nat.add_0_r.
        rewrite lookup_app_r, length_take, Nat.min_l, Nat.sub_diag by (rewrite ?length_take; lia). done.
      * rewrite (proj2 (Nat.eqb_neq i j)), orb_false_r by done.
        destruct (Z.testbit (bitmap m) (Z.of_nat j)) eqn:E; [|done].
        destruct (Nat.ltb_spec i j).
        -- rewrite lookup_app_r, length_take, Nat.min_l by (rewrite ?length_take;
             pose proof (rk_mono (bitmap m) i j); lia).
           pose proof (rk_mono (bitmap m) i j). replace (rk (bitmap m) j + 1 - rk (bitmap m) i)%nat
             with (S (rk (bitmap m) j - rk (bitmap m) i)) by lia.
           rewrite lookup_cons, lookup_drop. f_equal. lia.
        -- pose proof (rk_lt (bitmap m) j i ltac:(lia)) as Hlt. rewrite E in Hlt.
           specialize (Hlt I). rewrite Nat.add_0_r, lookup_app_l by (rewrite length_take; lia).
           apply lookup_take_lt. lia.
Qed.
Lemma indices_lookup b i :
  (i < 16)%nat -> Z.testbit b (Z.of_nat i) -> indices b !! rk b i = Some (Z.of_nat i).
Proof.
  intros Hi Hb. unfold indices, CAPACITY.
  assert (seqZ 0 16 = Z.of_nat <$> seq 0 16) as -> by done.
  replace 16%nat with (i + (16 - i))%nat by lia. rewrite seq_app, fmap_app, List.filter_app.
  assert (forall n j, List.filter (fun index => negb (Z.land b (mask index) =? 0)) (Z.of_nat <$> seq j n) =
                      Z.of_nat <$> List.filter (fun j => Z.testbit b (Z.of_nat j)) (seq j n)) as Hf.
  { induction n as [|n IH]; intros j; [done|]. cbn [seq fmap list_fmap List.filter].
    rewrite land_mask, negb_involutive, IH. by destruct (Z.testbit b (Z.of_nat j)). }
  rewrite !Hf, lookup_app_r by (by rewrite length_fmap). rewrite length_fmap. fold (rk b i).
  rewrite Nat.sub_diag. replace (16 - i)%nat with (S (15 - i)) by lia. cbn. by destruct (Z.testbit _ _).
Qed.

Lemma indices_spec b r j :
  indices b !! r = Some j -> exists i, j = Z.of_nat i /\ (i < 16)%nat /\ Z.testbit b (Z.of_nat i) /\ rk b i = r.
Proof.
  intros Hr. pose proof (list_elem_of_lookup_2 _ _ _ Hr) as Hin.
  unfold indices, CAPACITY in Hin. apply list_elem_of_In, List.filter_In in Hin as [Hin Hb].
  apply list_elem_of_In, elem_of_seqZ in Hin. assert (j = Z.of_nat (Z.to_nat j)) as Hj by lia.
  rewrite Hj, land_mask, negb_involutive in Hb. exists (Z.to_nat j).
  assert (Z.to_nat j < 16)%nat as Hlt by lia.
  assert (Z.testbit b (Z.of_nat (Z.to_nat j))) as Hbit by (by rewrite Hb).
  split_and!; [done..|]. pose proof (indices_lookup b (Z.to_nat j) Hlt Hbit) as Hl.
  rewrite <- Hj in Hl. eapply NoDup_lookup; [|exact Hl|exact Hr].
  unfold indices. apply NoDup_ListNoDup, List.NoDup_filter, NoDup_ListNoDup, NoDup_seqZ.
Qed.

(** The entries of the iteration are the stored ones, in the order of the keys. *)
Lemma iter_lookup m (i : nat) v :
  wf m -> (Z.of_nat i, v) ∈ iter m <-> (i < 16)%nat /\ lookup m i = Some v.
Proof.
  intros Hm. unfold iter, lookup. rewrite list_elem_of_lookup. setoid_rewrite lookup_zip_with_Some. split.
  - intros (r & x & y & [= <- <-] & Hx & Hy). apply indices_spec in Hx as (j & Hj & Hlt & Hb & <-).
    apply Nat2Z.inj in Hj as ->. split; [done|]. by destruct (Z.testbit _ _).
  - intros [Hi Hl]. destruct (Z.testbit (bitmap m) (Z.of_nat i)) eqn:Hb; [|done].
    exists (rk (bitmap m) i), (Z.of_nat i), v. split_and!; [done| |done].
    apply indices_lookup; [done|by rewrite Hb].
Qed.

Lemma iter_keys m j v : (j, v) ∈ iter m -> exists i, j = Z.of_nat i /\ (i < 16)%nat.
Proof.
  unfold iter. rewrite list_elem_of_lookup. intros [r Hr].
  apply lookup_zip_with_Some in Hr as (x & y & [= <- <-] & Hx & _).
  apply indices_spec in Hx as (i & -> & Hi & _). by exists i.
Qed.

Lemma iter_NoDup m : NoDup (iter m).*1.
Proof.
  unfold iter. assert (forall (l : list Z) (k : list V), NoDup l -> NoDup (zip l k).*1) as H.
  { intros l k Hl. revert k. induction Hl as [|x l Hx Hl IH]; intros [|y k]; cbn; try constructor; [|apply IH].
    intros ((x', v) & -> & Hin)%list_elem_of_fmap. apply elem_of_zip_l in Hin. done. }
  apply H. unfold indices. apply NoDup_ListNoDup, List.NoDup_filter, NoDup_ListNoDup, NoDup_seqZ.
Qed.

Lemma last_spec m :
  wf m ->
  match last m with
  | None => forall i, (i < 16)%nat -> lookup m i = None
  | Some (j, v) => exists i, j = Z.of_nat i /\ (i < 16)%nat /\ lookup m i = Some v /\
      forall i', (i < i' < 16)%nat -> lookup m i' = None
  end.
Proof.
  intros Hm. pose proof (wf_values _ Hm) as Hlen. destruct (wf_bitmap _ Hm) as [Hb0 Hb1]. unfold last.
  assert (16 - leading_zeros_16 (bitmap m) =
            if (bitmap m =? 0)%Z then 0 else S (Z.to_nat (Z.log2 (bitmap m))))%nat as Hz.
  { unfold leading_zeros_16. destruct (Z.eqb_spec (bitmap m) 0); [done|].
    pose proof (Z.log2_lt_pow2 (bitmap m) 16). pose proof (Z.log2_nonneg (bitmap m)). lia. }
  rewrite Hz. destruct (Z.eqb_spec (bitmap m) 0) as [He|Hne]; cbn [Nat.ltb Nat.leb].
  { intros i _. unfold lookup. by rewrite He, Z.bits_0. }
  set (g := Z.to_nat (Z.log2 (bitmap m))) in *.
  assert (Z.of_nat g = Z.log2 (bitmap m)) as Hg by (pose proof (Z.log2_nonneg (bitmap m)); lia).
  assert (g < 16)%nat as Hg16 by (apply Z.log2_lt_pow2 in Hb1; lia).
  assert (Z.testbit (bitmap m) (Z.of_nat g) = true) as Hbit by (rewrite Hg; apply Z.bit_log2; lia).
  assert (forall i, (g < i)%nat -> Z.testbit (bitmap m) (Z.of_nat i) = false) as Habove.
  { intros i Hi. apply Z.bits_above_log2; lia. }
  assert (forall n, rk (bitmap m) (S g + n) = S (rk (bitmap m) g)) as Hrk.
  { induction n as [|n IH].
    - rewrite Nat.add_0_r, rk_S, Hbit. lia.
    - rewrite Nat.add_succ_r, rk_S, IH, Habove by lia. lia. }
  replace (16)%nat with (S g + (15 - g))%nat in Hlen by lia. rewrite Hrk in Hlen.
  rewrite last_lookup, Hlen. cbn [Nat.pred Nat.sub].
  destruct (lookup_lt_is_Some_2 (values m) (rk (bitmap m) g)) as [v Hv]; [lia|].
  rewrite Hv. cbn. rewrite Nat.sub_0_r. exists g. unfold lookup at 1. rewrite Hbit.
  split_and!; [done..|]. intros i Hi. unfold lookup. by rewrite Habove by lia.
Qed.
End Facts.
End SmallMapFacts.

(** ** Correctness of the merge *)

Section Merge.
Context {T : Type}.
Variable (part_count : nat) (part : nat -> nat).
Hypothesis part_lt : forall i, (part i < part_count)%nat.
Implicit Types items : list T.

(** The items that go to part [j], with their indices. *)
Definition part_of (start : nat) items (j : nat) : list (nat * T) :=
  List.filter (fun '(i, _) => (part i =? j)%nat) (zip (seq start (length items)) items).

Definition parts_of (start : nat) items : list (list (nat * T)) :=
  part_of start items <$> seq 0 part_count.

Lemma part_of_cons start x items j :
  part_of start (x :: items) j =
    if (part start =? j)%nat then (start, x) :: part_of (S start) items j else part_of (S start) items j.
Proof. done. Qed.

Lemma part_of_index start items j i x : (i, x) ∈ part_of start items j -> (start <= i)%nat.
Proof.
  unfold part_of. rewrite list_elem_of_In, List.filter_In, <- list_elem_of_In. intros [Hin _].
  apply elem_of_zip_l, elem_of_seq in Hin. lia.
Qed.

Lemma parts_of_lookup start items j : (j < part_count)%nat -> parts_of start items !! j = Some (part_of start items j).
Proof. intros Hj. unfold parts_of. rewrite list_lookup_fmap, lookup_seq_lt by done. done. Qed.

Lemma merge_next_parts start x items :
  merge_next (parts_of start (x :: items)) = Some ((part start, x), parts_of (S start) items).
Proof.
  unfold merge_next. set (l := parts_of start (x :: items)).
  pose proof (part_lt start) as Hlt.
  assert (l !! part start = Some ((start, x) :: part_of (S start) items (part start))) as Hl.
  { unfold l. rewrite parts_of_lookup by done. by rewrite part_of_cons, Nat.eqb_refl. }
  set (heads := omap _ _).
  assert (forall j i y, (j, (i, y)) ∈ heads -> (start <= i)%nat /\ (i = start -> j = part start)) as Hheads.
  { intros j i y (p & Hp & Hin)%list_elem_of_omap. destruct p as [j' it].
    apply list_elem_of_lookup in Hp as [n Hn]. apply list_lookup_imap_Some in Hn as (it' & Hit & [= <- <-]).
    destruct (head it) as [z|] eqn:Hh; [|done]. injection Hin as -> ->.
    destruct it as [|z' it]; [done|]. injection Hh as ->.
    unfold l, parts_of in Hit. apply list_lookup_fmap_Some in Hit as (j' & Heq & Hj').
    apply lookup_seq in Hj' as [-> _]. cbn [Nat.add] in Heq.
    assert ((i, y) ∈ part_of start (x :: items) j) as Hiy by (rewrite <- Heq; left).
    split; [by eapply part_of_index|]. intros ->. rewrite part_of_cons in Hiy.
    destruct (Nat.eqb_spec (part start) j) as [|Hne]; [done|]. apply part_of_index in Hiy. lia. }
  assert ((part start, (start, x)) ∈ heads) as Hin.
  { apply list_elem_of_omap. exists (part start, (start, x) :: part_of (S start) items (part start)).
    split; [|done]. apply list_elem_of_lookup. exists (part start). rewrite list_lookup_imap, Hl. done. }
  pose proof (min_by_key_spec (fun '(_, (idx, _)) => idx) heads) as Hmin.
  destruct (min_by_key _ heads) as [[j [i y]]|]; [|rewrite Hmin in Hin; by apply not_elem_of_nil in Hin].
  destruct Hmin as [Hj Hall]. rewrite Forall_forall in Hall. specialize (Hall _ Hin). cbn in Hall.
  destruct (Hheads _ _ _ Hj) as [Hi1 Hi2]. assert (j = part start) as -> by (apply Hi2; lia).
  cbn. rewrite Hl. cbn. do 2 f_equal. apply list_eq. intros n.
  destruct (decide (n < part_count)%nat) as [Hn|Hn].
  - rewrite parts_of_lookup by done. destruct (decide (n = part start)) as [->|Hne].
    + rewrite list_lookup_insert_eq; [done|]. by eapply lookup_lt_Some.
    + rewrite list_lookup_insert_ne by done. unfold l. rewrite parts_of_lookup by done.
      rewrite part_of_cons. destruct (Nat.eqb_spec (part start) n); [by subst|done].
  - rewrite !lookup_ge_None_2; [done|..]; unfold l, parts_of;
      rewrite ?length_insert, length_fmap, length_seq; lia.
Qed.

Lemma parts_of_total start items : sum_list (length <$> parts_of start items) = length items.
Proof.
  revert start. induction items as [|x items IH]; intros start.
  - unfold parts_of. induction (seq 0 part_count) as [|j l IH]; [done|]. apply IH.
  - cbn [length]. rewrite <- (IH (S start)). unfold parts_of.
    assert (forall l, NoDup l -> sum_list (length <$> (part_of start (x :: items) <$> l)) =
      (sum_list (length <$> (part_of (S start) items <$> l)) + if decide (part start ∈ l) then 1 else 0)%nat) as H.
    { induction 1 as [|j l Hj Hl IHl]; [done|]. rewrite !fmap_cons. cbn [sum_list]. rewrite IHl, part_of_cons. unfold id.
      destruct (Nat.eqb_spec (part start) j) as [->|Hne]; cbn [length].
      - rewrite (decide_False (P := j ∈ l)), (decide_True (P := j ∈ j :: l)) by (done || left). lia.
      - destruct (decide (part start ∈ l)), (decide (part start ∈ j :: l)) as [Hin|Hin]; try lia.
        + by destruct Hin; right.
        + apply elem_of_cons in Hin as [?|?]; done. }
    rewrite H by apply NoDup_seq. rewrite decide_True; [lia|]. apply elem_of_seq. pose proof (part_lt start). lia.
Qed.

(** Items distributed over parts are merged back in their order. *)
Lemma merge_collect_parts_of start items :
  merge_collect (length items) (parts_of start items) =
    zip_with (fun i x => (part i, x)) (seq start (length items)) items.
Proof.
  revert start. induction items as [|x items IH]; intros start; [done|].
  cbn [length merge_collect]. rewrite merge_next_parts, IH. done.
Qed.

Lemma merge_by_index_parts_of start items :
  merge_by_index (parts_of start items) =
    zip_with (fun i x => (part i, x)) (seq start (length items)) items.
Proof. unfold merge_by_index. rewrite parts_of_total. apply merge_collect_parts_of. Qed.
End Merge.
