(* ===== verification/TreeTypes.v ===== *)
(** * Nodes and keys of the state tree

    Model of [src/core/lib/merkle_tree/src/types/internal.rs] and [types/mod.rs]: nibble
    sequences that address nodes of the radix-16 tree, database keys of nodes, the nodes
    themselves and the entries and logs of the public interface.

    A nibble sequence of length [64 - h] is the path to a subtree of height [h] (in nibbles);
    [nib h p] is the sequence that leads to the keys whose quotient by [16 ^ h] is [p]. *)

From S2P Require Import Prelude Bytes Utils TreeUtils.
Open Scope Z_scope.

Definition KEY_SIZE : nat := 32.
Definition TREE_DEPTH : nat := 256.
Definition HASH_SIZE : nat := 32.

(** [bytes[i] = f(bytes[i])] *)
Definition update_byte (l : list Z) (i : nat) (f : Z -> Z) : outcome (list Z) :=
  b ← index_vec l i; Ret (<[i := f b]> l).

(** ** Nibbles *)

Record Nibbles := mkNibbles { nibble_count : nat; nibble_bytes : list Z }.

#[export] Instance Nibbles_eq_dec : EqDecision Nibbles.
Proof. solve_decision. Defined.

#[export] Instance Nibbles_countable : Countable Nibbles.
Proof.
  apply (inj_countable' (fun n => (nibble_count n, nibble_bytes n)) (fun p => mkNibbles p.1 p.2)).
  by intros [].
Defined.

(** [Nibbles::EMPTY] *)
Definition EMPTY : Nibbles := mkNibbles 0 (replicate KEY_SIZE 0).

(** The [i]-th 64-bit limb of a [U256], from the least significant one. *)
Definition u64_limb (key : Z) (i : nat) : Z := wrap 64 (Z.shiftr key (64 * Z.of_nat i)).

Definition nibble (key : Z) (index : nat) : outcome Z :=
  if (index <? 2 * KEY_SIZE)%nat then
    let u64_idx := (3 - index / 16)%nat in
    let shift_in_u64 := ((16 - 1 - index mod 16) * 4)%nat in
    Ret (Z.land (Z.shiftr (u64_limb key u64_idx) (Z.of_nat shift_in_u64)) 0x0f)
  else Panics "index out of bounds".

Definition nibbles_new (key : Z) (nibble_count : nat) : outcome Nibbles :=
  let bs := be_bytes KEY_SIZE key in
  bs ← (if (nibble_count mod 2 =? 1)%nat
        then update_byte bs (nibble_count / 2) (fun b => Z.land b 0xf0)
        else Ret bs);
  let meaningful_bytes := ((nibble_count + 1) / 2)%nat in
  Ret (mkNibbles nibble_count
         (take meaningful_bytes bs ++ replicate (length bs - meaningful_bytes) 0)).

Definition nibbles_from_parts (bs : list Z) (nibble_count : nat) : Nibbles :=
  mkNibbles nibble_count bs.

Definition nibbles_single (nibble : Z) : outcome Nibbles :=
  _ ← rust_assert (nibble <? 16) "assertion failed: nibble < 16";
  Ret (nibbles_from_parts (<[0%nat := wrap 8 (Z.shiftl nibble 4)]> (replicate KEY_SIZE 0)) 1).

Definition split_last (n : Nibbles) : outcome (option (Nibbles * Z)) :=
  if (nibble_count n =? 0)%nat then Ret None
  else
    let last_byte_idx := ((nibble_count n - 1) / 2)%nat in
    last_byte ← index_vec (nibble_bytes n) last_byte_idx;
    let '(truncated_byte, last_nibble) :=
      if (nibble_count n mod 2 =? 1)%nat then (0, Z.shiftr last_byte 4)
      else (Z.land last_byte 0xf0, Z.land last_byte 15) in
    Ret (Some (mkNibbles (nibble_count n - 1)
                 (<[last_byte_idx := truncated_byte]> (nibble_bytes n)), last_nibble)).

Definition nibbles_push (n : Nibbles) (nibble : Z) : outcome (option Nibbles) :=
  if (nibble_count n =? KEY_SIZE * 2)%nat then Ret None
  else
    let last_byte_idx := (nibble_count n / 2)%nat in
    bs ← update_byte (nibble_bytes n) last_byte_idx
           (fun b => if ((nibble_count n + 1) mod 2 =? 0)%nat then wrap 8 (b + nibble)
                     else wrap 8 (Z.shiftl nibble 4));
    Ret (Some (mkNibbles (nibble_count n + 1) bs)).

(** The loop of [common_prefix] over the byte index [i], with [remaining] bytes to go. *)
Fixpoint common_prefix_from (n other : Nibbles) (i remaining : nat) : outcome Nibbles :=
  match remaining with
  | O => Ret n
  | S remaining' =>
      this_byte ← index_vec (nibble_bytes n) i;
      other_byte ← index_vec (nibble_bytes other) i;
      if this_byte =? other_byte then common_prefix_from n other (S i) remaining'
      else if Z.land this_byte 0xf0 =? Z.land other_byte 0xf0 then
        Ret (mkNibbles (i * 2 + 1)
               (take i (nibble_bytes n) ++ [Z.land this_byte 0xf0] ++
                replicate (length (nibble_bytes n) - S i) 0))
      else
        Ret (mkNibbles (i * 2)
               (take i (nibble_bytes n) ++ replicate (length (nibble_bytes n) - i) 0))
  end.

Definition common_prefix (n other : Nibbles) : outcome Nibbles :=
  common_prefix_from n other 0 ((nibble_count n + 1) / 2).

(** ** Keys of nodes *)

Record NodeKey := { nk_version : Z; nk_nibbles : Nibbles }.

#[export] Instance NodeKey_eq_dec : EqDecision NodeKey.
Proof. solve_decision. Defined.

#[export] Instance NodeKey_countable : Countable NodeKey.
Proof.
  apply (inj_countable' (fun k => (nk_version k, nk_nibbles k))
           (fun p => {| nk_version := p.1; nk_nibbles := p.2 |})).
  by intros [].
Defined.

Definition with_version (n : Nibbles) (version : Z) : NodeKey :=
  {| nk_version := version; nk_nibbles := n |}.

(** [NodeKey::empty] *)
Definition node_key_empty (version : Z) : NodeKey := with_version EMPTY version.

Definition node_key_is_empty (k : NodeKey) : bool := (nibble_count (nk_nibbles k) =? 0)%nat.

(** [NodeKey::to_db_key]; [nibble_count as u8] truncates. *)
Definition to_db_key (k : NodeKey) : outcome (list Z) :=
  let n := nk_nibbles k in
  let nibbles_byte_len := ((nibble_count n + 1) / 2)%nat in
  _ ← rust_assert (nibbles_byte_len <=? length (nibble_bytes n))%nat
        "range end index out of range for slice";
  Ret (be_bytes 8 (nk_version k) ++ [wrap 8 (Z.of_nat (nibble_count n))] ++
       take nibbles_byte_len (nibble_bytes n)).

Definition from_db_key (bs : list Z) : outcome NodeKey :=
  _ ← rust_assert (9 <=? length bs)%nat "`NodeKey` is too short";
  let version := be_value (take 8 bs) in
  count ← index_vec bs 8;
  let nibble_count := Z.to_nat count in
  _ ← rust_assert (nibble_count <=? 2 * KEY_SIZE)%nat
        "assertion failed: nibble_count <= 2 * KEY_SIZE";
  let nibbles_byte_len := ((nibble_count + 1) / 2)%nat in
  _ ← rust_assert (nibbles_byte_len =? length bs - 9)%nat "assertion `left == right` failed";
  let nibbles := drop 9 bs ++ replicate (KEY_SIZE - nibbles_byte_len) 0 in
  Ret (with_version (nibbles_from_parts nibbles nibble_count) version).

(** [StaleNodeKey] *)
Record StaleNodeKey := { stale_key : NodeKey; replaced_in_version : Z }.

Definition stale_to_db_key (k : StaleNodeKey) : outcome (list Z) :=
  bs ← to_db_key (stale_key k); Ret (be_bytes 8 (replaced_in_version k) ++ bs).

(** ** Nodes *)

Record LeafNode := { full_key : Z; value_hash : Z; leaf_index : Z }.

Record ChildRef := { cr_hash : Z; cr_version : Z; is_leaf : bool }.

(** [ChildRef::leaf] and [ChildRef::internal] *)
Definition child_leaf (version : Z) : ChildRef :=
  {| cr_hash := 0; cr_version := version; is_leaf := true |}.

Definition child_internal (version : Z) : ChildRef :=
  {| cr_hash := 0; cr_version := version; is_leaf := false |}.

(** Cached hashes of the binary levels inside an internal node. *)
Record InternalNodeCache := {
  level1 : list (option Z);
  level2 : list (option Z);
  level3 : list (option Z);
}.

Record InternalNode := {
  children : SmallMap.t ChildRef;
  node_cache : option InternalNodeCache;
}.

(** [InternalNode::default] and [InternalNode::clone], which drops the cache. *)
Definition internal_default : InternalNode :=
  {| children := SmallMap.default; node_cache := None |}.

Definition internal_clone (node : InternalNode) : InternalNode :=
  {| children := children node; node_cache := None |}.

Definition internal_with_capacity (capacity : nat) : outcome InternalNode :=
  children ← SmallMap.with_capacity capacity; Ret {| children := children; node_cache := None |}.

Definition child_count (node : InternalNode) : nat := SmallMap.len (children node).

Definition last_child_ref (node : InternalNode) : outcome (Z * ChildRef) :=
  expect (SmallMap.last (children node)) "called `Option::unwrap()` on a `None` value".

Definition child_ref (node : InternalNode) (nibble : Z) : outcome (option ChildRef) :=
  SmallMap.get (children node) nibble.

(** [child_ref_mut(nibble)] followed by an assignment through the reference. *)
Definition modify_child_ref (node : InternalNode) (nibble : Z) (f : ChildRef -> ChildRef) :
    outcome (InternalNode * bool) :=
  '(children, present) ← SmallMap.modify (children node) nibble f;
  Ret ({| children := children; node_cache := node_cache node |}, present).

Definition insert_child_ref (node : InternalNode) (nibble : Z) (c : ChildRef) :
    outcome InternalNode :=
  children ← SmallMap.insert (children node) nibble c;
  Ret {| children := children; node_cache := node_cache node |}.

Definition set_cache (node : InternalNode) (c : InternalNodeCache) : InternalNode :=
  {| children := children node; node_cache := Some c |}.

Definition child_hashes (node : InternalNode) : list (option Z) :=
  foldl (fun hashes '(nibble, c) => <[Z.to_nat nibble := Some (cr_hash c)]> hashes)
    (replicate 16 None) (SmallMap.iter (children node)).

Inductive Node : Type :=
| Internal (node : InternalNode)
| Leaf (leaf : LeafNode).

Inductive Root : Type :=
| RootEmpty
| RootFilled (leaf_count : Z) (node : Node).

(** [Root::new]; the count is a [NonZeroU64]. *)
Definition root_new (leaf_count : Z) (node : Node) : outcome Root :=
  if leaf_count =? 0 then Panics "called `Option::unwrap()` on a `None` value"
  else Ret (RootFilled leaf_count node).

Definition root_leaf_count (r : Root) : Z :=
  match r with
  | RootEmpty => 0
  | RootFilled leaf_count _ => leaf_count
  end.

(** ** Entries and logs *)

Record TreeEntry := { te_key : Z; te_value : Z; te_leaf_index : Z }.

Inductive TreeInstruction : Type :=
| TRead (key : Z)
| TWrite (entry : TreeEntry).

Definition instruction_key (i : TreeInstruction) : Z :=
  match i with
  | TRead key => key
  | TWrite entry => te_key entry
  end.

Definition entry_new (key leaf_index value : Z) : TreeEntry :=
  {| te_key := key; te_value := value; te_leaf_index := leaf_index |}.

Definition entry_empty (key : Z) : TreeEntry :=
  {| te_key := key; te_value := 0; te_leaf_index := 0 |}.

Definition entry_is_empty (e : TreeEntry) : bool := (te_leaf_index e =? 0) && (te_value e =? 0).

(** [TreeEntry::from(LeafNode)] *)
Definition entry_from_leaf (l : LeafNode) : TreeEntry :=
  {| te_key := full_key l; te_value := value_hash l; te_leaf_index := leaf_index l |}.

(** [LeafNode::new] and [LeafNode::update_from] *)
Definition leaf_new (entry : TreeEntry) : LeafNode :=
  {| full_key := te_key entry; value_hash := te_value entry; leaf_index := te_leaf_index entry |}.

Definition leaf_update_from (l : LeafNode) (entry : TreeEntry) : LeafNode :=
  {| full_key := full_key l; value_hash := te_value entry; leaf_index := te_leaf_index entry |}.

Inductive TreeLogEntry : Type :=
| Inserted
| Updated (leaf_index previous_value : Z)
| LogRead (leaf_index value : Z)
| ReadMissingKey.

#[export] Instance TreeLogEntry_eq_dec : EqDecision TreeLogEntry.
Proof. solve_decision. Defined.

Definition log_is_read (l : TreeLogEntry) : bool :=
  match l with
  | LogRead _ _ | ReadMissingKey => true
  | _ => false
  end.

Record TreeEntryWithProof := { base : TreeEntry; merkle_path : list Z }.

Record BlockOutput := { root_hash : Z; leaf_count : Z; logs : list TreeLogEntry }.

Record TreeLogEntryWithProof (P : Type) := {
  log_base : TreeLogEntry;
  log_path : P;
  log_root_hash : Z;
}.
#[global] Arguments log_base {P} _.
#[global] Arguments log_path {P} _.
#[global] Arguments log_root_hash {P} _.

Record BlockOutputWithProofs := {
  proof_logs : list (TreeLogEntryWithProof (list Z));
  proof_leaf_count : Z;
}.

(** [BlockOutputWithProofs::root_hash] *)
Definition output_root_hash (o : BlockOutputWithProofs) : option Z :=
  log_root_hash <$> last (proof_logs o).

(** ** Tags and manifest *)

Record TreeTags := {
  architecture : string;
  depth : Z;
  hasher : string;
  is_recovering : bool;
  custom : gmap string string;
}.

Definition ARCHITECTURE : string := "AR16MT".

(** [TreeTags::new] and [ensure_consistency], given the name of the hasher. *)
Definition tags_new (hasher_name : string) : TreeTags :=
  {| architecture := ARCHITECTURE; depth := Z.of_nat TREE_DEPTH; hasher := hasher_name;
     is_recovering := false; custom := ∅ |}.

Definition ensure_consistency (t : TreeTags) (hasher_name : string) (expecting_recovery : bool) :
    result unit string :=
  if negb (bool_decide (architecture t = ARCHITECTURE)) then Err "Unsupported tree architecture"
  else if negb (depth t =? Z.of_nat TREE_DEPTH) then Err "Unexpected tree depth"
  else if negb (bool_decide (hasher_name = hasher t)) then
    Err "Mismatch between the provided tree hasher and the hasher used in the database"
  else if expecting_recovery then
    if is_recovering t then Ok tt
    else Err "Tree is expected to be in the process of recovery, but it is not"
  else if negb (is_recovering t) then Ok tt
  else Err "Tree is being recovered; cannot access it until recovery finishes".

Record Manifest := { version_count : Z; tags : option TreeTags }.

Definition manifest_default : Manifest := {| version_count := 0; tags := None |}.

Definition recovered_version (m : Manifest) : option Z :=
  t ← tags m;
  if is_recovering t then (if 1 <=? version_count m then Some (version_count m - 1) else None)
  else None.

(** ** Positions in the tree *)

Definition pow16 (h : nat) : Z := 16 ^ Z.of_nat h.

(** The nibble of a key that selects a subtree of height [h] of the subtree above it. *)
Definition digit (k : Z) (h : nat) : Z := (k / pow16 h) mod 16.

(** The path to the keys whose quotient by [16 ^ h] is [p]. *)
Definition nib (h : nat) (p : Z) : Nibbles := mkNibbles (64 - h) (be_bytes KEY_SIZE (p * pow16 h)).

Lemma pow16_pos h : 0 < pow16 h.
Proof. unfold pow16. lia. Qed.

Lemma pow16_S h : pow16 (S h) = 16 * pow16 h.
Proof. unfold pow16. by rewrite Nat2Z.inj_succ, Z.pow_succ_r by lia. Qed.

Lemma pow16_add a b : pow16 (a + b) = pow16 a * pow16 b.
Proof. unfold pow16. by rewrite Nat2Z.inj_add, Z.pow_add_r by lia. Qed.

Lemma pow16_double m : pow16 (2 * m) = 256 ^ Z.of_nat m.
Proof. unfold pow16. rewrite Nat2Z.inj_mul, Z.pow_mul_r by lia. done. Qed.

Lemma pow16_64 : pow16 64 = 2 ^ 256.
Proof. done. Qed.

Lemma pow16_2 h : pow16 h = 2 ^ (4 * Z.of_nat h).
Proof. unfold pow16. by rewrite Z.pow_mul_r by lia. Qed.

Lemma digit_range k h : 0 <= digit k h < 16.
Proof. apply Z.mod_pos_bound. lia. Qed.

Lemma div_pow16_S k h : k / pow16 (S h) = k / pow16 h / 16.
Proof. rewrite pow16_S, Z.mul_comm, Z.div_div; [done|pose proof (pow16_pos h); lia|lia]. Qed.

Lemma div_pow16_add k a b : k / pow16 (a + b) = k / pow16 a / pow16 b.
Proof. rewrite pow16_add, Z.div_div; [done|pose proof (pow16_pos a); lia|apply pow16_pos]. Qed.

Lemma div_pow16_digit k h : k / pow16 h = 16 * (k / pow16 (S h)) + digit k h.
Proof. rewrite div_pow16_S. apply Z.div_mod. lia. Qed.

Lemma div_pow16_range k h :
  (h <= 64)%nat -> unsigned 256 k -> 0 <= k / pow16 h < pow16 (64 - h).
Proof.
  intros Hh [Hk1 Hk2]. rewrite <- pow16_64 in Hk2. pose proof (pow16_pos h).
  split; [by apply Z.div_pos|]. apply Z.div_lt_upper_bound; [done|].
  rewrite <- pow16_add. by replace (h + (64 - h))%nat with 64%nat by lia.
Qed.

Lemma div_pow16_64 k : unsigned 256 k -> k / pow16 64 = 0.
Proof. intros Hk. apply Z.div_small. by rewrite pow16_64. Qed.

Lemma nib_EMPTY : nib 64 0 = EMPTY.
Proof. unfold nib, EMPTY. by rewrite Z.mul_0_l, be_bytes_0. Qed.

Lemma shift_mod_small x a s b :
  0 <= s -> 0 <= b -> s + b <= a -> ((x mod 2 ^ a) / 2 ^ s) mod 2 ^ b = (x / 2 ^ s) mod 2 ^ b.
Proof.
  intros Hs Hb Ha. apply Z.bits_inj'. intros i Hi.
  destruct (Z.lt_ge_cases i b).
  - rewrite !Z.mod_pow2_bits_low, !Z.div_pow2_bits, Z.mod_pow2_bits_low by lia. done.
  - by rewrite !Z.mod_pow2_bits_high by lia.
Qed.

Lemma nibble_digit k i :
  (i < 64)%nat -> nibble k i = Ret (digit k (63 - i)).
Proof.
  intros Hi. unfold nibble. change (2 * KEY_SIZE)%nat with 64%nat.
  destruct (Nat.ltb_spec i 64); [|lia]. f_equal. unfold u64_limb, wrap, digit.
  change 15 with (Z.ones 4). rewrite Z.land_ones, !Z.shiftr_div_pow2 by lia.
  rewrite shift_mod_small by div_lia. rewrite Z.div_div by lia.
  rewrite <- Z.pow_add_r by lia. f_equal. f_equal. rewrite pow16_2. f_equal. div_lia.
Qed.

(** *** Bytes of a path *)

Lemma byte_split b : byte b -> b = 16 * (b / 16) + b mod 16 /\ 0 <= b / 16 < 16.
Proof. unfold byte. intros Hb. split; [apply Z.div_mod; lia|div_lia]. Qed.

Lemma land_f0 b : byte b -> Z.land b 0xf0 = b / 16 * 16.
Proof.
  unfold byte. intros Hb. change 0xf0 with (Z.shiftl (Z.ones 4) 4).
  replace (b / 16 * 16) with (Z.shiftl (Z.shiftr b 4) 4)
    by (rewrite Z.shiftl_mul_pow2, Z.shiftr_div_pow2 by lia; done).
  apply Z.bits_inj'. intros i Hi.
  rewrite Z.land_spec. destruct (Z.lt_ge_cases i 4).
  - rewrite !(Z.shiftl_spec_low _ 4) by lia. by rewrite andb_false_r.
  - rewrite !Z.shiftl_spec, Z.shiftr_spec by lia. replace (i - 4 + 4) with i by lia.
    destruct (Z.lt_ge_cases (i - 4) 4).
    + rewrite Z.ones_spec_low by lia. by rewrite andb_true_r.
    + rewrite Z.ones_spec_high, andb_false_r by lia. symmetry.
      destruct (decide (b = 0)) as [->|]; [by rewrite Z.bits_0|].
      apply Z.bits_above_log2; [lia|]. apply Z.log2_lt_pow2; [lia|].
      eapply Z.lt_le_trans; [apply Hb|]. change 256 with (2 ^ 8). apply Z.pow_le_mono_r; lia.
Qed.

Lemma land_0f b : Z.land b 15 = b mod 16.
Proof. change 15 with (Z.ones 4). by rewrite Z.land_ones by lia. Qed.

Lemma be_bytes_1 b : byte b -> be_bytes 1 b = [b].
Proof.
  intros Hb. rewrite <- (be_bytes_be_value [b]) by (constructor; [done|constructor]).
  cbn [length]. rewrite be_value_cons, be_value_nil. f_equal. cbn [length]. lia.
Qed.

(** An even number of nibbles fills whole bytes, an odd number leaves a half. *)
Lemma path_bytes_even m p :
  (m <= 32)%nat -> be_bytes 32 (p * pow16 (2 * m)) = be_bytes (32 - m) p ++ replicate m 0.
Proof.
  intros Hm. rewrite pow16_double. rewrite <- (Z.add_0_r (p * _)).
  replace 32%nat with ((32 - m) + m)%nat at 1 by lia.
  rewrite be_bytes_app by lia. by rewrite be_bytes_0.
Qed.

Lemma path_bytes_odd m p :
  (m < 32)%nat ->
  be_bytes 32 (p * pow16 (S (2 * m))) =
    be_bytes (31 - m) (p / 16) ++ (p mod 16 * 16) :: replicate m 0.
Proof.
  intros Hm. replace (p * pow16 (S (2 * m))) with ((p / 16 * 256 + p mod 16 * 16) * pow16 (2 * m)).
  2:{ rewrite pow16_S. pose proof (Z.div_mod p 16). nia. }
  pose proof (Z.mod_pos_bound p 16 ltac:(lia)) as Hr.
  rewrite path_bytes_even by lia. change 256 with (256 ^ Z.of_nat 1).
  replace (32 - m)%nat with ((31 - m) + 1)%nat by lia.
  rewrite be_bytes_app by lia. rewrite be_bytes_1 by (unfold byte; lia).
  by rewrite <- app_assoc.
Qed.

Lemma even_or_odd h : exists m, h = (2 * m)%nat \/ h = S (2 * m).
Proof. destruct (Nat.Even_or_Odd h) as [[m ->]|[m ->]]; exists m; [by left|right; lia]. Qed.

(** The two cases of a path: whole bytes, or a half byte at index [31 - m]. *)
Lemma nib_even m p :
  (m <= 32)%nat -> nib (2 * m) p = mkNibbles (2 * (32 - m)) (be_bytes (32 - m) p ++ replicate m 0).
Proof. intros Hm. unfold nib, KEY_SIZE. rewrite path_bytes_even by done. f_equal. lia. Qed.

Lemma nib_odd m p :
  (m < 32)%nat ->
  nib (S (2 * m)) p =
    mkNibbles (S (2 * (31 - m))) (be_bytes (31 - m) (p / 16) ++ (p mod 16 * 16) :: replicate m 0).
Proof. intros Hm. unfold nib, KEY_SIZE. rewrite path_bytes_odd by done. f_equal. lia. Qed.

Lemma be_bytes_split m k :
  (m <= 32)%nat -> be_bytes 32 k = be_bytes (32 - m) (k / pow16 (2 * m)) ++ be_bytes m k.
Proof.
  intros Hm. rewrite pow16_double.
  rewrite (Z.div_mod k (256 ^ Z.of_nat m)) at 1 by lia.
  replace 32%nat with ((32 - m) + m)%nat at 1 by lia.
  rewrite (Z.mul_comm (256 ^ _)), be_bytes_app by (apply Z.mod_pos_bound; lia). f_equal.
  rewrite (Z.div_mod k (256 ^ Z.of_nat m)) at 2 by lia.
  by rewrite (Z.mul_comm (256 ^ _)), be_bytes_add_high.
Qed.

Lemma be_bytes_split_byte m k :
  (m < 32)%nat ->
  be_bytes 32 k =
    be_bytes (31 - m) (k / pow16 (S (S (2 * m)))) ++ ((k / pow16 (2 * m)) mod 256) :: be_bytes m k.
Proof.
  intros Hm. rewrite (be_bytes_split m) by lia. rewrite !div_pow16_S, Z.div_div by lia.
  change (16 * 16) with 256. set (q := k / pow16 (2 * m)).
  rewrite (Z.div_mod q 256) at 1 by lia. replace (32 - m)%nat with ((31 - m) + 1)%nat by lia.
  rewrite (Z.mul_comm 256). change 256 with (256 ^ Z.of_nat 1) at 2 3.
  rewrite be_bytes_app by (apply Z.mod_pos_bound; lia).
  rewrite be_bytes_1 by (apply Z.mod_pos_bound; lia). by rewrite <- app_assoc.
Qed.

Lemma byte_mod k : byte (k mod 256).
Proof. apply Z.mod_pos_bound. lia. Qed.

Lemma index_vec_app {A} (l1 : list A) x l2 i :
  i = length l1 -> index_vec (l1 ++ x :: l2) i = Ret x.
Proof. intros ->. apply index_vec_Ret. by apply list_lookup_middle. Qed.

Lemma insert_app_middle {A} (l1 : list A) x y l2 i :
  i = length l1 -> <[i := y]> (l1 ++ x :: l2) = l1 ++ y :: l2.
Proof. intros ->. rewrite insert_app_r_alt by lia. by rewrite Nat.sub_diag. Qed.

Lemma nibbles_new_nib k h : (h <= 64)%nat -> nibbles_new k (64 - h) = Ret (nib h (k / pow16 h)).
Proof.
  intros Hh. unfold nibbles_new, KEY_SIZE. destruct (even_or_odd h) as [m [->| ->]].
  - rewrite nib_even by lia. replace (64 - 2 * m)%nat with (2 * (32 - m))%nat by lia.
    replace ((2 * (32 - m)) mod 2)%nat with 0%nat by div_lia. cbn [Nat.eqb].
    rewrite outcome_Ret_bind. do 2 f_equal. rewrite be_bytes_length.
    replace ((2 * (32 - m) + 1) / 2)%nat with (32 - m)%nat by div_lia.
    rewrite (be_bytes_split m) by lia.
    rewrite take_app_length' by (symmetry; apply be_bytes_length). do 2 f_equal. lia.
  - rewrite nib_odd by lia. replace (64 - S (2 * m))%nat with (S (2 * (31 - m))) by lia.
    replace (S (2 * (31 - m)) mod 2)%nat with 1%nat by div_lia. cbn [Nat.eqb].
    replace (S (2 * (31 - m)) / 2)%nat with (31 - m)%nat by div_lia.
    rewrite (be_bytes_split_byte m) by lia. unfold update_byte.
    rewrite index_vec_app, outcome_Ret_bind by (symmetry; apply be_bytes_length).
    rewrite insert_app_middle, outcome_Ret_bind by (symmetry; apply be_bytes_length).
    do 2 f_equal. replace ((S (2 * (31 - m)) + 1) / 2)%nat with (S (31 - m)) by div_lia.
    rewrite land_f0 by apply byte_mod. rewrite <- div_pow16_S.
    rewrite length_app, length_cons, !be_bytes_length.
    rewrite take_app_ge by (rewrite be_bytes_length; lia). rewrite be_bytes_length.
    replace (S (31 - m) - (31 - m))%nat with 1%nat by lia. cbn [take].
    rewrite <- app_assoc. rewrite take_0. cbn [app]. do 2 f_equal; [|f_equal; lia].
    rewrite div_pow16_S. generalize (k / pow16 (2 * m)). intros q. f_equal. div_lia.
Qed.

Lemma split_last_nib h p :
  (h < 64)%nat -> 0 <= p -> split_last (nib h p) = Ret (Some (nib (S h) (p / 16), p mod 16)).
Proof.
  intros Hh Hp. unfold split_last. destruct (even_or_odd h) as [m [->| ->]].
  - rewrite nib_even, nib_odd by lia. cbn [nibble_count nibble_bytes].
    destruct (Nat.eqb_spec (2 * (32 - m)) 0); [lia|].
    replace ((2 * (32 - m) - 1) / 2)%nat with (31 - m)%nat by div_lia.
    replace ((2 * (32 - m)) mod 2)%nat with 0%nat by div_lia. cbn [Nat.eqb].
    assert (be_bytes (32 - m) p = be_bytes (31 - m) (p / 256) ++ [p mod 256]) as ->.
    { replace (32 - m)%nat with ((31 - m) + 1)%nat by lia. rewrite (Z.div_mod p 256) at 1 by lia.
      rewrite (Z.mul_comm 256). change 256 with (256 ^ Z.of_nat 1) at 2.
      rewrite be_bytes_app by (apply Z.mod_pos_bound; lia).
      by rewrite be_bytes_1 by (apply Z.mod_pos_bound; lia). }
    rewrite <- app_assoc. cbn [app].
    rewrite index_vec_app, outcome_Ret_bind by (symmetry; apply be_bytes_length).
    rewrite insert_app_middle by (symmetry; apply be_bytes_length).
    rewrite land_f0, land_0f by apply byte_mod. rewrite Z.div_div by lia. change (16 * 16) with 256.
    f_equal. f_equal. f_equal; [|div_lia]. f_equal; [lia|]. do 2 f_equal. f_equal. div_lia.
  - rewrite nib_odd by lia. replace (S (S (2 * m))) with (2 * S m)%nat by lia.
    rewrite nib_even by lia. cbn [nibble_count nibble_bytes].
    destruct (Nat.eqb_spec (S (2 * (31 - m))) 0); [lia|].
    replace ((S (2 * (31 - m)) - 1) / 2)%nat with (31 - m)%nat by div_lia.
    replace (S (2 * (31 - m)) mod 2)%nat with 1%nat by div_lia. cbn [Nat.eqb].
    rewrite index_vec_app, outcome_Ret_bind by (symmetry; apply be_bytes_length).
    rewrite insert_app_middle by (symmetry; apply be_bytes_length).
    rewrite Z.shiftr_div_pow2 by lia. do 2 f_equal. f_equal.
    + f_equal. lia.
    + change (2 ^ 4) with 16. by rewrite Z.div_mul by lia.
Qed.

Lemma nibbles_push_nib h p x :
  (h < 64)%nat -> 0 <= p -> 0 <= x < 16 -> nibbles_push (nib (S h) p) x = Ret (Some (nib h (16 * p + x))).
Proof.
  intros Hh Hp Hx. unfold nibbles_push, update_byte. destruct (even_or_odd h) as [m [->| ->]].
  - rewrite nib_even, nib_odd by lia. cbn [nibble_count nibble_bytes].
    destruct (Nat.eqb_spec (S (2 * (31 - m))) (KEY_SIZE * 2)); [unfold KEY_SIZE in *; lia|].
    replace (S (2 * (31 - m)) / 2)%nat with (31 - m)%nat by div_lia.
    replace ((S (2 * (31 - m)) + 1) mod 2)%nat with 0%nat by div_lia. cbn [Nat.eqb].
    rewrite index_vec_app, outcome_Ret_bind by (symmetry; apply be_bytes_length).
    rewrite insert_app_middle, outcome_Ret_bind by (symmetry; apply be_bytes_length).
    pose proof (Z.mod_pos_bound p 16 ltac:(lia)) as Hr.
    rewrite wrap_small by (unfold unsigned; lia). do 2 f_equal. f_equal; [lia|].
    replace (32 - m)%nat with ((31 - m) + 1)%nat by lia.
    replace (16 * p + x) with (p / 16 * 256 ^ Z.of_nat 1 + (p mod 16 * 16 + x)) by (cbn; div_lia).
    rewrite be_bytes_app by lia. rewrite be_bytes_1 by (unfold byte; lia). by rewrite <- app_assoc.
  - replace (S (S (2 * m))) with (2 * S m)%nat by lia. rewrite nib_odd, nib_even by lia.
    cbn [nibble_count nibble_bytes].
    destruct (Nat.eqb_spec (2 * (32 - S m)) (KEY_SIZE * 2)); [unfold KEY_SIZE in *; lia|].
    replace ((2 * (32 - S m)) / 2)%nat with (31 - m)%nat by div_lia.
    replace ((2 * (32 - S m) + 1) mod 2)%nat with 1%nat by div_lia. cbn [Nat.eqb replicate].
    rewrite index_vec_app, outcome_Ret_bind by (symmetry; apply be_bytes_length).
    rewrite insert_app_middle, outcome_Ret_bind by (symmetry; apply be_bytes_length).
    rewrite Z.shiftl_mul_pow2 by lia. change (2 ^ 4) with 16.
    rewrite wrap_small by (unfold unsigned; lia). do 2 f_equal. f_equal; [lia|].
    replace ((16 * p + x) / 16) with p by div_lia. replace ((16 * p + x) mod 16) with x by div_lia.
    done.
Qed.

Lemma nib_inj h p q :
  (h <= 64)%nat -> 0 <= p < pow16 (64 - h) -> 0 <= q < pow16 (64 - h) ->
  nibble_bytes (nib h p) = nibble_bytes (nib h q) -> p = q.
Proof.
  intros Hh Hp Hq Heq. cbn in Heq. pose proof (pow16_pos h).
  assert (forall r, 0 <= r < pow16 (64 - h) -> 0 <= r * pow16 h < 256 ^ Z.of_nat KEY_SIZE) as Hb.
  { intros r Hr. replace (256 ^ Z.of_nat KEY_SIZE) with (pow16 (64 - h) * pow16 h); [nia|].
    rewrite <- pow16_add. by replace (64 - h + h)%nat with 64%nat by lia. }
  apply (f_equal be_value) in Heq. rewrite !be_value_be_bytes in Heq by auto. nia.
Qed.

Lemma nibbles_single_nib x : 0 <= x < 16 -> nibbles_single x = Ret (nib 63 x).
Proof.
  intros Hx. unfold nibbles_single. rewrite rust_assert_true by lia. rewrite outcome_Ret_bind.
  change 63%nat with (S (2 * 31)). rewrite nib_odd by lia. f_equal. unfold nibbles_from_parts. f_equal.
  rewrite Z.shiftl_mul_pow2 by lia. change (2 ^ 4) with 16.
  rewrite wrap_small by (unfold unsigned; lia). rewrite Z.mod_small by lia. done.
Qed.

(** *** Common prefixes *)

Lemma byte_high_nibble k m : ((k / pow16 (2 * m)) mod 256) / 16 = (k / pow16 (S (2 * m))) mod 16.
Proof. rewrite div_pow16_S. generalize (k / pow16 (2 * m)). intros. div_lia. Qed.

Lemma path_bytes_take m k : (m <= 32)%nat -> take (32 - m) (be_bytes 32 k) = be_bytes (32 - m) (k / pow16 (2 * m)).
Proof.
  intros Hm. rewrite (be_bytes_split m) by done. by rewrite take_app_length' by (by rewrite be_bytes_length).
Qed.

Lemma be_bytes_eq_div m k k' :
  (m <= 32)%nat -> unsigned 256 k -> unsigned 256 k' ->
  take (32 - m) (be_bytes 32 k) = take (32 - m) (be_bytes 32 k') ->
  k / pow16 (2 * m) = k' / pow16 (2 * m).
Proof.
  intros Hm Hk Hk' Heq. rewrite !path_bytes_take in Heq by done. apply (f_equal be_value) in Heq.
  assert (forall x, unsigned 256 x -> 0 <= x / pow16 (2 * m) < 256 ^ Z.of_nat (32 - m)) as Hb.
  { intros x Hx. rewrite <- pow16_double. replace (2 * (32 - m))%nat with (64 - 2 * m)%nat by lia.
    apply div_pow16_range; [lia|done]. }
  by rewrite !be_value_be_bytes in Heq by auto.
Qed.

Lemma path_div h h' p : (h <= h')%nat -> p * pow16 h / pow16 h' = p / pow16 (h' - h).
Proof.
  intros Hh. replace h' with ((h' - h) + h)%nat at 1 by lia. pose proof (pow16_pos (h' - h)).
  pose proof (pow16_pos h). rewrite pow16_add, Z.div_mul_cancel_r by lia. done.
Qed.

Lemma common_prefix_from_nib h p q i remaining :
  (h <= 64)%nat -> 0 <= p < pow16 (64 - h) -> 0 <= q < pow16 (64 - h) ->
  (i + remaining = (64 - h + 1) / 2)%nat ->
  take i (nibble_bytes (nib h p)) = take i (nibble_bytes (nib h q)) ->
  exists h', (h <= h' <= 64)%nat /\
    common_prefix_from (nib h p) (nib h q) i remaining = Ret (nib h' (p / pow16 (h' - h))) /\
    p / pow16 (h' - h) = q / pow16 (h' - h).
Proof.
  intros Hh Hp Hq. revert i. pose proof (pow16_pos h) as Hpos.
  assert (forall r, 0 <= r < pow16 (64 - h) -> unsigned 256 (r * pow16 h)) as Hu.
  { intros r Hr. unfold unsigned. rewrite <- pow16_64.
    replace 64%nat with ((64 - h) + h)%nat by lia. rewrite pow16_add. nia. }
  assert (forall i, nibble_bytes (nib h i) = be_bytes 32 (i * pow16 h)) as Hbytes by done.
  induction remaining as [|remaining IH]; intros i Hi Heq; cbn [common_prefix_from].
  - exists h. rewrite Nat.sub_diag. change (pow16 0) with 1. rewrite !Z.div_1_r.
    split; [clear -Hh; lia|]. split; [done|]. apply (nib_inj h); [done..|].
    assert (be_bytes (32 - i) 0 = replicate (32 - i) 0) as Hz by apply be_bytes_0.
    destruct (even_or_odd h) as [m [->| ->]].
    + rewrite !nib_even in * by (clear -Hi Hh; div_lia). cbn [nibble_bytes] in *.
      rewrite !take_app_length' in Heq by (rewrite be_bytes_length; clear -Hi Hh; div_lia). by rewrite Heq.
    + rewrite !nib_odd in * by (clear -Hi Hh; div_lia). cbn [nibble_bytes] in *.
      assert (i = S (31 - m)) as -> by (clear -Hi Hh; div_lia).
      rewrite !take_app_ge, !be_bytes_length in Heq by (rewrite be_bytes_length; clear; lia).
      replace (S (31 - m) - (31 - m))%nat with 1%nat in Heq by (clear; lia). cbn [take] in Heq.
      by apply app_inj_tail in Heq as [-> ->].
  - assert (2 * i + 1 <= 64 - h)%nat as Hib by (clear -Hi; div_lia).
    set (P := p * pow16 h) in *. set (Q := q * pow16 h) in *.
    assert (exists m, i = 31 - m /\ m < 32)%nat as (m & Him & Hm)
      by (clear -Hib; exists (31 - i)%nat; lia).
    rewrite !Hbytes in *. fold P Q in Heq |- *.
    assert (P / pow16 (S (S (2 * m))) = Q / pow16 (S (S (2 * m)))) as Htop.
    { replace (S (S (2 * m))) with (2 * S m)%nat by (clear; lia). apply be_bytes_eq_div; [clear -Hm; lia|by apply Hu..|].
      by replace (32 - S m)%nat with i by (clear -Him Hm; lia). }
    assert (forall k, be_bytes 32 k = be_bytes i (k / pow16 (S (S (2 * m)))) ++
              (k / pow16 (2 * m)) mod 256 :: be_bytes m k) as Hsplit.
    { intros k. rewrite Him. by apply be_bytes_split_byte. }
    rewrite (Hsplit P), (Hsplit Q), !index_vec_app, !outcome_Ret_bind by (by rewrite be_bytes_length).
    set (bp := (P / pow16 (2 * m)) mod 256). set (bq := (Q / pow16 (2 * m)) mod 256).
    destruct (Z.eqb_spec bp bq) as [Hb|Hb].
    + apply IH; [clear -Hi; lia|]. fold P Q. rewrite (Hsplit P), (Hsplit Q).
      rewrite !take_app_ge, !be_bytes_length by (rewrite be_bytes_length; clear; lia).
      replace (S i - i)%nat with 1%nat by (clear; lia). cbn [take]. fold bp bq. by rewrite Hb, Htop, !take_0.
    + rewrite length_app, length_cons, !be_bytes_length.
      rewrite !take_app_length' by (by rewrite be_bytes_length).
      assert (forall k, byte ((k / pow16 (2 * m)) mod 256)) as Hbyte by (intros; apply byte_mod).
      rewrite !land_f0 by apply Hbyte.
      assert (forall k, ((k / pow16 (2 * m)) mod 256) / 16 = (k / pow16 (S (2 * m))) mod 16) as Hnib.
      { intros k. apply byte_high_nibble. }
      destruct (Z.eqb_spec (bp / 16 * 16) (bq / 16 * 16)) as [Hn|Hn].
      * exists (S (2 * m)). split; [clear -Hib Hh Him Hm; lia|]. rewrite <- !path_div by (clear -Hib Him Hm; lia). fold P Q. split.
        -- rewrite nib_odd by (clear -Hm; lia). f_equal. f_equal; [clear -Him Hm; lia|]. rewrite <- div_pow16_S, <- Him.
           unfold bp. rewrite Hnib. cbn [app]. do 3 f_equal. clear -Him Hm; lia.
        -- rewrite (div_pow16_digit P), (div_pow16_digit Q), Htop. f_equal. unfold digit.
           rewrite <- !Hnib. fold bp bq. clear -Hn; lia.
      * exists (2 * S m)%nat. split; [clear -Hib Hh Him Hm; lia|]. rewrite <- !path_div by (clear -Hib Him Hm; lia). fold P Q.
        replace (S (S (2 * m))) with (2 * S m)%nat in * by (clear; lia). split; [|done].
        rewrite nib_even by (clear -Hm; lia). f_equal. f_equal; [clear -Him Hm; lia|].
        replace (32 - S m)%nat with i by (clear -Him Hm; lia). do 2 f_equal. clear -Him Hm; lia.
Qed.

Lemma common_prefix_nib h p q :
  (h <= 64)%nat -> 0 <= p < pow16 (64 - h) -> 0 <= q < pow16 (64 - h) ->
  exists h', (h <= h' <= 64)%nat /\
    common_prefix (nib h p) (nib h q) = Ret (nib h' (p / pow16 (h' - h))) /\
    p / pow16 (h' - h) = q / pow16 (h' - h).
Proof. intros. unfold common_prefix. apply common_prefix_from_nib; done. Qed.

(** ** Children of internal nodes *)

Definition node_wf (node : InternalNode) : Prop := SmallMapFacts.wf (children node).

Definition child_at (node : InternalNode) (x : Z) : option ChildRef :=
  SmallMapFacts.lookup (children node) (Z.to_nat x).

Lemma nibble_of_nat x : 0 <= x < 16 -> Z.of_nat (Z.to_nat x) = x /\ (Z.to_nat x < 16)%nat.
Proof. lia. Qed.

Lemma internal_default_wf : node_wf internal_default.
Proof. apply SmallMapFacts.wf_default. Qed.

Lemma child_at_default x : child_at internal_default x = None.
Proof. apply SmallMapFacts.lookup_default. Qed.

Lemma child_ref_at node x : node_wf node -> 0 <= x < 16 -> child_ref node x = Ret (child_at node x).
Proof.
  intros Hwf Hx. destruct (nibble_of_nat x Hx) as [Hx1 Hx2]. unfold child_ref.
  rewrite <- Hx1 at 1. by apply SmallMapFacts.get_lookup.
Qed.

Lemma modify_child_ref_spec node x f :
  node_wf node -> 0 <= x < 16 ->
  exists node', modify_child_ref node x f = Ret (node', bool_decide (is_Some (child_at node x))) /\
    node_wf node' /\ node_cache node' = node_cache node /\
    forall y, 0 <= y < 16 ->
      child_at node' y = if decide (x = y) then f <$> child_at node x else child_at node y.
Proof.
  intros Hwf Hx. destruct (nibble_of_nat x Hx) as [Hx1 Hx2].
  destruct (SmallMapFacts.modify_spec (children node) (Z.to_nat x) f Hwf Hx2) as (m & Hm & Hwf' & Hl).
  rewrite Hx1 in Hm. unfold modify_child_ref. rewrite Hm. eexists. split; [done|].
  split; [done|]. split; [done|]. intros y Hy. unfold child_at at 1. cbn [children].
  rewrite Hl by lia. destruct (decide (x = y)) as [->|]; [by rewrite decide_True|].
  rewrite decide_False by lia. done.
Qed.

Lemma insert_child_ref_spec node x c :
  node_wf node -> 0 <= x < 16 ->
  exists node', insert_child_ref node x c = Ret node' /\
    node_wf node' /\ node_cache node' = node_cache node /\
    forall y, 0 <= y < 16 ->
      child_at node' y = if decide (x = y) then Some c else child_at node y.
Proof.
  intros Hwf Hx. destruct (nibble_of_nat x Hx) as [Hx1 Hx2].
  destruct (SmallMapFacts.insert_spec (children node) (Z.to_nat x) c Hwf Hx2) as (m & Hm & Hwf' & Hl).
  rewrite Hx1 in Hm. unfold insert_child_ref. rewrite Hm. eexists. split; [done|].
  split; [done|]. split; [done|]. intros y Hy. unfold child_at at 1. cbn [children].
  rewrite Hl by lia. destruct (decide (x = y)) as [->|]; [by rewrite decide_True|].
  rewrite decide_False by lia. done.
Qed.

Lemma last_child_ref_spec node :
  node_wf node -> (exists x, 0 <= x < 16 /\ is_Some (child_at node x)) ->
  exists x c, last_child_ref node = Ret (x, c) /\ 0 <= x < 16 /\ child_at node x = Some c /\
    forall y, x < y < 16 -> child_at node y = None.
Proof.
  intros Hwf (x & Hx & c & Hc). pose proof (SmallMapFacts.last_spec _ Hwf) as Hl.
  unfold last_child_ref. destruct (SmallMap.last (children node)) as [[j v]|].
  - destruct Hl as (i & -> & Hi & Hv & Habove). exists (Z.of_nat i), v.
    split; [done|]. split; [lia|]. unfold child_at. rewrite Nat2Z.id. split; [done|].
    intros y Hy. apply Habove. lia.
  - unfold child_at in Hc. rewrite Hl in Hc; [done|lia].
Qed.

Lemma foldl_insert_lookup {A B} (f : B -> A) (l : list (Z * B)) (hs : list A) (n : nat) :
  NoDup l.*1 -> (forall j v, (j, v) ∈ l -> 0 <= j) -> (n < length hs)%nat ->
  let r := foldl (fun hs '(j, v) => <[Z.to_nat j := f v]> hs) hs l in
  length r = length hs /\
  (forall v, (Z.of_nat n, v) ∈ l -> r !! n = Some (f v)) /\
  ((forall v, (Z.of_nat n, v) ∉ l) -> r !! n = hs !! n).
Proof.
  revert hs. induction l as [|[j v] l IH]; intros hs Hnd Hpos Hn; cbn [foldl].
  { split_and!; [done| |done]. intros v Hv. by apply elem_of_nil in Hv. }
  apply NoDup_cons in Hnd as [Hj Hnd].
  destruct (IH (<[Z.to_nat j := f v]> hs)) as (H1 & H2 & H3);
    [done|intros; eapply Hpos; by right|by rewrite length_insert|].
  rewrite length_insert in H1. split; [done|]. assert (0 <= j) as Hj0 by (eapply Hpos; left).
  split.
  - intros w [[= <- <-]|Hw]%elem_of_cons; [|by apply H2]. rewrite H3.
    + rewrite Nat2Z.id, list_lookup_insert_eq by done. done.
    + intros w' Hw'. apply Hj. apply list_elem_of_fmap. by exists (Z.of_nat n, w').
  - intros Hnot. rewrite H3 by (intros w Hw; apply (Hnot w); by right).
    apply list_lookup_insert_ne. intros <-. apply (Hnot v). rewrite Z2Nat.id by done. left.
Qed.

Lemma child_hashes_length node : length (child_hashes node) = 16%nat.
Proof.
  unfold child_hashes. generalize (SmallMap.iter (children node)). intros l.
  assert (forall hs : list (option Z), length hs = 16%nat ->
    length (foldl (fun hashes '(nibble, c) => <[Z.to_nat nibble := Some (cr_hash c)]> hashes) hs l) = 16%nat)
    as H; [|by apply H]. induction l as [|[j c] l IH]; intros hs Hhs; [done|]. apply IH. by rewrite length_insert.
Qed.

Lemma child_hashes_at node x :
  node_wf node -> 0 <= x < 16 -> child_hashes node !! Z.to_nat x = Some (cr_hash <$> child_at node x).
Proof.
  intros Hwf Hx. destruct (nibble_of_nat x Hx) as [Hx1 Hx2].
  pose proof (SmallMapFacts.iter_NoDup (children node)) as Hnd.
  destruct (foldl_insert_lookup (fun c => Some (cr_hash c)) (SmallMap.iter (children node))
              (replicate 16 None) (Z.to_nat x) Hnd) as (_ & H1 & H2).
  { intros j v Hj. apply SmallMapFacts.iter_keys in Hj as (i & -> & _). lia. }
  { done. }
  unfold child_hashes. unfold child_at. destruct (SmallMapFacts.lookup _ _) as [c|] eqn:Hc.
  - cbn [fmap option_fmap option_map]. apply H1. by apply SmallMapFacts.iter_lookup.
  - rewrite H2; [by rewrite lookup_replicate_2 by done|].
    intros v Hv. apply SmallMapFacts.iter_lookup in Hv as [_ Hv]; [congruence|done].
Qed.
