(* ===== verification/TreeDatabase.v ===== *)
(** * Databases of the state tree

    Model of [src/core/lib/merkle_tree/src/storage/database.rs] and of the patch sets of
    [storage/patch.rs]: the [Database] interface, the in-memory implementation [PatchSet] and
    the wrapper [Patched] that holds changes in memory on top of another database.  Hash maps
    are finite maps; deserialisation errors are strings. *)

From S2P Require Import Prelude Bytes Utils TreeUtils TreeTypes.
Open Scope Z_scope.

(** [Clone] of nodes drops the caches. *)
Definition node_clone (node : Node) : Node :=
  match node with
  | Internal node => Internal (internal_clone node)
  | Leaf leaf => Leaf leaf
  end.

Definition root_clone (r : Root) : Root :=
  match r with
  | RootEmpty => RootEmpty
  | RootFilled leaf_count node => RootFilled leaf_count (node_clone node)
  end.

Inductive Operation : Type := Insert | Update.

#[export] Instance Operation_eq_dec : EqDecision Operation.
Proof. solve_decision. Defined.

(** ** Patch sets *)

Record PartialPatchSet := { pp_root : option Root; pp_nodes : gmap NodeKey Node }.

(** [PartialPatchSet::empty] and [merge] *)
Definition partial_empty : PartialPatchSet := {| pp_root := None; pp_nodes := ∅ |}.

Definition partial_merge (p other : PartialPatchSet) : PartialPatchSet :=
  {| pp_root := pp_root other; pp_nodes := pp_nodes other ∪ pp_nodes p |}.

Record PatchSet := {
  ps_manifest : Manifest;
  patches_by_version : gmap Z PartialPatchSet;
  updated_version : option Z;
  stale_keys_by_version : gmap Z (list NodeKey);
}.

Definition patch_default : PatchSet :=
  {| ps_manifest := manifest_default; patches_by_version := ∅; updated_version := None;
     stale_keys_by_version := ∅ |}.

Definition patch_from_manifest (manifest : Manifest) : PatchSet :=
  {| ps_manifest := manifest; patches_by_version := ∅; updated_version := None;
     stale_keys_by_version := ∅ |}.

Definition patch_new (manifest : Manifest) (version : Z) (root : Root) (nodes : gmap NodeKey Node)
    (stale_keys : list NodeKey) (operation : Operation) : PatchSet :=
  {| ps_manifest := manifest;
     patches_by_version := {[version := {| pp_root := Some root; pp_nodes := nodes |}]};
     updated_version := match operation with Insert => None | Update => Some version end;
     stale_keys_by_version := {[version := stale_keys]} |}.

Definition patch_for_empty_root (manifest : Manifest) (version : Z) : PatchSet :=
  let stale_keys := if 1 <=? version then [with_version EMPTY (version - 1)] else [] in
  patch_new manifest version RootEmpty ∅ stale_keys Insert.

Definition is_new_version (p : PatchSet) (version : Z) : bool :=
  (version_count (ps_manifest p) <=? version)
  || (bool_decide (updated_version p <> Some version) && bool_decide (is_Some (patches_by_version p !! version))).

(** ** The interface *)

(** [trait Database]; [apply_patch] takes [&mut self] and returns the new state. *)
Class Database (DB : Type) := {
  try_manifest : DB -> result (option Manifest) string;
  try_root : DB -> Z -> result (option Root) string;
  try_tree_node : DB -> NodeKey -> bool -> result (option Node) string;
  tree_nodes : DB -> list (NodeKey * bool) -> outcome (list (option Node));
  apply_patch : DB -> PatchSet -> outcome (result DB string);
}.

(** [result.unwrap_or_else(|err| panic!("{err}"))] *)
Definition unwrap_result {A} (r : result A string) : outcome A :=
  match r with
  | Ok a => Ret a
  | Err err => Panics err
  end.

(** The provided methods. *)
Section Provided.
Context {DB : Type} `{!Database DB}.

Definition manifest (db : DB) : outcome (option Manifest) := unwrap_result (try_manifest db).

Definition db_root (db : DB) (version : Z) : outcome (option Root) := unwrap_result (try_root db version).

Definition tree_node (db : DB) (key : NodeKey) (is_leaf : bool) : outcome (option Node) :=
  unwrap_result (try_tree_node db key is_leaf).
End Provided.

(** The default [tree_nodes]: every node is read on its own. *)
Definition default_tree_nodes (read : NodeKey -> bool -> result (option Node) string)
    (keys : list (NodeKey * bool)) : outcome (list (option Node)) :=
  foldM (fun nodes '(key, is_leaf) => node ← unwrap_result (read key is_leaf); Ret (nodes ++ [node])) [] keys.

(** ** The in-memory database *)

Definition patch_try_root (p : PatchSet) (version : Z) : result (option Root) string :=
  match patches_by_version p !! version with
  | None => Ok None
  | Some patch => Ok (root_clone <$> pp_root patch)
  end.

Definition patch_try_tree_node (p : PatchSet) (key : NodeKey) (is_leaf : bool) :
    result (option Node) string :=
  Ok (node_clone <$> (patches_by_version p !! nk_version key ≫= fun patch => pp_nodes patch !! key)).

Definition patch_apply_patch (p other : PatchSet) : outcome (result PatchSet string) :=
  merged <-?
    match updated_version other with
    | None => Ret (Ok (p, other))
    | Some other_updated_version =>
        match updated_version p with
        | Some updated =>
            _ <-? ensure (other_updated_version =? updated)
                    "Cannot merge patches with different updated versions";;
            patch ← expect (patches_by_version p !! updated) "called `Option::unwrap()` on a `None` value";
            other_patch ← expect (patches_by_version other !! updated)
                            "called `Option::unwrap()` on a `None` value";
            Ret (Ok
              ({| ps_manifest := ps_manifest p;
                  patches_by_version := <[updated := partial_merge patch other_patch]> (patches_by_version p);
                  updated_version := updated_version p;
                  stale_keys_by_version := stale_keys_by_version p |},
               {| ps_manifest := ps_manifest other;
                  patches_by_version := delete updated (patches_by_version other);
                  updated_version := updated_version other;
                  stale_keys_by_version := stale_keys_by_version other |}))
        | None =>
            _ <-? ensure (forallb (fun '(ver, _) => other_updated_version <? ver) (map_to_list (patches_by_version p)))
                    "Cannot update; this would break the update version invariant";;
            Ret (Ok
              ({| ps_manifest := ps_manifest p; patches_by_version := patches_by_version p;
                  updated_version := Some other_updated_version;
                  stale_keys_by_version := stale_keys_by_version p |}, other))
        end
    end;;
  let '(p, other) := merged : PatchSet * PatchSet in
  let new_version_count := version_count (ps_manifest other) in
  let patches :=
    if new_version_count <? version_count (ps_manifest p)
    then filter (fun kv => kv.1 < new_version_count) (patches_by_version p)
    else patches_by_version p in
  Ret (Ok
    {| ps_manifest := ps_manifest other;
       patches_by_version := patches_by_version other ∪ patches;
       updated_version := updated_version p;
       stale_keys_by_version :=
         union_with (fun keys stale_keys => Some (keys ++ stale_keys))
           (stale_keys_by_version p) (stale_keys_by_version other) |}).

#[export] Instance patch_database : Database PatchSet := {
  try_manifest p := Ok (Some (ps_manifest p));
  try_root := patch_try_root;
  try_tree_node := patch_try_tree_node;
  tree_nodes p := default_tree_nodes (patch_try_tree_node p);
  apply_patch := patch_apply_patch;
}.

(** ** A database with changes held in memory *)

Record Patched (DB : Type) := { db_inner : DB; db_patch : option PatchSet }.
#[global] Arguments db_inner {DB} _.
#[global] Arguments db_patch {DB} _.

Section Patched.
Context {DB : Type} `{!Database DB}.
Implicit Types p : Patched DB.

Definition patched_new (inner : DB) : Patched DB := {| db_inner := inner; db_patch := None |}.

Definition lookup_patch p (key : NodeKey) (is_leaf : bool) : outcome (option Node * bool) :=
  match db_patch p with
  | None => Ret (None, false)
  | Some patch =>
      if is_new_version patch (nk_version key) then
        node ← tree_node patch key is_leaf; Ret (node, true)
      else if bool_decide (updated_version patch = Some (nk_version key)) then
        node ← tree_node patch key is_leaf;
        match node with
        | Some node => Ret (Some node, true)
        | None => Ret (None, false)
        end
      else Ret (None, false)
  end.

Definition patched_try_manifest p : result (option Manifest) string :=
  match db_patch p with
  | Some patch => Ok (Some (ps_manifest patch))
  | None => try_manifest (db_inner p)
  end.

Definition patched_try_root p (version : Z) : result (option Root) string :=
  match db_patch p with
  | Some patch =>
      if is_new_version patch version || bool_decide (updated_version patch = Some version)
      then try_root patch version else try_root (db_inner p) version
  | None => try_root (db_inner p) version
  end.

(** A panic of [lookup_patch] would be one of the in-memory patch, which has none. *)
Definition patched_try_tree_node p (key : NodeKey) (is_leaf : bool) : result (option Node) string :=
  match lookup_patch p key is_leaf with
  | Ret (patch_node, is_final) =>
      if (is_final : bool) then Ok patch_node
      else match patch_node with
           | Some node => Ok (Some node)
           | None => try_tree_node (db_inner p) key is_leaf
           end
  | Panics err => Err err
  end.

(** The values of the patch and those of the inner database in the order of the request. *)
Fixpoint interleave {A} (is_in_patch : list bool) (patch_values db_values : list A) : outcome (list A) :=
  match is_in_patch with
  | [] => Ret []
  | true :: flags =>
      match patch_values with
      | v :: patch_values => vs ← interleave flags patch_values db_values; Ret (v :: vs)
      | [] => Panics "called `Option::unwrap()` on a `None` value"
      end
  | false :: flags =>
      match db_values with
      | v :: db_values => vs ← interleave flags patch_values db_values; Ret (v :: vs)
      | [] => Panics "called `Option::unwrap()` on a `None` value"
      end
  end.

Definition patched_tree_nodes p (keys : list (NodeKey * bool)) : outcome (list (option Node)) :=
  match db_patch p with
  | None => tree_nodes (db_inner p) keys
  | Some _ =>
      '(is_in_patch, patch_values) ←
        foldM (fun '(flags, values) '(key, is_leaf) =>
            '(patch_node, is_final) ← lookup_patch p key is_leaf;
            if (is_final : bool) then Ret (flags ++ [true], values ++ [patch_node])
            else match patch_node with
                 | Some node => Ret (flags ++ [true], values ++ [Some node])
                 | None => Ret (flags ++ [false], values)
                 end) ([], []) keys;
      let db_keys := fst <$> List.filter (fun '(_, in_patch) => negb in_patch) (zip keys is_in_patch) in
      db_values ← tree_nodes (db_inner p) db_keys;
      interleave is_in_patch patch_values db_values
  end.

Definition patched_apply_patch p (patch : PatchSet) : outcome (result (Patched DB) string) :=
  match db_patch p with
  | Some existing_patch =>
      existing_patch <-? patch_apply_patch existing_patch patch;;
      Ret (Ok {| db_inner := db_inner p; db_patch := Some existing_patch |})
  | None => Ret (Ok {| db_inner := db_inner p; db_patch := Some patch |})
  end.

#[export] Instance patched_database : Database (Patched DB) := {
  try_manifest := patched_try_manifest;
  try_root := patched_try_root;
  try_tree_node := patched_try_tree_node;
  tree_nodes := patched_tree_nodes;
  apply_patch := patched_apply_patch;
}.

Definition flush p : outcome (result (Patched DB) string) :=
  match db_patch p with
  | Some patch =>
      inner <-? apply_patch (db_inner p) patch;; Ret (Ok {| db_inner := inner; db_patch := None |})
  | None => Ret (Ok p)
  end.

Definition reset p : Patched DB := {| db_inner := db_inner p; db_patch := None |}.

Definition into_inner p : outcome DB :=
  _ ← rust_assert (match db_patch p with None => true | Some _ => false end)
        "The `Patched` database contains uncommitted changes";
  Ret (db_inner p).
End Patched.

(** ** Pruning *)

Record PrunePatchSet := {
  pruned_node_keys : list NodeKey;
  deleted_stale_key_versions : Z * Z;
}.

(** [trait PruneDatabase] *)
Class PruneDatabase (DB : Type) `{!Database DB} := {
  min_stale_key_version : DB -> option Z;
  stale_keys : DB -> Z -> list NodeKey;
  prune : DB -> PrunePatchSet -> outcome (result DB string);
}.

Definition patch_min_stale_key_version (p : PatchSet) : option Z :=
  foldr (fun '(version, keys) acc =>
      match keys, acc with
      | [], _ => acc
      | _, None => Some version
      | _, Some least => Some (Z.min version least)
      end) None (map_to_list (stale_keys_by_version p)).

Definition patch_stale_keys (p : PatchSet) (version : Z) : list NodeKey :=
  default [] (stale_keys_by_version p !! version).

Definition prune_key (patches : gmap Z PartialPatchSet) (key : NodeKey) : gmap Z PartialPatchSet :=
  match patches !! nk_version key with
  | None => patches
  | Some patch =>
      let patch := if node_key_is_empty key
                   then {| pp_root := None; pp_nodes := pp_nodes patch |}
                   else {| pp_root := pp_root patch; pp_nodes := delete key (pp_nodes patch) |} in
      <[nk_version key := patch]> patches
  end.

Definition patch_prune (p : PatchSet) (patch : PrunePatchSet) : outcome (result PatchSet string) :=
  let '(first, last) := deleted_stale_key_versions patch in
  Ret (Ok
    {| ps_manifest := ps_manifest p;
       patches_by_version := foldl prune_key (patches_by_version p) (pruned_node_keys patch);
       updated_version := updated_version p;
       stale_keys_by_version :=
         filter (fun kv => ~ (first <= kv.1 < last)) (stale_keys_by_version p) |}).

#[export] Instance patch_prune_database : PruneDatabase PatchSet := {
  min_stale_key_version := patch_min_stale_key_version;
  stale_keys := patch_stale_keys;
  prune := patch_prune;
}.
