(* ===== verification/TreeHasher.v ===== *)
(** * Hashing of the state tree

    Model of [src/core/lib/merkle_tree/src/hasher]: the hashing interface and its Blake2
    implementation ([mod.rs]), hashes of nodes, their caches and Merkle paths ([nodes.rs]),
    verification of proofs and digests of key ranges ([proofs.rs]).  The specification is the
    full binary tree with [2 ^ 256] leaves ([tree_hash]).  Counts of hashed bytes are left
    out. *)

From S2P Require Import Prelude Bytes Utils TreeUtils TreeTypes.
Open Scope Z_scope.

(** Subtraction of [usize] values. *)
Definition usize_sub (a b : nat) : outcome nat :=
  if (b <=? a)%nat then Ret (a - b)%nat else Panics "attempt to subtract with overflow".

(** ** The interface *)

(** [trait HashTree] *)
Class HashTree := {
  hasher_name : string;
  hash_leaf : Z -> Z -> Z;
  hash_branch : Z -> Z -> Z;
  empty_subtree_hash : nat -> outcome Z;
}.

(** What the tree relies on: the hashes of empty subtrees are those of a tree in which every
    leaf has the zero value and the zero index. *)
Class HashTreeLaws `{HashTree} := {
  empty_at : nat -> Z;
  empty_subtree_hash_at d : (d <= TREE_DEPTH)%nat -> empty_subtree_hash d = Ret (empty_at d);
  empty_at_0 : empty_at 0 = hash_leaf 0 0;
  empty_at_S d : empty_at (S d) = hash_branch (empty_at d) (empty_at d);
}.

(** [HashTree for ()] *)
Definition no_op_hasher : HashTree := {|
  hasher_name := "no_op256";
  hash_leaf _ _ := 0;
  hash_branch _ _ := 0;
  empty_subtree_hash _ := Ret 0;
|}.

Section Blake2.
(** Blake2s-256 *)
Variable hash_bytes : list Z -> Z.

(** [Blake2Hasher::compress] *)
Definition blake2_compress (lhs rhs : Z) : Z := hash_bytes (be_bytes 32 lhs ++ be_bytes 32 rhs).

(** [iter::successors(first, f).take(n)] *)
Fixpoint successors {A} (first : A) (f : A -> A) (n : nat) : list A :=
  match n with
  | O => []
  | S n' => first :: successors (f first) f n'
  end.

Definition compute_empty_tree_hashes : list Z :=
  let empty_leaf_hash := hash_bytes (replicate 40 0) in
  successors empty_leaf_hash (fun hash => blake2_compress hash hash) (TREE_DEPTH + 1).

(** [HashTree for Blake2Hasher] *)
Definition blake2_hasher : HashTree := {|
  hasher_name := "blake2s256";
  hash_leaf value_hash leaf_index := hash_bytes (be_bytes 8 leaf_index ++ be_bytes 32 value_hash);
  hash_branch lhs rhs := blake2_compress lhs rhs;
  empty_subtree_hash depth := index_vec compute_empty_tree_hashes depth;
|}.
End Blake2.

(** ** Hashes of nodes *)

Section Nodes.
Context `{!HashTree}.

Definition empty_tree_hash : outcome Z := empty_subtree_hash TREE_DEPTH.

(** One step towards the root, next to [adjacent_hash]. *)
Definition hash_step (key : Z) (depth : nat) (hash adjacent_hash : Z) : Z :=
  if Z.testbit key (Z.of_nat depth) then hash_branch adjacent_hash hash
  else hash_branch hash adjacent_hash.

(** [LeafNode::hash] *)
Definition leaf_hash (l : LeafNode) (level : nat) : outcome Z :=
  hashing_iterations ← usize_sub TREE_DEPTH level;
  foldM (fun hash depth =>
      empty_tree_hash ← empty_subtree_hash depth;
      Ret (hash_step (full_key l) depth hash empty_tree_hash))
    (hash_leaf (value_hash l) (leaf_index l)) (seq 0 hashing_iterations).

Definition hash_optional_branch (subtree_depth : nat) (lhs rhs : option Z) : outcome (option Z) :=
  match lhs, rhs with
  | None, None => Ret None
  | Some lhs, None =>
      empty_hash ← empty_subtree_hash subtree_depth; Ret (Some (hash_branch lhs empty_hash))
  | None, Some rhs =>
      empty_hash ← empty_subtree_hash subtree_depth; Ret (Some (hash_branch empty_hash rhs))
  | Some lhs, Some rhs => Ret (Some (hash_branch lhs rhs))
  end.

(** *** Merkle paths *)

Record MerklePath := { current_level : nat; path_hashes : list Z }.

Definition path_new (level : nat) : MerklePath := {| current_level := level; path_hashes := [] |}.

Definition path_push (p : MerklePath) (maybe_hash : option Z) : outcome MerklePath :=
  hashes ←
    match maybe_hash with
    | Some hash => Ret (path_hashes p ++ [hash])
    | None =>
        match path_hashes p with
        | [] => Ret []
        | _ =>
            depth ← usize_sub TREE_DEPTH (current_level p);
            empty_subtree_hash ← empty_subtree_hash depth;
            Ret (path_hashes p ++ [empty_subtree_hash])
        end
    end;
  level ← usize_sub (current_level p) 1;
  Ret {| current_level := level; path_hashes := hashes |}.

(** *** The cache of an internal node *)

(** [Box::<InternalNodeCache>::default()] *)
Definition cache_default : InternalNodeCache :=
  {| level1 := replicate 2 None; level2 := replicate 4 None; level3 := replicate 8 None |}.

Definition set_level (c : InternalNodeCache) (level_in_tree : nat) (source : list (option Z)) :
    outcome InternalNodeCache :=
  match level_in_tree with
  | 0%nat => Ret c
  | 1%nat => Ret {| level1 := take 2 source; level2 := level2 c; level3 := level3 c |}
  | 2%nat => Ret {| level1 := level1 c; level2 := take 4 source; level3 := level3 c |}
  | 3%nat => Ret {| level1 := level1 c; level2 := level2 c; level3 := take 8 source |}
  | _ => Panics "internal error: entered unreachable code: Level in tree must be in 0..=3"
  end.

(** One iteration of the loop of [update_nibble]: the hash of the pair of [idx] goes to the
    next level. *)
Definition update_level (level level_in_tree : nat) (level_hashes next_level_hashes : list (option Z))
    (idx : nat) : outcome (list (option Z)) :=
  subtree_depth ← usize_sub TREE_DEPTH (level + level_in_tree);
  let left_idx := (idx - idx mod 2)%nat in
  let right_idx := (left_idx + 1)%nat in
  lhs ← index_vec level_hashes left_idx;
  rhs ← index_vec level_hashes right_idx;
  branch_hash ← hash_optional_branch subtree_depth lhs rhs;
  _ ← index_vec next_level_hashes (idx / 2);
  Ret (<[(idx / 2)%nat := branch_hash]> next_level_hashes).

Definition update_nibble (c : InternalNodeCache) (level_hashes : list (option Z)) (level : nat)
    (nibble : Z) : outcome (Z * InternalNodeCache) :=
  let idx := Z.to_nat nibble in
  level3 ← update_level level 4 level_hashes (level3 c) idx;
  level2 ← update_level level 3 level3 (level2 c) (idx / 2);
  level1 ← update_level level 2 level2 (level1 c) (idx / 2 / 2);
  node_hash ← update_level level 1 level1 [None] (idx / 2 / 2 / 2);
  node_hash ← index_vec node_hash 0;
  node_hash ← expect node_hash "called `Option::unwrap()` on a `None` value";
  Ret (node_hash, {| level1 := level1; level2 := level2; level3 := level3 |}).

(** [InternalNodeCache::extend_merkle_path] *)
Definition cache_extend_merkle_path (c : InternalNodeCache) (p : MerklePath) (nibble : Z) :
    outcome MerklePath :=
  let idx := (Z.to_nat nibble / 2)%nat in
  h ← index_vec (level3 c) (Nat.lxor idx 1); p ← path_push p h;
  let idx := (idx / 2)%nat in
  h ← index_vec (level2 c) (Nat.lxor idx 1); p ← path_push p h;
  let idx := (idx / 2)%nat in
  h ← index_vec (level1 c) (Nat.lxor idx 1); path_push p h.

(** *** Internal nodes *)

(** The in-place pass that hashes the pairs of a level. *)
Definition hash_level (subtree_depth next_level_len : nat) (level_hashes : list (option Z)) :
    outcome (list (option Z)) :=
  foldM (fun hs i =>
      lhs ← index_vec hs (2 * i);
      rhs ← index_vec hs (2 * i + 1);
      branch_hash ← hash_optional_branch subtree_depth lhs rhs;
      Ret (<[i := branch_hash]> hs))
    level_hashes (seq 0 next_level_len).

(** One iteration of the loop of [hash_inner] over the levels. *)
Definition hash_inner_level (level : nat) (state : list (option Z) * nat * option InternalNodeCache)
    (level_in_tree : nat) : outcome (list (option Z) * nat * option InternalNodeCache) :=
  let '(level_hashes, next_level_len, cache) := state in
  subtree_depth ← usize_sub TREE_DEPTH (level + level_in_tree);
  level_hashes ← hash_level subtree_depth next_level_len level_hashes;
  cache ← match cache with
          | Some c => c ← set_level c (level_in_tree - 1) level_hashes; Ret (Some c)
          | None => Ret None
          end;
  Ret (level_hashes, (next_level_len / 2)%nat, cache).

Definition hash_inner (level_hashes : list (option Z)) (level : nat)
    (cache : option InternalNodeCache) : outcome (Z * option InternalNodeCache) :=
  '(level_hashes, _, cache) ←
    foldM (hash_inner_level level) (level_hashes, (length level_hashes / 2)%nat, cache)
      [4; 3; 2; 1]%nat;
  node_hash ← index_vec level_hashes 0;
  node_hash ←
    match node_hash with
    | Some node_hash => Ret node_hash
    | None => depth ← usize_sub TREE_DEPTH level; empty_subtree_hash depth
    end;
  Ret (node_hash, cache).

(** [InternalNode::hash] *)
Definition internal_hash (node : InternalNode) (level : nat) : outcome Z :=
  '(hash, _) ← hash_inner (child_hashes node) level None; Ret hash.

(** [InternalNodeUpdater::ensure_child_ref] on the given node and nibble. *)
Definition ensure_child_ref (node : InternalNode) (nibble version : Z) (is_leaf : bool) :
    outcome InternalNode :=
  '(node', present) ← modify_child_ref node nibble
    (fun c => {| cr_hash := cr_hash c; cr_version := version; is_leaf := is_leaf |});
  if (present : bool) then Ret node'
  else insert_child_ref node nibble (if is_leaf then child_leaf version else child_internal version).

(** [InternalNodeUpdater::update_child_hash] *)
Definition update_child_hash (node : InternalNode) (level : nat) (nibble child_hash : Z) :
    outcome (Z * InternalNode) :=
  '(node, present) ← modify_child_ref node nibble
    (fun c => {| cr_hash := child_hash; cr_version := cr_version c; is_leaf := is_leaf c |});
  _ ← rust_assert present "called `Option::unwrap()` on a `None` value";
  let hashes := child_hashes node in
  match node_cache node with
  | Some cache =>
      '(node_hash, cache) ← update_nibble cache hashes level nibble;
      Ret (node_hash, set_cache node cache)
  | None =>
      '(node_hash, cache) ← hash_inner hashes level (Some cache_default);
      cache ← expect cache "the cache is returned";
      Ret (node_hash, set_cache node cache)
  end.

(** [InternalNodeUpdater::extend_merkle_path] *)
Definition extend_merkle_path (node : InternalNode) (level : nat) (nibble : Z) (p : MerklePath) :
    outcome (InternalNode * MerklePath) :=
  adjacent_ref ← child_ref node (Z.lxor nibble 1);
  p ← path_push p (cr_hash <$> adjacent_ref);
  '(node, cache) ←
    match node_cache node with
    | Some cache => Ret (node, cache)
    | None =>
        '(_, cache) ← hash_inner (child_hashes node) level (Some cache_default);
        cache ← expect cache "the cache is returned";
        Ret (set_cache node cache, cache)
    end;
  p ← cache_extend_merkle_path cache p nibble;
  Ret (node, p).

(** [Node::hash] and [Root::hash] *)
Definition node_hash (node : Node) (level : nat) : outcome Z :=
  match node with
  | Internal node => internal_hash node level
  | Leaf leaf => leaf_hash leaf level
  end.

Definition root_hash_of (r : Root) : outcome Z :=
  match r with
  | RootEmpty => empty_tree_hash
  | RootFilled _ node => node_hash node 0
  end.
End Nodes.

(** ** Proofs *)

Section Proofs.
Context `{!HashTree}.

(** [dyn HashTree::extend_merkle_path]; a path longer than the tree is deep makes the
    subtraction overflow, and the hashes of too deep empty subtrees do not exist. *)
Definition extend_path (path : list Z) : outcome (list Z) :=
  empty_hash_count ← usize_sub TREE_DEPTH (length path);
  empty_hashes ← foldM (fun hashes depth => h ← empty_subtree_hash depth; Ret (hashes ++ [h]))
                   [] (seq 0 empty_hash_count);
  Ret (empty_hashes ++ path).

Definition fold_merkle_path (path : list Z) (entry : TreeEntry) : outcome Z :=
  full_path ← extend_path path;
  Ret (foldl (fun hash '(depth, adjacent_hash) => hash_step (te_key entry) depth hash adjacent_hash)
         (hash_leaf (te_value entry) (te_leaf_index entry)) (imap pair full_path)).

(** One iteration of [BlockOutputWithProofs::verify_proofs]. *)
Definition verify_log (root_hash : Z) (op : TreeLogEntryWithProof (list Z))
    (instruction : TreeInstruction) : outcome (result Z string) :=
  _ <-? ensure (length (log_path op) <=? TREE_DEPTH)%nat
          "Condition failed: `op.merkle_path.len() <= TREE_DEPTH`";;
  _ <-? match instruction with
        | TRead _ =>
            _ <-? ensure (log_root_hash op =? root_hash) "Condition failed: `op.root_hash == root_hash`";;
            ensure (log_is_read (log_base op)) "Condition failed: `op.base.is_read()`"
        | TWrite _ => ensure (negb (log_is_read (log_base op))) "Condition failed: `!op.base.is_read()`"
        end;;
  let prev_entry :=
    match log_base op with
    | Inserted | ReadMissingKey => entry_empty (instruction_key instruction)
    | Updated leaf_index value | LogRead leaf_index value =>
        entry_new (instruction_key instruction) leaf_index value
    end in
  prev_hash ← fold_merkle_path (log_path op) prev_entry;
  _ <-? ensure (prev_hash =? root_hash) "Condition failed: `prev_hash == root_hash`";;
  _ <-? match instruction with
        | TWrite new_entry =>
            next_hash ← fold_merkle_path (log_path op) new_entry;
            ensure (next_hash =? log_root_hash op) "Condition failed: `next_hash == op.root_hash`"
        | TRead _ => Ret (Ok tt)
        end;;
  Ret (Ok (log_root_hash op)).

Fixpoint verify_logs (root_hash : Z)
    (ops : list (TreeLogEntryWithProof (list Z) * TreeInstruction)) : outcome (result unit string) :=
  match ops with
  | [] => Ret (Ok tt)
  | (op, instruction) :: ops' =>
      root_hash <-? verify_log root_hash op instruction;; verify_logs root_hash ops'
  end.

Definition verify_proofs (o : BlockOutputWithProofs) (old_root_hash : Z)
    (instructions : list TreeInstruction) : outcome (result unit string) :=
  _ <-? ensure (length instructions =? length (proof_logs o))%nat
          "Condition failed: `instructions.len() == self.logs.len()`";;
  verify_logs old_root_hash (zip (proof_logs o) instructions).

(** [TreeEntryWithProof::verify] *)
Definition verify (e : TreeEntryWithProof) (trusted_root_hash : Z) : outcome (result unit string) :=
  _ <-? (if te_leaf_index (base e) =? 0 then
           ensure (te_value (base e) =? 0)
             "Invalid missing value specification: leaf index is zero, but value is non-default"
         else Ret (Ok tt));;
  root_hash ← fold_merkle_path (merkle_path e) (base e);
  ensure (root_hash =? trusted_root_hash) "Root hash mismatch".

(** *** Digests of key ranges *)

Record TreeRangeDigest := { current_leaf : LeafNode; left_contour : list Z }.

Definition digest_new (start_key : Z) (start_entry : TreeEntryWithProof) : outcome TreeRangeDigest :=
  full_path ← extend_path (merkle_path start_entry);
  left_contour ←
    foldM (fun contour '(depth, adjacent_hash) =>
        if Z.testbit start_key (Z.of_nat depth) then Ret (contour ++ [adjacent_hash])
        else h ← empty_subtree_hash depth; Ret (contour ++ [h]))
      [] (imap pair full_path);
  _ ← rust_assert (length left_contour =? TREE_DEPTH)%nat "called `Result::unwrap()` on an `Err` value";
  Ret {| current_leaf := leaf_new (base start_entry); left_contour := left_contour |}.

(** One iteration of the loop of [update]: the left contour is collapsed into the hash. *)
Definition digest_collapse_step (key : Z) (state : Z * list Z) (depth : nat) : outcome (Z * list Z) :=
  let '(hash, contour) := state in
  empty_subtree_hash ← empty_subtree_hash depth;
  left_hash ← index_vec contour depth;
  Ret (if Z.testbit key (Z.of_nat depth) then hash_branch left_hash hash
       else hash_branch hash empty_subtree_hash,
       <[depth := empty_subtree_hash]> contour).

Definition digest_update (d : TreeRangeDigest) (entry : TreeEntry) : outcome TreeRangeDigest :=
  _ ← rust_assert (full_key (current_leaf d) <? te_key entry)
        "Keys provided to a digest must be monotonically increasing";
  let diverging_level := (find_diverging_bit (full_key (current_leaf d)) (te_key entry) + 1)%nat in
  iterations ← usize_sub TREE_DEPTH diverging_level;
  '(hash, contour) ←
    foldM (digest_collapse_step (full_key (current_leaf d)))
      (hash_leaf (value_hash (current_leaf d)) (leaf_index (current_leaf d)), left_contour d)
      (seq 0 iterations);
  _ ← index_vec contour iterations;
  Ret {| current_leaf := leaf_new entry; left_contour := <[iterations := hash]> contour |}.

Definition digest_finalize (d : TreeRangeDigest) (final_entry : TreeEntryWithProof) : outcome Z :=
  d ← digest_update d (base final_entry);
  full_path ← extend_path (merkle_path final_entry);
  let entry := base final_entry in
  Ret (foldl (fun hash '(depth, (left_hash, right_hash)) =>
           if Z.testbit (te_key entry) (Z.of_nat depth) then hash_branch left_hash hash
           else hash_branch hash right_hash)
         (hash_leaf (te_value entry) (te_leaf_index entry)) (imap pair (zip (left_contour d) full_path))).
End Proofs.

(** ** The implementations satisfy the laws *)

Definition no_op_laws : @HashTreeLaws no_op_hasher.
Proof. by refine (@Build_HashTreeLaws no_op_hasher (fun _ => 0) _ _ _). Defined.

Lemma successors_nth {A} (a : A) f n d :
  (d < n)%nat -> successors a f n !! d = Some (Nat.iter d f a).
Proof.
  revert a d. induction n as [|n IH]; intros a d Hd; [lia|]. destruct d as [|d]; [done|].
  cbn [successors]. rewrite lookup_cons, IH by lia. f_equal. apply Nat.iter_swap.
Qed.

Definition blake2_laws hash_bytes : @HashTreeLaws (blake2_hasher hash_bytes).
Proof.
  refine (@Build_HashTreeLaws (blake2_hasher hash_bytes)
    (fun d => Nat.iter d (fun hash => blake2_compress hash_bytes hash hash) (hash_bytes (replicate 40 0))) _ _ _).
  - intros d Hd. apply index_vec_Ret. apply successors_nth. unfold TREE_DEPTH in *. lia.
  - cbn. by rewrite !be_bytes_0.
  - done.
Defined.
