(* ===== verification/TreeStorage.v ===== *)
(** * Updates of the state tree

    Model of [WorkingPatchSet] ([src/core/lib/merkle_tree/src/storage/patch.rs]), of
    [TreeUpdater] and [Storage] ([storage/mod.rs]) and of the mode that produces Merkle proofs
    ([storage/proofs.rs]).  A working patch set holds one map per level of the radix-16 tree;
    loops over the levels carry fuel that exceeds the number of levels.  Work that [rayon]
    spreads over threads is done in the order of the parts; timings and reporting-only counters
    are left out. *)

From S2P Require Import Prelude Bytes Utils TreeUtils TreeTypes TreeHasher TreeDatabase.
Open Scope Z_scope.

Definition UNWRAP_NONE : string := "called `Option::unwrap()` on a `None` value".

(** ** Working patch sets *)

Record WorkingNode := { inner : Node; prev_version : option Z }.

Record WorkingPatchSet := {
  root_version : Z;
  changes_by_nibble_count : list (gmap (list Z) WorkingNode);
}.

(** [LoadAncestorsResult] *)
Record LoadAncestorsResult := { longest_prefixes : list Nibbles; db_reads : Z }.

Inductive TraverseOutcome : Type :=
| LeafMatch (nibbles : Nibbles) (leaf : LeafNode)
| LeafMismatch (nibbles : Nibbles) (leaf : LeafNode)
| MissingChild (nibbles : Nibbles).

Definition position (o : TraverseOutcome) : Nibbles :=
  match o with
  | LeafMatch nibbles _ | LeafMismatch nibbles _ | MissingChild nibbles => nibbles
  end.

(** [version.checked_sub(1)] *)
Definition checked_pred (version : Z) : option Z := if 1 <=? version then Some (version - 1) else None.

(** [WorkingPatchSet::new] *)
Definition working_new (root_version : Z) (root : Root) : WorkingPatchSet :=
  {| root_version := root_version;
     changes_by_nibble_count :=
       match root with
       | RootFilled _ node =>
           [{[nibble_bytes EMPTY := {| inner := node; prev_version := checked_pred root_version |}]}]
       | RootEmpty => []
       end |}.

(** [get] *)
Definition working_get (ps : WorkingPatchSet) (nibbles : Nibbles) : option Node :=
  level ← changes_by_nibble_count ps !! nibble_count nibbles;
  inner <$> (level : gmap (list Z) WorkingNode) !! nibble_bytes nibbles.

(** [resize_with(len, HashMap::new)] on a shorter vector. *)
Definition extend_levels (levels : list (gmap (list Z) WorkingNode)) (len : nat) :
    list (gmap (list Z) WorkingNode) :=
  levels ++ replicate (len - length levels) ∅.

(** [insert]; it also writes through the references of [get_mut], to nodes that are present. *)
Definition working_insert (ps : WorkingPatchSet) (key : Nibbles) (node : Node) : WorkingPatchSet :=
  {| root_version := root_version ps;
     changes_by_nibble_count :=
       alter (partial_alter
                (fun entry => Some {| inner := node; prev_version := entry ≫= prev_version |})
                (nibble_bytes key))
         (nibble_count key) (extend_levels (changes_by_nibble_count ps) (nibble_count key + 1)) |}.

(** [child_ref] of a node at a position *)
Definition working_child_ref (ps : WorkingPatchSet) (key : Nibbles) (child_nibble : Z) :
    outcome (option ChildRef) :=
  match working_get ps key with
  | Some (Internal parent) => child_ref parent child_nibble
  | _ => Ret None
  end.

(** [child_ref_mut(key, child_nibble).unwrap()] followed by an assignment. *)
Definition working_modify_child_ref (ps : WorkingPatchSet) (key : Nibbles) (child_nibble : Z)
    (f : ChildRef -> ChildRef) : outcome WorkingPatchSet :=
  match working_get ps key with
  | Some (Internal parent) =>
      '(parent, present) ← modify_child_ref parent child_nibble f;
      _ ← rust_assert present UNWRAP_NONE;
      Ret (working_insert ps key (Internal parent))
  | _ => Panics UNWRAP_NONE
  end.

(** The level is collected into a map, later nodes replacing earlier ones. *)
Definition level_from_db (level : list (NodeKey * Node)) : gmap (list Z) WorkingNode :=
  foldl (fun m '(key, node) =>
      <[nibble_bytes (nk_nibbles key) := {| inner := node; prev_version := Some (nk_version key) |}]> m)
    ∅ level.

Definition push_level_from_db (ps : WorkingPatchSet) (level : list (NodeKey * Node)) : WorkingPatchSet :=
  {| root_version := root_version ps;
     changes_by_nibble_count := changes_by_nibble_count ps ++ [level_from_db level] |}.

Definition ensure_internal_root_node (ps : WorkingPatchSet) : outcome (InternalNode * WorkingPatchSet) :=
  match working_get ps EMPTY with
  | Some (Internal node) => Ret (internal_clone node, ps)
  | Some (Leaf leaf) =>
      first_nibble ← nibble (full_key leaf) 0;
      internal_node ← insert_child_ref internal_default first_nibble (child_leaf (root_version ps));
      let ps := working_insert ps EMPTY (Internal (internal_clone internal_node)) in
      leaf_nibbles ← nibbles_new (full_key leaf) 1;
      Ret (internal_node, working_insert ps leaf_nibbles (Leaf leaf))
  | None => Ret (internal_default, working_insert ps EMPTY (Internal internal_default))
  end.

Definition SUBTREE_COUNT : nat := 16.

(** The first nibble of the path of a node below the root. *)
Definition first_nibble (bytes : list Z) : Z := Z.shiftr (bytes !!! 0%nat) 4.

(** [WorkingPatchSet::split]: the root goes to all parts, the other nodes to the part of
    their first nibble. *)
Definition working_split (ps : WorkingPatchSet) : list WorkingPatchSet :=
  (fun i =>
     {| root_version := root_version ps;
        changes_by_nibble_count :=
          imap (fun count level =>
              if (count =? 0)%nat then level
              else filter (fun kv => first_nibble kv.1 = Z.of_nat i) level)
            (changes_by_nibble_count ps) |})
  <$> seq 0 SUBTREE_COUNT.

(** [WorkingPatchSet::merge]; the root level is left alone. *)
Definition working_merge (ps other : WorkingPatchSet) : WorkingPatchSet :=
  {| root_version := root_version ps;
     changes_by_nibble_count :=
       imap (fun count level =>
           match count, changes_by_nibble_count other !! count with
           | S _, Some src_level => src_level ∪ level
           | _, _ => level
           end)
         (extend_levels (changes_by_nibble_count ps) (length (changes_by_nibble_count other))) |}.

Definition take_root (ps : WorkingPatchSet) : option Node * WorkingPatchSet :=
  (working_get ps EMPTY,
   {| root_version := root_version ps;
      changes_by_nibble_count := alter (delete (nibble_bytes EMPTY)) 0%nat (changes_by_nibble_count ps) |}).

(** *** Finalization *)

(** A node of a level with its hash, if that is computed. *)
Record HashedNode := { hn_nibbles : Nibbles; hn_hash : option Z; hn_node : WorkingNode }.

(** What the loop of [finalize_inner] accumulates. *)
Record FinalizeState := {
  levels : list (gmap (list Z) WorkingNode);
  patched_nodes : gmap NodeKey Node;
  finalize_stale_keys : list NodeKey;
}.

(** One node below the root: its parent is on the last of the remaining levels. *)
Definition finalize_node (operation : Operation) (st : FinalizeState) (n : HashedNode) :
    outcome FinalizeState :=
  let upper := (length (levels st) - 1)%nat in
  upper_level_changes ← index_vec (levels st) upper;
  split ← split_last (hn_nibbles n);
  '(parent_nibbles, last_nibble) ← expect split UNWRAP_NONE;
  parent ← expect (upper_level_changes !! nibble_bytes parent_nibbles) UNWRAP_NONE;
  match inner parent with
  | Leaf _ => Panics "internal error: entered unreachable code: Node parent must be an internal node"
  | Internal parent_node =>
      self_ref ← child_ref parent_node last_nibble;
      self_ref ← expect self_ref UNWRAP_NONE;
      '(parent_node, _) ← modify_child_ref parent_node last_nibble
        (fun c => match hn_hash n with
                  | Some hash => {| cr_hash := hash; cr_version := cr_version c; is_leaf := is_leaf c |}
                  | None => c
                  end);
      let node_version := cr_version self_ref in
      let was_replaced :=
        match prev_version (hn_node n) with None => true | Some prev => prev <? node_version end in
      Ret {| levels :=
               <[upper := <[nibble_bytes parent_nibbles :=
                   {| inner := Internal parent_node; prev_version := prev_version parent |}]>
                   upper_level_changes]> (levels st);
             patched_nodes :=
               if was_replaced || bool_decide (operation = Update)
               then <[with_version (hn_nibbles n) node_version := inner (hn_node n)]> (patched_nodes st)
               else patched_nodes st;
             finalize_stale_keys :=
               finalize_stale_keys st ++
                 match was_replaced, prev_version (hn_node n) with
                 | true, Some prev => [with_version (hn_nibbles n) prev]
                 | _, _ => []
                 end |}
  end.

(** The root of the new version. *)
Definition finalize_root (root_version : Z) (manifest : Manifest) (leaf_count : Z) (operation : Operation)
    (patched_nodes : gmap NodeKey Node) (stale_keys : list NodeKey) (n : HashedNode) :
    outcome (option Z * PatchSet) :=
  let stale_keys :=
    stale_keys ++
      match operation, prev_version (hn_node n) with
      | Insert, Some prev => [with_version (hn_nibbles n) prev]
      | _, _ => []
      end in
  root ← root_new leaf_count (inner (hn_node n));
  Ret (hn_hash n, patch_new manifest root_version root patched_nodes stale_keys operation).

(** The levels are popped from the lowest one; [remaining] is their number. *)
Fixpoint finalize_levels (root_version : Z) (manifest : Manifest) (leaf_count : Z) (operation : Operation)
    (map_level_changes : nat -> gmap (list Z) WorkingNode -> outcome (list HashedNode))
    (remaining : nat) (st : FinalizeState) : outcome (option Z * PatchSet) :=
  match remaining with
  | O => Panics "internal error: entered unreachable code: We should have returned when the root node was encountered above"
  | S nibble_count =>
      level_changes ← index_vec (levels st) nibble_count;
      let upper_levels := take nibble_count (levels st) in
      hashed_nodes ← map_level_changes nibble_count level_changes;
      match nibble_count, hashed_nodes with
      | O, n :: _ =>
          finalize_root root_version manifest leaf_count operation (patched_nodes st)
            (finalize_stale_keys st) n
      | _, _ =>
          st ← foldM (finalize_node operation)
                 {| levels := upper_levels; patched_nodes := patched_nodes st;
                    finalize_stale_keys := finalize_stale_keys st |} hashed_nodes;
          finalize_levels root_version manifest leaf_count operation map_level_changes nibble_count st
      end
  end.

Definition finalize_inner (ps : WorkingPatchSet) (manifest : Manifest) (leaf_count : Z)
    (operation : Operation)
    (map_level_changes : nat -> gmap (list Z) WorkingNode -> outcome (list HashedNode)) :
    outcome (option Z * PatchSet) :=
  let changes := changes_by_nibble_count ps in
  if forallb (fun level => bool_decide (level = ∅)) changes
  then Ret (None, patch_for_empty_root manifest (root_version ps))
  else finalize_levels (root_version ps) manifest leaf_count operation map_level_changes (length changes)
         {| levels := changes; patched_nodes := ∅; finalize_stale_keys := [] |}.

Section Hashing.
Context `{!HashTree}.

Definition hash_level_nodes (nibble_count : nat) (level_changes : gmap (list Z) WorkingNode) :
    outcome (list HashedNode) :=
  map_outcome (fun '(bytes, node) =>
      hash ← node_hash (inner node) (nibble_count * 4);
      Ret {| hn_nibbles := nibbles_from_parts bytes nibble_count; hn_hash := Some hash; hn_node := node |})
    (map_to_list level_changes).

(** [WorkingPatchSet::finalize] *)
Definition working_finalize (ps : WorkingPatchSet) (manifest : Manifest) (leaf_count : Z)
    (operation : Operation) : outcome (Z * PatchSet) :=
  '(root_hash, patch) ← finalize_inner ps manifest leaf_count operation hash_level_nodes;
  root_hash ← match root_hash with Some hash => Ret hash | None => empty_tree_hash end;
  Ret (root_hash, patch).
End Hashing.

Definition plain_level_nodes (nibble_count : nat) (level_changes : gmap (list Z) WorkingNode) :
    outcome (list HashedNode) :=
  Ret ((fun '(bytes, node) =>
          {| hn_nibbles := nibbles_from_parts bytes nibble_count; hn_hash := None; hn_node := node |})
       <$> map_to_list level_changes).

Definition finalize_without_hashing (ps : WorkingPatchSet) (manifest : Manifest) (leaf_count : Z) :
    outcome PatchSet :=
  '(_, patch) ← finalize_inner ps manifest leaf_count Insert plain_level_nodes; Ret patch.

(** *** Loading of nodes *)

(** [SortedKeys::new]; the order of equal keys does not matter. *)
Definition sorted_keys (keys : list Z) : list (nat * Z) :=
  stable_sort (fun x y => x.2 <=? y.2) (imap pair keys).

(** What the loop over the keys on one level of [load_ancestors] accumulates. *)
Record LoadState := {
  found_prefixes : list (option Nibbles);
  prev_nibbles : option Nibbles;
  requested_keys : list (NodeKey * bool);
}.

Definition request_key (ps : WorkingPatchSet) (nibble_count : nat) (st : LoadState) (indexed : nat * Z) :
    outcome LoadState :=
  let '(idx, key) := indexed in
  found ← index_vec (found_prefixes st) idx;
  match found with
  | Some _ => Ret st
  | None =>
      let set_prefix nibbles :=
        {| found_prefixes := <[idx := Some nibbles]> (found_prefixes st);
           prev_nibbles := prev_nibbles st; requested_keys := requested_keys st |} in
      if (2 * KEY_SIZE <? nibble_count)%nat then
        nibbles ← nibbles_new key (2 * KEY_SIZE); Ret (set_prefix nibbles)
      else
        nibbles ← nibbles_new key nibble_count;
        split ← split_last nibbles;
        '(this_parent_nibbles, last_nibble) ← expect split UNWRAP_NONE;
        this_ref ← working_child_ref ps this_parent_nibbles last_nibble;
        match this_ref with
        | None => Ret (set_prefix this_parent_nibbles)
        | Some this_ref =>
            if bool_decide (prev_nibbles st = Some nibbles) then Ret st
            else Ret {| found_prefixes := found_prefixes st; prev_nibbles := Some nibbles;
                        requested_keys := requested_keys st ++
                          [(with_version nibbles (cr_version this_ref), is_leaf this_ref)] |}
        end
  end.

Section Loading.
Context {DB : Type} `{!Database DB}.

Fixpoint load_levels (fuel : nat) (db : DB) (keys : list (nat * Z)) (nibble_count : nat)
    (ps : WorkingPatchSet) (found : list (option Nibbles)) (prev : option Nibbles) (db_reads : Z) :
    outcome (WorkingPatchSet * list (option Nibbles) * Z) :=
  match fuel with
  | O => Panics "internal error: the levels are exhausted"
  | S fuel' =>
      st ← foldM (request_key ps nibble_count)
             {| found_prefixes := found; prev_nibbles := prev; requested_keys := [] |} keys;
      match requested_keys st with
      | [] => Ret (ps, found_prefixes st, db_reads)
      | _ =>
          new_nodes ← tree_nodes db (requested_keys st);
          level ← map_outcome (fun '((key, _), node) => node ← expect node UNWRAP_NONE; Ret (key, node))
                    (zip (requested_keys st) new_nodes);
          load_levels fuel' db keys (nibble_count + 1) (push_level_from_db ps level)
            (found_prefixes st) (prev_nibbles st) (db_reads + Z.of_nat (length new_nodes))
      end
  end.

(** [WorkingPatchSet::load_ancestors]; level [2 * KEY_SIZE + 1] requests nothing. *)
Definition load_ancestors (ps : WorkingPatchSet) (keys : list (nat * Z)) (db : DB) :
    outcome (LoadAncestorsResult * WorkingPatchSet) :=
  match working_get ps EMPTY with
  | Some (Internal _) =>
      '(ps, found, db_reads) ←
        load_levels (2 * KEY_SIZE + 1) db keys 1 ps (replicate (length keys) None) None 0;
      longest_prefixes ← map_outcome (fun prefix => expect prefix UNWRAP_NONE) found;
      Ret ({| longest_prefixes := longest_prefixes; db_reads := db_reads |}, ps)
  | _ => Ret ({| longest_prefixes := replicate (length keys) EMPTY; db_reads := 0 |}, ps)
  end.

Fixpoint greatest_key_loop (fuel : nat) (db : DB) (ps : WorkingPatchSet) (nibbles : Nibbles) (db_reads : Z) :
    outcome (option (LeafNode * LoadAncestorsResult) * WorkingPatchSet) :=
  match fuel with
  | O => Panics "internal error: the levels are exhausted"
  | S fuel' =>
      match working_get ps nibbles with
      | None => Ret (None, ps)
      | Some (Leaf leaf) =>
          Ret (Some (leaf, {| longest_prefixes := [nibbles]; db_reads := db_reads |}), ps)
      | Some (Internal node) =>
          '(next_nibble, child_ref) ← last_child_ref node;
          nibbles ← nibbles_push nibbles next_nibble;
          nibbles ← expect nibbles UNWRAP_NONE;
          let child_key := with_version nibbles (cr_version child_ref) in
          child_node ← tree_node db child_key (is_leaf child_ref);
          child_node ← expect child_node UNWRAP_NONE;
          greatest_key_loop fuel' db (push_level_from_db ps [(child_key, child_node)]) nibbles (db_reads + 1)
      end
  end.

(** [WorkingPatchSet::load_greatest_key] *)
Definition working_load_greatest_key (ps : WorkingPatchSet) (db : DB) :
    outcome (option (LeafNode * LoadAncestorsResult) * WorkingPatchSet) :=
  greatest_key_loop (2 * KEY_SIZE + 1) db ps EMPTY 0.
End Loading.

Fixpoint traverse_from (fuel : nat) (ps : WorkingPatchSet) (key : Z) (nibble_idx : nat) :
    outcome TraverseOutcome :=
  match fuel with
  | O => Panics "internal error: entered unreachable code: We must have encountered a leaf or missing node when traversing"
  | S fuel' =>
      nibbles ← nibbles_new key nibble_idx;
      match working_get ps nibbles with
      | Some (Internal _) => traverse_from fuel' ps key (nibble_idx + 1)
      | Some (Leaf leaf) =>
          if full_key leaf =? key then Ret (LeafMatch nibbles leaf) else Ret (LeafMismatch nibbles leaf)
      | None => Ret (MissingChild nibbles)
      end
  end.

(** [WorkingPatchSet::traverse]; [Nibbles::new] panics beyond [2 * KEY_SIZE] nibbles. *)
Definition traverse (ps : WorkingPatchSet) (key : Z) (parent_nibbles : Nibbles) : outcome TraverseOutcome :=
  traverse_from (2 * KEY_SIZE + 2) ps key (nibble_count parent_nibbles).

(** ** Updates *)

(** [TreeUpdater]; of the metrics only the number of new leaves is used. *)
Record TreeUpdater := { patch_set : WorkingPatchSet; new_leaves : Z }.

(** [NewLeafData] *)
Record NewLeafData := {
  nld_nibbles : Nibbles;
  nld_leaf : LeafNode;
  adjacent_leaf : option (Nibbles * LeafNode);
}.

(** [TreeUpdater::new] *)
Definition updater_new (version : Z) (root : Root) : TreeUpdater :=
  {| patch_set := working_new version root; new_leaves := 0 |}.

Definition with_patch_set (u : TreeUpdater) (ps : WorkingPatchSet) : TreeUpdater :=
  {| patch_set := ps; new_leaves := new_leaves u |}.

Definition set_root_node (u : TreeUpdater) (node : Node) : TreeUpdater :=
  with_patch_set u (working_insert (patch_set u) EMPTY node).

Definition insert_node (u : TreeUpdater) (nibbles : Nibbles) (node : Node) (is_new : bool) : TreeUpdater :=
  {| patch_set := working_insert (patch_set u) nibbles node;
     new_leaves := match node, is_new with
                   | Leaf _, true => new_leaves u + 1
                   | _, _ => new_leaves u
                   end |}.

Definition updater_load_greatest_key {DB} `{!Database DB} (u : TreeUpdater) (db : DB) :
    outcome (option (LeafNode * Nibbles) * TreeUpdater) :=
  '(loaded, ps) ← working_load_greatest_key (patch_set u) db;
  match loaded with
  | None => Ret (None, with_patch_set u ps)
  | Some (leaf, load_result) =>
      _ ← rust_assert (length (longest_prefixes load_result) =? 1)%nat "assertion failed";
      nibbles ← index_vec (longest_prefixes load_result) 0;
      Ret (Some (leaf, nibbles), with_patch_set u ps)
  end.

Definition update_moved_leaf_ref (u : TreeUpdater) (leaf_nibbles : Nibbles) : outcome TreeUpdater :=
  split ← split_last leaf_nibbles;
  match split with
  | None => Ret u
  | Some (parent_nibbles, last_nibble) =>
      ps ← working_modify_child_ref (patch_set u) parent_nibbles last_nibble
             (fun c => {| cr_hash := cr_hash c; cr_version := cr_version c; is_leaf := false |});
      Ret (with_patch_set u ps)
  end.

(** The loop that creates the internal nodes down to the fork of two keys. *)
Fixpoint fork_loop (fuel : nat) (u : TreeUpdater) (version key moved_key : Z) (nibble_idx : nat) :
    outcome (TreeUpdater * nat) :=
  match fuel with
  | O => Panics "internal error: the nibbles are exhausted"
  | S fuel' =>
      moved_leaf_nibble ← nibble moved_key nibble_idx;
      new_leaf_nibble ← nibble key nibble_idx;
      node ←
        (if moved_leaf_nibble =? new_leaf_nibble then
           insert_child_ref internal_default new_leaf_nibble (child_internal version)
         else
           node ← insert_child_ref internal_default new_leaf_nibble (child_leaf version);
           insert_child_ref node moved_leaf_nibble (child_leaf version));
      node_nibbles ← nibbles_new key nibble_idx;
      let u := insert_node u node_nibbles (Internal node) true in
      if negb (moved_leaf_nibble =? new_leaf_nibble) then Ret (u, nibble_idx)
      else fork_loop fuel' u version key moved_key (nibble_idx + 1)
  end.

(** The loop that raises the versions of the references up to the root. *)
Fixpoint raise_versions (fuel : nat) (ps : WorkingPatchSet) (version : Z) (cursor : Nibbles) :
    outcome WorkingPatchSet :=
  match fuel with
  | O => Panics "internal error: the nibbles are exhausted"
  | S fuel' =>
      split ← split_last cursor;
      match split with
      | None => Ret ps
      | Some (parent_nibbles, last_nibble) =>
          ps ← working_modify_child_ref ps parent_nibbles last_nibble
                 (fun c => {| cr_hash := cr_hash c; cr_version := Z.max (cr_version c) version;
                              is_leaf := is_leaf c |});
          raise_versions fuel' ps version parent_nibbles
      end
  end.

(** The first part of [TreeUpdater::insert]: the changes at the end of the traversal, by its
    outcome. *)
Definition insert_at (u : TreeUpdater) (entry : TreeEntry) (outcome_ : TraverseOutcome) :
    outcome (TreeUpdater * TreeLogEntry * NewLeafData) :=
  let version := root_version (patch_set u) in
  let key := te_key entry in
  match outcome_ with
  | LeafMatch nibbles leaf =>
      let log := Updated (leaf_index leaf) (value_hash leaf) in
      let leaf := leaf_update_from leaf entry in
      Ret (with_patch_set u (working_insert (patch_set u) nibbles (Leaf leaf)), log,
           {| nld_nibbles := nibbles; nld_leaf := leaf; adjacent_leaf := None |})
  | LeafMismatch nibbles leaf =>
      u ← update_moved_leaf_ref u nibbles;
      '(u, nibble_idx) ←
        fork_loop (2 * KEY_SIZE + 1) u version key (full_key leaf) (nibble_count nibbles);
      new_leaf_nibbles ← nibbles_new key (nibble_idx + 1);
      moved_leaf_nibbles ← nibbles_new (full_key leaf) (nibble_idx + 1);
      Ret (u, Inserted,
           {| nld_nibbles := new_leaf_nibbles; nld_leaf := leaf_new entry;
              adjacent_leaf := Some (moved_leaf_nibbles, leaf) |})
  | MissingChild nibbles =>
      if (nibble_count nibbles =? 0)%nat then
        let root_leaf := leaf_new entry in
        Ret (set_root_node u (Leaf root_leaf), Inserted,
             {| nld_nibbles := EMPTY; nld_leaf := root_leaf; adjacent_leaf := None |})
      else
        split ← split_last nibbles;
        '(parent_nibbles, last_nibble) ← expect split UNWRAP_NONE;
        match working_get (patch_set u) parent_nibbles with
        | Some (Internal parent) =>
            parent ← insert_child_ref parent last_nibble (child_leaf version);
            Ret (with_patch_set u (working_insert (patch_set u) parent_nibbles (Internal parent)), Inserted,
                 {| nld_nibbles := nibbles; nld_leaf := leaf_new entry; adjacent_leaf := None |})
        | _ => Panics "internal error: entered unreachable code: Node parent must be an internal node"
        end
  end.

(** [TreeUpdater::insert] *)
Definition updater_insert (u : TreeUpdater) (entry : TreeEntry) (parent_nibbles : Nibbles) :
    outcome (TreeUpdater * TreeLogEntry * NewLeafData) :=
  let version := root_version (patch_set u) in
  traverse_outcome ← traverse (patch_set u) (te_key entry) parent_nibbles;
  '(u, log, leaf_data) ← insert_at u entry traverse_outcome;
  let u := match log with
           | Inserted => insert_node u (nld_nibbles leaf_data) (Leaf (nld_leaf leaf_data)) true
           | _ => u
           end in
  let u := match adjacent_leaf leaf_data with
           | Some (nibbles, leaf) => insert_node u nibbles (Leaf leaf) false
           | None => u
           end in
  ps ← raise_versions (2 * KEY_SIZE + 1) (patch_set u) version (position traverse_outcome);
  Ret (with_patch_set u ps, log, leaf_data).

(** ** Storage *)

Record Storage := {
  st_manifest : Manifest;
  st_leaf_count : Z;
  st_operation : Operation;
  st_updater : TreeUpdater;
}.

Section Storage.
Context `{!HashTree} {DB : Type} `{!Database DB}.

(** [Storage::new]; the links to the database and the hasher are arguments of the operations. *)
Definition storage_new (db : DB) (version : Z) (create_new_version : bool) : outcome Storage :=
  stored ← manifest db;
  let stored := default manifest_default stored in
  let new_tags := match tags stored with Some tags => tags | None => tags_new hasher_name end in
  let base_version := if create_new_version then checked_pred version else Some version in
  root ← match base_version with
         | Some base_version => root ← db_root db base_version; Ret (default RootEmpty root)
         | None => Ret RootEmpty
         end;
  Ret {| st_manifest := {| version_count := wrap 64 (version + 1); tags := Some new_tags |};
         st_leaf_count := root_leaf_count root;
         st_operation := if create_new_version then Insert else Update;
         st_updater := updater_new version root |}.

(** [Storage::finalize] *)
Definition storage_finalize (s : Storage) : outcome (Z * PatchSet) :=
  working_finalize (patch_set (st_updater s)) (st_manifest s) (st_leaf_count s) (st_operation s).

(** The loop of [extend] over the entries and the positions loaded for them. *)
Definition extend_step (acc : TreeUpdater * Z * list TreeLogEntry) (e : TreeEntry * Nibbles) :
    outcome (TreeUpdater * Z * list TreeLogEntry) :=
  let '(u, leaf_count, logs) := acc in
  '(u, log, _) ← updater_insert u e.1 e.2;
  Ret (u, match log with Inserted => wrap 64 (leaf_count + 1) | _ => leaf_count end, logs ++ [log]).

(** [Storage::extend] *)
Definition storage_extend (s : Storage) (db : DB) (entries : list TreeEntry) :
    outcome (BlockOutput * PatchSet) :=
  '(loaded, ps) ← load_ancestors (patch_set (st_updater s)) (sorted_keys (te_key <$> entries)) db;
  '(u, leaf_count, logs) ←
    foldM extend_step (with_patch_set (st_updater s) ps, st_leaf_count s, [])
      (zip entries (longest_prefixes loaded));
  '(root_hash, patch) ←
    storage_finalize {| st_manifest := st_manifest s; st_leaf_count := leaf_count;
                        st_operation := st_operation s; st_updater := u |};
  Ret ({| root_hash := root_hash; leaf_count := leaf_count; logs := logs |}, patch).

Definition greatest_key (s : Storage) (db : DB) : outcome (option Z) :=
  '(loaded, _) ← updater_load_greatest_key (st_updater s) db;
  Ret (match loaded with Some (leaf, _) => Some (full_key leaf) | None => None end).

(** One entry of [extend_during_linear_recovery]. *)
Definition linear_recovery_step (acc : TreeUpdater * Z * option Z * Nibbles) (entry : TreeEntry) :
    outcome (TreeUpdater * Z * option Z * Nibbles) :=
  let '(u, leaf_count, prev_key, prev_nibbles) := acc in
  _ ← match prev_key with
      | Some prev_key => rust_assert (prev_key <? te_key entry) "Recovery entries must be ordered by increasing key"
      | None => Ret tt
      end;
  key_nibbles ← nibbles_new (te_key entry) (nibble_count prev_nibbles);
  parent_nibbles ← common_prefix prev_nibbles key_nibbles;
  '(u, _, new_leaf) ← updater_insert u entry parent_nibbles;
  Ret (u, wrap 64 (leaf_count + 1), Some (te_key entry), nld_nibbles new_leaf).

Definition extend_during_linear_recovery (s : Storage) (db : DB) (recovery_entries : list TreeEntry) :
    outcome PatchSet :=
  '(loaded, u) ← updater_load_greatest_key (st_updater s) db;
  let '(prev_key, prev_nibbles) :=
    match loaded with
    | Some (leaf, nibbles) => (Some (full_key leaf), nibbles)
    | None => (None, EMPTY)
    end in
  '(u, leaf_count, _, _) ←
    foldM linear_recovery_step (u, st_leaf_count s, prev_key, prev_nibbles) recovery_entries;
  '(_, patch) ←
    storage_finalize {| st_manifest := st_manifest s; st_leaf_count := leaf_count;
                        st_operation := st_operation s; st_updater := u |};
  Ret patch.

(** One entry of [extend_during_random_recovery]; the count grows for every entry. *)
Definition random_recovery_step (acc : TreeUpdater * Z) (e : TreeEntry * Nibbles) :
    outcome (TreeUpdater * Z) :=
  let '(u, leaf_count) := acc in
  '(u, _, _) ← updater_insert u e.1 e.2;
  Ret (u, wrap 64 (leaf_count + 1)).

Definition extend_during_random_recovery (s : Storage) (db : DB) (recovery_entries : list TreeEntry) :
    outcome PatchSet :=
  '(loaded, ps) ← load_ancestors (patch_set (st_updater s)) (sorted_keys (te_key <$> recovery_entries)) db;
  '(u, leaf_count) ←
    foldM random_recovery_step (with_patch_set (st_updater s) ps, st_leaf_count s)
      (zip recovery_entries (longest_prefixes loaded));
  '(_, patch) ←
    storage_finalize {| st_manifest := st_manifest s; st_leaf_count := leaf_count;
                        st_operation := st_operation s; st_updater := u |};
  Ret patch.
End Storage.

(** ** Merkle proofs *)

Section Proving.
Context `{!HashTree}.

(** The loop of [create_proof] from the end of the traversal up to the root of the proof. *)
Fixpoint prove_loop (fuel : nat) (ps : WorkingPatchSet) (nibbles : Nibbles) (root_nibble_count : nat)
    (p : MerklePath) : outcome (WorkingPatchSet * MerklePath) :=
  match fuel with
  | O => Panics "internal error: the nibbles are exhausted"
  | S fuel' =>
      split ← split_last nibbles;
      match split with
      | None => Ret (ps, p)
      | Some (parent_nibbles, last_nibble) =>
          if (nibble_count parent_nibbles <? root_nibble_count)%nat then Ret (ps, p)
          else
            match working_get ps parent_nibbles with
            | Some (Internal parent) =>
                '(parent, p) ← extend_merkle_path parent (nibble_count parent_nibbles * 4) last_nibble p;
                prove_loop fuel' (working_insert ps parent_nibbles (Internal parent)) parent_nibbles
                  root_nibble_count p
            | _ => Panics "internal error: entered unreachable code"
            end
      end
  end.

(** The path below a leaf with another key: the leaf at the level where the keys diverge, then
    empty subtrees. *)
Definition mismatch_path (key : Z) (nibbles : Nibbles) (leaf : LeafNode) : outcome MerklePath :=
  let diverging_level := (find_diverging_bit key (full_key leaf) + 1)%nat in
  adjacent_hash ← leaf_hash leaf diverging_level;
  path ← path_push (path_new diverging_level) (Some adjacent_hash);
  foldM (fun path _ => path_push path None) path
    (seq (4 * nibble_count nibbles + 1) (diverging_level - (4 * nibble_count nibbles + 1))).

Definition create_proof (ps : WorkingPatchSet) (key : Z) (parent_nibbles : Nibbles)
    (root_nibble_count : nat) : outcome (option LeafNode * MerklePath * WorkingPatchSet) :=
  traverse_outcome ← traverse ps key parent_nibbles;
  let nibbles := position traverse_outcome in
  path ← match traverse_outcome with
         | LeafMismatch nibbles leaf => mismatch_path key nibbles leaf
         | _ => Ret (path_new (nibble_count nibbles * 4))
         end;
  '(ps, path) ← prove_loop (2 * KEY_SIZE + 1) ps nibbles root_nibble_count path;
  Ret (match traverse_outcome with LeafMatch _ leaf => Some leaf | _ => None end, path, ps).

Definition SUBTREE_ROOT_LEVEL : nat := 4.

(** The loop of [update_node_hashes] from a leaf up to the root of its subtree. *)
Fixpoint update_hashes_loop (fuel : nat) (ps : WorkingPatchSet) (nibbles : Nibbles) (node_hash : Z)
    (p : MerklePath) : outcome (WorkingPatchSet * Z * MerklePath) :=
  match fuel with
  | O => Panics "internal error: the nibbles are exhausted"
  | S fuel' =>
      split ← split_last nibbles;
      match split with
      | None => Ret (ps, node_hash, p)
      | Some (parent_nibbles, last_nibble) =>
          if (nibble_count parent_nibbles =? 0)%nat then Ret (ps, node_hash, p)
          else
            match working_get ps parent_nibbles with
            | Some (Internal parent) =>
                let parent_level := (nibble_count parent_nibbles * 4)%nat in
                '(node_hash, parent) ← update_child_hash parent parent_level last_nibble node_hash;
                '(parent, p) ← extend_merkle_path parent parent_level last_nibble p;
                update_hashes_loop fuel' (working_insert ps parent_nibbles (Internal parent))
                  parent_nibbles node_hash p
            | _ => Panics "internal error: entered unreachable code"
            end
      end
  end.

Definition update_node_hashes (ps : WorkingPatchSet) (leaf_data : NewLeafData) :
    outcome (WorkingPatchSet * Z * MerklePath) :=
  ps ← match adjacent_leaf leaf_data with
       | None => Ret ps
       | Some (nibbles, leaf) =>
           split ← split_last nibbles;
           '(parent_nibbles, last_nibble) ← expect split UNWRAP_NONE;
           hash ← leaf_hash leaf (nibble_count nibbles * 4);
           working_modify_child_ref ps parent_nibbles last_nibble
             (fun c => {| cr_hash := hash; cr_version := cr_version c; is_leaf := is_leaf c |})
       end;
  let nibbles := nld_nibbles leaf_data in
  let leaf_level := (nibble_count nibbles * 4)%nat in
  hash ← leaf_hash (nld_leaf leaf_data) leaf_level;
  update_hashes_loop (2 * KEY_SIZE + 1) ps nibbles hash (path_new leaf_level).

Definition prove (ps : WorkingPatchSet) (key : Z) (parent_nibbles : Nibbles) :
    outcome (TreeLogEntry * MerklePath * WorkingPatchSet) :=
  '(leaf, path, ps) ← create_proof ps key parent_nibbles (SUBTREE_ROOT_LEVEL / 4);
  Ret (match leaf with
       | Some leaf => LogRead (leaf_index leaf) (value_hash leaf)
       | None => ReadMissingKey
       end, path, ps).

Record InstructionWithPrecomputes := {
  index : nat;
  instruction : TreeInstruction;
  parent_nibbles : Nibbles;
}.

(** One instruction of [extend_precomputed]. *)
Definition precomputed_step
    (acc : TreeUpdater * Z * list (nat * TreeLogEntryWithProof MerklePath))
    (i : InstructionWithPrecomputes) :
    outcome (TreeUpdater * Z * list (nat * TreeLogEntryWithProof MerklePath)) :=
  let '(u, root_hash, logs) := acc in
  match instruction i with
  | TWrite entry =>
      '(u, log, leaf_data) ← updater_insert u entry (parent_nibbles i);
      '(ps, root_hash, path) ← update_node_hashes (patch_set u) leaf_data;
      Ret (with_patch_set u ps, root_hash,
           logs ++ [(index i, {| log_base := log; log_path := path; log_root_hash := root_hash |})])
  | TRead key =>
      '(log, path, ps) ← prove (patch_set u) key (parent_nibbles i);
      Ret (with_patch_set u ps, root_hash,
           logs ++ [(index i, {| log_base := log; log_path := path; log_root_hash := root_hash |})])
  end.

Definition extend_precomputed (u : TreeUpdater) (first_nibble : Z)
    (instructions : list InstructionWithPrecomputes) :
    outcome (TreeUpdater * list (nat * TreeLogEntryWithProof MerklePath)) :=
  root_nibbles ← nibbles_single first_nibble;
  root_hash ← match working_get (patch_set u) root_nibbles with
              | Some node => node_hash node SUBTREE_ROOT_LEVEL
              | None => empty_subtree_hash SUBTREE_ROOT_LEVEL
              end;
  '(u, _, logs) ← foldM precomputed_step (u, root_hash, []) instructions;
  Ret (u, logs).

(** [TreeUpdater::split] and [TreeUpdater::merge] *)
Definition updater_split (u : TreeUpdater) : list TreeUpdater :=
  (fun ps => {| patch_set := ps; new_leaves := 0 |}) <$> working_split (patch_set u).

Definition updater_merge (u other : TreeUpdater) : TreeUpdater :=
  {| patch_set := working_merge (patch_set u) (patch_set other);
     new_leaves := new_leaves u + new_leaves other |}.

(** One log of [finalize_logs]: the root node is updated and the path is completed. *)
Definition finalize_log (version : Z) (is_leaf_by_subtree : list bool)
    (acc : InternalNode * Z * list (TreeLogEntryWithProof (list Z)))
    (l : nat * TreeLogEntryWithProof MerklePath) :
    outcome (InternalNode * Z * list (TreeLogEntryWithProof (list Z))) :=
  let '(root, root_hash, logs) := acc in
  let '(subtree_idx, log) := l in
  let nibble := Z.of_nat subtree_idx in
  '(root, root_hash) ←
    (if log_is_read (log_base log) then Ret (root, root_hash)
     else
       is_leaf ← index_vec is_leaf_by_subtree subtree_idx;
       root ← ensure_child_ref root nibble version is_leaf;
       '(root_hash, root) ← update_child_hash root 0 nibble (log_root_hash log);
       Ret (root, root_hash));
  '(root, path) ← extend_merkle_path root 0 nibble (log_path log);
  Ret (root, root_hash,
       logs ++ [{| log_base := log_base log; log_path := path_hashes path; log_root_hash := root_hash |}]).

Definition finalize_logs (u : TreeUpdater) (root : InternalNode)
    (logs : list (nat * TreeLogEntryWithProof MerklePath)) :
    outcome (TreeUpdater * list (TreeLogEntryWithProof (list Z))) :=
  root_hash ← internal_hash root 0;
  is_leaf_by_subtree ← map_outcome (fun subtree_idx =>
      nibbles ← nibbles_single (Z.of_nat subtree_idx);
      Ret (match working_get (patch_set u) nibbles with Some (Leaf _) => true | _ => false end))
    (seq 0 SUBTREE_COUNT);
  '(root, _, logs) ←
    foldM (finalize_log (root_version (patch_set u)) is_leaf_by_subtree) (root, root_hash, []) logs;
  if (child_count root =? 0)%nat
  then Ret (with_patch_set u (take_root (patch_set u)).2, logs)
  else Ret (set_root_node u (Internal root), logs).

(** [InstructionWithPrecomputes::split] *)
Definition split_instruction (parts : list (list InstructionWithPrecomputes))
    (i : nat * (TreeInstruction * Nibbles)) : outcome (list (list InstructionWithPrecomputes)) :=
  let '(index, (instruction, parent_nibbles)) := i in
  first_nibble ← nibble (instruction_key instruction) 0;
  part ← index_vec parts (Z.to_nat first_nibble);
  Ret (<[Z.to_nat first_nibble := part ++
         [{| index := index; instruction := instruction; parent_nibbles := parent_nibbles |}]]> parts).

Definition split_instructions (instructions : list TreeInstruction) (parent_nibbles : list Nibbles) :
    outcome (list (list InstructionWithPrecomputes)) :=
  foldM split_instruction (replicate SUBTREE_COUNT []) (imap pair (zip instructions parent_nibbles)).

(** One part of the parallel traversal of [Storage::extend_with_proofs]. *)
Definition extend_part (p : nat * (TreeUpdater * list InstructionWithPrecomputes)) :
    outcome (TreeUpdater * list (nat * TreeLogEntryWithProof MerklePath)) :=
  extend_precomputed p.2.1 (Z.of_nat p.1) p.2.2.

(** [Storage::finalize_with_proofs] *)
Definition finalize_with_proofs (s : Storage) (root : InternalNode)
    (logs : list (nat * TreeLogEntryWithProof MerklePath)) :
    outcome (BlockOutputWithProofs * PatchSet) :=
  let leaf_count := wrap 64 (st_leaf_count s + new_leaves (st_updater s)) in
  '(u, logs) ← finalize_logs (st_updater s) root logs;
  patch ← finalize_without_hashing (patch_set u) (st_manifest s) leaf_count;
  Ret ({| proof_logs := logs; proof_leaf_count := leaf_count |}, patch).

(** [Storage::extend_with_proofs] *)
Definition storage_extend_with_proofs {DB} `{!Database DB} (s : Storage) (db : DB)
    (instructions : list TreeInstruction) : outcome (BlockOutputWithProofs * PatchSet) :=
  '(loaded, ps) ← load_ancestors (patch_set (st_updater s)) (sorted_keys (instruction_key <$> instructions)) db;
  instruction_parts ← split_instructions instructions (longest_prefixes loaded);
  '(initial_root, ps) ← ensure_internal_root_node ps;
  let initial_leaves := new_leaves (st_updater s) in
  let storage_parts := updater_split (with_patch_set (st_updater s) ps) in
  parts ← map_outcome extend_part (imap pair (zip storage_parts instruction_parts));
  let '(storage_parts, logs) := (parts.*1, parts.*2) in
  u ← match storage_parts with
      | [] => Panics UNWRAP_NONE
      | first :: others => Ret (foldl updater_merge first others)
      end;
  let u := {| patch_set := patch_set u; new_leaves := new_leaves u + initial_leaves |} in
  finalize_with_proofs {| st_manifest := st_manifest s; st_leaf_count := st_leaf_count s;
                          st_operation := st_operation s; st_updater := u |} initial_root (merge_by_index logs).
End Proving.
