(* ===== verification/MerkleTree.v ===== *)
(** * The state tree

    Model of the public interface of [src/core/lib/merkle_tree/src]: [MerkleTree] ([lib.rs]),
    reading of entries with and without proofs ([getters.rs]) and consistency checks
    ([consistency.rs]).  A tree is its database; the hasher is the instance of [HashTree] in
    scope. *)

From S2P Require Import Prelude Bytes Utils TreeUtils TreeTypes TreeHasher TreeDatabase TreeStorage.
Open Scope Z_scope.

Section Tree.
Context `{!HashTree} {DB : Type} `{!Database DB}.
Implicit Types db : DB.

(** ** [lib.rs] *)

(** [MerkleTree::with_hasher] *)
Definition tree_with_hasher db : outcome (result DB string) :=
  stored ← manifest db;
  match stored ≫= tags with
  | Some tags =>
      match ensure_consistency tags hasher_name false with
      | Ok _ => Ret (Ok db)
      | Err err => Ret (Err err)
      end
  | None => Ret (Ok db)
  end.

(** [MerkleTree::root_hash] *)
Definition tree_root_hash db (version : Z) : outcome (option Z) :=
  root ← db_root db version;
  match root with
  | None => Ret None
  | Some root => hash ← root_hash_of root; Ret (Some hash)
  end.

Definition latest_version db : outcome (option Z) :=
  stored ← manifest db;
  Ret (match stored with Some stored => checked_pred (version_count stored) | None => None end).

Definition latest_root_hash db : outcome Z :=
  latest ← latest_version db;
  root_hash ← match latest with Some version => tree_root_hash db version | None => Ret None end;
  match root_hash with Some hash => Ret hash | None => empty_tree_hash end.

Definition latest_root db : outcome Root :=
  latest ← latest_version db;
  root ← match latest with Some version => db_root db version | None => Ret None end;
  Ret (default RootEmpty root).

Definition truncate_recent_versions db (retained_version_count : Z) : outcome (result DB string) :=
  stored ← manifest db;
  let stored := default manifest_default stored in
  if retained_version_count <? version_count stored then
    apply_patch db (patch_from_manifest {| version_count := retained_version_count; tags := tags stored |})
  else Ret (Ok db).

(** [MerkleTree::extend] *)
Definition tree_extend db (entries : list TreeEntry) : outcome (result (BlockOutput * DB) string) :=
  stored ← manifest db;
  let next_version := version_count (default manifest_default stored) in
  storage ← storage_new db next_version true;
  '(output, patch) ← storage_extend storage db entries;
  db <-? apply_patch db patch;;
  Ret (Ok (output, db)).

(** [MerkleTree::extend_with_proofs] *)
Definition tree_extend_with_proofs db (instructions : list TreeInstruction) :
    outcome (result (BlockOutputWithProofs * DB) string) :=
  stored ← manifest db;
  let next_version := version_count (default manifest_default stored) in
  storage ← storage_new db next_version true;
  '(output, patch) ← storage_extend_with_proofs storage db instructions;
  db <-? apply_patch db patch;;
  Ret (Ok (output, db)).

(** ** [getters.rs] *)

Record NoVersionError := { missing_version : Z; nv_version_count : Z }.

(** The transformation may change the nodes that were loaded. *)
Definition load_and_transform_entries {T} db (version : Z) (leaf_keys : list Z)
    (transform : WorkingPatchSet -> Z -> Nibbles -> outcome (T * WorkingPatchSet)) :
    outcome (result (list T) NoVersionError) :=
  root ← db_root db version;
  match root with
  | None =>
      stored ← manifest db;
      Ret (Err {| missing_version := version;
                  nv_version_count := version_count (default manifest_default stored) |})
  | Some root =>
      '(loaded, ps) ← load_ancestors (working_new version root) (sorted_keys leaf_keys) db;
      '(entries, _) ← foldM (fun '(entries, ps) '(leaf_key, longest_prefix) =>
            '(entry, ps) ← transform ps leaf_key longest_prefix;
            Ret (entries ++ [entry], ps))
          ([], ps) (zip leaf_keys (longest_prefixes loaded));
      Ret (Ok entries)
  end.

Definition extract_entry (ps : WorkingPatchSet) (leaf_key : Z) (longest_prefix : Nibbles) : TreeEntry :=
  match working_get ps longest_prefix with
  | Some (Leaf leaf) => if full_key leaf =? leaf_key then entry_from_leaf leaf else entry_empty leaf_key
  | _ => entry_empty leaf_key
  end.

Definition entries db (version : Z) (leaf_keys : list Z) : outcome (result (list TreeEntry) NoVersionError) :=
  load_and_transform_entries db version leaf_keys
    (fun ps leaf_key longest_prefix => Ret (extract_entry ps leaf_key longest_prefix, ps)).

Definition prove_entry (ps : WorkingPatchSet) (leaf_key : Z) (longest_prefix : Nibbles) :
    outcome (TreeEntryWithProof * WorkingPatchSet) :=
  '(leaf, path, ps) ← create_proof ps leaf_key longest_prefix 0;
  let entry := {| te_key := leaf_key;
                  te_value := match leaf with Some leaf => value_hash leaf | None => 0 end;
                  te_leaf_index := match leaf with Some leaf => leaf_index leaf | None => 0 end |} in
  Ret ({| base := entry; merkle_path := path_hashes path |}, ps).

Definition entries_with_proofs db (version : Z) (leaf_keys : list Z) :
    outcome (result (list TreeEntryWithProof) NoVersionError) :=
  load_and_transform_entries db version leaf_keys prove_entry.

(** ** [consistency.rs] *)

Inductive ConsistencyError : Type :=
| Deserialize (err : string)
| MissingVersion (version : Z)
| MissingRoot (version : Z)
| MissingNode (key : NodeKey) (is_leaf : bool)
| TerminalInternalNode (key : NodeKey)
| LeafCountMismatch (expected actual : Z)
| HashMismatch (key : NodeKey) (nibble expected actual : Z)
| FullKeyMismatch (key : NodeKey) (full_key : Z)
| ZeroIndex (full_key : Z)
| LeafIndexOverflow (index leaf_count full_key : Z)
| DuplicateLeafIndex (index full_key : Z)
| EmptyInternalNode (key : NodeKey)
| KeyVersionMismatch (key : NodeKey) (expected_version : Z)
| RootVersionMismatch (max_child_version : Z).

(** [AtomicBitSet], a vector of 64-bit words of which eight bits are used. *)
Definition BITS_PER_ATOMIC : nat := 8.

Definition bit_set_new (len : nat) : list Z :=
  replicate ((len + BITS_PER_ATOMIC - 1) / BITS_PER_ATOMIC) 0.

Definition bit_set_set (bits : list Z) (bit_index : nat) : outcome (bool * list Z) :=
  let atomic_index := (bit_index / BITS_PER_ATOMIC)%nat in
  let shift_in_atomic := (bit_index mod BITS_PER_ATOMIC)%nat in
  atomic ← index_vec bits atomic_index;
  let mask := Z.shiftl 1 (Z.of_nat shift_in_atomic) in
  Ret (negb (Z.land atomic mask =? 0), <[atomic_index := Z.lor atomic mask]> bits).

Record LeafConsistencyData := {
  expected_leaf_count : Z;
  actual_leaf_count : Z;
  leaf_indices_set : list Z;
}.

Definition leaf_data_new (expected_leaf_count : Z) : LeafConsistencyData :=
  {| expected_leaf_count := expected_leaf_count; actual_leaf_count := 0;
     leaf_indices_set := bit_set_new (Z.to_nat expected_leaf_count) |}.

Definition insert_leaf (d : LeafConsistencyData) (leaf : LeafNode) :
    outcome (result LeafConsistencyData ConsistencyError) :=
  if leaf_index leaf =? 0 then Ret (Err (ZeroIndex (full_key leaf)))
  else if expected_leaf_count d <? leaf_index leaf then
    Ret (Err (LeafIndexOverflow (leaf_index leaf) (expected_leaf_count d) (full_key leaf)))
  else
    '(was_set, bits) ← bit_set_set (leaf_indices_set d) (Z.to_nat (leaf_index leaf - 1));
    if (was_set : bool) then Ret (Err (DuplicateLeafIndex (leaf_index leaf) (full_key leaf)))
    else Ret (Ok {| expected_leaf_count := expected_leaf_count d;
                    actual_leaf_count := wrap 64 (actual_leaf_count d + 1);
                    leaf_indices_set := bits |}).

Definition validate_count (d : LeafConsistencyData) : result unit ConsistencyError :=
  if actual_leaf_count d =? expected_leaf_count d then Ok tt
  else Err (LeafCountMismatch (expected_leaf_count d) (actual_leaf_count d)).

(** The greatest version among the child references. *)
Definition max_child_version (node : InternalNode) : option Z :=
  foldr (fun '(_, c) acc => Some (match acc with Some v => Z.max (cr_version c) v | None => cr_version c end))
    None (SmallMap.iter (children node)).

(** The check of the version of an internal node against those of its children. *)
Definition validate_version (key : NodeKey) (expected_version : Z) : result unit ConsistencyError :=
  if negb (node_key_is_empty key) && negb (expected_version =? nk_version key)
  then Err (KeyVersionMismatch key expected_version)
  else if node_key_is_empty key && (nk_version key <? expected_version)
  then Err (RootVersionMismatch expected_version)
  else Ok tt.

(** The loop over the children, which [rayon] runs in parallel, with the data on the leaves
    found so far. *)
Fixpoint validate_children
    (validate : Z * ChildRef -> option LeafConsistencyData ->
                outcome (result (option LeafConsistencyData) ConsistencyError))
    (children : list (Z * ChildRef)) (leaf_data : option LeafConsistencyData) :
    outcome (result (option LeafConsistencyData) ConsistencyError) :=
  match children with
  | [] => Ret (Ok leaf_data)
  | child :: children' =>
      leaf_data <-? validate child leaf_data;; validate_children validate children' leaf_data
  end.

(** One child of an internal node, by the check of nodes. *)
Definition validate_child
    (validate : Node -> NodeKey -> option LeafConsistencyData ->
                outcome (result (Z * option LeafConsistencyData) ConsistencyError))
    db (key : NodeKey) (child : Z * ChildRef) (leaf_data : option LeafConsistencyData) :
    outcome (result (option LeafConsistencyData) ConsistencyError) :=
  let '(nibble, c) := child in
  child_key ← nibbles_push (nk_nibbles key) nibble;
  match child_key with
  | None => Ret (Err (TerminalInternalNode key))
  | Some child_key =>
      let child_key := with_version child_key (cr_version c) in
      match try_tree_node db child_key (is_leaf c) with
      | Err err => Ret (Err (Deserialize err))
      | Ok None => Ret (Err (MissingNode child_key (is_leaf c)))
      | Ok (Some child) =>
          validated <-? validate child child_key leaf_data;;
          let '(child_hash, leaf_data) := validated : Z * option LeafConsistencyData in
          if child_hash =? cr_hash c then Ret (Ok leaf_data)
          else Ret (Err (HashMismatch key nibble (cr_hash c) child_hash))
      end
  end.

(** [validate_node]; a node has at most [2 * KEY_SIZE] ancestors. *)
Fixpoint validate_node (fuel : nat) db (node : Node) (key : NodeKey)
    (leaf_data : option LeafConsistencyData) :
    outcome (result (Z * option LeafConsistencyData) ConsistencyError) :=
  let level := (nibble_count (nk_nibbles key) * 4)%nat in
  match fuel with
  | O => Panics "stack overflow"
  | S fuel' =>
      match node with
      | Leaf leaf =>
          full_key_nibbles ← nibbles_new (full_key leaf) (nibble_count (nk_nibbles key));
          if negb (bool_decide (full_key_nibbles = nk_nibbles key))
          then Ret (Err (FullKeyMismatch key (full_key leaf)))
          else
            leaf_data <-? match leaf_data with
                          | Some leaf_data => d <-? insert_leaf leaf_data leaf;; Ret (Ok (Some d))
                          | None => Ret (Ok None)
                          end;;
            hash ← leaf_hash leaf level; Ret (Ok (hash, leaf_data))
      | Internal inner =>
          match max_child_version inner with
          | None => Ret (Err (EmptyInternalNode key))
          | Some expected_version =>
              _ <-? Ret (validate_version key expected_version);;
              leaf_data <-?
                validate_children (validate_child (validate_node fuel' db) db key)
                  (SmallMap.iter (children inner)) leaf_data;;
              hash ← internal_hash inner level; Ret (Ok (hash, leaf_data))
          end
      end
  end.

(** [MerkleTree::verify_consistency] *)
Definition verify_consistency db (version : Z) (validate_indices : bool) :
    outcome (result unit ConsistencyError) :=
  match try_manifest db with
  | Err err => Ret (Err (Deserialize err))
  | Ok None => Ret (Err (MissingVersion version))
  | Ok (Some stored) =>
      if version_count stored <=? version then Ret (Err (MissingVersion version))
      else
        match try_root db version with
        | Err err => Ret (Err (Deserialize err))
        | Ok None => Ret (Err (MissingRoot version))
        | Ok (Some RootEmpty) => Ret (Ok tt)
        | Ok (Some (RootFilled leaf_count root_node)) =>
            let leaf_data := if validate_indices then Some (leaf_data_new leaf_count) else None in
            validated <-? validate_node (2 * KEY_SIZE + 1) db root_node (with_version EMPTY version) leaf_data;;
            let '(_, leaf_data) := validated : Z * option LeafConsistencyData in
            match leaf_data with
            | Some leaf_data => Ret (validate_count leaf_data)
            | None => Ret (Ok tt)
            end
        end
  end.
End Tree.
