(* ===== verification/TreeDomain.v ===== *)
(** * The state tree of the node

    Model of the parts of [src/core/lib/merkle_tree/src] built on [MerkleTree]: pruning of past
    versions ([pruning.rs]), recovery from a snapshot ([recovery/mod.rs]) and the tree of the
    node, [ZkSyncTree] ([domain.rs]), with the Merkle paths it hands to the witness generator
    ([WitnessInputMerklePaths] of [src/core/lib/prover_interface/src/inputs.rs]).  The database is
    an instance of [PruneDatabase]; RocksDB, threads and channels are outside of the model: the
    loop of the pruner runs over the target versions it observes, one per iteration. *)

From S2P Require Import Prelude Bytes Utils TreeUtils TreeTypes TreeHasher TreeDatabase TreeStorage MerkleTree.
Open Scope Z_scope.

(** ** [pruning.rs] *)

Record PruningStats := {
  target_retained : Z;
  pruned_key_count : nat;
  deleted_versions : Z * Z;
}.

(** [PruningStats::has_more_work] *)
Definition has_more_work (s : PruningStats) : bool :=
  (deleted_versions s).2 <? wrap 64 (target_retained s + 1).

Section Pruning.
Context {DB : Type} `{!Database DB} `{!PruneDatabase DB}.
Implicit Types db : DB.

(** [MerkleTree::first_retained_version] *)
Definition first_retained_version db : outcome (option Z) :=
  match min_stale_key_version db with
  | Some version => Ret (checked_pred version)
  | None => latest_version db
  end.

(** [MerkleTreePruner::last_prunable_version] *)
Definition last_prunable_version db : outcome (option Z) :=
  stored ← manifest db;
  Ret (match stored with Some stored => checked_pred (version_count stored) | None => None end).

(** The loop of [prune_up_to]: the keys collected and the last version visited. *)
Fixpoint collect_stale_keys (target_pruned_key_count : nat) db (versions : list Z)
    (pruned_keys : list NodeKey) (max_stale_key_version : Z) : list NodeKey * Z :=
  match versions with
  | [] => (pruned_keys, max_stale_key_version)
  | version :: versions' =>
      let pruned_keys := pruned_keys ++ stale_keys db version in
      if (target_pruned_key_count <=? length pruned_keys)%nat then (pruned_keys, version)
      else collect_stale_keys target_pruned_key_count db versions' pruned_keys version
  end.

(** [MerkleTreePruner::prune_up_to]; [None] when there is nothing to prune. *)
Definition prune_up_to (target_pruned_key_count : nat) db (target_retained_version : Z) :
    outcome (result (option PruningStats * DB) string) :=
  match min_stale_key_version db with
  | None => Ret (Ok (None, db))
  | Some min_stale =>
      last_prunable ← last_prunable_version db;
      match last_prunable with
      | None => Ret (Ok (None, db))
      | Some last_prunable =>
          let target := Z.min last_prunable target_retained_version in
          if target <? min_stale then Ret (Ok (None, db))
          else
            let '(pruned_keys, max_stale) :=
              collect_stale_keys target_pruned_key_count db
                (seqZ min_stale (target - min_stale + 1)) [] min_stale in
            match pruned_keys with
            | [] => Ret (Ok (None, db))
            | _ =>
                let deleted := (min_stale, wrap 64 (max_stale + 1)) in
                let stats := {| target_retained := target; pruned_key_count := length pruned_keys;
                                deleted_versions := deleted |} in
                db <-? prune db {| pruned_node_keys := pruned_keys;
                                   deleted_stale_key_versions := deleted |};;
                Ret (Ok (Some stats, db))
            end
      end
  end.

(** [MerkleTreePruner::run] until it is aborted; [targets] are the target versions read by the
    iterations. The result tells for each iteration whether the next one follows right away. *)
Fixpoint pruner_run (target_pruned_key_count : nat) db (targets : list Z) :
    outcome (result (list bool * DB) string) :=
  match targets with
  | [] => Ret (Ok ([], db))
  | target :: targets' =>
      pruned <-? prune_up_to target_pruned_key_count db target;;
      let '(stats, db) := pruned : option PruningStats * DB in
      rest <-? pruner_run target_pruned_key_count db targets';;
      let '(waits, db) := rest : list bool * DB in
      Ret (Ok (match stats with Some stats => has_more_work stats | None => false end :: waits, db))
  end.

(** [MerkleTreePrunerHandle::set_target_retained_version] of a running pruner: the new target and
    the previous one. *)
Definition set_target_retained_version (current new_version : Z) : Z * Z :=
  (Z.max current new_version, current).
End Pruning.

(** ** [recovery/mod.rs] *)

Record MerkleTreeRecovery (DB : Type) := { rec_db : DB; rec_version : Z }.
#[global] Arguments rec_db {DB} _.
#[global] Arguments rec_version {DB} _.

Section Recovery.
Context `{!HashTree} {DB : Type} `{!Database DB} `{!PruneDatabase DB}.
Implicit Types r : MerkleTreeRecovery DB.

Definition with_db r (db : DB) : MerkleTreeRecovery DB := {| rec_db := db; rec_version := rec_version r |}.

(** The tags of a manifest changed in place, created first if there are none. *)
Definition with_tags (m : Manifest) (f : TreeTags -> TreeTags) : Manifest :=
  {| version_count := version_count m;
     tags := Some (f (default (tags_new hasher_name) (tags m))) |}.

Definition set_recovering (b : bool) (t : TreeTags) : TreeTags :=
  {| architecture := architecture t; depth := depth t; hasher := hasher t; is_recovering := b;
     custom := custom t |}.

Definition recovery_with_hasher (db : DB) (recovered_version : Z) :
    outcome (result (MerkleTreeRecovery DB) string) :=
  stored ← manifest db;
  _ <-? match stored with
        | Some stored =>
            if 0 <? version_count stored
            then ensure (recovered_version =? version_count stored - 1)
                   "Requested to recover a tree version, but it is currently being recovered for another one"
            else Ret (Ok tt)
        | None => Ret (Ok tt)
        end;;
  let stored_tags := stored ≫= tags in
  _ <-? match stored_tags with
        | Some t => Ret (ensure_consistency t hasher_name true)
        | None => Ret (Ok tt)
        end;;
  let new_tags := match stored_tags with
                  | Some t => t
                  | None => set_recovering true (tags_new hasher_name)
                  end in
  db <-? apply_patch db (patch_from_manifest {| version_count := wrap 64 (recovered_version + 1);
                                                tags := Some new_tags |});;
  Ret (Ok {| rec_db := db; rec_version := recovered_version |}).

Definition update_custom_tags {R} r (update : gmap string string -> gmap string string * R) :
    outcome (result (R * MerkleTreeRecovery DB) string) :=
  stored ← manifest (rec_db r);
  match stored with
  | None => Ret (Err "Merkle tree manifest disappeared")
  | Some stored =>
      let t := default (tags_new hasher_name) (tags stored) in
      let '(new_custom, output) := update (custom t) in
      let new_manifest := with_tags stored (fun t =>
        {| architecture := architecture t; depth := depth t; hasher := hasher t;
           is_recovering := is_recovering t; custom := new_custom |}) in
      db <-? apply_patch (rec_db r) (patch_from_manifest new_manifest);;
      Ret (Ok (output, with_db r db))
  end.

Definition recovery_root_hash r : outcome Z :=
  root ← db_root (rec_db r) (rec_version r);
  match root with
  | Some (RootFilled _ node) => node_hash node 0
  | _ => empty_tree_hash
  end.

Definition last_processed_key r : outcome (option Z) :=
  storage ← storage_new (rec_db r) (rec_version r) false;
  greatest_key storage (rec_db r).

Definition extend_linear r (entries : list TreeEntry) : outcome (result (MerkleTreeRecovery DB) string) :=
  storage ← storage_new (rec_db r) (rec_version r) false;
  patch ← extend_during_linear_recovery storage (rec_db r) entries;
  db <-? apply_patch (rec_db r) patch;;
  Ret (Ok (with_db r db)).

Definition extend_random r (entries : list TreeEntry) : outcome (result (MerkleTreeRecovery DB) string) :=
  storage ← storage_new (rec_db r) (rec_version r) false;
  patch ← extend_during_random_recovery storage (rec_db r) entries;
  db <-? apply_patch (rec_db r) patch;;
  Ret (Ok (with_db r db)).

(** [MerkleTreeRecovery::finalize] *)
Definition recovery_finalize r : outcome (result DB string) :=
  stored ← manifest (rec_db r);
  stored ← expect stored UNWRAP_NONE;
  root ← db_root (rec_db r) (rec_version r);
  db <-? match root with
         | Some _ => Ret (Ok (rec_db r))
         | None => apply_patch (rec_db r) (patch_for_empty_root stored (rec_version r))
         end;;
  db <-? prune db {| pruned_node_keys := stale_keys db (rec_version r);
                     deleted_stale_key_versions := (rec_version r, wrap 64 (rec_version r + 1)) |};;
  apply_patch db (patch_from_manifest (with_tags stored (set_recovering false))).
End Recovery.

(** ** Merkle paths for the witness generator *)

Record StorageLogMetadata := {
  slm_root_hash : Z;
  slm_is_write : bool;
  first_write : bool;
  slm_merkle_paths : list Z;
  leaf_hashed_key : Z;
  leaf_enumeration_index : Z;
  value_written : Z;
  value_read : Z;
}.

Record WitnessInputMerklePaths := { wit_paths : list StorageLogMetadata; next_enumeration_index : Z }.

Definition witness_new (next_enumeration_index : Z) : WitnessInputMerklePaths :=
  {| wit_paths := []; next_enumeration_index := next_enumeration_index |}.

Definition with_paths (m : StorageLogMetadata) (paths : list Z) : StorageLogMetadata :=
  {| slm_root_hash := slm_root_hash m; slm_is_write := slm_is_write m; first_write := first_write m;
     slm_merkle_paths := paths; leaf_hashed_key := leaf_hashed_key m;
     leaf_enumeration_index := leaf_enumeration_index m; value_written := value_written m;
     value_read := value_read m |}.

(** The number of hashes two paths share at their beginning: the position of the first pair that
    differs, or the length. *)
Fixpoint first_unique_idx (path first_path : list Z) : nat :=
  match path, first_path with
  | hash :: path', first_path_hash :: first_path' =>
      if hash =? first_path_hash then S (first_unique_idx path' first_path') else O
  | _, _ => length path
  end.

Definition push_merkle_path (w : WitnessInputMerklePaths) (path : StorageLogMetadata) :
    outcome WitnessInputMerklePaths :=
  match wit_paths w with
  | [] => Ret {| wit_paths := [path]; next_enumeration_index := next_enumeration_index w |}
  | first_path :: _ =>
      _ ← rust_assert (length (slm_merkle_paths first_path) =? length (slm_merkle_paths path))%nat
            "assertion `left == right` failed";
      let idx := first_unique_idx (slm_merkle_paths path) (slm_merkle_paths first_path) in
      Ret {| wit_paths := wit_paths w ++ [with_paths path (drop idx (slm_merkle_paths path))];
             next_enumeration_index := next_enumeration_index w |}
  end.

(** One of the paths after the first in [into_merkle_paths]. *)
Definition splice_path (first path : StorageLogMetadata) : outcome StorageLogMetadata :=
  let first_len := length (slm_merkle_paths first) in
  let len := length (slm_merkle_paths path) in
  _ ← rust_assert (len <=? first_len)%nat "Merkle paths in `PrepareBasicCircuitsJob` are malformed; the first path is not the longest one";
  Ret (with_paths path (take (first_len - len) (slm_merkle_paths first) ++ slm_merkle_paths path)).

Definition into_merkle_paths (w : WitnessInputMerklePaths) : outcome (list StorageLogMetadata) :=
  match wit_paths w with
  | [] => Ret []
  | first :: rest => rest ← map_outcome (splice_path first) rest; Ret (first :: rest)
  end.

(** ** [domain.rs] *)

Record TreeMetadata := {
  md_root_hash : Z;
  rollup_last_leaf_index : Z;
  witness : option WitnessInputMerklePaths;
}.

Inductive TreeMode := Lightweight | Full.

(** [ZkSyncTree]: the changes since the last [save] are held in memory. *)
Record ZkSyncTree (DB : Type) := { zk_db : Patched DB; mode : TreeMode; pruning_enabled : bool }.
#[global] Arguments zk_db {DB} _.
#[global] Arguments mode {DB} _.
#[global] Arguments pruning_enabled {DB} _.

Definition filter_write_instructions (instructions : list TreeInstruction) : list TreeEntry :=
  omap (fun i => match i with TWrite entry => Some entry | TRead _ => None end) instructions.

Section Domain.
Context `{!HashTree}.

(** [ZkSyncTree::process_genesis_batch] *)
Definition process_genesis_batch (storage_logs : list TreeInstruction) : outcome BlockOutput :=
  tree ← tree_with_hasher patch_default;
  tree ← match tree with Ok db => Ret db | Err err => Panics err end;
  extended ← tree_extend tree (filter_write_instructions storage_logs);
  match extended with Ok (output, _) => Ret output | Err err => Panics err end.

(** The item of the witness for one instruction in [process_l1_batch_full]; [None] for an update
    that changes nothing. *)
Definition log_metadata (log : TreeLogEntryWithProof (list Z)) (instruction : TreeInstruction) :
    outcome (option StorageLogMetadata) :=
  full_path ← extend_path (log_path log);
  let value_written := match instruction with TWrite entry => te_value entry | TRead _ => 0 end in
  index ← match instruction, log_base log with
          | TWrite entry, _ => Ret (te_leaf_index entry)
          | TRead _, LogRead leaf_index _ => Ret leaf_index
          | TRead _, ReadMissingKey => Ret 0
          | TRead _, _ => Panics "internal error: entered unreachable code: Read instructions always transform to Read / ReadMissingKey log entries"
          end;
  let value_read := match log_base log with
                    | Updated _ previous_value => if previous_value =? value_written then None else Some previous_value
                    | LogRead _ value => Some value
                    | Inserted | ReadMissingKey => Some 0
                    end in
  Ret ((fun value_read =>
    {| slm_root_hash := log_root_hash log;
       slm_is_write := negb (log_is_read (log_base log));
       first_write := match log_base log with Inserted => true | _ => false end;
       slm_merkle_paths := full_path;
       leaf_hashed_key := instruction_key instruction;
       leaf_enumeration_index := index;
       value_written := value_written;
       value_read := value_read |}) <$> value_read).

Definition push_log (w : WitnessInputMerklePaths)
    (l : TreeLogEntryWithProof (list Z) * TreeInstruction) : outcome WitnessInputMerklePaths :=
  item ← log_metadata l.1 l.2;
  match item with Some item => push_merkle_path w item | None => Ret w end.

Context {DB : Type} `{!Database DB}.
Implicit Types t : ZkSyncTree DB.

Definition with_zk_db t (db : Patched DB) : ZkSyncTree DB :=
  {| zk_db := db; mode := mode t; pruning_enabled := pruning_enabled t |}.

Definition new_with_mode (db : DB) (mode : TreeMode) : outcome (result (ZkSyncTree DB) string) :=
  tree <-? tree_with_hasher (patched_new db);;
  Ret (Ok {| zk_db := tree; mode := mode; pruning_enabled := false |}).

(** [ZkSyncTree::pruner]: the database the pruner works on, without the changes in memory. *)
Definition pruner t : outcome (ZkSyncTree DB * DB) :=
  _ ← rust_assert (negb (pruning_enabled t)) "pruner was already obtained for the tree";
  Ret ({| zk_db := zk_db t; mode := mode t; pruning_enabled := true |}, db_inner (zk_db t)).

Definition reader t : DB := db_inner (zk_db t).

Definition zk_root_hash t : outcome Z := latest_root_hash (zk_db t).

Definition root_info t (l1_batch_number : Z) : outcome (option (Z * Z)) :=
  root ← db_root (zk_db t) l1_batch_number;
  match root with
  | None => Ret None
  | Some root => hash ← root_hash_of root; Ret (Some (hash, root_leaf_count root))
  end.

Definition zk_is_empty t : outcome bool :=
  latest ← latest_version (zk_db t);
  match latest with
  | None => Ret true
  | Some version =>
      root ← db_root (zk_db t) version;
      Ret (match root with Some (RootFilled _ _) => false | _ => true end)
  end.

Definition next_l1_batch_number t : outcome Z :=
  latest ← latest_version (zk_db t);
  match latest with
  | None => Ret 0
  | Some version =>
      _ ← rust_assert (wrap 64 (version + 1) <? 2 ^ 32) "integer overflow for L1 batch number";
      Ret (wrap 64 (version + 1))
  end.

Definition process_l1_batch_full t (instructions : list TreeInstruction) :
    outcome (result (TreeMetadata * ZkSyncTree DB) string) :=
  _ ← next_l1_batch_number t;
  starting_root ← latest_root (zk_db t);
  starting_root_hash ← latest_root_hash (zk_db t);
  extended <-? tree_extend_with_proofs (zk_db t) instructions;;
  let '(output, db) := extended : BlockOutputWithProofs * Patched DB in
  w ← foldM push_log (witness_new (wrap 64 (root_leaf_count starting_root + 1)))
        (zip (proof_logs output) instructions);
  Ret (Ok
    ({| md_root_hash := default starting_root_hash (output_root_hash output);
        rollup_last_leaf_index := wrap 64 (proof_leaf_count output + 1);
        witness := Some w |}, with_zk_db t db)).

Definition process_l1_batch_lightweight t (instructions : list TreeInstruction) :
    outcome (result (TreeMetadata * ZkSyncTree DB) string) :=
  let kvs := filter_write_instructions instructions in
  _ ← next_l1_batch_number t;
  extended <-? tree_extend (zk_db t) kvs;;
  let '(output, db) := extended : BlockOutput * Patched DB in
  Ret (Ok
    ({| md_root_hash := root_hash output; rollup_last_leaf_index := wrap 64 (leaf_count output + 1);
        witness := None |}, with_zk_db t db)).

Definition process_l1_batch t (storage_logs : list TreeInstruction) :
    outcome (result (TreeMetadata * ZkSyncTree DB) string) :=
  match mode t with
  | Full => process_l1_batch_full t storage_logs
  | Lightweight => process_l1_batch_lightweight t storage_logs
  end.

Definition roll_back_logs t (last_l1_batch_to_keep : Z) : outcome (result (ZkSyncTree DB) string) :=
  let retained_version_count := wrap 32 (last_l1_batch_to_keep + 1) in
  db <-? truncate_recent_versions (reset (zk_db t)) retained_version_count;;
  Ret (Ok (with_zk_db t db)).

Definition save t : outcome (result (ZkSyncTree DB) string) :=
  db <-? flush (zk_db t);; Ret (Ok (with_zk_db t db)).

Definition zk_reset t : ZkSyncTree DB := with_zk_db t (reset (zk_db t)).

(** [ZkSyncTreeReader::min_l1_batch_number] *)
Definition min_l1_batch_number `{!PruneDatabase DB} (db : DB) : outcome (option Z) :=
  first ← first_retained_version db;
  match first with
  | None => Ret None
  | Some version =>
      _ ← rust_assert (version <? 2 ^ 32) "integer overflow for L1 batch number"; Ret (Some version)
  end.
End Domain.

(** ** The witness keeps the paths *)

Lemma first_unique_idx_spec path first_path :
  length path = length first_path ->
  (first_unique_idx path first_path <= length path)%nat /\
  take (first_unique_idx path first_path) first_path = take (first_unique_idx path first_path) path.
Proof.
  revert first_path. induction path as [|h path IH]; intros [|f first_path] Hlen; try done.
  simpl. injection Hlen as Hlen. destruct (IH first_path Hlen) as [Hle Heq].
  destruct (Z.eqb_spec h f) as [->|]; simpl; [|by split; [lia|]].
  split; [lia|]. by rewrite Heq.
Qed.

(** What is stored of a path after the first one. *)
Definition compressed (first m : StorageLogMetadata) : StorageLogMetadata :=
  with_paths m (drop (first_unique_idx (slm_merkle_paths m) (slm_merkle_paths first)) (slm_merkle_paths m)).

Definition same_length (first m : StorageLogMetadata) : Prop :=
  length (slm_merkle_paths m) = length (slm_merkle_paths first).

Lemma splice_compressed first m : same_length first m -> splice_path first (compressed first m) = Ret m.
Proof.
  intros Hlen. destruct (first_unique_idx_spec _ _ Hlen) as [Hle Heq].
  unfold splice_path, compressed. simpl. rewrite length_drop, rust_assert_true, outcome_Ret_bind.
  - rewrite <- Hlen. replace (length (slm_merkle_paths m) - _)%nat with
      (first_unique_idx (slm_merkle_paths m) (slm_merkle_paths first)) by lia.
    rewrite Heq, take_drop. by destruct m.
  - apply Nat.leb_le. rewrite <- Hlen. lia.
Qed.

Lemma push_compressed first n m acc :
  push_merkle_path {| wit_paths := first :: acc; next_enumeration_index := n |} m =
  if (length (slm_merkle_paths first) =? length (slm_merkle_paths m))%nat
  then Ret {| wit_paths := first :: acc ++ [compressed first m]; next_enumeration_index := n |}
  else Panics "assertion `left == right` failed".
Proof. unfold push_merkle_path. simpl. by destruct (_ =? _)%nat. Qed.

Lemma push_rest first n ms acc :
  Forall (same_length first) ms ->
  foldM push_merkle_path {| wit_paths := first :: acc; next_enumeration_index := n |} ms =
  Ret {| wit_paths := first :: acc ++ (compressed first <$> ms); next_enumeration_index := n |}.
Proof.
  revert acc. induction ms as [|m ms IH]; intros acc Hms; simpl.
  { by rewrite app_nil_r. }
  apply Forall_cons in Hms as [Hm Hms]. rewrite push_compressed, Hm, Nat.eqb_refl. simpl.
  rewrite IH by done. by rewrite <- app_assoc.
Qed.

Lemma push_rest_lengths first n ms acc w :
  foldM push_merkle_path {| wit_paths := first :: acc; next_enumeration_index := n |} ms = Ret w ->
  Forall (same_length first) ms.
Proof.
  revert acc. induction ms as [|m ms IH]; intros acc; [by constructor|]. simpl.
  rewrite push_compressed.
  destruct (Nat.eqb_spec (length (slm_merkle_paths first)) (length (slm_merkle_paths m))) as [Hm|];
    simpl; [|done].
  intros Hw. constructor; [by symmetry|]. by eapply IH.
Qed.

(** C31: Merkle paths pushed to the input of the witness generator come back unchanged and in
    order, with everything else of the logs, and the enumeration index is kept; pushing panics
    exactly when the paths do not all have the length of the first one. *)
Theorem witness_paths_roundtrip n ms :
  ((exists w, foldM push_merkle_path (witness_new n) ms = Ret w) <->
   match ms with [] => True | first :: rest => Forall (same_length first) rest end) /\
  (forall w, foldM push_merkle_path (witness_new n) ms = Ret w ->
     into_merkle_paths w = Ret ms /\ next_enumeration_index w = n).
Proof.
  destruct ms as [|first rest].
  { split; [by split; [|by eexists]|]. by intros w [= <-]. }
  simpl. split.
  - split; [intros [w Hw]; by eapply push_rest_lengths|]. intros Hrest. rewrite push_rest by done. by eexists.
  - intros w Hw. pose proof (push_rest_lengths _ _ _ _ _ Hw) as Hrest. rewrite push_rest in Hw by done.
    injection Hw as <-. split; [|done]. unfold into_merkle_paths. simpl.
    rewrite (map_outcome_Ret _ _ rest); [done|].
    apply Forall2_fmap_l, Forall_Forall2_diag. eapply Forall_impl; [exact Hrest|].
    apply splice_compressed.
Qed.
