(* ===== verification/TreePruning.v ===== *)
(** * Pruning of the state tree

    What the pruner of [TreeDomain.v] does to an in-memory database: one iteration removes the
    stale nodes of a range of versions, and repeated iterations remove exactly the stale nodes up
    to the target version. *)

From S2P Require Import Prelude Bytes Utils TreeUtils TreeTypes TreeHasher TreeDatabase TreeStorage MerkleTree TreeDomain.
Open Scope Z_scope.

(** Nodes and roots held by a database. *)
Definition node_in (p : PatchSet) (k : NodeKey) : option Node :=
  patches_by_version p !! nk_version k ≫= fun patch => pp_nodes patch !! k.

Definition root_in (p : PatchSet) (version : Z) : option Root :=
  patches_by_version p !! version ≫= pp_root.

Definition with_patches (p : PatchSet) (patches : gmap Z PartialPatchSet) : PatchSet :=
  {| ps_manifest := ps_manifest p; patches_by_version := patches; updated_version := updated_version p;
     stale_keys_by_version := stale_keys_by_version p |}.

(** The version whose root a key stands for. *)
Definition is_root_key (version : Z) (k : NodeKey) : Prop :=
  node_key_is_empty k = true /\ nk_version k = version.

#[export] Instance is_root_key_dec version k : Decision (is_root_key version k).
Proof. unfold is_root_key. apply _. Defined.

Lemma prune_key_node p key k :
  node_key_is_empty k = false ->
  node_in (with_patches p (prune_key (patches_by_version p) key)) k =
  if decide (k = key) then None else node_in p k.
Proof.
  intros Hk. unfold node_in, prune_key. simpl.
  destruct (patches_by_version p !! nk_version key) as [patch|] eqn:Hp.
  2: { case_decide as Hkey; [|done]. subst. by rewrite Hp. }
  destruct (decide (nk_version k = nk_version key)) as [Hv|Hv].
  - rewrite Hv, lookup_insert_eq, Hp. simpl. case_decide as Hkey.
    + subst. rewrite Hk. simpl. by rewrite lookup_delete_eq.
    + destruct (node_key_is_empty key); simpl; [done|]. by rewrite lookup_delete_ne.
  - rewrite lookup_insert_ne by done. case_decide; [congruence|done].
Qed.

Lemma prune_key_root p key v :
  (is_root_key v key -> root_in (with_patches p (prune_key (patches_by_version p) key)) v = None) /\
  (~ is_root_key v key ->
     root_in (with_patches p (prune_key (patches_by_version p) key)) v = root_in p v).
Proof.
  unfold root_in, prune_key, is_root_key. simpl.
  destruct (patches_by_version p !! nk_version key) as [patch|] eqn:Hp.
  2: { split; [|done]. intros [_ <-]. by rewrite Hp. }
  destruct (decide (nk_version key = v)) as [<-|Hv].
  - rewrite lookup_insert_eq, Hp. simpl. destruct (node_key_is_empty key); simpl; naive_solver.
  - rewrite lookup_insert_ne by done. naive_solver.
Qed.

Lemma prune_keys_node keys p k :
  node_key_is_empty k = false ->
  node_in (with_patches p (foldl prune_key (patches_by_version p) keys)) k =
  if decide (k ∈ keys) then None else node_in p k.
Proof.
  intros Hk. revert p. induction keys as [|key keys IH]; intros p.
  { by rewrite decide_False by set_solver. }
  cbn [foldl].
  pose proof (IH (with_patches p (prune_key (patches_by_version p) key))) as H. simpl in H.
  unfold with_patches in *. simpl in *. rewrite H. clear H.
  pose proof (prune_key_node p key k Hk) as H. unfold with_patches in H. rewrite H.
  repeat case_decide; set_solver.
Qed.

Lemma prune_keys_root keys p v :
  ((exists key, key ∈ keys /\ is_root_key v key) ->
     root_in (with_patches p (foldl prune_key (patches_by_version p) keys)) v = None) /\
  ((forall key, key ∈ keys -> ~ is_root_key v key) ->
     root_in (with_patches p (foldl prune_key (patches_by_version p) keys)) v = root_in p v).
Proof.
  revert p. induction keys as [|key keys IH]; intros p; simpl.
  { split; [set_solver|done]. }
  destruct (IH (with_patches p (prune_key (patches_by_version p) key))) as [H1 H2].
  destruct (prune_key_root p key v) as [H3 H4]. unfold with_patches in *. simpl in *. split.
  - intros (key' & Hin & Hr). destruct (decide (Exists (is_root_key v) keys)) as [He|He].
    + apply H1. by apply Exists_exists in He.
    + rewrite H2; [|intros k' Hk' Hr'; apply He, Exists_exists; eauto].
      apply H3. apply elem_of_cons in Hin as [->|Hin]; [done|].
      destruct He. apply Exists_exists. eauto.
  - intros Hn. rewrite H2 by set_solver. apply H4. set_solver.
Qed.

(** ** Which versions have stale keys *)

Definition least_stale (acc : option Z) (entries : list (Z * list NodeKey)) : Prop :=
  match acc with
  | None => forall v keys, (v, keys) ∈ entries -> keys = []
  | Some m =>
      (exists keys, (m, keys) ∈ entries /\ keys <> []) /\
      forall v keys, (v, keys) ∈ entries -> keys <> [] -> m <= v
  end.

Lemma min_stale_fold entries :
  least_stale
    (foldr (fun '(version, keys) acc =>
      match keys, acc with
      | [], _ => acc
      | _, None => Some version
      | _, Some least => Some (Z.min version least)
      end) None entries) entries.
Proof.
  induction entries as [|[v keys] entries IH]; simpl; [set_solver|].
  destruct keys as [|key keys].
  - destruct (foldr _ _ entries) as [m|]; simpl in *; [|set_solver].
    destruct IH as [(ks & Hin & Hne) Hle]. split; [exists ks; set_solver|]. set_solver.
  - destruct (foldr _ _ entries) as [m|]; simpl in *.
    + destruct IH as [(ks & Hin & Hne) Hle]. split.
      * destruct (Z.min_spec v m) as [[_ ->]|[_ ->]]; [|exists ks; set_solver].
        exists (key :: keys). split; [set_solver|done].
      * intros v' ks' [Heq|Hin']%elem_of_cons Hne'; [injection Heq as -> _; lia|].
        specialize (Hle _ _ Hin' Hne'). lia.
    + split; [exists (key :: keys); split; [set_solver|done]|].
      intros v' ks' [Heq|Hin']%elem_of_cons Hne'; [injection Heq as -> _; lia|].
      by destruct Hne'; eapply IH.
Qed.

Lemma patch_stale_keys_elem p v keys :
  keys <> [] -> (v, keys) ∈ map_to_list (stale_keys_by_version p) <-> patch_stale_keys p v = keys.
Proof.
  intros Hne. rewrite elem_of_map_to_list. unfold patch_stale_keys.
  destruct (stale_keys_by_version p !! v); simpl; naive_solver.
Qed.

Lemma min_stale_spec p :
  match patch_min_stale_key_version p with
  | None => forall v, patch_stale_keys p v = []
  | Some m => patch_stale_keys p m <> [] /\ forall v, patch_stale_keys p v <> [] -> m <= v
  end.
Proof.
  pose proof (min_stale_fold (map_to_list (stale_keys_by_version p))) as H.
  unfold patch_min_stale_key_version. destruct (foldr _ _ _) as [m|]; simpl in H.
  - destruct H as [(keys & Hin & Hne) Hle]. split.
    + apply patch_stale_keys_elem in Hin as ->; done.
    + intros v Hv. eapply Hle; [by apply patch_stale_keys_elem|done].
  - intros v. destruct (patch_stale_keys p v) as [|key keys] eqn:Hv; [done|].
    exfalso. assert ((v, key :: keys) ∈ map_to_list (stale_keys_by_version p)) as Hin
      by (by apply patch_stale_keys_elem). by apply H in Hin.
Qed.

(** ** One iteration *)

Lemma collect_stale_keys_spec c (p : PatchSet) n : forall a acc m0,
  (0 < n)%nat ->
  exists j, (0 < j <= n)%nat /\
    collect_stale_keys c p (seqZ a (Z.of_nat n)) acc m0 =
    (acc ++ concat (patch_stale_keys p <$> seqZ a (Z.of_nat j)), a + Z.of_nat j - 1).
Proof.
  induction n as [|n IH]; intros a acc m0 Hn; [lia|].
  rewrite seqZ_cons by lia. replace (Z.pred (Z.of_nat (S n))) with (Z.of_nat n) by lia. cbn [collect_stale_keys].
  assert (exists j : nat, (0 < j <= S n)%nat /\
    (acc ++ patch_stale_keys p a, a) =
    (acc ++ concat (patch_stale_keys p <$> seqZ a (Z.of_nat j)), a + Z.of_nat j - 1)) as Hone.
  { exists 1%nat. split; [lia|]. replace (a + Z.of_nat 1 - 1) with a by lia.
    rewrite seqZ_cons by lia. cbn. by rewrite app_nil_r. }
  destruct (c <=? _)%nat; [exact Hone|].
  destruct n as [|n]; [exact Hone|].
  destruct (IH (Z.succ a) (acc ++ patch_stale_keys p a) a) as (j & Hj & Heq); [lia|].
  exists (S j). split; [lia|]. cbn [stale_keys patch_prune_database] in *. rewrite Heq.
  rewrite (seqZ_cons a (Z.of_nat (S j))) by lia.
  replace (Z.pred (Z.of_nat (S j))) with (Z.of_nat j) by lia. cbn. rewrite <- app_assoc.
  f_equal. lia.
Qed.

(** [p'] is [p] without the stale nodes of the versions up to [m]. *)
Record cleaned (p : PatchSet) (m : Z) (p' : PatchSet) : Prop := {
  cleaned_manifest : ps_manifest p' = ps_manifest p;
  cleaned_stale v : patch_stale_keys p' v = if decide (v <= m) then [] else patch_stale_keys p v;
  cleaned_node k : node_key_is_empty k = false ->
    (forall v, v <= m -> k ∉ patch_stale_keys p v) -> node_in p' k = node_in p k;
  cleaned_node_gone k v : node_key_is_empty k = false ->
    v <= m -> k ∈ patch_stale_keys p v -> node_in p' k = None;
  cleaned_root v : (forall v' k, v' <= m -> k ∈ patch_stale_keys p v' -> ~ is_root_key v k) ->
    root_in p' v = root_in p v;
  cleaned_root_gone v v' k : v' <= m -> k ∈ patch_stale_keys p v' -> is_root_key v k ->
    root_in p' v = None;
  cleaned_shrinks_node k : node_key_is_empty k = false -> node_in p k = None -> node_in p' k = None;
  cleaned_shrinks_root v : root_in p v = None -> root_in p' v = None;
}.

Lemma cleaned_nothing p m : (forall v, v <= m -> patch_stale_keys p v = []) -> cleaned p m p.
Proof.
  intros Hnone. split; try done.
  - intros v. case_decide; [by apply Hnone|done].
  - intros k v _ Hv Hin. rewrite Hnone in Hin by done. set_solver.
  - intros v v' k Hv Hin. rewrite Hnone in Hin by done. set_solver.
Qed.

Lemma cleaned_trans p m1 p1 m2 p2 : m1 <= m2 -> cleaned p m1 p1 -> cleaned p1 m2 p2 -> cleaned p m2 p2.
Proof.
  intros Hm H1 H2.
  assert (forall v k, k ∈ patch_stale_keys p1 v -> k ∈ patch_stale_keys p v) as Hsub.
  { intros v k. rewrite (cleaned_stale _ _ _ H1). case_decide; set_solver. }
  assert (forall v k, ~ v <= m1 -> k ∈ patch_stale_keys p v -> k ∈ patch_stale_keys p1 v) as Hsup.
  { intros v k Hv. rewrite (cleaned_stale _ _ _ H1), decide_False by done. done. }
  split.
  - by rewrite (cleaned_manifest _ _ _ H2), (cleaned_manifest _ _ _ H1).
  - intros v. rewrite (cleaned_stale _ _ _ H2), (cleaned_stale _ _ _ H1). repeat case_decide; done || lia.
  - intros k Hk Hnot. rewrite (cleaned_node _ _ _ H2), (cleaned_node _ _ _ H1); try done.
    + intros v Hv. apply Hnot. lia.
    + intros v Hv Hin. by eapply Hnot, Hsub.
  - intros k v Hk Hv Hin. destruct (decide (v <= m1)).
    + apply (cleaned_shrinks_node _ _ _ H2); [done|]. by apply (cleaned_node_gone _ _ _ H1 k v).
    + apply (cleaned_node_gone _ _ _ H2 k v); [done..|]. by apply Hsup.
  - intros v Hnot. rewrite (cleaned_root _ _ _ H2), (cleaned_root _ _ _ H1); try done.
    + intros v' k Hv'. apply Hnot. lia.
    + intros v' k Hv' Hin. eapply Hnot; [done|by apply Hsub].
  - intros v v' k Hv' Hin Hr. destruct (decide (v' <= m1)).
    + apply (cleaned_shrinks_root _ _ _ H2). by apply (cleaned_root_gone _ _ _ H1 v v' k).
    + apply (cleaned_root_gone _ _ _ H2 v v' k); [done| |done]. by apply Hsup.
  - intros k Hk Hn. by apply (cleaned_shrinks_node _ _ _ H2), (cleaned_shrinks_node _ _ _ H1).
  - intros v Hn. by apply (cleaned_shrinks_root _ _ _ H2), (cleaned_shrinks_root _ _ _ H1).
Qed.

(** The effect of [prune] with the stale keys of the versions from the least one with any to [m]. *)
Lemma prune_cleans p a m keys :
  (forall v, patch_stale_keys p v <> [] -> a <= v) ->
  (forall k, k ∈ keys <-> exists v, a <= v <= m /\ k ∈ patch_stale_keys p v) ->
  exists p', patch_prune p {| pruned_node_keys := keys; deleted_stale_key_versions := (a, m + 1) |} =
    Ret (Ok p') /\ cleaned p m p' /\
    stale_keys_by_version p' = filter (fun kv => ~ (a <= kv.1 < m + 1)) (stale_keys_by_version p).
Proof.
  intros Hleast Hkeys.
  assert (forall k, k ∈ keys <-> exists v, v <= m /\ k ∈ patch_stale_keys p v) as Hk.
  { intros k. rewrite Hkeys. split; intros (v & Hv & Hin); exists v; split; try done; [lia|].
    split; [|done]. apply Hleast. intros Hnil. rewrite Hnil in Hin. set_solver. }
  eexists. split; [done|]. split; [|done].
  set (p' := {| ps_manifest := _ |}).
  assert (forall k, node_in p' k =
    node_in (with_patches p (foldl prune_key (patches_by_version p) keys)) k) as Hn by done.
  assert (forall v, root_in p' v =
    root_in (with_patches p (foldl prune_key (patches_by_version p) keys)) v) as Hr by done.
  split; [done| | | | | | |].
  - intros v. unfold patch_stale_keys, p'. simpl. rewrite map_lookup_filter.
    destruct (stale_keys_by_version p !! v) as [ks|] eqn:Hv; simpl; [|by case_decide].
    destruct (decide (v <= m)) as [Hm|Hm].
    + destruct ks as [|k0 ks]; [by case_guard|]. rewrite option_guard_False; [done|].
      intros Hout. apply Hout. split; [|lia]. apply Hleast. unfold patch_stale_keys. by rewrite Hv.
    + rewrite option_guard_True; [done|lia].
  - intros k He Hnot. rewrite Hn, prune_keys_node, decide_False; [done| |done].
    rewrite Hk. intros (v & Hv & Hin). by eapply Hnot.
  - intros k v He Hv Hin. rewrite Hn, prune_keys_node, decide_True; [done| |done].
    rewrite Hk. eauto.
  - intros v Hnot. rewrite Hr. apply prune_keys_root. intros k (v' & Hv' & Hin)%Hk. by eapply Hnot.
  - intros v v' k Hv' Hin Hroot. rewrite Hr. apply prune_keys_root. exists k. rewrite Hk. eauto.
  - intros k He Hnone. rewrite Hn, prune_keys_node by done. by case_decide.
  - intros v Hnone. rewrite Hr. destruct (prune_keys_root keys p v) as [H1 H2].
    destruct (decide (Exists (is_root_key v) keys)) as [He|He].
    + apply H1. by apply Exists_exists in He.
    + rewrite H2; [done|]. intros k Hin Hroot. apply He, Exists_exists. eauto.
Qed.

(** The version up to which the pruner may work. *)
Definition prunable (p : PatchSet) (target : Z) : Z := Z.min (version_count (ps_manifest p) - 1) target.

Definition stale_versions (p : PatchSet) : nat :=
  size (filter (fun kv => kv.2 <> []) (stale_keys_by_version p)).

(** Versions are 64-bit numbers, and there is at least one. *)
Record versions_ok (p : PatchSet) : Prop := {
  versions_count : 1 <= version_count (ps_manifest p) < 2 ^ 64;
  versions_stale v : patch_stale_keys p v <> [] -> 0 <= v;
}.

Lemma cleaned_versions_ok p m p' : cleaned p m p' -> versions_ok p -> versions_ok p'.
Proof.
  intros Hc [Hcount Hst]. split; [by rewrite (cleaned_manifest _ _ _ Hc)|].
  intros v. rewrite (cleaned_stale _ _ _ Hc). case_decide; [done|apply Hst].
Qed.

Lemma stale_versions_decrease p p' a m :
  a <= m -> patch_stale_keys p a <> [] ->
  stale_keys_by_version p' = filter (fun kv => ~ (a <= kv.1 < m + 1)) (stale_keys_by_version p) ->
  (stale_versions p' < stale_versions p)%nat.
Proof.
  intros Ham Ha Hp'. unfold stale_versions. apply map_subset_size. rewrite Hp'. split.
  - apply map_subseteq_spec. intros v ks. rewrite !map_lookup_filter_Some. naive_solver.
  - unfold patch_stale_keys in Ha. destruct (stale_keys_by_version p !! a) as [ks|] eqn:Hl; [|done].
    intros Hsub. assert (filter (fun kv => kv.2 <> []) (stale_keys_by_version p) !! a = Some ks) as Hf
      by (by apply map_lookup_filter_Some).
    eapply lookup_weaken in Hf; [|exact Hsub].
    apply map_lookup_filter_Some in Hf as [[_ Hout]%map_lookup_filter_Some _]. simpl in Hout. lia.
Qed.

Lemma elem_of_stale_range p a j k :
  k ∈ concat (patch_stale_keys p <$> seqZ a (Z.of_nat j)) <->
  exists v, a <= v <= a + Z.of_nat j - 1 /\ k ∈ patch_stale_keys p v.
Proof.
  generalize (seqZ a (Z.of_nat j)) (elem_of_seqZ a (Z.of_nat j)). intros vs Hvs.
  assert (forall v, v ∈ vs <-> a <= v <= a + Z.of_nat j - 1) as Hr by (intros v; rewrite Hvs; lia).
  setoid_rewrite <- Hr. clear. induction vs as [|v vs IH]; simpl; [set_solver|].
  rewrite elem_of_app, IH. set_solver.
Qed.

(** An iteration stops with nothing left to prune, or makes progress. *)
Lemma prune_up_to_progress c p target :
  versions_ok p ->
  (prune_up_to c p target = Ret (Ok (None, p)) /\
   forall v, v <= prunable p target -> patch_stale_keys p v = []) \/
  exists stats m p', prune_up_to c p target = Ret (Ok (Some stats, p')) /\
    m <= prunable p target /\ cleaned p m p' /\ (stale_versions p' < stale_versions p)%nat.
Proof.
  intros [Hcount Hnonneg]. pose proof (min_stale_spec p) as Hmin. unfold prune_up_to.
  cbn [min_stale_key_version patch_prune_database].
  destruct (patch_min_stale_key_version p) as [a|] eqn:Ha; [|by left; split].
  destruct Hmin as [Hstale Hleast]. unfold last_prunable_version, manifest. simpl.
  unfold checked_pred. destruct (Z.leb_spec 1 (version_count (ps_manifest p))); [|lia].
  fold (prunable p target). destruct (Z.ltb_spec (prunable p target) a) as [Hlt|Hge].
  { left. split; [done|]. intros v Hv. destruct (patch_stale_keys p v) eqn:E; [done|].
    assert (a <= v) by (apply Hleast; by rewrite E). lia. }
  right. pose proof (Hnonneg a Hstale) as Ha0.
  destruct (collect_stale_keys_spec c p (Z.to_nat (prunable p target - a + 1)) a [] a)
    as (j & Hj & Heq); [lia|].
  rewrite Z2Nat.id in Heq by lia. rewrite Heq. simpl app.
  set (m := a + Z.of_nat j - 1). assert (a <= m <= prunable p target) as Hm by lia.
  assert (m + 1 < 2 ^ 64) as Hmax by (unfold prunable in Hm; lia).
  destruct (prune_cleans p a m (concat (patch_stale_keys p <$> seqZ a (Z.of_nat j))) Hleast)
    as (p' & Hprune & Hc & Hst'); [by apply elem_of_stale_range|].
  destruct (concat _) as [|key keys] eqn:Hkeys.
  { exfalso. destruct (patch_stale_keys p a) as [|k ks] eqn:E; [done|].
    assert (k ∈ concat (patch_stale_keys p <$> seqZ a (Z.of_nat j))) as Hin.
    { apply elem_of_stale_range. exists a. rewrite E. split; [lia|set_solver]. }
    rewrite Hkeys in Hin. set_solver. }
  cbv zeta. cbn [prune patch_prune_database]. rewrite (wrap_small 64 (m + 1)) by (split; lia).
  injection Hprune as Hprune.
  eexists _, m, p'. split; [by rewrite <- Hprune|]. split; [lia|]. split; [done|].
  by eapply (stale_versions_decrease p p' a m); [lia|..].
Qed.

Lemma pruner_idle c p target n :
  prune_up_to c p target = Ret (Ok (None, p)) ->
  pruner_run c p (replicate n target) = Ret (Ok (replicate n false, p)).
Proof. intros H. induction n as [|n IH]; [done|]. cbn [replicate pruner_run]. rewrite H. simpl. by rewrite IH. Qed.

(** C30: With a fixed target the pruner finishes its work: after as many iterations as there are
    versions with stale keys (or more), whatever the number of keys pruned at a time, the
    database holds exactly what it held before except the nodes and roots that became stale in a
    version up to the target (and up to the last version of the tree); the stale keys recorded for
    those versions are gone, those of later versions are kept, and a further iteration finds
    nothing to prune. *)
Theorem pruner_drains_stale_keys c p target n :
  versions_ok p -> (stale_versions p <= n)%nat ->
  exists waits p', pruner_run c p (replicate n target) = Ret (Ok (waits, p')) /\
    cleaned p (prunable p target) p' /\ prune_up_to c p' target = Ret (Ok (None, p')).
Proof.
  revert p. induction n as [|n IH]; intros p Hok Hn.
  - exists [], p. destruct (prune_up_to_progress c p target Hok) as [[H Hnone]|(? & ? & ? & _ & _ & _ & ?)]; [|lia].
    split; [done|]. split; [by apply cleaned_nothing|done].
  - cbn [replicate pruner_run].
    destruct (prune_up_to_progress c p target Hok) as [[H Hnone]|(stats & m & p1 & H & Hm & Hc & Hlt)].
    + assert (stale_versions p <= n \/ stale_versions p = S n)%nat as [Hle|Heq] by lia.
      * destruct (IH p Hok Hle) as (waits & p' & Hrun & Hrest). rewrite H. simpl. rewrite Hrun. simpl. eauto.
      * rewrite H. simpl. rewrite pruner_idle by done. simpl.
        eexists _, p. split; [done|]. split; [by apply cleaned_nothing|done].
    + pose proof (cleaned_versions_ok _ _ _ Hc Hok) as Hok1.
      destruct (IH p1 Hok1) as (waits & p' & Hrun & Hc' & Hend); [lia|]. rewrite H. simpl. rewrite Hrun. simpl.
      eexists _, p'. split; [done|]. split; [|done].
      unfold prunable in *. rewrite (cleaned_manifest _ _ _ Hc) in Hc'. by eapply cleaned_trans.
Qed.

(** Two updates of a tree with one leaf: versions 1 and 2 replace the root of the version before. *)
Definition pruning_sample : PatchSet :=
  let leaf v := Leaf {| full_key := 5; value_hash := v; leaf_index := 1 |} in
  let at_version v := {| pp_root := Some (RootFilled 1 (leaf v)); pp_nodes := ∅ |} in
  {| ps_manifest := {| version_count := 3; tags := None |};
     patches_by_version := <[0 := at_version 10]> (<[1 := at_version 11]> {[2 := at_version 12]});
     updated_version := None;
     stale_keys_by_version := <[1 := [with_version EMPTY 0]]> {[2 := [with_version EMPTY 1]]} |}.

Lemma pruning_sample_ok : versions_ok pruning_sample.
Proof.
  split; [by simpl; lia|]. intros v. unfold patch_stale_keys. simpl.
  destruct (decide (v = 1)) as [->|]; [lia|]. rewrite lookup_insert_ne by done.
  destruct (decide (v = 2)) as [->|]; [lia|]. by rewrite lookup_singleton_ne.
Qed.

Lemma pruner_drains_stale_keys_witness :
  (exists waits p', pruner_run 1 pruning_sample (replicate 2 1) = Ret (Ok (waits, p')) /\
    cleaned pruning_sample (prunable pruning_sample 1) p' /\ prune_up_to 1 p' 1 = Ret (Ok (None, p'))) /\
  match pruner_run 1 pruning_sample (replicate 2 1) with
  | Ret (Ok (waits, p')) => root_in p' 0 = None /\ is_Some (root_in p' 1) /\ patch_stale_keys p' 2 = [with_version EMPTY 1]
  | _ => False
  end.
Proof.
  split.
  - apply (pruner_drains_stale_keys 1 pruning_sample 1 2 pruning_sample_ok). vm_compute. lia.
  - vm_compute. split; [done|]. split; [by eexists|done].
Defined.
