(* ===== verification/TreeSpec.v ===== *)
(** * Specification of the state tree

    The tree is hashed as a full binary tree with [2 ^ 256] leaves ([tree_hash]).  The
    lemmas show that the hashes of leaves and of radix-16 nodes, the caches of internal nodes
    and Merkle paths agree with it. *)

From S2P Require Import Prelude Bytes Utils TreeUtils TreeTypes TreeHasher.
Open Scope Z_scope.

(** The contents of a tree: the value and the leaf index of every key that is present. *)
Abbreviation Leaves := (gmap Z (Z * Z)).

(** The leaves whose key has the given bit at [d]. *)
Definition half (b : bool) (d : nat) (m : Leaves) : Leaves :=
  filter (fun kv => Z.testbit kv.1 (Z.of_nat d) = b) m.

(** The leaves whose key has the [w]-bit number [x] at bit [d]. *)
Definition block (w d : nat) (x : Z) (m : Leaves) : Leaves :=
  filter (fun kv => (kv.1 / 2 ^ Z.of_nat d) mod 2 ^ Z.of_nat w = x) m.

(** The leaves below child [x] of a node whose children have height [h]. *)
Definition sub (h : nat) (x : Z) (m : Leaves) : Leaves := filter (fun kv => digit kv.1 h = x) m.

(** The leaves that share the upper bits of [k] from bit [d] on, and those of the sibling. *)
Definition same (d : nat) (k : Z) (m : Leaves) : Leaves :=
  filter (fun kv => kv.1 / 2 ^ Z.of_nat d = k / 2 ^ Z.of_nat d) m.

Definition sibling (d : nat) (k : Z) (m : Leaves) : Leaves :=
  filter (fun kv => kv.1 / 2 ^ Z.of_nat d = Z.lxor (k / 2 ^ Z.of_nat d) 1) m.

Section Spec.
Context `{!HashTree, !HashTreeLaws}.

(** The hash of the full binary tree of depth [d] over the leaves [m]; subtrees without
    leaves have the hash of an empty subtree. *)
Fixpoint tree_hash (d : nat) (m : Leaves) : Z :=
  if decide (m = ∅) then empty_at d
  else
    match d with
    | O => match map_to_list m with
           | (_, (value, index)) :: _ => hash_leaf value index
           | [] => empty_at 0
           end
    | S d' => hash_branch (tree_hash d' (half false d' m)) (tree_hash d' (half true d' m))
    end.

Lemma tree_hash_empty d : tree_hash d ∅ = empty_at d.
Proof. destruct d; cbn; by rewrite decide_True. Qed.

(** Every inner node of the full tree is the branch of its halves, empty or not. *)
Lemma tree_hash_S d m :
  tree_hash (S d) m = hash_branch (tree_hash d (half false d m)) (tree_hash d (half true d m)).
Proof.
  cbn [tree_hash]. destruct (decide (m = ∅)) as [->|]; [|done].
  unfold half. rewrite !map_filter_empty, !tree_hash_empty. apply empty_at_S.
Qed.

Lemma tree_hash_leaf k x : tree_hash 0 {[k := x]} = hash_leaf x.1 x.2.
Proof.
  cbn. rewrite decide_False by apply map_non_empty_singleton.
  rewrite map_to_list_singleton. by destruct x.
Qed.

Lemma half_singleton b d k x :
  half b d {[k := x]} = if Bool.eqb (Z.testbit k (Z.of_nat d)) b then {[k := x]} else ∅.
Proof.
  unfold half. destruct (Bool.eqb_spec (Z.testbit k (Z.of_nat d)) b).
  - by rewrite map_filter_singleton_True.
  - by rewrite map_filter_singleton_False.
Qed.

Lemma tree_hash_single d k x :
  tree_hash (S d) {[k := x]} = hash_step k d (tree_hash d {[k := x]}) (empty_at d).
Proof.
  rewrite tree_hash_S, !half_singleton. unfold hash_step.
  destruct (Z.testbit k (Z.of_nat d)); cbn [Bool.eqb]; by rewrite tree_hash_empty.
Qed.

(** The contents of a leaf node. *)
Definition leaf_contents (l : LeafNode) : Leaves := {[full_key l := (value_hash l, leaf_index l)]}.

Lemma leaf_hash_spec l level :
  (level <= TREE_DEPTH)%nat -> leaf_hash l level = Ret (tree_hash (TREE_DEPTH - level) (leaf_contents l)).
Proof.
  intros Hl. unfold leaf_hash, usize_sub. destruct (Nat.leb_spec level TREE_DEPTH); [|lia].
  rewrite outcome_Ret_bind.
  assert (TREE_DEPTH - level <= TREE_DEPTH)%nat as Hn by lia.
  revert Hn. generalize (TREE_DEPTH - level)%nat. intros n Hn.
  destruct (foldM_seq_invariant (fun i hash => hash = tree_hash i (leaf_contents l))
    (fun hash depth => empty_tree_hash ← empty_subtree_hash depth;
       Ret (hash_step (full_key l) depth hash empty_tree_hash))
    (hash_leaf (value_hash l) (leaf_index l)) n) as (a & Ha & Hi).
  - unfold leaf_contents. by rewrite tree_hash_leaf.
  - intros i x Hi ->. rewrite empty_subtree_hash_at by lia. eexists. split; [done|].
    unfold leaf_contents. by rewrite tree_hash_single.
  - by rewrite Ha, Hi.
Qed.

(** ** Internal nodes *)

(** [hash_optional_branch] as a function. *)
Definition opt_branch (d : nat) (lhs rhs : option Z) : option Z :=
  match lhs, rhs with
  | None, None => None
  | _, _ => Some (hash_branch (default (empty_at d) lhs) (default (empty_at d) rhs))
  end.

Lemma hash_optional_branch_ret d lhs rhs :
  (d <= TREE_DEPTH)%nat -> hash_optional_branch d lhs rhs = Ret (opt_branch d lhs rhs).
Proof.
  intros Hd. unfold hash_optional_branch. destruct lhs, rhs; try done; by rewrite empty_subtree_hash_at.
Qed.

Lemma opt_branch_value d lhs rhs :
  default (empty_at (S d)) (opt_branch d lhs rhs) =
    hash_branch (default (empty_at d) lhs) (default (empty_at d) rhs).
Proof. destruct lhs, rhs; try done. apply empty_at_S. Qed.

Fixpoint pair_up {A B} (f : A -> A -> B) (l : list A) : list B :=
  match l with
  | x :: y :: l' => f x y :: pair_up f l'
  | _ => []
  end.

Lemma pair_up_snoc {A B} (f : A -> A -> B) i (l : list A) x y :
  l !! (2 * i)%nat = Some x -> l !! (2 * i + 1)%nat = Some y ->
  pair_up f (take (2 * S i) l) = pair_up f (take (2 * i) l) ++ [f x y] /\ length (pair_up f (take (2 * i) l)) = i.
Proof.
  revert l. induction i as [|i IH]; intros l Hx Hy.
  - destruct l as [|a [|b l]]; try done. cbn in Hx, Hy. by simplify_eq.
  - replace (2 * S i)%nat with (S (S (2 * i))) in * by lia.
    destruct l as [|a [|b l]]; try done. cbn in Hx, Hy.
    replace (2 * S (S i))%nat with (S (S (S (S (2 * i))))) by lia. cbn [take pair_up].
    destruct (IH l Hx Hy) as [-> Hlen]. split; [done|]. cbn [length]. by rewrite Hlen.
Qed.

Lemma hash_level_spec d n hs :
  (d <= TREE_DEPTH)%nat -> (2 * n <= length hs)%nat ->
  hash_level d n hs = Ret (pair_up (opt_branch d) (take (2 * n) hs) ++ drop n hs).
Proof.
  intros Hd Hn. unfold hash_level.
  edestruct (foldM_seq_invariant (fun i l => l = pair_up (opt_branch d) (take (2 * i) hs) ++ drop i hs))
    as (a & Ha & Hi); [| |rewrite Ha, Hi; done].
  { by rewrite Nat.mul_0_r, drop_0. }
  intros i l Hi ->.
  destruct (lookup_lt_is_Some_2 hs (2 * i)) as [x Hx]; [lia|].
  destruct (lookup_lt_is_Some_2 hs (2 * i + 1)) as [y Hy]; [lia|].
  destruct (pair_up_snoc (opt_branch d) i hs x y Hx Hy) as [Hsnoc Hlen].
  assert (forall j, (i <= j)%nat -> (pair_up (opt_branch d) (take (2 * i) hs) ++ drop i hs) !! j = hs !! j) as Hl.
  { intros j Hj. rewrite lookup_app_r, Hlen by lia. rewrite lookup_drop. f_equal. lia. }
  unfold index_vec. rewrite !Hl, Hx, Hy by lia. cbn [expect]. rewrite !outcome_Ret_bind.
  rewrite hash_optional_branch_ret, outcome_Ret_bind by done. eexists. split; [done|].
  rewrite Hsnoc, insert_app_r_alt by lia. rewrite Hlen, Nat.sub_diag, <- app_assoc. f_equal.
  destruct (lookup_lt_is_Some_2 hs i) as [z Hz]; [lia|]. by rewrite (drop_S hs z i Hz).
Qed.

(** The hashes of a binary level: [2 ^ w] blocks at depth [d]. *)
Record level_ok (w d : nat) (l : list (option Z)) (m : Leaves) : Prop := {
  level_length : Z.of_nat (length l) = 2 ^ Z.of_nat w;
  level_at i o : l !! i = Some o -> default (empty_at d) o = tree_hash d (block w d (Z.of_nat i) m);
}.

Lemma half_block w d x (b : bool) m : half b d (block w (S d) x m) = block (S w) d (2 * x + Z.b2z b) m.
Proof.
  unfold half, block. rewrite map_filter_filter. apply map_filter_ext. intros k y _. cbn [fst].
  rewrite Nat2Z.inj_succ, Z.pow_succ_r by lia. rewrite (Z.mul_comm 2 (2 ^ Z.of_nat d)), <- Z.div_div by lia.
  assert (Z.testbit k (Z.of_nat d) = Z.odd (k / 2 ^ Z.of_nat d)) as ->.
  { rewrite Z.testbit_odd, Z.shiftr_div_pow2 by lia. done. }
  generalize (k / 2 ^ Z.of_nat d). intros q. rewrite Nat2Z.inj_succ, Z.pow_succ_r by lia.
  rewrite (Z.rem_mul_r q 2) by lia. rewrite Zmod_odd.
  destruct (Z.odd q), b; cbn [Z.b2z]; naive_solver lia.
Qed.

Lemma tree_hash_block w d x m :
  tree_hash (S d) (block w (S d) x m) =
    hash_branch (tree_hash d (block (S w) d (2 * x) m)) (tree_hash d (block (S w) d (2 * x + 1) m)).
Proof. rewrite tree_hash_S, !half_block. cbn [Z.b2z]. by rewrite Z.add_0_r. Qed.

Lemma block_all d m : block 0 d 0 m = m.
Proof. unfold block. apply map_filter_id. intros k x _. by rewrite Z.mod_1_r. Qed.

Lemma sub_block h x m : sub h x m = block 4 (4 * h) x m.
Proof.
  unfold sub, block, digit. rewrite pow16_2. change (2 ^ Z.of_nat 4) with 16.
  by replace (Z.of_nat (4 * h)) with (4 * Z.of_nat h) by lia.
Qed.

Lemma pair_up_length {A B} (f : A -> A -> B) n (l : list A) :
  length l = (2 * n)%nat -> length (pair_up f l) = n.
Proof.
  revert l. induction n as [|n IH]; intros [|x [|y l]] Hl; try done; cbn in Hl; try lia.
  cbn. rewrite IH by lia. done.
Qed.

Lemma pair_up_lookup {A B} (f : A -> A -> B) (l : list A) i z :
  pair_up f l !! i = Some z ->
  exists x y, l !! (2 * i)%nat = Some x /\ l !! (2 * i + 1)%nat = Some y /\ z = f x y.
Proof.
  revert l. induction i as [|i IH]; intros [|x [|y l]] Hz; try done; cbn in Hz.
  - injection Hz as <-. by exists x, y.
  - destruct (IH l Hz) as (x' & y' & Hx & Hy & ->). exists x', y'.
    replace (2 * S i)%nat with (S (S (2 * i))) by lia. done.
Qed.

Lemma pair_up_level w d l m :
  level_ok (S w) d l m -> level_ok w (S d) (pair_up (opt_branch d) l) m.
Proof.
  intros [Hlen Hl]. rewrite Nat2Z.inj_succ, Z.pow_succ_r in Hlen by lia. split.
  - rewrite (pair_up_length _ (Z.to_nat (2 ^ Z.of_nat w))); lia.
  - intros i o Ho. apply pair_up_lookup in Ho as (x & y & Hx & Hy & ->).
    rewrite opt_branch_value, tree_hash_block. apply Hl in Hx, Hy.
    rewrite Hx, Hy. do 3 f_equal; lia.
Qed.

Lemma level_top d l m :
  level_ok 0 d l m -> exists o, l = [o] /\ default (empty_at d) o = tree_hash d m.
Proof.
  intros [Hlen Hl]. change (2 ^ Z.of_nat 0) with 1 in Hlen. destruct l as [|o [|]]; cbn in Hlen; try lia.
  exists o. split; [done|]. rewrite (Hl 0%nat o) by done. by rewrite block_all.
Qed.

(** The caches of a node whose children have height [h] and whose subtree has the leaves [m]. *)
Record cache_ok (h : nat) (c : InternalNodeCache) (m : Leaves) : Prop := {
  cache_level1 : level_ok 1 (4 * h + 3) (level1 c) m;
  cache_level2 : level_ok 2 (4 * h + 2) (level2 c) m;
  cache_level3 : level_ok 3 (4 * h + 1) (level3 c) m;
}.

Lemma usize_sub_ret a b : (b <= a)%nat -> usize_sub a b = Ret (a - b)%nat.
Proof. intros Hb. unfold usize_sub. destruct (Nat.leb_spec b a); [done|lia]. Qed.

Lemma hash_level_ok w d l rest m :
  level_ok (S w) d l m -> (d <= TREE_DEPTH)%nat ->
  exists rest', hash_level d (Z.to_nat (2 ^ Z.of_nat w)) (l ++ rest) =
    Ret (pair_up (opt_branch d) l ++ rest').
Proof.
  intros Hl Hd. pose proof (level_length _ _ _ _ Hl) as Hlen.
  rewrite Nat2Z.inj_succ, Z.pow_succ_r in Hlen by lia.
  rewrite hash_level_spec by (rewrite ?length_app; lia).
  rewrite take_app_length' by lia. by eexists.
Qed.

(** The cache with the hashes of a level replaced. *)
Definition with_level (w : nat) (l : list (option Z)) (c : InternalNodeCache) : InternalNodeCache :=
  match w with
  | 1%nat => {| level1 := l; level2 := level2 c; level3 := level3 c |}
  | 2%nat => {| level1 := level1 c; level2 := l; level3 := level3 c |}
  | 3%nat => {| level1 := level1 c; level2 := level2 c; level3 := l |}
  | _ => c
  end.

Lemma hash_inner_level_ok w d l rest n level m :
  level_ok (S w) d l m -> (w <= 3)%nat -> n = Z.to_nat (2 ^ Z.of_nat w) -> (level + S w + d = TREE_DEPTH)%nat ->
  let l' := pair_up (opt_branch d) l in
  exists rest', forall cache, hash_inner_level level (l ++ rest, n, cache) (S w) =
    Ret (l' ++ rest', (n / 2)%nat, with_level w l' <$> cache).
Proof.
  intros Hl Hw -> Hd l'. destruct (hash_level_ok w d l rest m Hl) as (rest' & Hr); [lia|]. exists rest'. intros cache.
  unfold hash_inner_level. rewrite usize_sub_ret by lia. rewrite outcome_Ret_bind.
  replace (TREE_DEPTH - (level + S w))%nat with d by lia. rewrite Hr, outcome_Ret_bind. fold l'.
  destruct cache as [c|]; [|done]. replace (S w - 1)%nat with w by lia.
  pose proof (pair_up_level _ _ _ _ Hl) as Hl'. fold l' in Hl'. pose proof (level_length _ _ _ _ Hl') as Hlen.
  destruct w as [|[|[|[|w]]]]; [done|..|lia]; cbn [set_level with_level];
    rewrite take_app_length' by lia; done.
Qed.

Lemma hash_inner_spec h hs m (cache : option InternalNodeCache) :
  (h < 64)%nat -> level_ok 4 (4 * h) hs m ->
  exists cache', hash_inner hs (TREE_DEPTH - 4 * S h) cache = Ret (tree_hash (4 * S h) m, cache') /\
    match cache, cache' with
    | Some _, Some c => cache_ok h c m
    | None, None => True
    | _, _ => False
    end.
Proof.
  intros Hh Hok4. pose proof (pair_up_level _ _ _ _ Hok4) as Hok3. pose proof (pair_up_level _ _ _ _ Hok3) as Hok2.
  pose proof (pair_up_level _ _ _ _ Hok2) as Hok1. pose proof (pair_up_level _ _ _ _ Hok1) as Hok0.
  destruct (level_top _ _ _ Hok0) as (t & Ht & Hval).
  pose proof (level_length _ _ _ _ Hok4) as L4. change (2 ^ Z.of_nat 4) with 16 in L4.
  set (level := (TREE_DEPTH - 4 * S h)%nat).
  assert (level + 4 + 4 * h = TREE_DEPTH)%nat as Hlevel by (unfold level, TREE_DEPTH; lia).
  unfold hash_inner. replace (length hs / 2)%nat with 8%nat by div_lia. cbn [foldM].
  destruct (hash_inner_level_ok 3 _ hs [] 8 level m Hok4) as (r3 & E3); [lia|done|lia|].
  destruct (hash_inner_level_ok 2 _ _ r3 (8 / 2) level m Hok3) as (r2 & E2); [lia|done|lia|].
  destruct (hash_inner_level_ok 1 _ _ r2 (8 / 2 / 2) level m Hok2) as (r1 & E1); [lia|done|lia|].
  destruct (hash_inner_level_ok 0 _ _ r1 (8 / 2 / 2 / 2) level m Hok1) as (r0 & E0); [lia|done|lia|].
  rewrite app_nil_r in E3. rewrite E3, outcome_Ret_bind, E2, outcome_Ret_bind, E1, outcome_Ret_bind.
  rewrite E0, !outcome_Ret_bind. clear E0. rewrite Ht. cbn [app]. unfold index_vec at 1. cbn [lookup list_lookup expect].
  rewrite outcome_Ret_bind. replace (4 * S h)%nat with (S (S (S (S (4 * h))))) by lia. rewrite <- Hval.
  assert (match t with Some node_hash => Ret node_hash | None => depth ← usize_sub TREE_DEPTH level; empty_subtree_hash depth end
          = Ret (default (empty_at (S (S (S (S (4 * h)))))) t)) as ->.
  { destruct t; [done|]. rewrite usize_sub_ret by lia. rewrite outcome_Ret_bind, empty_subtree_hash_at by lia.
    cbn [from_option]. do 2 f_equal. lia. }
  rewrite outcome_Ret_bind. eexists. split; [done|]. destruct cache as [c|]; [|done].
  split; cbn [with_level level1 level2 level3 fmap option_fmap option_map].
  - by replace (4 * h + 3)%nat with (S (S (S (4 * h)))) by lia.
  - by replace (4 * h + 2)%nat with (S (S (4 * h))) by lia.
  - by replace (4 * h + 1)%nat with (S (4 * h)) by lia.
Qed.

(** The child hashes of a node whose children have height [h], over the leaves [m]. *)
Definition child_hashes_ok (h : nat) (node : InternalNode) (m : Leaves) : Prop :=
  forall x, 0 <= x < 16 ->
    default (empty_at (4 * h)) (cr_hash <$> child_at node x) = tree_hash (4 * h) (sub h x m).

Lemma child_hashes_level h node m :
  node_wf node -> child_hashes_ok h node m -> level_ok 4 (4 * h) (child_hashes node) m.
Proof.
  intros Hwf Hok. split; [by rewrite child_hashes_length|]. intros i o Ho.
  assert (0 <= Z.of_nat i < 16) as Hi.
  { apply lookup_lt_Some in Ho. rewrite child_hashes_length in Ho. lia. }
  rewrite <- (Nat2Z.id i), child_hashes_at in Ho by done. injection Ho as <-.
  by rewrite Hok, sub_block.
Qed.

(** The hash of a radix-16 node is the hash of the binary tree it stands for. *)
Lemma internal_hash_spec h node m :
  (h < 64)%nat -> node_wf node -> child_hashes_ok h node m ->
  internal_hash node (TREE_DEPTH - 4 * S h) = Ret (tree_hash (4 * S h) m).
Proof.
  intros Hh Hwf Hok. unfold internal_hash.
  destruct (hash_inner_spec h _ m None Hh (child_hashes_level _ _ _ Hwf Hok)) as (c & -> & _). done.
Qed.

(** ** Updates of a cache *)

(** [m'] differs from [m] only below child [x] of a node whose children have height [h]. *)
Definition differs_at (h : nat) (x : Z) (m m' : Leaves) : Prop :=
  forall y, 0 <= y < 16 -> y <> x -> sub h y m' = sub h y m.

Lemma block_union w d y m :
  block w (S d) y m = block (S w) d (2 * y) m ∪ block (S w) d (2 * y + 1) m.
Proof.
  rewrite <- (Z.add_0_r (2 * y)) at 1. change 0 with (Z.b2z false). change 1 with (Z.b2z true).
  rewrite <- !half_block. unfold half. set (n := block w (S d) y m). clearbody n.
  apply map_eq. intros k. rewrite lookup_union, !map_lookup_filter.
  destruct (n !! k) as [v|]; [|done]. cbn [fst mbind option_bind].
  destruct (Z.testbit k (Z.of_nat d)); repeat case_guard; done.
Qed.

Lemma block_out w d y m : ~ 0 <= y < 2 ^ Z.of_nat w -> block w d y m = ∅.
Proof.
  intros Hy. unfold block. apply map_empty. intros k. apply map_lookup_filter_None. right. intros v _.
  cbn [fst]. pose proof (Z.mod_pos_bound (k / 2 ^ Z.of_nat d) (2 ^ Z.of_nat w) ltac:(lia)). intros <-. lia.
Qed.

(** Blocks that do not contain the changed child are the same. *)
Lemma differs_block h x m m' j y :
  differs_at h x m m' -> 0 <= x < 16 -> (j <= 4)%nat -> y <> x / 2 ^ Z.of_nat j ->
  block (4 - j) (4 * h + j) y m' = block (4 - j) (4 * h + j) y m.
Proof.
  intros Hd Hx. revert y. induction j as [|j IH]; intros y Hj Hy.
  - rewrite Nat.add_0_r, Nat.sub_0_r. change (2 ^ Z.of_nat 0) with 1 in Hy. rewrite Z.div_1_r in Hy.
    destruct (decide (0 <= y < 16)).
    + rewrite <- !sub_block. by apply Hd.
    + rewrite !block_out by (change (2 ^ Z.of_nat 4) with 16; lia). done.
  - replace (4 * h + S j)%nat with (S (4 * h + j)) by lia. rewrite !block_union.
    replace (S (4 - S j)) with (4 - j)%nat by lia.
    rewrite Nat2Z.inj_succ, Z.pow_succ_r in Hy by lia.
    rewrite (Z.mul_comm 2 (2 ^ _)), <- Z.div_div in Hy by lia.
    rewrite !IH; [done|lia|div_lia|lia|div_lia].
Qed.

Lemma level_update w d l next i level level_in_tree m m' :
  level_ok (S w) d l m' -> level_ok w (S d) next m -> (level + level_in_tree + d = TREE_DEPTH)%nat ->
  (forall y, y <> Z.of_nat (i / 2) -> block w (S d) y m' = block w (S d) y m) ->
  (i < length l)%nat ->
  exists next', update_level level level_in_tree l next i = Ret next' /\ level_ok w (S d) next' m' /\
    (is_Some (l !! i ≫= id) -> is_Some (next' !! (i / 2)%nat ≫= id)).
Proof.
  intros [Hlen Hl] [Hlen' Hl'] Hd Hblocks Hi.
  rewrite Nat2Z.inj_succ, Z.pow_succ_r in Hlen by lia.
  unfold update_level. rewrite usize_sub_ret by lia. rewrite outcome_Ret_bind.
  replace (TREE_DEPTH - (level + level_in_tree))%nat with d by lia.
  replace (i - i mod 2)%nat with (2 * (i / 2))%nat by div_lia.
  destruct (lookup_lt_is_Some_2 l (2 * (i / 2))) as [lhs Hlhs]; [div_lia|].
  destruct (lookup_lt_is_Some_2 l (2 * (i / 2) + 1)) as [rhs Hrhs]; [div_lia|].
  destruct (lookup_lt_is_Some_2 next (i / 2)) as [old Hold]; [div_lia|].
  unfold index_vec. rewrite Hlhs, Hrhs, Hold. cbn [expect]. rewrite !outcome_Ret_bind.
  rewrite hash_optional_branch_ret, !outcome_Ret_bind by lia. eexists. split; [done|].
  split; [split|].
  - by rewrite length_insert.
  - intros j o Ho. destruct (decide (j = i / 2)%nat) as [->|Hne].
    + rewrite list_lookup_insert_eq in Ho by (by eapply lookup_lt_Some). injection Ho as <-.
      rewrite opt_branch_value, tree_hash_block. apply Hl in Hlhs, Hrhs. rewrite Hlhs, Hrhs.
      do 3 f_equal; lia.
    + rewrite list_lookup_insert_ne in Ho by done. rewrite Hblocks by lia. by apply Hl'.
  - intros [v Hv]. rewrite list_lookup_insert_eq by (by eapply lookup_lt_Some). cbn.
    assert (i = 2 * (i / 2) \/ i = 2 * (i / 2) + 1)%nat as [Hi2|Hi2] by div_lia; rewrite Hi2 in Hv.
    + rewrite Hlhs in Hv. cbn in Hv. subst lhs. by destruct rhs.
    + rewrite Hrhs in Hv. cbn in Hv. subst rhs. by destruct lhs.
Qed.

(** Rehashing the path of the changed child brings the cache up to date. *)
Lemma update_nibble_spec h c hs x m m' :
  (h < 64)%nat -> 0 <= x < 16 -> cache_ok h c m -> level_ok 4 (4 * h) hs m' -> differs_at h x m m' ->
  is_Some (hs !! Z.to_nat x ≫= id) ->
  exists c', update_nibble c hs (TREE_DEPTH - 4 * S h) x = Ret (tree_hash (4 * S h) m', c') /\ cache_ok h c' m'.
Proof.
  intros Hh Hx [H1 H2 H3] Hhs Hd Hsome. unfold update_nibble.
  set (level := (TREE_DEPTH - 4 * S h)%nat).
  assert (level + 4 + 4 * h = TREE_DEPTH)%nat as Hlevel by (unfold level, TREE_DEPTH; lia).
  set (i := Z.to_nat x) in *. assert (Z.of_nat i = x) as Hi by lia. clearbody i level.
  replace (4 * h + 1)%nat with (S (4 * h)) in H3 by lia.
  replace (4 * h + 2)%nat with (S (S (4 * h))) in H2 by lia.
  replace (4 * h + 3)%nat with (S (S (S (4 * h)))) in H1 by lia.
  assert (forall j y d, (j <= 4)%nat -> d = (4 * h + j)%nat -> y <> x / 2 ^ Z.of_nat j ->
            block (4 - j) d y m' = block (4 - j) d y m) as Hblock.
  { intros j y d Hj -> Hy. by apply (differs_block h x). }
  pose proof (level_length _ _ _ _ Hhs) as L4. change (2 ^ Z.of_nat 4) with 16 in L4.
  destruct (level_update 3 (4 * h) hs (level3 c) i level 4 m m') as (l3 & -> & H3' & S3); [done|done|lia| |lia|].
  { intros y Hy. apply (Hblock 1%nat); [lia|lia|]. change (2 ^ Z.of_nat 1) with 2. div_lia. }
  pose proof (level_length _ _ _ _ H3') as L3. change (2 ^ Z.of_nat 3) with 8 in L3. rewrite outcome_Ret_bind.
  destruct (level_update 2 (S (4 * h)) l3 (level2 c) (i / 2) level 3 m m') as (l2 & -> & H2' & S2);
    [done|done|lia| |div_lia|].
  { intros y Hy. apply (Hblock 2%nat); [lia|lia|]. change (2 ^ Z.of_nat 2) with 4. div_lia. }
  pose proof (level_length _ _ _ _ H2') as L2. change (2 ^ Z.of_nat 2) with 4 in L2. rewrite outcome_Ret_bind.
  destruct (level_update 1 (S (S (4 * h))) l2 (level1 c) (i / 2 / 2) level 2 m m') as (l1 & -> & H1' & S1);
    [done|done|lia| |div_lia|].
  { intros y Hy. apply (Hblock 3%nat); [lia|lia|]. change (2 ^ Z.of_nat 3) with 8. div_lia. }
  pose proof (level_length _ _ _ _ H1') as L1. change (2 ^ Z.of_nat 1) with 2 in L1. rewrite outcome_Ret_bind.
  destruct (level_update 0 (S (S (S (4 * h)))) l1 [None] (i / 2 / 2 / 2) level 1 ∅ m') as (l0 & -> & H0' & S0);
    [done| |lia| |div_lia|].
  { split; [done|]. intros [|j] o Ho; [|done]. injection Ho as <-. cbn [from_option].
    unfold block. rewrite map_filter_empty. by rewrite tree_hash_empty. }
  { intros y Hy. rewrite !block_out by (change (2 ^ Z.of_nat 0) with 1; div_lia). done. }
  destruct (level_top _ _ _ H0') as (t & -> & Ht). rewrite outcome_Ret_bind. cbn [index_vec expect].
  replace (i / 2 / 2 / 2 / 2)%nat with 0%nat in S0 by div_lia.
  destruct (S0 (S1 (S2 (S3 Hsome)))) as [v Hv]. cbn in Hv. subst t.
  replace (tree_hash (4 * S h) m') with v.
  2:{ replace (4 * S h)%nat with (S (S (S (S (4 * h))))) by lia. by rewrite <- Ht. }
  eexists. split; [reflexivity|].
  split; cbn [level1 level2 level3].
  - by replace (4 * h + 3)%nat with (S (S (S (4 * h)))) by lia.
  - by replace (4 * h + 2)%nat with (S (S (4 * h))) by lia.
  - by replace (4 * h + 1)%nat with (S (4 * h)) by lia.
Qed.

(** A node whose child hashes and cache agree with the leaves below it. *)
Record node_hashed (h : nat) (node : InternalNode) (m : Leaves) : Prop := {
  hashed_wf : node_wf node;
  hashed_children : child_hashes_ok h node m;
  hashed_cache c : node_cache node = Some c -> cache_ok h c m;
}.

(** The node before the hash of child [x] is updated: the other children and the cache are
    those of the leaves before the change. *)
Lemma update_child_hash_spec h node x c m m' :
  (h < 64)%nat -> 0 <= x < 16 -> node_wf node -> child_at node x = Some c ->
  (forall y, 0 <= y < 16 -> y <> x ->
     default (empty_at (4 * h)) (cr_hash <$> child_at node y) = tree_hash (4 * h) (sub h y m')) ->
  (forall cache, node_cache node = Some cache -> cache_ok h cache m) -> differs_at h x m m' ->
  exists node', update_child_hash node (TREE_DEPTH - 4 * S h) x (tree_hash (4 * h) (sub h x m')) =
      Ret (tree_hash (4 * S h) m', node') /\
    node_hashed h node' m' /\
    forall y, 0 <= y < 16 -> child_at node' y =
      if decide (x = y) then Some {| cr_hash := tree_hash (4 * h) (sub h x m');
                                     cr_version := cr_version c; is_leaf := is_leaf c |}
      else child_at node y.
Proof.
  intros Hh Hx Hwf Hc Hothers Hcache Hd. unfold update_child_hash.
  destruct (modify_child_ref_spec node x
    (fun c => {| cr_hash := tree_hash (4 * h) (sub h x m'); cr_version := cr_version c; is_leaf := is_leaf c |})
    Hwf Hx) as (n1 & -> & Hwf1 & Hcache1 & Hn1).
  rewrite Hc in *. cbn [fmap option_fmap option_map] in Hn1.
  rewrite bool_decide_eq_true_2 by done. cbn [rust_assert]. rewrite !outcome_Ret_bind.
  assert (child_hashes_ok h n1 m') as Hok.
  { intros y Hy. rewrite Hn1 by done. destruct (decide (x = y)) as [<-|Hne]; [done|]. by apply Hothers. }
  pose proof (child_hashes_level _ _ _ Hwf1 Hok) as Hlevel.
  assert (is_Some (child_hashes n1 !! Z.to_nat x ≫= id)) as Hsome.
  { rewrite child_hashes_at by done. rewrite Hn1, decide_True by done. by eexists. }
  rewrite Hcache1. destruct (node_cache node) as [cache|].
  - destruct (update_nibble_spec h cache (child_hashes n1) x m m') as (c' & -> & Hc'); [by auto..|].
    rewrite outcome_Ret_bind. eexists. split; [done|]. split; [|done].
    split; [done|done|]. intros c0 [= <-]. done.
  - destruct (hash_inner_spec h (child_hashes n1) m' (Some cache_default)) as (cache' & -> & Hc'); [done..|].
    destruct cache' as [c'|]; [|done]. cbn [expect]. rewrite !outcome_Ret_bind. eexists.
    split; [done|]. split; [|done]. split; [done|done|]. intros c0 [= <-]. done.
Qed.

(** ** Merkle paths *)

(** A path for key [k] from the leaf up to its level, in the tree with the leaves [m]; the
    hashes at the bottom that belong to empty subtrees are left out. *)
Record path_ok (k : Z) (m : Leaves) (p : MerklePath) : Prop := {
  path_level : (current_level p <= TREE_DEPTH)%nat;
  path_length : (length (path_hashes p) <= TREE_DEPTH - current_level p)%nat;
  path_skipped j : (j < TREE_DEPTH - current_level p - length (path_hashes p))%nat ->
    tree_hash j (sibling j k m) = empty_at j;
  path_at i v : path_hashes p !! i = Some v ->
    let j := (TREE_DEPTH - current_level p - length (path_hashes p) + i)%nat in
    v = tree_hash j (sibling j k m);
}.

Lemma path_new_ok k m level :
  (level <= TREE_DEPTH)%nat ->
  (forall j, (j < TREE_DEPTH - level)%nat -> tree_hash j (sibling j k m) = empty_at j) ->
  path_ok k m (path_new level).
Proof. intros Hl Hj. split; cbn [current_level path_hashes path_new length]; [lia|lia|..|done].
  intros j Hlt. apply Hj. lia. Qed.

Lemma path_push_spec k m p o :
  path_ok k m p -> (1 <= current_level p)%nat ->
  let d := (TREE_DEPTH - current_level p)%nat in
  default (empty_at d) o = tree_hash d (sibling d k m) ->
  exists p', path_push p o = Ret p' /\ path_ok k m p' /\ current_level p' = (current_level p - 1)%nat.
Proof.
  intros [Hlevel Hlen Hskip Hat] H1 d Ho. unfold path_push.
  rewrite (usize_sub_ret (current_level p) 1) by done.
  assert (forall v, default (empty_at d) o = v ->
    path_ok k m {| current_level := (current_level p - 1)%nat; path_hashes := path_hashes p ++ [v] |}) as Hsnoc.
  { intros v <-. split; cbn [current_level path_hashes]; rewrite ?length_app; cbn [length]; [lia|lia|..].
    - intros j Hj. apply Hskip. lia.
    - intros i w Hw. set (n := length (path_hashes p)) in *. cbv zeta in Hat |- *. fold d in Hlen, Hat.
      replace (TREE_DEPTH - (current_level p - 1) - (n + 1) + i)%nat with (d - n + i)%nat by lia.
      destruct (decide (i < n)%nat) as [Hi|Hi].
      + rewrite lookup_app_l in Hw by done. by apply Hat.
      + rewrite lookup_app_r in Hw by lia. fold n in Hw. destruct (i - n)%nat as [|r] eqn:Hr; [|done].
        injection Hw as <-. by replace (d - n + i)%nat with d by lia. }
  destruct o as [v|].
  - rewrite !outcome_Ret_bind. eexists. split; [done|]. split; [by apply Hsnoc|done].
  - destruct (path_hashes p) as [|v vs] eqn:Hp.
    + rewrite !outcome_Ret_bind. eexists. split; [done|]. split; [|done].
      split; cbn [current_level path_hashes length] in *; [lia|lia| |done].
      intros j Hj. destruct (decide (j = d)) as [->|]; [done|]. apply Hskip. lia.
    + rewrite usize_sub_ret, outcome_Ret_bind by done. fold d. rewrite empty_subtree_hash_at by lia.
      rewrite !outcome_Ret_bind. eexists. split; [done|]. split; [by apply Hsnoc|done].
Qed.

Lemma lxor_1_split q q' t :
  0 < t -> q' = Z.lxor q 1 <-> q' / (2 * t) = q / (2 * t) /\ q' mod (2 * t) = Z.lxor (q mod (2 * t)) 1.
Proof.
  intros Ht. rewrite !Z_lxor_1. pose proof (Z.div_mod q (2 * t) ltac:(lia)) as Hdm.
  pose proof (Z.mod_pos_bound q (2 * t) ltac:(lia)) as Hr.
  assert ((q mod (2 * t)) mod 2 = q mod 2) as Hm.
  { apply Z.mod_mod_divide. exists t. lia. }
  rewrite Hm. pose proof (Z.mod_pos_bound q 2 ltac:(lia)) as H2.
  assert (0 <= q mod (2 * t) + 1 - 2 * (q mod 2) < 2 * t) as Hr'.
  { pose proof (Z.div_mod (q mod (2 * t)) 2 ltac:(lia)). rewrite Hm in *. nia. }
  split.
  - intros ->. assert (q + 1 - 2 * (q mod 2) = 2 * t * (q / (2 * t)) + (q mod (2 * t) + 1 - 2 * (q mod 2))) as Heq by lia.
    rewrite Heq. split; symmetry; [eapply Z.div_unique|eapply Z.mod_unique]; [left; exact Hr'|done|left; exact Hr'|done].
  - intros [H1 H3]. rewrite (Z.div_mod q' (2 * t)), H1, H3 by lia. lia.
Qed.

(** The sibling of [k] at a depth inside a node is a block of the node. *)
Lemma sibling_block h j k m :
  (j < 4)%nat ->
  sibling (4 * h + j) k m =
    block (4 - j) (4 * h + j) (Z.lxor (digit k h / 2 ^ Z.of_nat j) 1) (same (4 * S h) k m).
Proof.
  intros Hj. unfold sibling, block, same. rewrite map_filter_filter. apply map_filter_ext. intros k' v _. cbn [fst].
  set (d := (4 * h + j)%nat). set (w := (4 - j)%nat).
  assert (forall z, z / 2 ^ Z.of_nat (4 * S h) = z / 2 ^ Z.of_nat d / 2 ^ Z.of_nat w) as Hdiv.
  { intros z. rewrite Z.div_div by lia. rewrite <- Z.pow_add_r by lia. do 2 f_equal. unfold d, w. lia. }
  assert (digit k h / 2 ^ Z.of_nat j = (k / 2 ^ Z.of_nat d) mod 2 ^ Z.of_nat w) as ->.
  { unfold digit. rewrite pow16_2. replace (4 * Z.of_nat h) with (Z.of_nat (4 * h)) by lia.
    assert (k / 2 ^ Z.of_nat d = k / 2 ^ Z.of_nat (4 * h) / 2 ^ Z.of_nat j) as ->.
    { rewrite Z.div_div by lia. rewrite <- Z.pow_add_r by lia. do 2 f_equal. unfold d. lia. }
    generalize (k / 2 ^ Z.of_nat (4 * h)). intros q.
    assert (16 = 2 ^ Z.of_nat j * 2 ^ Z.of_nat w) as ->.
    { rewrite <- Z.pow_add_r by lia. replace (Z.of_nat j + Z.of_nat w) with 4 by (unfold w; lia). done. }
    rewrite Z.rem_mul_r by lia. rewrite Z.mul_comm, Z.div_add by lia.
    rewrite (Z.div_small (q mod _)) by (apply Z.mod_pos_bound; lia). lia. }
  rewrite !Hdiv. generalize (k' / 2 ^ Z.of_nat d) (k / 2 ^ Z.of_nat d). intros q' q.
  assert (exists t, 2 ^ Z.of_nat w = 2 * t /\ 0 < t) as (t & -> & Ht0); [|by rewrite (and_comm _ (_ / _ = _)), <- lxor_1_split].
  exists (2 ^ Z.of_nat (w - 1)). rewrite <- Z.pow_succ_r by lia. split; [f_equal; unfold w; lia|lia].
Qed.

(** A level of a node gives the hash next to the path. *)
Lemma level_sibling h j k l m :
  (j < 4)%nat -> level_ok (4 - j) (4 * h + j) l (same (4 * S h) k m) ->
  exists o, l !! Nat.lxor (Z.to_nat (digit k h / 2 ^ Z.of_nat j)) 1 = Some o /\
    default (empty_at (4 * h + j)) o = tree_hash (4 * h + j) (sibling (4 * h + j) k m).
Proof.
  intros Hj [Hlen Hl]. set (i := Z.to_nat (digit k h / 2 ^ Z.of_nat j)).
  assert (0 <= digit k h / 2 ^ Z.of_nat j < 2 ^ Z.of_nat (4 - j)) as Hi.
  { pose proof (digit_range k h). split; [apply Z.div_pos; lia|]. apply Z.div_lt_upper_bound; [lia|].
    rewrite <- Z.pow_add_r by lia. replace (Z.of_nat j + Z.of_nat (4 - j)) with 4 by lia. lia. }
  assert (Z.of_nat (Nat.lxor i 1) = Z.lxor (digit k h / 2 ^ Z.of_nat j) 1) as Hx.
  { rewrite of_nat_lxor_1. unfold i. by rewrite Z2Nat.id by lia. }
  destruct (lookup_lt_is_Some_2 l (Nat.lxor i 1)) as [o Ho].
  { apply Nat2Z.inj_lt. rewrite Hx, Hlen, Z_lxor_1.
    assert (exists t, 2 ^ Z.of_nat (4 - j) = 2 * t) as [t Ht].
    { exists (2 ^ Z.of_nat (3 - j)). rewrite <- Z.pow_succ_r by lia. f_equal. lia. }
    rewrite Ht in *. pose proof (Z.mod_pos_bound (digit k h / 2 ^ Z.of_nat j) 2). div_lia. }
  exists o. split; [done|]. rewrite sibling_block by done. rewrite <- Hx. by apply Hl.
Qed.

Lemma cache_extend_merkle_path_spec h c k m p :
  (h < 64)%nat -> cache_ok h c (same (4 * S h) k m) -> path_ok k m p ->
  current_level p = (TREE_DEPTH - 4 * h - 1)%nat ->
  exists p', cache_extend_merkle_path c p (digit k h) = Ret p' /\ path_ok k m p' /\
    current_level p' = (TREE_DEPTH - 4 * S h)%nat.
Proof.
  intros Hh [H1 H2 H3] Hp Hlevel. unfold cache_extend_merkle_path, TREE_DEPTH in *.
  pose proof (digit_range k h) as Hr.
  assert (forall j, Z.to_nat (digit k h / 2 ^ Z.of_nat j) = (Z.to_nat (digit k h) / 2 ^ j)%nat) as Hdiv.
  { intros j. rewrite Z2Nat.inj_div by lia. f_equal. rewrite Z2Nat.inj_pow, Nat2Z.id by lia. done. }
  destruct (level_sibling h 1 k (level3 c) m) as (o3 & E3 & V3); [lia|done|].
  destruct (level_sibling h 2 k (level2 c) m) as (o2 & E2 & V2); [lia|done|].
  destruct (level_sibling h 3 k (level1 c) m) as (o1 & E1 & V1); [lia|done|].
  rewrite Hdiv in E1, E2, E3. change (2 ^ 1)%nat with 2%nat in E3.
  assert (forall n, n / 2 / 2 / 2 = n / 2 ^ 3 /\ n / 2 / 2 = n / 2 ^ 2)%nat as Hd
    by (intros n; by rewrite !Nat.Div0.div_div).
  rewrite <- (proj1 (Hd _)) in E1. rewrite <- (proj2 (Hd _)) in E2.
  unfold index_vec. rewrite E3, E2, E1. cbn [expect]. rewrite !outcome_Ret_bind.
  destruct (path_push_spec k m p o3) as (p3 & -> & Hp3 & L3); [done|lia| |].
  { unfold TREE_DEPTH. by replace (256 - current_level p)%nat with (4 * h + 1)%nat by lia. }
  rewrite !outcome_Ret_bind. destruct (path_push_spec k m p3 o2) as (p2 & -> & Hp2 & L2); [done|lia| |].
  { unfold TREE_DEPTH. by replace (256 - current_level p3)%nat with (4 * h + 2)%nat by lia. }
  rewrite !outcome_Ret_bind. destruct (path_push_spec k m p2 o1) as (p1 & -> & Hp1 & L1); [done|lia| |].
  { unfold TREE_DEPTH. by replace (256 - current_level p2)%nat with (4 * h + 3)%nat by lia. }
  exists p1. split_and!; [done..|lia].
Qed.

(** A node adds the four hashes next to the path of [k]. *)
Lemma extend_merkle_path_spec h node k m p :
  (h < 64)%nat -> node_hashed h node (same (4 * S h) k m) -> path_ok k m p ->
  current_level p = (TREE_DEPTH - 4 * h)%nat ->
  exists node' p', extend_merkle_path node (TREE_DEPTH - 4 * S h) (digit k h) p = Ret (node', p') /\
    node_hashed h node' (same (4 * S h) k m) /\ children node' = children node /\ path_ok k m p' /\
    current_level p' = (TREE_DEPTH - 4 * S h)%nat.
Proof.
  intros Hh Hnode Hp Hlevel. pose proof Hnode as [Hwf Hok Hcache]. unfold extend_merkle_path.
  pose proof (digit_range k h) as Hr.
  assert (0 <= Z.lxor (digit k h) 1 < 16) as Hx.
  { rewrite Z_lxor_1. pose proof (Z.mod_pos_bound (digit k h) 2). div_lia. }
  rewrite child_ref_at, outcome_Ret_bind by done.
  destruct (path_push_spec k m p (cr_hash <$> child_at node (Z.lxor (digit k h) 1))) as (p1 & -> & Hp1 & L1);
    [done|unfold TREE_DEPTH in *; lia| |].
  { replace (TREE_DEPTH - current_level p)%nat with (4 * h)%nat by (unfold TREE_DEPTH in *; lia).
    rewrite Hok by done. f_equal. pose proof (sibling_block h 0 k m ltac:(lia)) as Hs.
    change (2 ^ Z.of_nat 0) with 1 in Hs. rewrite Nat.add_0_r, Z.div_1_r in Hs. rewrite Hs. apply sub_block. }
  rewrite outcome_Ret_bind.
  assert (exists node' c, match node_cache node with
      | Some cache => Ret (node, cache)
      | None => '(_, cache) ← hash_inner (child_hashes node) (TREE_DEPTH - 4 * S h) (Some cache_default);
                cache ← expect cache "the cache is returned"; Ret (set_cache node cache, cache)
      end = Ret (node', c) /\ node_hashed h node' (same (4 * S h) k m) /\ children node' = children node /\
      cache_ok h c (same (4 * S h) k m)) as (node' & c & -> & Hnode' & Hch & Hc).
  { destruct (node_cache node) as [c|] eqn:Hcn; [by exists node, c; auto|].
    destruct (hash_inner_spec h (child_hashes node) (same (4 * S h) k m) (Some cache_default)) as (cache' & -> & Hc');
      [done|by apply child_hashes_level|]. destruct cache' as [c'|]; [|done].
    exists (set_cache node c'), c'. split_and!; [done| |done|done]. split; [done|done|]. intros c0 [= <-]. done. }
  rewrite outcome_Ret_bind. destruct (cache_extend_merkle_path_spec h c k m p1) as (p' & -> & Hp' & L');
    [done..|unfold TREE_DEPTH in *; lia|]. exists node', p'. by rewrite outcome_Ret_bind.
Qed.

(** *** Folding a path *)

Lemma testbit_div z d : Z.testbit z (Z.of_nat d) = Z.odd (z / 2 ^ Z.of_nat d).
Proof. by rewrite Z.testbit_odd, Z.shiftr_div_pow2 by lia. Qed.

Lemma half_same b d k m :
  half b d (same (S d) k m) =
    if Bool.eqb (Z.testbit k (Z.of_nat d)) b then same d k m else sibling d k m.
Proof.
  unfold half, same, sibling. rewrite map_filter_filter, testbit_div.
  assert (forall z, z / 2 ^ Z.of_nat (S d) = z / 2 ^ Z.of_nat d / 2) as Hdiv.
  { intros z. rewrite Nat2Z.inj_succ, Z.pow_succ_r, (Z.mul_comm 2), Z.div_div by lia. done. }
  assert (forall q q' : Z, (q' / 2 = q / 2 /\ Z.odd q' = Z.odd q <-> q' = q) /\
            (q' / 2 = q / 2 /\ Z.odd q' <> Z.odd q <-> q' = Z.lxor q 1)) as Hq.
  { intros q q'. rewrite Z_lxor_1, Zmod_odd. rewrite <- !Z.div2_div.
    pose proof (Z.div2_odd q). pose proof (Z.div2_odd q').
    destruct (Z.odd q), (Z.odd q'); cbn [Z.b2z] in *; naive_solver lia. }
  destruct (Bool.eqb_spec (Z.odd (k / 2 ^ Z.of_nat d)) b) as [<-|Hne]; apply map_filter_ext; intros k' v _;
    cbn [fst]; rewrite testbit_div, !Hdiv; destruct (Hq (k / 2 ^ Z.of_nat d) (k' / 2 ^ Z.of_nat d)) as [H1 H2].
  - rewrite <- H1. tauto.
  - rewrite <- H2. destruct (Z.odd (k' / _)), (Z.odd (k / _)), b; naive_solver.
Qed.

Lemma same_sibling_step d k m :
  tree_hash (S d) (same (S d) k m) =
    hash_step k d (tree_hash d (same d k m)) (tree_hash d (sibling d k m)).
Proof.
  rewrite tree_hash_S, !half_same. unfold hash_step. by destruct (Z.testbit k (Z.of_nat d)).
Qed.

(** Replacing the leaf of [k] does not change the hashes next to its path. *)
Lemma sibling_alter d k o m : sibling d k (partial_alter (fun _ => o) k m) = sibling d k m.
Proof.
  unfold sibling. apply map_eq. intros k'. rewrite !map_lookup_filter.
  destruct (decide (k' = k)) as [->|Hne]; [|by rewrite lookup_partial_alter_ne].
  assert (forall v : Z * Z, ((k, v).1 / 2 ^ Z.of_nat d) <> Z.lxor (k / 2 ^ Z.of_nat d) 1) as Hk.
  { intros v. cbn. rewrite Z_lxor_1. pose proof (Z.mod_pos_bound (k / 2 ^ Z.of_nat d) 2). lia. }
  rewrite lookup_partial_alter_eq. destruct o as [v|], (m !! k) as [v'|]; cbn; try done;
    rewrite ?option_guard_False by (by (apply (Hk v) || apply (Hk v'))); done.
Qed.

Lemma same_0 k o m : same 0 k (partial_alter (fun _ => o) k m) = match o with Some x => {[k := x]} | None => ∅ end.
Proof.
  unfold same. apply map_eq. intros k'. rewrite map_lookup_filter. change (2 ^ Z.of_nat 0) with 1.
  destruct (decide (k' = k)) as [->|Hne].
  - rewrite lookup_partial_alter_eq. destruct o as [x|]; cbn.
    + by rewrite option_guard_True, lookup_singleton_eq by done.
    + by rewrite lookup_empty.
  - assert ((match o with Some x => {[k := x]} | None => ∅ end : Leaves) !! k' = None) as ->.
    { destruct o; [by rewrite lookup_singleton_ne|by rewrite lookup_empty]. }
    destruct (_ !! k') as [v|]; [|done]. cbn. rewrite option_guard_False; [done|]. rewrite !Z.div_1_r. done.
Qed.

Lemma same_all k m :
  unsigned 256 k -> (forall k' v, m !! k' = Some v -> unsigned 256 k') -> same TREE_DEPTH k m = m.
Proof.
  intros Hk Hm. apply map_filter_id. intros k' v Hv. cbn [fst]. change (Z.of_nat TREE_DEPTH) with 256.
  rewrite !Z.div_small; [done|by apply Hk|]. by eapply Hm.
Qed.

Lemma extend_path_ret path :
  (length path <= TREE_DEPTH)%nat ->
  extend_path path = Ret ((empty_at <$> seq 0 (TREE_DEPTH - length path)) ++ path).
Proof.
  intros Hp. unfold extend_path. rewrite usize_sub_ret, outcome_Ret_bind by done.
  assert (TREE_DEPTH - length path <= TREE_DEPTH)%nat as Hn by lia.
  revert Hn. generalize (TREE_DEPTH - length path)%nat. intros n Hn.
  destruct (foldM_seq_invariant (fun i hashes => hashes = empty_at <$> seq 0 i)
    (fun hashes depth => h ← empty_subtree_hash depth; Ret (hashes ++ [h])) [] n) as (a & Ha & Hi); [done| |].
  - intros i l Hi ->. rewrite empty_subtree_hash_at by lia. eexists. split; [done|].
    by rewrite seq_S, fmap_app.
  - by rewrite Ha, Hi.
Qed.

Lemma extend_path_panics path :
  (TREE_DEPTH < length path)%nat -> extend_path path = Panics "attempt to subtract with overflow".
Proof. intros Hp. unfold extend_path, usize_sub. by destruct (Nat.leb_spec (length path) TREE_DEPTH); [lia|]. Qed.

(** The hashes of a full path. *)
Lemma path_full k m p :
  path_ok k m p -> current_level p = 0%nat ->
  exists full, extend_path (path_hashes p) = Ret full /\
    full = (fun j => tree_hash j (sibling j k m)) <$> seq 0 TREE_DEPTH.
Proof.
  intros [_ Hlen Hskip Hat] Hl. rewrite Hl, Nat.sub_0_r in *. rewrite extend_path_ret by done.
  eexists. split; [done|]. cbv zeta in Hat. set (n := length (path_hashes p)) in *.
  replace TREE_DEPTH with ((TREE_DEPTH - n) + n)%nat at 2 by lia. rewrite seq_app, fmap_app. f_equal.
  - apply list_fmap_ext. intros i j Hj. apply lookup_seq in Hj as [-> Hj]. symmetry. by apply Hskip.
  - apply list_eq. intros i. rewrite list_lookup_fmap. destruct (decide (i < n)%nat) as [Hi|Hi].
    + destruct (lookup_lt_is_Some_2 (path_hashes p) i Hi) as [v Hv]. rewrite Hv, lookup_seq_lt by done.
      cbn. f_equal. by apply Hat.
    + rewrite (lookup_ge_None_2 (path_hashes p)) by lia. by rewrite lookup_seq_ge by lia.
Qed.

Lemma fold_full_path k m o hash n :
  hash = tree_hash 0 (match o with Some x => {[k := x]} | None => ∅ end) ->
  foldl (fun hash '(depth, adjacent_hash) => hash_step k depth hash adjacent_hash) hash
    (imap pair ((fun j => tree_hash j (sibling j k m)) <$> seq 0 n)) =
  tree_hash n (same n k (partial_alter (fun _ => o) k m)).
Proof.
  intros ->. induction n as [|n IH]; [by rewrite same_0|].
  rewrite seq_S, fmap_app, imap_app, foldl_app, IH.
  cbn [fmap list_fmap imap foldl Nat.add compose]. rewrite length_fmap, length_seq, Nat.add_0_r.
  rewrite same_sibling_step. by rewrite sibling_alter.
Qed.

(** Folding a path of [k] gives the root hash of the tree in which the leaf of [k] is
    replaced by the entry. *)
Lemma fold_merkle_path_spec k m p entry o :
  path_ok k m p -> current_level p = 0%nat -> te_key entry = k -> unsigned 256 k ->
  (forall k' v, m !! k' = Some v -> unsigned 256 k') ->
  hash_leaf (te_value entry) (te_leaf_index entry) = tree_hash 0 (match o with Some x => {[k := x]} | None => ∅ end) ->
  fold_merkle_path (path_hashes p) entry = Ret (tree_hash TREE_DEPTH (partial_alter (fun _ => o) k m)).
Proof.
  intros Hp Hl Hk Hu Hm Ho. unfold fold_merkle_path. destruct (path_full k m p Hp Hl) as (full & -> & ->).
  rewrite outcome_Ret_bind. f_equal. rewrite Hk, Ho, (fold_full_path k m o) by done. f_equal. apply same_all; [done|].
  intros k' v Hv. destruct (decide (k' = k)) as [->|]; [done|]. rewrite lookup_partial_alter_ne in Hv by done. by eapply Hm.
Qed.

Lemma fold_insert k m p entry :
  path_ok k m p -> current_level p = 0%nat -> te_key entry = k -> unsigned 256 k ->
  (forall k' v, m !! k' = Some v -> unsigned 256 k') ->
  fold_merkle_path (path_hashes p) entry =
    Ret (tree_hash TREE_DEPTH (<[k := (te_value entry, te_leaf_index entry)]> m)).
Proof.
  intros. eapply (fold_merkle_path_spec k m p entry (Some _)); [done..|]. by rewrite tree_hash_leaf.
Qed.

Lemma fold_missing k m p entry :
  path_ok k m p -> current_level p = 0%nat -> te_key entry = k -> unsigned 256 k ->
  (forall k' v, m !! k' = Some v -> unsigned 256 k') -> m !! k = None ->
  te_value entry = 0 -> te_leaf_index entry = 0 ->
  fold_merkle_path (path_hashes p) entry = Ret (tree_hash TREE_DEPTH m).
Proof.
  intros Hp Hl Hk Hu Hm Hnone Hv Hi. rewrite (fold_merkle_path_spec k m p entry None) by (by rewrite ?Hv, ?Hi, ?tree_hash_empty, ?empty_at_0).
  rewrite <- (partial_alter_self m k) at 2. by rewrite Hnone.
Qed.
End Spec.
