(* ===== verification/TreeExamples.v ===== *)
(** * Runs of the state tree

    Runs of the state tree on an in-memory database ([PatchSet]) with a small hasher, and what
    they show of [src/core/lib/merkle_tree/src]: extending with proofs a tree whose root is a
    leaf, pruning after a truncation, and the verification of overlong proofs. *)

From S2P Require Import Prelude Bytes Utils TreeUtils TreeTypes TreeHasher TreeDatabase TreeStorage MerkleTree TreeSpec TreeDomain.
Open Scope Z_scope.

(** A hasher that satisfies the laws of [HashTree] and is cheap to evaluate. *)
Definition sum_hasher : HashTree := {|
  hasher_name := "sum";
  hash_leaf value index := 3 * value + 7 * index;
  hash_branch lhs rhs := (3 * lhs + 5 * rhs) mod 2 ^ 61;
  empty_subtree_hash _ := Ret 0;
|}.

Definition sum_laws : @HashTreeLaws sum_hasher.
Proof. refine {| empty_at := fun _ => 0 |}; intros; reflexivity. Defined.

Section Runs.
#[local] Existing Instance sum_hasher.

Definition run_entry (nibble value index : Z) : TreeEntry :=
  {| te_key := nibble * 2 ^ 252; te_value := value; te_leaf_index := index |}.

(** The database after an operation that is expected to succeed. *)
Definition after {A} (m : outcome (result (A * PatchSet) string)) : PatchSet :=
  match m with Ret (Ok (_, db)) => db | _ => patch_default end.

Definition one_leaf : PatchSet := after (tree_extend patch_default [run_entry 1 11 1]).

(** What an extension of a tree returns, and what the consistency check says of the result. *)
Definition extended_root (db : PatchSet) (entries : list TreeEntry) :=
  match tree_extend db entries with
  | Ret (Ok (output, db)) => Some (root_hash output, verify_consistency db 1 true)
  | _ => None
  end.

Definition proved_root (db : PatchSet) (instructions : list TreeInstruction) :=
  match tree_extend_with_proofs db instructions with
  | Ret (Ok (output, db)) => Some (output_root_hash output, verify_consistency db 1 true)
  | _ => None
  end.


(** Two leaves, then an update of the first one that is truncated, then one of the second one. *)
Definition two_leaves : PatchSet := after (tree_extend patch_default [run_entry 1 11 1; run_entry 5 22 2]).

Definition truncated : PatchSet :=
  match truncate_recent_versions (after (tree_extend two_leaves [run_entry 1 12 1])) 1 with
  | Ret (Ok db) => db
  | _ => patch_default
  end.

Definition reextended : PatchSet := after (tree_extend truncated [run_entry 5 23 2]).

Definition pruned_reextended : PatchSet := after (prune_up_to 100 reextended 1).

End Runs.

(** The verification of a proof returns an error only for paths of at most 256 hashes; it
    panics on every longer one, unless the entry is rejected before its path is looked at. *)
Theorem overlong_proof_panics `{!HashTree} e root :
  (TREE_DEPTH < length (merkle_path e))%nat ->
  verify e root =
    if (te_leaf_index (base e) =? 0) && negb (te_value (base e) =? 0)
    then Ret (Err "Invalid missing value specification: leaf index is zero, but value is non-default")
    else Panics "attempt to subtract with overflow".
Proof.
  intros Hlen. unfold verify, fold_merkle_path. rewrite (extend_path_panics _ Hlen).
  destruct (te_leaf_index (base e) =? 0), (te_value (base e) =? 0); reflexivity.
Qed.

Definition overlong_proof : TreeEntryWithProof :=
  {| base := {| te_key := 1; te_value := 11; te_leaf_index := 1 |}; merkle_path := replicate 257 0 |}.

Lemma overlong_proof_panics_witness :
  @verify sum_hasher overlong_proof 0 = Panics "attempt to subtract with overflow".
Proof. apply (@overlong_proof_panics sum_hasher overlong_proof 0). vm_compute. lia. Defined.
