(* ===== verification/TreeRange.v ===== *)
(** * Digests of key ranges

    Correctness of [TreeRangeDigest] ([src/core/lib/merkle_tree/src/hasher/proofs.rs]): from
    the entries of a key range and the Merkle proofs of its first and last entries, the digest
    computes the root hash of the whole tree. *)

From S2P Require Import Prelude Bytes Utils TreeUtils TreeTypes TreeHasher TreeSpec.
Open Scope Z_scope.

(** The first bit in which two keys differ, counted from the least significant one. *)
Definition diverging (k k' : Z) : nat := Z.to_nat (Z.log2 (Z.lxor k k')).

Lemma lxor_unsigned k k' : unsigned 256 k -> unsigned 256 k' -> 0 <= Z.lxor k k' < 2 ^ 256.
Proof.
  intros Hk Hk'. assert (0 <= Z.lxor k k') as H0 by (apply Z.lxor_nonneg; unfold unsigned in *; lia).
  split; [done|]. destruct (decide (Z.lxor k k' = 0)) as [->|Hne]; [lia|].
  apply Z.log2_lt_pow2; [lia|]. eapply Z.le_lt_trans; [apply Z.log2_lxor; unfold unsigned in *; lia|].
  assert (forall z, unsigned 256 z -> Z.log2 z < 256) as Hlog.
  { intros z [Hz0 Hz]. destruct (decide (z = 0)) as [->|]; [done|]. apply Z.log2_lt_pow2; lia. }
  apply Z.max_lub_lt; by apply Hlog.
Qed.

Lemma diverging_ne k k' :
  unsigned 256 k -> unsigned 256 k' -> k <> k' ->
  let d := diverging k k' in
  (d < 256)%nat /\ (find_diverging_bit k k' + 1 = TREE_DEPTH - d)%nat /\
  k' / 2 ^ Z.of_nat d = Z.lxor (k / 2 ^ Z.of_nat d) 1.
Proof.
  intros Hk Hk' Hkk d. pose proof (lxor_unsigned k k' Hk Hk') as Hx.
  assert (Z.lxor k k' <> 0) as Hne by (intros ->%Z.lxor_eq; done).
  pose proof (Z.log2_nonneg (Z.lxor k k')) as Hlog0.
  assert (Z.log2 (Z.lxor k k') < 256) as Hlog by (apply Z.log2_lt_pow2; lia).
  assert (Z.of_nat d = Z.log2 (Z.lxor k k')) as Hd by (unfold d, diverging; lia).
  split; [lia|]. split.
  { unfold find_diverging_bit, leading_zeros_256. destruct (Z.eqb_spec (Z.lxor k k') 0); [done|].
    unfold TREE_DEPTH. lia. }
  assert (Z.lxor (k / 2 ^ Z.of_nat d) (k' / 2 ^ Z.of_nat d) = 1) as H1.
  { rewrite <- !Z.shiftr_div_pow2, <- Z.shiftr_lxor, Z.shiftr_div_pow2 by lia. rewrite Hd.
    pose proof (Z.log2_spec (Z.lxor k k') ltac:(lia)) as [Hl1 Hl2].
    symmetry. apply (Z.div_unique _ _ _ (Z.lxor k k' - 2 ^ Z.log2 (Z.lxor k k'))); [|lia].
    rewrite Z.pow_succ_r in Hl2 by lia. lia. }
  rewrite <- H1, <- Z.lxor_assoc, Z.lxor_nilpotent. done.
Qed.

Lemma diverging_spec k k' :
  unsigned 256 k -> unsigned 256 k' -> k < k' ->
  let d := diverging k k' in
  (d < 256)%nat /\ (find_diverging_bit k k' + 1 = TREE_DEPTH - d)%nat /\
  k' / 2 ^ Z.of_nat d = Z.lxor (k / 2 ^ Z.of_nat d) 1 /\ (k / 2 ^ Z.of_nat d) mod 2 = 0.
Proof.
  intros Hk Hk' Hlt d. destruct (diverging_ne k k' Hk Hk' ltac:(lia)) as (Hd & Hfind & H2). fold d in Hd, Hfind, H2.
  do 3 (split; [done|]). rewrite Z_lxor_1 in H2.
  assert (k / 2 ^ Z.of_nat d <= k' / 2 ^ Z.of_nat d) by (apply Z.div_le_mono; lia).
  pose proof (Z.mod_pos_bound (k / 2 ^ Z.of_nat d) 2). lia.
Qed.

Lemma div_split x j d :
  (j < d)%nat -> x / 2 ^ Z.of_nat d = x / 2 ^ Z.of_nat j / 2 / 2 ^ Z.of_nat (d - S j).
Proof.
  intros Hj. rewrite !Z.div_div by lia. change 2 with (2 ^ 1) at 3. rewrite <- !Z.pow_add_r by lia.
  do 2 f_equal. lia.
Qed.

(** No leaf lies strictly between [k] and [k']. *)
Definition gap (k k' : Z) (m : Leaves) : Prop := forall z v, m !! z = Some v -> ~ k < z < k'.

Section Range.
Context `{!HashTree, !HashTreeLaws}.
Variable m : Leaves.
Hypothesis m_keys : forall k v, m !! k = Some v -> unsigned 256 k.

(** The entry is the one stored in the tree, or empty when there is none. *)
Definition entry_in (e : TreeEntry) : Prop :=
  match m !! te_key e with
  | Some (value, index) => te_value e = value /\ te_leaf_index e = index
  | None => te_value e = 0 /\ te_leaf_index e = 0
  end.

(** The hash of the leaf of an entry of the tree. *)
Lemma entry_leaf_hash e :
  entry_in e -> hash_leaf (te_value e) (te_leaf_index e) = tree_hash 0 (same 0 (te_key e) m).
Proof.
  intros He. rewrite <- (partial_alter_self m (te_key e)) at 1. rewrite same_0. unfold entry_in in He.
  destruct (m !! te_key e) as [[v i]|]; destruct He as [-> ->].
  - by rewrite tree_hash_leaf.
  - by rewrite tree_hash_empty, empty_at_0.
Qed.

(** The contour to the left of key [k]: the hashes of the subtrees to the left of its path. *)
Record contour_ok (k : Z) (contour : list Z) : Prop := {
  contour_length : length contour = TREE_DEPTH;
  contour_at j v : contour !! j = Some v ->
    v = if Z.testbit k (Z.of_nat j) then tree_hash j (sibling j k m) else empty_at j;
}.

(** Subtrees whose leaves would lie in a gap are empty. *)
Lemma sibling_right_empty k k' d j :
  gap k k' m -> k' / 2 ^ Z.of_nat d = k / 2 ^ Z.of_nat d + 1 -> (j < d)%nat ->
  Z.testbit k (Z.of_nat j) = false -> sibling j k m = ∅.
Proof.
  intros Hgap Hd Hj Hb. unfold sibling. apply map_empty. intros z. apply map_lookup_filter_None. right.
  intros v Hv Hz. cbn [fst] in Hz. apply (Hgap z v Hv).
  rewrite testbit_div, <- Z.negb_even, negb_false_iff, Z.even_spec in Hb. destruct Hb as [q Hq].
  rewrite Z_lxor_1 in Hz. rewrite Hq in Hz. assert ((2 * q) mod 2 = 0) as Hmod by (clear; div_lia). rewrite Hmod in Hz.
  split.
  - destruct (Z.lt_ge_cases k z) as [|Hge]; [done|].
    pose proof (Z.div_le_mono z k (2 ^ Z.of_nat j) ltac:(lia) Hge) as Hle. clear -Hle Hz Hq. lia.
  - destruct (Z.lt_ge_cases z k') as [|Hge]; [done|].
    pose proof (Z.div_le_mono k' z (2 ^ Z.of_nat d) ltac:(lia) Hge) as Hle.
    rewrite Hd, (div_split z j d Hj), (div_split k j d Hj), Hz, Hq in Hle.
    replace ((2 * q + 1 - 2 * 0) / 2) with q in Hle by (clear; div_lia). replace (2 * q / 2) with q in Hle by (clear; div_lia). clear -Hle Hd. lia.
Qed.

Lemma sibling_left_empty k k' d j :
  gap k k' m -> k' / 2 ^ Z.of_nat d = k / 2 ^ Z.of_nat d + 1 -> (j < d)%nat ->
  Z.testbit k' (Z.of_nat j) = true -> sibling j k' m = ∅.
Proof.
  intros Hgap Hd Hj Hb. unfold sibling. apply map_empty. intros z. apply map_lookup_filter_None. right.
  intros v Hv Hz. cbn [fst] in Hz. apply (Hgap z v Hv).
  rewrite testbit_div, Z.odd_spec in Hb. destruct Hb as [q Hq].
  rewrite Z_lxor_1 in Hz. rewrite Hq in Hz. assert ((2 * q + 1) mod 2 = 1) as Hmod by (clear; div_lia). rewrite Hmod in Hz.
  split.
  - destruct (Z.lt_ge_cases k z) as [|Hge]; [done|].
    pose proof (Z.div_le_mono z k (2 ^ Z.of_nat d) ltac:(lia) Hge) as Hle.
    rewrite (div_split k' j d Hj) in Hd. rewrite (div_split z j d Hj), Hz in Hle. rewrite Hq in Hd.
    replace ((2 * q + 1) / 2) with q in Hd by (clear; div_lia). replace ((2 * q + 1 + 1 - 2 * 1) / 2) with q in Hle by (clear; div_lia). clear -Hle Hd. lia.
  - destruct (Z.lt_ge_cases z k') as [|Hge]; [done|].
    pose proof (Z.div_le_mono k' z (2 ^ Z.of_nat j) ltac:(lia) Hge) as Hle. clear -Hle Hz Hq. lia.
Qed.

Lemma foldl_snoc {A B} (f : A -> B) (l : list A) acc : foldl (fun acc x => acc ++ [f x]) acc l = acc ++ (f <$> l).
Proof.
  revert acc. induction l as [|x l IH]; intros acc; [by rewrite app_nil_r|].
  cbn [foldl]. rewrite IH, <- app_assoc. done.
Qed.

(** The first contour is taken from the path of the first entry. *)
Lemma digest_new_ok k (p : MerklePath) e :
  path_ok k m p -> current_level p = 0%nat ->
  exists d, digest_new k {| base := e; merkle_path := path_hashes p |} = Ret d /\
    current_leaf d = leaf_new e /\ contour_ok k (left_contour d).
Proof.
  intros Hp Hl. unfold digest_new. cbn [merkle_path base].
  destruct (path_full k m p Hp Hl) as (full & -> & Hfull). rewrite outcome_Ret_bind.
  assert (length full = TREE_DEPTH) as Hlen by (rewrite Hfull, length_fmap; apply length_seq).
  set (g := fun '(depth, adjacent_hash) =>
         if Z.testbit k (Z.of_nat depth) then adjacent_hash else empty_at depth).
  erewrite (foldM_pure _ (fun acc x => acc ++ [g x])).
  2:{ intros acc [depth adj] Hin. cbn. destruct (Z.testbit k (Z.of_nat depth)); [done|].
      apply list_elem_of_lookup in Hin as [i Hi]. apply list_lookup_imap_Some in Hi as (y & Hy & [= -> ->]).
      apply lookup_lt_Some in Hy. rewrite empty_subtree_hash_at by lia. done. }
  rewrite foldl_snoc, outcome_Ret_bind. cbn [app].
  rewrite length_fmap, length_imap, Hlen, rust_assert_true by done.
  rewrite outcome_Ret_bind. eexists. split; [done|]. split; [done|]. cbn [left_contour]. split.
  - by rewrite length_fmap, length_imap.
  - intros j v Hv. apply list_lookup_fmap_Some in Hv as ([depth adj] & -> & Hi).
    apply list_lookup_imap_Some in Hi as (y & Hy & [= -> ->]). cbn.
    rewrite Hfull in Hy. apply list_lookup_fmap_Some in Hy as (j' & -> & Hj).
    apply lookup_seq in Hj as [-> _]. done.
Qed.

(** The loop of [digest_update] up to depth [n]. *)
Lemma digest_collapse k e contour n k' d :
  contour_ok k contour -> entry_in e -> te_key e = k -> gap k k' m ->
  k' / 2 ^ Z.of_nat d = k / 2 ^ Z.of_nat d + 1 -> (n <= d)%nat -> (d < TREE_DEPTH)%nat ->
  exists contour', foldM (digest_collapse_step k)
    (hash_leaf (te_value e) (te_leaf_index e), contour) (seq 0 n) =
    Ret (tree_hash n (same n k m), contour') /\
    length contour' = TREE_DEPTH /\
    (forall j, (j < n)%nat -> contour' !! j = Some (empty_at j)) /\
    (forall j, (n <= j)%nat -> contour' !! j = contour !! j).
Proof.
  intros [Hlen Hat] He Hk Hgap Hd Hn Hd256.
  unfold digest_collapse_step.
  edestruct (foldM_seq_invariant (fun n '(hash, contour') => hash = tree_hash n (same n k m) /\
    length contour' = TREE_DEPTH /\ (forall j, (j < n)%nat -> contour' !! j = Some (empty_at j)) /\
    (forall j, (n <= j)%nat -> contour' !! j = contour !! j))) as ([hash contour'] & Hf & Hinv); [| |].
  3:{ exists contour'. destruct Hinv as (-> & Hinv). split; [exact Hf|done]. }
  { split_and!; [rewrite <- Hk; by apply entry_leaf_hash|done| |done]. intros j Hj. lia. }
  intros i [hash c] Hi (-> & Hc & Hlow & Hhigh). rewrite empty_subtree_hash_at, outcome_Ret_bind by lia.
  destruct (lookup_lt_is_Some_2 c i) as [v Hv]; [lia|]. unfold index_vec. rewrite Hv. cbn [expect].
  rewrite outcome_Ret_bind. eexists. split; [done|]. rewrite Hhigh in Hv by done. apply Hat in Hv.
  split_and!.
  - rewrite same_sibling_step. unfold hash_step. rewrite Hv.
    destruct (Z.testbit k (Z.of_nat i)) eqn:Hb; [done|].
    rewrite (sibling_right_empty k k' d i) by (done || lia). by rewrite tree_hash_empty.
  - by rewrite length_insert.
  - intros j Hj. destruct (decide (j = i)) as [->|]; [by rewrite list_lookup_insert_eq by lia|].
    rewrite list_lookup_insert_ne by done. apply Hlow. lia.
  - intros j Hj. rewrite list_lookup_insert_ne by lia. apply Hhigh. lia.
Qed.

Lemma same_diverging k k' d :
  k' / 2 ^ Z.of_nat d = Z.lxor (k / 2 ^ Z.of_nat d) 1 -> same d k m = sibling d k' m.
Proof.
  intros Hd. unfold same, sibling. apply map_filter_ext. intros z v _. cbn [fst].
  by rewrite Hd, Z.lxor_assoc, Z.lxor_nilpotent, Z.lxor_0_r.
Qed.

(** Moving on to the next key of the range. *)
Lemma digest_update_ok dg e k e' :
  current_leaf dg = leaf_new e -> te_key e = k -> contour_ok k (left_contour dg) -> entry_in e ->
  unsigned 256 k -> unsigned 256 (te_key e') -> k < te_key e' -> gap k (te_key e') m ->
  exists dg', digest_update dg e' = Ret dg' /\ current_leaf dg' = leaf_new e' /\
    contour_ok (te_key e') (left_contour dg').
Proof.
  intros Hleaf Hk Hc He Hu Hu' Hlt Hgap. set (k' := te_key e') in *. unfold digest_update.
  rewrite Hleaf. cbn [full_key value_hash leaf_index leaf_new]. rewrite Hk. fold k'.
  rewrite rust_assert_true by lia. rewrite outcome_Ret_bind.
  destruct (diverging_spec k k') as (Hd256 & Hfind & Hdiv & Heven); [done..|].
  set (d := diverging k k') in *. rewrite Hfind. rewrite usize_sub_ret, outcome_Ret_bind by (unfold TREE_DEPTH; lia).
  replace (TREE_DEPTH - (TREE_DEPTH - d))%nat with d by (unfold TREE_DEPTH; lia).
  assert (k' / 2 ^ Z.of_nat d = k / 2 ^ Z.of_nat d + 1) as Hsucc by (rewrite Hdiv, Z_lxor_1, Heven; lia).
  destruct (digest_collapse k e (left_contour dg) d k' d) as (c & -> & Hlen & Hlow & Hhigh); [done..|unfold TREE_DEPTH; lia|].
  rewrite outcome_Ret_bind. destruct (lookup_lt_is_Some_2 c d) as [v Hv]; [unfold TREE_DEPTH in *; lia|].
  unfold index_vec. rewrite Hv. cbn [expect]. rewrite outcome_Ret_bind. eexists. split; [done|]. split; [done|].
  cbn [left_contour]. split; [by rewrite length_insert|]. intros j w Hw.
  destruct (Nat.lt_trichotomy j d) as [Hj|[->|Hj]].
  - rewrite list_lookup_insert_ne, Hlow in Hw by lia. injection Hw as <-.
    destruct (Z.testbit k' (Z.of_nat j)) eqn:Hb; [|done].
    by rewrite (sibling_left_empty k k' d j), tree_hash_empty.
  - rewrite list_lookup_insert_eq in Hw by (by eapply lookup_lt_Some). injection Hw as <-.
    rewrite testbit_div, Hsucc, Z.odd_add. rewrite <- (same_diverging k) by done.
    rewrite <- Z.bit0_odd, Z.bit0_eqb, Heven. done.
  - rewrite list_lookup_insert_ne, Hhigh in Hw by lia. apply (contour_at _ _ Hc) in Hw. rewrite Hw.
    assert (k' / 2 ^ Z.of_nat j = k / 2 ^ Z.of_nat j) as Heq.
    { rewrite (div_split k' d j Hj), (div_split k d j Hj), Hsucc. f_equal. div_lia. }
    rewrite !testbit_div. unfold sibling. by rewrite Heq.
Qed.

(** Entries of the tree in the order of their keys, without a leaf in between. *)
Fixpoint linked (e : TreeEntry) (l : list TreeEntry) : Prop :=
  match l with
  | [] => True
  | e' :: l' =>
      te_key e < te_key e' /\ gap (te_key e) (te_key e') m /\ unsigned 256 (te_key e') /\ entry_in e' /\ linked e' l'
  end.

Lemma linked_intro e l :
  StronglySorted Z.lt (te_key e :: (te_key <$> l)) -> Forall entry_in l -> Forall (fun e => unsigned 256 (te_key e)) l ->
  (forall z v, m !! z = Some v -> te_key e < z -> (exists e', e' ∈ l /\ z < te_key e') -> z ∈ te_key <$> l) ->
  linked e l.
Proof.
  revert e. induction l as [|e1 l IH]; intros e Hsort Hin Hus Hall; [done|].
  apply Forall_cons in Hin as [He1 Hin]. apply Forall_cons in Hus as [Hu1 Hus].
  rewrite fmap_cons in *. apply StronglySorted_inv in Hsort as [Hsort Hlt].
  apply Forall_cons in Hlt as [Hlt _]. pose proof (StronglySorted_inv Hsort) as [_ Hlt1].
  rewrite Forall_forall in Hlt1. cbn [linked]. split_and!; [done| |done|done|].
  - intros z v Hz [Hz1 Hz2]. specialize (Hall z v Hz Hz1).
    assert (z ∈ te_key e1 :: (te_key <$> l)) as [->|Hz']%elem_of_cons; [|lia|].
    { apply Hall. exists e1. split; [left|done]. }
    specialize (Hlt1 _ Hz'). lia.
  - apply IH; [done..|]. intros z v Hz Hz1 (e' & He' & Hz2).
    assert (z ∈ te_key e1 :: (te_key <$> l)) as [->|Hz']%elem_of_cons; [|lia|done].
    apply (Hall z v Hz ltac:(lia)). exists e'. split; [by right|done].
Qed.

Lemma digest_entries dg e middle :
  current_leaf dg = leaf_new e -> contour_ok (te_key e) (left_contour dg) -> entry_in e ->
  unsigned 256 (te_key e) -> linked e middle ->
  exists dg' e', foldM digest_update dg middle = Ret dg' /\ current_leaf dg' = leaf_new e' /\
    contour_ok (te_key e') (left_contour dg') /\ entry_in e' /\ unsigned 256 (te_key e') /\
    forall l, linked e (middle ++ l) -> linked e' l.
Proof.
  revert dg e. induction middle as [|e1 middle IH]; intros dg e Hleaf Hc He Hu Hlinked; [by exists dg, e|].
  destruct Hlinked as (Hlt & Hgap & Hu1 & He1 & Hlinked). cbn [foldM].
  destruct (digest_update_ok dg e (te_key e) e1) as (dg1 & -> & Hleaf1 & Hc1); [done..|]. rewrite outcome_Ret_bind.
  destruct (IH dg1 e1) as (dg' & e' & Hf & H1 & H2 & H3 & H4 & H5); [done..|].
  exists dg', e'. split_and!; [done..|]. intros l (_ & _ & _ & _ & Hl). by apply H5.
Qed.

(** The last step folds the left contour and the path of the last entry. *)
Lemma fold_contour k contour full e :
  contour_ok k contour -> full = (fun j => tree_hash j (sibling j k m)) <$> seq 0 TREE_DEPTH ->
  entry_in e -> te_key e = k -> unsigned 256 k ->
  foldl (fun hash '(depth, (left_hash, right_hash)) =>
      if Z.testbit k (Z.of_nat depth) then hash_branch left_hash hash else hash_branch hash right_hash)
    (hash_leaf (te_value e) (te_leaf_index e)) (imap pair (zip contour full)) = tree_hash TREE_DEPTH m.
Proof.
  intros [Hlen Hat] -> He Hk Hu.
  assert (forall n, (n <= TREE_DEPTH)%nat ->
    foldl (fun hash '(depth, (left_hash, right_hash)) =>
        if Z.testbit k (Z.of_nat depth) then hash_branch left_hash hash else hash_branch hash right_hash)
      (hash_leaf (te_value e) (te_leaf_index e))
      (imap pair (zip (take n contour) ((fun j => tree_hash j (sibling j k m)) <$> seq 0 n))) =
    tree_hash n (same n k m)) as H'.
  { induction n as [|n IH]; intros Hn.
    - rewrite entry_leaf_hash by done. by rewrite Hk.
    - destruct (lookup_lt_is_Some_2 contour n) as [v Hv]; [lia|].
      rewrite (take_S_r _ _ v Hv), seq_S, fmap_app, zip_with_app, imap_app, foldl_app, IH;
        [|lia|rewrite length_take, length_fmap, length_seq; lia].
      cbn [zip_with fmap list_fmap imap foldl Nat.add compose].
      rewrite length_zip_with, length_take, length_fmap, length_seq, Nat.add_0_r.
      replace (Nat.min (Nat.min n (length contour)) n) with n by lia.
      rewrite same_sibling_step. unfold hash_step. apply Hat in Hv. rewrite Hv.
      by destruct (Z.testbit k (Z.of_nat n)). }
  specialize (H' TREE_DEPTH (le_n _)). rewrite take_ge in H' by lia. rewrite H'. f_equal. by apply same_all.
Qed.

Lemma digest_finalize_ok dg e e' (p : MerklePath) :
  current_leaf dg = leaf_new e -> contour_ok (te_key e) (left_contour dg) -> entry_in e -> unsigned 256 (te_key e) ->
  linked e [e'] -> path_ok (te_key e') m p -> current_level p = 0%nat ->
  digest_finalize dg {| base := e'; merkle_path := path_hashes p |} = Ret (tree_hash TREE_DEPTH m).
Proof.
  intros Hleaf Hc He Hu (Hlt & Hgap & Hu' & He' & _) Hp Hl. unfold digest_finalize. cbn [base merkle_path].
  destruct (digest_update_ok dg e (te_key e) e') as (dg' & -> & _ & Hc'); [done..|]. rewrite outcome_Ret_bind.
  destruct (path_full (te_key e') m p Hp Hl) as (full & -> & Hfull). rewrite outcome_Ret_bind. f_equal.
  by apply fold_contour.
Qed.

(** The whole digest of a range. *)
Lemma range_digest_root first p0 middle last p1 :
  entry_in first -> unsigned 256 (te_key first) -> linked first (middle ++ [last]) ->
  path_ok (te_key first) m p0 -> current_level p0 = 0%nat ->
  path_ok (te_key last) m p1 -> current_level p1 = 0%nat ->
  (d ← digest_new (te_key first) {| base := first; merkle_path := path_hashes p0 |};
   d ← foldM digest_update d middle;
   digest_finalize d {| base := last; merkle_path := path_hashes p1 |}) = Ret (tree_hash TREE_DEPTH m).
Proof.
  intros He Hu Hlinked Hp0 Hl0 Hp1 Hl1.
  destruct (digest_new_ok (te_key first) p0 first) as (d0 & -> & Hleaf0 & Hc0); [done..|]. rewrite outcome_Ret_bind.
  destruct (digest_entries d0 first middle) as (d1 & e1 & -> & H1 & H2 & H3 & H4 & H5); [done..| |].
  { clear -Hlinked. revert first Hlinked. induction middle as [|e l IH]; intros first Hl; [done|].
    destruct Hl as (? & ? & ? & ? & Hl). split_and!; [done..|]. by apply IH. }
  rewrite outcome_Ret_bind. eapply digest_finalize_ok; [done..|by apply H5|done|done].
Qed.
End Range.
