(* ===== verification/TreeInvariant.v ===== *)
(** * The invariant of the state tree

    [stored] says that a node in the database, with everything it refers to, represents a set
    of leaves; [working] says the same of a node of a working patch set, whose children may be
    in the patch set or in the database.  The lemmas give the frame rules of both and the way
    down from the root. *)

From S2P Require Import Prelude Bytes Utils TreeUtils TreeTypes TreeHasher TreeDatabase TreeStorage TreeSpec.
Open Scope Z_scope.

(** ** Positions *)

Definition valid (h : nat) (p : Z) : Prop := (h <= 64)%nat /\ 0 <= p < pow16 (64 - h).

Lemma valid_root : valid 64 0.
Proof. split; [lia|]. unfold pow16. simpl. lia. Qed.

Lemma valid_key h k : (h <= 64)%nat -> unsigned 256 k -> valid h (k / pow16 h).
Proof. intros Hh Hk. split; [done|]. by apply div_pow16_range. Qed.

Lemma valid_child h p x : valid (S h) p -> 0 <= x < 16 -> valid h (16 * p + x).
Proof.
  intros [Hh Hp] Hx. split; [lia|].
  replace (64 - h)%nat with (S (64 - S h)) by lia. rewrite pow16_S. lia.
Qed.

Lemma valid_parent h p : (h < 64)%nat -> valid h p -> valid (S h) (p / 16).
Proof.
  intros Hh [_ Hp]. split; [lia|]. replace (64 - h)%nat with (S (64 - S h)) in Hp by lia.
  rewrite pow16_S in Hp. clear -Hp. split; [apply Z.div_pos; lia|]. apply Z.div_lt_upper_bound; lia.
Qed.

Lemma valid_root_eq p : valid 64 p -> p = 0.
Proof. intros [_ Hp]. unfold pow16 in Hp. simpl in Hp. lia. Qed.

Lemma nib_eq h p h' p' : valid h p -> valid h' p' -> nib h p = nib h' p' -> h = h' /\ p = p'.
Proof.
  intros [Hh Hp] [Hh' Hp'] Heq. pose proof (f_equal nibble_count Heq) as Hcount.
  cbn [nib nibble_count] in Hcount. assert (h = h') as <- by lia. split; [done|].
  eapply nib_inj; [exact Hh|done..|]. by rewrite Heq.
Qed.

Lemma child_div p x : 0 <= x < 16 -> (16 * p + x) / 16 = p.
Proof. intros Hx. rewrite Z.mul_comm, Z.div_add_l, Z.div_small; lia. Qed.

Lemma child_mod p x : 0 <= x < 16 -> (16 * p + x) mod 16 = x.
Proof. intros Hx. rewrite Z.add_comm, Z.mul_comm, Z.mod_add, Z.mod_small; lia. Qed.

Lemma parent_child p : 16 * (p / 16) + p mod 16 = p.
Proof. symmetry. by apply Z.div_mod. Qed.

Lemma mod16_range p : 0 <= p mod 16 < 16.
Proof. by apply Z.mod_pos_bound. Qed.

(** A position lies below another one. *)
Definition below (h1 : nat) (q : Z) (h : nat) (p : Z) : Prop :=
  (h1 <= h)%nat /\ q / pow16 (h - h1) = p.

Lemma below_refl h p : below h p h p.
Proof. split; [done|]. rewrite Nat.sub_diag. unfold pow16. simpl. by rewrite Z.div_1_r. Qed.

Lemma below_child h p x h1 q :
  0 <= x < 16 -> below h1 q h (16 * p + x) -> below h1 q (S h) p /\ (h1 < S h)%nat.
Proof.
  intros Hx [Hh Hq]. repeat split; [lia| |lia].
  replace (S h - h1)%nat with (S (h - h1)) by lia. rewrite div_pow16_S, Hq. by apply child_div.
Qed.

Lemma below_parent h p h1 q :
  (h1 < h)%nat -> below h1 q h p -> below (S h1) (q / 16) h p.
Proof.
  intros Hlt [Hh Hq]. split; [lia|]. rewrite <- Hq. replace (h - h1)%nat with (1 + (h - S h1))%nat by lia.
  rewrite div_pow16_add. unfold pow16 at 2. simpl. done.
Qed.

Lemma below_key h h1 k : (h1 <= h)%nat -> below h1 (k / pow16 h1) h (k / pow16 h).
Proof. intros Hh. split; [done|]. rewrite <- div_pow16_add. do 2 f_equal. lia. Qed.

(** ** Leaves below a position *)

Definition part (h : nat) (p : Z) (m : Leaves) : Leaves := filter (fun kv => kv.1 / pow16 h = p) m.

Definition keys_ok (m : Leaves) : Prop := forall k v, m !! k = Some v -> unsigned 256 k.

Lemma sub_part h p x m : 0 <= x < 16 -> sub h x (part (S h) p m) = part h (16 * p + x) m.
Proof.
  intros Hx. unfold sub, part. rewrite map_filter_filter. apply map_filter_ext.
  intros k v _. simpl. rewrite (div_pow16_digit k h). pose proof (digit_range k h). lia.
Qed.

Lemma part_root m : keys_ok m -> part 64 0 m = m.
Proof.
  intros Hm. apply map_filter_id. intros k v Hk. simpl. by apply div_pow16_64, (Hm k v).
Qed.

Lemma part_lookup h p m k v : part h p m !! k = Some v <-> m !! k = Some v /\ k / pow16 h = p.
Proof. unfold part. by rewrite map_lookup_filter_Some. Qed.

Lemma part_lookup_key h m k : part h (k / pow16 h) m !! k = m !! k.
Proof.
  destruct (m !! k) as [v|] eqn:Hk; [by apply part_lookup|].
  apply map_lookup_filter_None. by left.
Qed.

Lemma part_insert_in h m k v :
  part h (k / pow16 h) (<[k := v]> m) = <[k := v]> (part h (k / pow16 h) m).
Proof. unfold part. by apply map_filter_insert_True. Qed.

Lemma part_insert_out h p m k v : k / pow16 h <> p -> part h p (<[k := v]> m) = part h p m.
Proof.
  intros Hne. unfold part. apply map_eq. intros k'. destruct (decide (k' = k)) as [->|Hk].
  - rewrite !map_lookup_filter, lookup_insert_eq. cbn. destruct (m !! k); cbn; by rewrite !option_guard_False.
  - by rewrite !map_lookup_filter, lookup_insert_ne.
Qed.

Lemma part_leaf h k v : part h (k / pow16 h) {[k := v]} = ({[k := v]} : Leaves).
Proof. unfold part. by apply map_filter_singleton_True. Qed.

Lemma part_leaf_out h p k v : k / pow16 h <> p -> part h p {[k := v]} = (∅ : Leaves).
Proof. intros Hne. unfold part. by apply map_filter_singleton_False. Qed.

Lemma keys_ok_insert k v m : unsigned 256 k -> keys_ok m -> keys_ok (<[k := v]> m).
Proof. intros Hk Hm k' v' [[-> _]|[_ Hk']]%lookup_insert_Some; [done|by apply (Hm k' v')]. Qed.

Lemma keys_ok_part h p m : keys_ok m -> keys_ok (part h p m).
Proof. intros Hm k v [Hk _]%part_lookup. by apply (Hm k v). Qed.

(** The leaf sets of the children determine the leaf set. *)
Lemma sub_ext h m m' : (forall x, 0 <= x < 16 -> sub h x m' = sub h x m) -> m' = m.
Proof.
  intros Hsub. apply map_eq. intros k.
  pose proof (f_equal (fun m0 : Leaves => m0 !! k) (Hsub (digit k h) (digit_range k h))) as Hk.
  unfold sub in Hk. rewrite !map_lookup_filter in Hk.
  destruct (m !! k), (m' !! k); cbn in Hk; rewrite ?option_guard_True in Hk by done; congruence.
Qed.

(** ** Lookups in a working patch set *)

Definition wlook (W : WorkingPatchSet) (h : nat) (p : Z) : option WorkingNode :=
  changes_by_nibble_count W !! (64 - h)%nat ≫= fun level => level !! nibble_bytes (nib h p).

Lemma working_get_nib W h p : working_get W (nib h p) = inner <$> wlook W h p.
Proof. unfold working_get, wlook. cbn [nib nibble_count]. by destruct (_ !! _). Qed.

Lemma extend_levels_lookup levels len i :
  extend_levels levels len !! i =
    match levels !! i with
    | Some level => Some level
    | None => if decide (i < len)%nat then Some ∅ else None
    end.
Proof.
  unfold extend_levels. destruct (levels !! i) as [level|] eqn:Hi.
  - by rewrite lookup_app_l, Hi by (by eapply lookup_lt_Some).
  - apply lookup_ge_None in Hi. rewrite lookup_app_r by done.
    destruct (decide (i < len)%nat).
    + by rewrite lookup_replicate_2 by lia.
    + apply lookup_ge_None_2. rewrite length_replicate. lia.
Qed.

Lemma wlook_insert W h p node h' p' :
  valid h p -> valid h' p' ->
  wlook (working_insert W (nib h p) node) h' p' =
    if decide (h' = h /\ p' = p)
    then Some {| inner := node; prev_version := wlook W h p ≫= prev_version |}
    else wlook W h' p'.
Proof.
  intros Hv Hv'. unfold wlook, working_insert. cbn [changes_by_nibble_count].
  set (levels := changes_by_nibble_count W).
  change (nibble_count (nib h p)) with (64 - h)%nat.
  pose proof (extend_levels_lookup levels (64 - h + 1) (64 - h')) as Hlook.
  destruct (decide (h' = h)) as [->|Hh].
  - rewrite list_lookup_alter_eq, Hlook. rewrite (decide_True (P := (64 - h < 64 - h + 1)%nat)) by lia.
    assert (Hkey : p' <> p -> nibble_bytes (nib h p) <> nibble_bytes (nib h p')).
    { intros Hne Heq%nib_inj; [by subst|apply Hv..|apply Hv']. }
    destruct (decide (h = h /\ p' = p)) as [[_ ->]|Hne];
      destruct (levels !! (64 - h)%nat) as [level|]; cbn [fmap option_fmap option_map mbind option_bind].
    + by rewrite lookup_partial_alter_eq.
    + by rewrite lookup_partial_alter_eq, lookup_empty.
    + rewrite lookup_partial_alter_ne; [done|]. apply Hkey. intros ->. by apply Hne.
    + rewrite lookup_partial_alter_ne; [apply lookup_empty|]. apply Hkey. intros ->. by apply Hne.
  - rewrite list_lookup_alter_ne by (destruct Hv, Hv'; lia). rewrite Hlook.
    rewrite (decide_False (P := h' = h /\ p' = p)) by (by intros [? _]). destruct (levels !! (64 - h')%nat) as [level|]; [done|].
    by destruct (decide _); cbn [mbind option_bind]; rewrite ?lookup_empty.
Qed.

Lemma wlook_insert_eq W h p node :
  valid h p ->
  wlook (working_insert W (nib h p) node) h p =
    Some {| inner := node; prev_version := wlook W h p ≫= prev_version |}.
Proof. intros Hv. rewrite wlook_insert by done. by rewrite decide_True. Qed.

Lemma wlook_insert_ne W h p node h' p' :
  valid h p -> valid h' p' -> (h', p') <> (h, p) ->
  wlook (working_insert W (nib h p) node) h' p' = wlook W h' p'.
Proof. intros Hv Hv' Hne. rewrite wlook_insert by done. rewrite decide_False; [done|naive_solver]. Qed.

(** All entries of a working patch set are at positions. *)
Definition positions_ok (W : WorkingPatchSet) : Prop :=
  forall c level bytes wn, changes_by_nibble_count W !! c = Some level -> level !! bytes = Some wn ->
    (c <= 64)%nat /\ exists p, valid (64 - c) p /\ bytes = nibble_bytes (nib (64 - c) p).

Lemma positions_ok_insert W h p node :
  valid h p -> positions_ok W -> positions_ok (working_insert W (nib h p) node).
Proof.
  intros Hv HW c level bytes wn Hc Hwn. unfold working_insert in Hc. cbn [changes_by_nibble_count] in Hc.
  change (nibble_count (nib h p)) with (64 - h)%nat in Hc.
  set (levels := changes_by_nibble_count W) in *.
  pose proof (extend_levels_lookup levels (64 - h + 1) c) as Hlook.
  assert (Hold : forall level0, extend_levels levels (64 - h + 1) !! c = Some level0 ->
      forall b w, level0 !! b = Some w -> (c <= 64)%nat /\ exists p, valid (64 - c) p /\ b = nibble_bytes (nib (64 - c) p)).
  { intros level0 Hl b w Hb. rewrite Hl in Hlook. cbn in Hlook.
    destruct (levels !! c) as [level1|] eqn:Hc1; simplify_eq; [by apply (HW c level1 b w)|].
    case_decide; simplify_eq. }
  destruct (decide (c = (64 - h)%nat)) as [->|Hne].
  - rewrite list_lookup_alter_eq in Hc. apply fmap_Some in Hc as (level0 & Hl & ->).
    destruct (decide (bytes = nibble_bytes (nib h p))) as [->|Hb].
    + split; [lia|]. exists p. replace (64 - (64 - h))%nat with h by (destruct Hv; lia). done.
    + rewrite lookup_partial_alter_ne in Hwn by done. by apply (Hold level0 Hl bytes wn).
  - rewrite list_lookup_alter_ne in Hc by done. by apply (Hold level Hc bytes wn).
Qed.

(** Every node below the root has a parent that refers to it. *)
Definition linked (W : WorkingPatchSet) : Prop :=
  forall h p wn, (h < 64)%nat -> valid h p -> wlook W h p = Some wn ->
    exists n c prev, wlook W (S h) (p / 16) = Some {| inner := Internal n; prev_version := prev |} /\
      child_at n (p mod 16) = Some c.

Lemma linked_ancestor W h p h1 q wn :
  linked W -> valid h1 q -> (h <= 64)%nat -> (h1 < h)%nat -> below h1 q h p -> wlook W h1 q = Some wn ->
  exists n prev, wlook W h p = Some {| inner := Internal n; prev_version := prev |}.
Proof.
  intros HW Hv Hh Hlt Hbelow Hwn. remember (h - h1)%nat as d eqn:Hd.
  revert h1 q wn Hv Hlt Hbelow Hwn Hd. induction d as [|d IH]; intros; [lia|].
  destruct (HW h1 q wn ltac:(lia) Hv Hwn) as (n & c & prev & Hparent & _).
  apply below_parent in Hbelow as Hbelow'; [|done].
  destruct (decide (S h1 = h)) as [Heq|Hne].
  - subst h. destruct Hbelow' as [_ Hq]. rewrite Nat.sub_diag in Hq. unfold pow16 in Hq. simpl in Hq.
    rewrite Z.div_1_r in Hq. subst p. eauto.
  - eapply (IH (S h1) (q / 16)); [apply valid_parent; [lia|done]|lia|done|done|lia].
Qed.

(** ** Stored nodes *)

Definition leafb (node : Node) : bool := match node with Leaf _ => true | Internal _ => false end.

(** The nodes that a database returns. *)
Abbreviation Nodes := (NodeKey -> option Node).

Section Invariant.
Context `{!HashTree, !HashTreeLaws}.

(** The node at position [(h, p)] with version [u] and all nodes it refers to represent the
    leaves [m]: references carry the hashes of their subtrees and no version above [u]; a node
    below the root has the greatest of the versions of its references. *)
Fixpoint stored (N : Nodes) (h : nat) (p u : Z) (node : Node) (m : Leaves) : Prop :=
  match node, h with
  | Leaf l, _ => m = leaf_contents l
  | Internal _, O => False
  | Internal n, S h' =>
      node_wf n /\ node_cache n = None /\ m <> ∅ /\
      ((h < 64)%nat -> exists x c, 0 <= x < 16 /\ child_at n x = Some c /\ cr_version c = u) /\
      forall x, 0 <= x < 16 ->
        match child_at n x with
        | None => sub h' x m = ∅
        | Some c =>
            cr_version c <= u /\ cr_hash c = tree_hash (4 * h') (sub h' x m) /\
            exists node', N (with_version (nib h' (16 * p + x)) (cr_version c)) = Some node' /\
              leafb node' = is_leaf c /\ stored N h' (16 * p + x) (cr_version c) node' (sub h' x m)
        end
  end.

Lemma stored_leaf N h p u l m : stored N h p u (Leaf l) m <-> m = leaf_contents l.
Proof. by destruct h. Qed.

Lemma stored_nonempty N h p u node m : stored N h p u node m -> m <> ∅.
Proof.
  destruct node as [n|l]; [|rewrite stored_leaf; intros ->; apply map_non_empty_singleton].
  destruct h as [|h]; cbn [stored]; tauto.
Qed.

Lemma stored_frame N N' h p u node m :
  valid h p ->
  (forall h1 q v, (h1 < h)%nat -> valid h1 q -> below h1 q h p -> v <= u ->
     N' (with_version (nib h1 q) v) = N (with_version (nib h1 q) v)) ->
  stored N h p u node m -> stored N' h p u node m.
Proof.
  revert p u node m. induction h as [|h IH]; intros p u [n|l] m Hv HN; cbn [stored]; try done.
  intros (Hwf & Hcache & Hne & Hmax & Hch). do 4 (split; [done|]). intros x Hx. specialize (Hch x Hx).
  destruct (child_at n x) as [c|]; [|done]. destruct Hch as (Hver & Hhash & node' & HN' & Hleaf & Hst).
  do 2 (split; [done|]). exists node'.
  pose proof (valid_child h p x Hv Hx) as Hv'.
  split; [|split; [done|]].
  - rewrite HN; [done|lia|done| |done]. apply below_child with (x := x); [done|]. apply below_refl.
  - apply IH; [done| |done]. intros h1 q v Hh1 Hq Hb Hle.
    apply HN; [lia|done| |lia]. by apply (below_child h p x h1 q Hx).
Qed.

(** More nodes do no harm. *)
Lemma stored_mono N N' h p u node m :
  (forall key n, nk_version key <= u -> N key = Some n -> N' key = Some n) ->
  stored N h p u node m -> stored N' h p u node m.
Proof.
  revert p u node m. induction h as [|h IH]; intros p u [n|l] m HN; cbn [stored]; try done.
  intros (Hwf & Hcache & Hne & Hmax & Hch). do 4 (split; [done|]). intros x Hx. specialize (Hch x Hx).
  destruct (child_at n x) as [c|]; [|done]. destruct Hch as (Hver & Hhash & node' & HN' & Hleaf & Hst).
  do 2 (split; [done|]). exists node'. split; [by apply HN|]. split; [done|].
  apply IH; [|done]. intros key n' Hle. apply HN. lia.
Qed.

(** The hashes of the children of a node give the hash of the node. *)
Lemma node_hash_leaf h l :
  (h <= 64)%nat -> node_hash (Leaf l) (TREE_DEPTH - 4 * h) = Ret (tree_hash (4 * h) (leaf_contents l)).
Proof.
  intros Hh. cbn [node_hash]. rewrite leaf_hash_spec by (unfold TREE_DEPTH; lia). do 2 f_equal.
  unfold TREE_DEPTH. lia.
Qed.

Lemma child_hashes_of h n m :
  (forall x, 0 <= x < 16 ->
     match child_at n x with
     | None => sub h x m = ∅
     | Some c => cr_hash c = tree_hash (4 * h) (sub h x m)
     end) -> child_hashes_ok h n m.
Proof.
  intros Hch x Hx. specialize (Hch x Hx). destruct (child_at n x) as [c|]; cbn; [done|].
  by rewrite Hch, tree_hash_empty.
Qed.

Lemma stored_hash N h p u node m :
  (h <= 64)%nat -> stored N h p u node m -> node_hash node (TREE_DEPTH - 4 * h) = Ret (tree_hash (4 * h) m).
Proof.
  intros Hh. destruct node as [n|l]; [|rewrite stored_leaf; intros ->; by apply node_hash_leaf].
  destruct h as [|h]; cbn [stored]; [done|]. intros (Hwf & _ & _ & _ & Hch). cbn [node_hash].
  apply internal_hash_spec; [lia|done|]. apply child_hashes_of. intros x Hx. specialize (Hch x Hx).
  destruct (child_at n x); naive_solver.
Qed.

(** ** Nodes of a working patch set *)

(** How a node of the patch set relates to the database: for a new version, either its reference
    has this version, or it has the version it was loaded with and the stored node still
    represents the same leaves; if the latest version is updated, it is the only one.  Nothing is
    required if the nodes are only read. *)
Definition fresh (N : Nodes) (V : Z) (op : option Operation) (h : nat) (p r : Z) (wn : WorkingNode) (m : Leaves) : Prop :=
  match op with
  | None => True
  | Some Update => r = V
  | Some Insert =>
      (r = V /\ forall q, prev_version wn = Some q -> q < V) \/
      (prev_version wn = Some r /\ r < V /\
       exists s, N (with_version (nib h p) r) = Some s /\ leafb s = leafb (inner wn) /\ stored N h p r s m)
  end.

(** The cache of a node is right for the references that are not dirty. *)
Definition cache_clean (D : nat -> Z -> Prop) (h : nat) (p : Z) (n : InternalNode) (m : Leaves) : Prop :=
  forall cache, node_cache n = Some cache ->
    exists m0, cache_ok h cache m0 /\
      forall y, 0 <= y < 16 -> ~ D h (16 * p + y) -> sub h y m0 = sub h y m.

(** The node at [(h, p)], whose reference has version [r], represents [m].  The hashes of the
    references at the dirty positions [D] are not known. *)
Fixpoint working (N : Nodes) (W : WorkingPatchSet) (D : nat -> Z -> Prop) (V : Z) (op : option Operation)
    (h : nat) (p r : Z) (node : Node) (m : Leaves) : Prop :=
  match node, h with
  | Leaf l, _ => m = leaf_contents l
  | Internal _, O => False
  | Internal n, S h' =>
      node_wf n /\ cache_clean D h' p n m /\
      ((h < 64)%nat -> m <> ∅ /\ exists x c, 0 <= x < 16 /\ child_at n x = Some c /\ cr_version c = r) /\
      forall x, 0 <= x < 16 ->
        match child_at n x with
        | None => sub h' x m = ∅
        | Some c =>
            cr_version c <= r /\
            match wlook W h' (16 * p + x) with
            | Some wn =>
                (~ D h' (16 * p + x) -> cr_hash c = tree_hash (4 * h') (sub h' x m)) /\
                leafb (inner wn) = is_leaf c /\
                fresh N V op h' (16 * p + x) (cr_version c) wn (sub h' x m) /\
                working N W D V op h' (16 * p + x) (cr_version c) (inner wn) (sub h' x m)
            | None =>
                cr_hash c = tree_hash (4 * h') (sub h' x m) /\
                exists node', N (with_version (nib h' (16 * p + x)) (cr_version c)) = Some node' /\
                  leafb node' = is_leaf c /\ stored N h' (16 * p + x) (cr_version c) node' (sub h' x m)
            end
        end
  end.

Lemma working_leaf N W D V op h p r l m : working N W D V op h p r (Leaf l) m <-> m = leaf_contents l.
Proof. by destruct h. Qed.

Lemma working_nonempty N W D V op h p r node m :
  (h < 64)%nat -> working N W D V op h p r node m -> m <> ∅.
Proof.
  intros Hh. destruct node as [n|l]; [|rewrite working_leaf; intros ->; apply map_non_empty_singleton].
  destruct h as [|h]; cbn [working]; naive_solver.
Qed.

(** The predicate only depends on what is below the position. *)
Lemma working_frame N N' W W' (D D' : nat -> Z -> Prop) V op h p r node m :
  valid h p ->
  (forall h1 q, (h1 < h)%nat -> valid h1 q -> below h1 q h p ->
     wlook W' h1 q = wlook W h1 q /\ (D h1 q -> D' h1 q) /\
     forall v, N' (with_version (nib h1 q) v) = N (with_version (nib h1 q) v)) ->
  working N W D V op h p r node m -> working N' W' D' V op h p r node m.
Proof.
  revert p r node m. induction h as [|h IH]; intros p r [n|l] m Hv Hag; cbn [working]; try done.
  intros (Hwf & Hcache & Hne & Hch). split; [done|].
  assert (Hat : forall x, 0 <= x < 16 -> valid h (16 * p + x) /\ below h (16 * p + x) (S h) p).
  { intros x Hx. split; [by apply valid_child|]. apply below_child with (x := x); [done|]. apply below_refl. }
  split; [|split; [done|]].
  { intros cache Hc. destruct (Hcache cache Hc) as (m0 & Hm0 & Hsub). exists m0. split; [done|].
    intros y Hy HD. apply Hsub; [done|]. intros HD0. apply HD. destruct (Hat y Hy). by apply Hag; [lia|..]. }
  intros x Hx. specialize (Hch x Hx). destruct (child_at n x) as [c|]; [|done].
  destruct (Hat x Hx) as [Hv' Hb]. destruct (Hag h (16 * p + x) ltac:(lia) Hv' Hb) as (HW & HD & HN).
  destruct Hch as [Hver Hch]. split; [done|]. rewrite HW.
  assert (Hst : forall u node', stored N h (16 * p + x) u node' (sub h x m) ->
      stored N' h (16 * p + x) u node' (sub h x m)).
  { intros u node'. apply stored_frame; [done|]. intros h1 q v Hh1 Hq Hb1 _.
    apply Hag; [lia|done|]. by apply (below_child h p x h1 q Hx). }
  destruct (wlook W h (16 * p + x)) as [wn|].
  - destruct Hch as (Hhash & Hleaf & Hfresh & Hwork). repeat split; [tauto|done| |].
    + destruct op as [[]|]; [|done..]. destruct Hfresh as [Hfresh|(Hp & Hr & s & Hs & Hls & Hst')]; [by left|right].
      do 2 (split; [done|]). exists s. rewrite HN. eauto.
    + apply IH; [done| |done]. intros h1 q Hh1 Hq Hb1. apply Hag; [lia|done|].
      by apply (below_child h p x h1 q Hx).
  - destruct Hch as (Hhash & node' & HN' & Hleaf & Hst'). split; [done|]. exists node'. rewrite HN. eauto.
Qed.

(** A stored node, loaded with nothing below it. *)
Lemma stored_working N W D V op h p r node m :
  valid h p -> (forall h1 q, (h1 < h)%nat -> valid h1 q -> below h1 q h p -> wlook W h1 q = None) ->
  stored N h p r node m -> working N W D V op h p r node m.
Proof.
  intros Hv HW. destruct node as [n|l], h as [|h]; cbn [stored working]; try done.
  intros (Hwf & Hcache & Hne & Hmax & Hch). split; [done|]. split; [|split; [tauto|]].
  { intros cache Hc. congruence. }
  intros x Hx. specialize (Hch x Hx). destruct (child_at n x) as [c|]; [|done].
  rewrite (HW h (16 * p + x)); [naive_solver|lia|by apply valid_child|].
  apply below_child with (x := x); [done|]. apply below_refl.
Qed.

(** Without nodes below it and without dirty references, a node can be stored. *)
Lemma working_stored N W D V op h p r node m :
  valid h p -> (forall h1 q, (h1 < h)%nat -> valid h1 q -> below h1 q h p -> wlook W h1 q = None) ->
  m <> ∅ ->
  working N W D V op h p r node m -> stored N h p r (node_clone node) m.
Proof.
  intros Hv HW Hm. destruct node as [n|l], h as [|h]; cbn [node_clone stored working]; try done.
  intros (Hwf & _ & Hmax & Hch). split; [done|]. split; [done|]. split; [done|].
  split; [intros Hh; by apply Hmax|]. intros x Hx. specialize (Hch x Hx).
  change (child_at (internal_clone n) x) with (child_at n x). destruct (child_at n x) as [c|]; [|done].
  rewrite (HW h (16 * p + x)) in Hch; [naive_solver|lia|by apply valid_child|].
  apply below_child with (x := x); [done|]. apply below_refl.
Qed.

(** ** Working patch sets *)

Record tree_ok (N : Nodes) (W : WorkingPatchSet) (D : nat -> Z -> Prop) (V : Z) (op : option Operation)
    (m : Leaves) : Prop := {
  ok_positions : positions_ok W;
  ok_linked : linked W;
  ok_version : root_version W = V;
  ok_keys : keys_ok m;
  ok_root : match wlook W 64 0 with
            | Some wn => working N W D V op 64 0 V (inner wn) m
            | None => m = ∅
            end;
}.

(** The reference to a position of the patch set. *)
Definition ref_at (W : WorkingPatchSet) (h : nat) (p : Z) (n : InternalNode) (c : ChildRef) : Prop :=
  exists prev, wlook W (S h) (p / 16) = Some {| inner := Internal n; prev_version := prev |} /\
    child_at n (p mod 16) = Some c.

Lemma working_at N W D V op m h p wn :
  tree_ok N W D V op m -> valid h p -> wlook W h p = Some wn ->
  exists r, r <= V /\ working N W D V op h p r (inner wn) (part h p m) /\
    (h = 64%nat -> r = V) /\
    ((h < 64)%nat -> exists n c, ref_at W h p n c /\ cr_version c = r /\ is_leaf c = leafb (inner wn) /\
       (~ D h p -> cr_hash c = tree_hash (4 * h) (part h p m)) /\ fresh N V op h p r wn (part h p m)).
Proof.
  intros Hok. remember (64 - h)%nat as d eqn:Hd. revert h p wn Hd. induction d as [|d IH]; intros h p wn Hd Hv Hwn.
  - assert (h = 64%nat) as -> by (destruct Hv; lia). apply valid_root_eq in Hv as ->. exists V.
    pose proof (ok_root _ _ _ _ _ _ Hok) as Hroot. rewrite Hwn in Hroot.
    rewrite part_root by apply Hok. repeat split; [lia|done|lia].
  - assert (h < 64)%nat as Hh by lia. destruct (ok_linked _ _ _ _ _ _ Hok h p wn Hh Hv Hwn) as (n & c & prev & Hparent & Hc).
    destruct (IH (S h) (p / 16) _ ltac:(lia) (valid_parent h p Hh Hv) Hparent) as (r & Hr & Hwork & _).
    cbn [inner working] in Hwork. destruct Hwork as (_ & _ & _ & Hch).
    specialize (Hch (p mod 16) (mod16_range p)). rewrite Hc, parent_child, Hwn in Hch.
    rewrite sub_part, parent_child in Hch by apply mod16_range. destruct Hch as (Hver & Hhash & Hleaf & Hfresh & Hwork).
    exists (cr_version c). split; [lia|]. split; [done|]. split; [lia|]. intros _. exists n, c.
    split; [by exists prev|]. done.
Qed.

(** A missing reference: nothing is there. *)
Lemma working_missing N W D V op m h p n prev :
  tree_ok N W D V op m -> (h < 64)%nat -> valid h p ->
  wlook W (S h) (p / 16) = Some {| inner := Internal n; prev_version := prev |} ->
  child_at n (p mod 16) = None -> part h p m = ∅ /\ wlook W h p = None.
Proof.
  intros Hok Hh Hv Hparent Hc. split.
  - destruct (working_at _ _ _ _ _ _ _ _ _ Hok (valid_parent h p Hh Hv) Hparent) as (r & _ & Hwork & _).
    cbn [inner working] in Hwork. destruct Hwork as (_ & _ & _ & Hch).
    specialize (Hch (p mod 16) (mod16_range p)). rewrite Hc in Hch.
    by rewrite sub_part, parent_child in Hch by apply mod16_range.
  - destruct (wlook W h p) as [wn|] eqn:Hwn; [|done].
    destruct (ok_linked _ _ _ _ _ _ Hok h p wn Hh Hv Hwn) as (n' & c & prev' & Hparent' & Hc'). congruence.
Qed.

Lemma node_wf_at N W D V op m h p n prev :
  tree_ok N W D V op m -> valid h p ->
  wlook W h p = Some {| inner := Internal n; prev_version := prev |} -> node_wf n /\ h <> 0%nat.
Proof.
  intros Hok Hv Hwn. destruct (working_at _ _ _ _ _ _ _ _ _ Hok Hv Hwn) as (r & _ & Hwork & _).
  destruct h; cbn in Hwork; [done|]. naive_solver.
Qed.

(** Nothing is below a leaf. *)
Lemma below_leaf W h p wn l :
  linked W -> (h <= 64)%nat -> wlook W h p = Some wn -> inner wn = Leaf l ->
  forall h1 q, (h1 < h)%nat -> valid h1 q -> below h1 q h p -> wlook W h1 q = None.
Proof.
  intros HW Hh Hwn Hl h1 q Hlt Hv Hb. destruct (wlook W h1 q) as [wn1|] eqn:Hq; [|done].
  destruct (linked_ancestor W h p h1 q wn1 HW Hv Hh Hlt Hb Hq) as (n & prev & Hwn').
  rewrite Hwn in Hwn'. by simplify_eq.
Qed.

(** Nothing is below a position that is not there. *)
Lemma below_absent W h p :
  linked W -> (h <= 64)%nat -> wlook W h p = None ->
  forall h1 q, (h1 < h)%nat -> valid h1 q -> below h1 q h p -> wlook W h1 q = None.
Proof.
  intros HW Hh Hwn h1 q Hlt Hv Hb. destruct (wlook W h1 q) as [wn1|] eqn:Hq; [|done].
  destruct (linked_ancestor W h p h1 q wn1 HW Hv Hh Hlt Hb Hq) as (n & prev & Hwn'). congruence.
Qed.
End Invariant.
