(* ===== verification/TreeInsert.v ===== *)
(** * Insertion into the state tree

    [TreeUpdater::insert] on a working patch set that represents a set of leaves: it returns,
    the patch set then represents the updated set, and the log entry describes the change. *)

From S2P Require Import Prelude Bytes Utils TreeUtils TreeTypes TreeHasher TreeDatabase TreeStorage TreeSpec TreeInvariant.
Open Scope Z_scope.

Lemma key_parent k h : k / pow16 (S h) = k / pow16 h / 16.
Proof. apply div_pow16_S. Qed.

Lemma key_child k h : 16 * (k / pow16 (S h)) + digit k h = k / pow16 h.
Proof. symmetry. apply div_pow16_digit. Qed.

Lemma below_unique h1 q h p p' : below h1 q h p -> below h1 q h p' -> p = p'.
Proof. by intros [_ <-] [_ <-]. Qed.

Lemma below_trans h1 q h p h2 p2 : below h1 q h p -> below h p h2 p2 -> below h1 q h2 p2.
Proof.
  intros [Hh <-] [Hh2 <-]. split; [nat_lia|]. rewrite <- div_pow16_add. do 2 f_equal. nat_lia.
Qed.

(** ** Traversal *)

(** The nodes on the way to a key are in the patch set, as far as the tree goes. *)
Definition loaded (W : WorkingPatchSet) (k : Z) : Prop :=
  forall h n prev c, (h < 64)%nat ->
    wlook W (S h) (k / pow16 (S h)) = Some {| inner := Internal n; prev_version := prev |} ->
    child_at n (digit k h) = Some c -> is_Some (wlook W h (k / pow16 h)).

(** Where the way to a key ends. *)
Definition ends (W : WorkingPatchSet) (k : Z) (he : nat) (out : TraverseOutcome) : Prop :=
  position out = nib he (k / pow16 he) /\
  match out with
  | LeafMatch _ l => full_key l = k /\ exists prev, wlook W he (k / pow16 he) = Some {| inner := Leaf l; prev_version := prev |}
  | LeafMismatch _ l => full_key l <> k /\ exists prev, wlook W he (k / pow16 he) = Some {| inner := Leaf l; prev_version := prev |}
  | MissingChild _ =>
      wlook W he (k / pow16 he) = None /\
      (he = 64%nat \/ exists n prev, (he < 64)%nat /\
         wlook W (S he) (k / pow16 (S he)) = Some {| inner := Internal n; prev_version := prev |} /\
         child_at n (digit k he) = None)
  end.

Section Insert.
Context `{!HashTree, !HashTreeLaws}.

Lemma traverse_from_spec N W D V op m k h fuel :
  tree_ok N W D V op m -> unsigned 256 k -> loaded W k -> (h <= 64)%nat -> (h < fuel)%nat ->
  (is_Some (wlook W h (k / pow16 h)) \/ ends W k h (MissingChild (nib h (k / pow16 h)))) ->
  exists out he, traverse_from fuel W k (64 - h) = Ret out /\ (he <= h)%nat /\ ends W k he out.
Proof.
  intros Hok Hk Hload. revert fuel. induction h as [|h IH]; intros fuel Hh Hfuel Hstart;
    (destruct fuel as [|fuel]; [nat_lia|]); cbn [traverse_from]; rewrite nibbles_new_nib by nat_lia;
    rewrite outcome_Ret_bind, working_get_nib.
  - destruct (wlook W 0 (k / pow16 0)) as [[[n|l] prev]|] eqn:Hwn; cbn [fmap option_fmap option_map inner].
    + by destruct (node_wf_at _ _ _ _ _ _ _ _ _ _ Hok (valid_key 0 k ltac:(nat_lia) Hk) Hwn) as [_ ?].
    + destruct (full_key l =? k) eqn:Hkey; (eexists _, 0%nat; split; [done|]; split; [nat_lia|]); split; try done; eauto.
      * split; [by apply Z.eqb_eq|eauto].
      * split; [by apply Z.eqb_neq|eauto].
    + destruct Hstart as [[? ?]|Hend]; [done|]. by eexists _, 0%nat.
  - destruct (wlook W (S h) (k / pow16 (S h))) as [[[n|l] prev]|] eqn:Hwn; cbn [fmap option_fmap option_map inner].
    + replace (64 - S h + 1)%nat with (64 - h)%nat by nat_lia.
      destruct (IH fuel ltac:(nat_lia) ltac:(nat_lia)) as (out & he & Hout & Hhe & Hend).
      { destruct (child_at n (digit k h)) as [c|] eqn:Hc; [left; eapply Hload; [nat_lia|exact Hwn|exact Hc]|right].
        split; [done|]. destruct (working_missing _ _ _ _ _ _ h (k / pow16 h) n prev Hok) as [_ Hnone];
          [nat_lia|by apply valid_key; [nat_lia|]|by rewrite <- key_parent|done|].
        split; [done|]. right. exists n, prev. split; [nat_lia|done]. }
      exists out, he. split; [done|]. split; [nat_lia|done].
    + destruct (full_key l =? k) eqn:Hkey; (eexists _, (S h); split; [done|]; split; [nat_lia|]); split; try done; eauto.
      * split; [by apply Z.eqb_eq|eauto].
      * split; [by apply Z.eqb_neq|eauto].
    + destruct Hstart as [[? ?]|Hend]; [done|]. by eexists _, (S h).
Qed.

(** The position from which a key may be searched. *)
Definition start_ok (W : WorkingPatchSet) (k : Z) (hs : nat) : Prop :=
  (hs <= 64)%nat /\ (hs = 64%nat \/ is_Some (wlook W hs (k / pow16 hs))).

Lemma traverse_spec N W D V op m k hs :
  tree_ok N W D V op m -> unsigned 256 k -> loaded W k -> start_ok W k hs ->
  exists out he, traverse W k (nib hs (k / pow16 hs)) = Ret out /\ (he <= hs)%nat /\ ends W k he out.
Proof.
  intros Hok Hk Hload [Hhs Hstart]. unfold traverse. cbn [nib nibble_count].
  eapply traverse_from_spec; [done..|unfold KEY_SIZE; nat_lia|].
  destruct (wlook W hs (k / pow16 hs)) as [wn|] eqn:Hwn; [by left; eexists|right].
  split; [done|]. split; [done|]. left. destruct Hstart as [?|[? ?]]; [done|congruence].
Qed.

(** ** Changes of references *)

Lemma working_modify_child_ref_spec W h p n prev x c f :
  wlook W h p = Some {| inner := Internal n; prev_version := prev |} ->
  node_wf n -> 0 <= x < 16 -> child_at n x = Some c ->
  exists n', working_modify_child_ref W (nib h p) x f = Ret (working_insert W (nib h p) (Internal n')) /\
    node_wf n' /\ node_cache n' = node_cache n /\
    forall y, 0 <= y < 16 -> child_at n' y = if decide (x = y) then Some (f c) else child_at n y.
Proof.
  intros Hwn Hwf Hx Hc. unfold working_modify_child_ref. rewrite working_get_nib, Hwn.
  cbn [fmap option_fmap option_map inner].
  destruct (modify_child_ref_spec n x f Hwf Hx) as (n' & -> & Hwf' & Hcache & Hat).
  rewrite outcome_Ret_bind, Hc. rewrite bool_decide_true by done. exists n'. split; [done|].
  split; [done|]. split; [done|]. intros y Hy. rewrite Hat by done. by rewrite Hc.
Qed.

(** The references along the path of [k] from height [h] up. *)
Definition path_refs (W : WorkingPatchSet) (k : Z) (h : nat) : Prop :=
  forall h1, (h <= h1 < 64)%nat -> exists n prev c,
    wlook W (S h1) (k / pow16 (S h1)) = Some {| inner := Internal n; prev_version := prev |} /\
    node_wf n /\ child_at n (digit k h1) = Some c.

Definition raised (V : Z) (c : ChildRef) : ChildRef :=
  {| cr_hash := cr_hash c; cr_version := Z.max (cr_version c) V; is_leaf := is_leaf c |}.

Lemma raise_versions_spec V k fuel h W :
  unsigned 256 k -> (h <= 64)%nat -> (64 - h < fuel)%nat -> path_refs W k h ->
  exists W', raise_versions fuel W V (nib h (k / pow16 h)) = Ret W' /\
    root_version W' = root_version W /\ (positions_ok W -> positions_ok W') /\
    (forall h1 q, valid h1 q -> (h1 <= h)%nat \/ q <> k / pow16 h1 -> wlook W' h1 q = wlook W h1 q) /\
    (forall h1 n prev c, (h <= h1 < 64)%nat ->
       wlook W (S h1) (k / pow16 (S h1)) = Some {| inner := Internal n; prev_version := prev |} ->
       child_at n (digit k h1) = Some c ->
       exists n', wlook W' (S h1) (k / pow16 (S h1)) = Some {| inner := Internal n'; prev_version := prev |} /\
         node_wf n' /\ node_cache n' = node_cache n /\
         forall y, 0 <= y < 16 -> child_at n' y = if decide (digit k h1 = y) then Some (raised V c) else child_at n y).
Proof.
  intros Hk. revert h W. induction fuel as [|fuel IH]; intros h W Hh Hfuel Hrefs; [nat_lia|]. cbn [raise_versions].
  destruct (decide (h = 64%nat)) as [->|Hne].
  { rewrite div_pow16_64, nib_EMPTY by done. exists W. do 4 (split; [done|]). intros h1 n prev c Hh1. nat_lia. }
  rewrite split_last_nib, outcome_Ret_bind by (first [nat_lia|apply valid_key; [nat_lia|done]]).
  rewrite <- key_parent. change ((k / pow16 h) mod 16) with (digit k h).
  destruct (Hrefs h ltac:(nat_lia)) as (n & prev & c & Hn & Hwf & Hc).
  destruct (working_modify_child_ref_spec W (S h) _ n prev _ c (raised V) Hn Hwf (digit_range k h) Hc)
    as (n' & Heq & Hwf' & Hcache & Hat).
  unfold raised in Heq. rewrite Heq, outcome_Ret_bind.
  assert (Hv : valid (S h) (k / pow16 (S h))) by (apply valid_key; [nat_lia|done]).
  set (W1 := working_insert W (nib (S h) (k / pow16 (S h))) (Internal n')).
  assert (HW1 : forall h1 q, valid h1 q -> (h1, q) <> (S h, k / pow16 (S h)) -> wlook W1 h1 q = wlook W h1 q).
  { intros h1 q Hq Hneq. by apply wlook_insert_ne. }
  destruct (IH (S h) W1 ltac:(nat_lia) ltac:(nat_lia)) as (W' & -> & Hver & Hpos & Hoff & Hon).
  { intros h1 Hh1. rewrite HW1; [apply Hrefs; nat_lia|apply valid_key; [nat_lia|done]|]. intros [= ? _]; nat_lia. }
  exists W'. split; [done|]. split; [done|]. split; [|split].
  - intros HW. by apply Hpos, positions_ok_insert.
  - intros h1 q Hq Hor. rewrite Hoff; [|done|destruct Hor; [left; nat_lia|by right]].
    apply HW1; [done|]. intros [= -> ->]. destruct Hor; [nat_lia|done].
  - intros h1 n1 prev1 c1 Hh1 Hn1 Hc1. destruct (decide (h1 = h)) as [->|Hne1].
    + rewrite Hoff by (first [done|by left]). unfold W1. rewrite wlook_insert_eq by done. rewrite Hn. cbn.
      rewrite Hn in Hn1. simplify_eq. exists n'. done.
    + apply (Hon h1 n1 prev1 c1); [nat_lia| |done]. rewrite HW1; [done|apply valid_key; [nat_lia|done]|].
      intros [= ? _]; nat_lia.
Qed.

(** ** Changes below one position *)

(** [W2] results from [W] by changes at and below the position of [k] at height [he] and by
    raising the versions of the references on the way to it. *)
Record grafted (W W2 : WorkingPatchSet) (V k : Z) (he : nat) : Prop := {
  gr_version : root_version W2 = root_version W;
  gr_positions : positions_ok W2;
  gr_off h q : valid h q -> ~ below h q he (k / pow16 he) -> q <> k / pow16 h -> wlook W2 h q = wlook W h q;
  gr_path h : (he <= h < 64)%nat -> exists n prev n2 c2,
    wlook W (S h) (k / pow16 (S h)) = Some {| inner := Internal n; prev_version := prev |} /\
    wlook W2 (S h) (k / pow16 (S h)) = Some {| inner := Internal n2; prev_version := prev |} /\
    node_wf n2 /\ node_cache n2 = node_cache n /\ child_at n2 (digit k h) = Some c2 /\ cr_version c2 = V /\
    (forall wn2, wlook W2 h (k / pow16 h) = Some wn2 -> leafb (inner wn2) = is_leaf c2) /\
    forall y, 0 <= y < 16 -> y <> digit k h -> child_at n2 y = child_at n y;
  gr_below h q wn : (h < he)%nat -> valid h q -> below h q he (k / pow16 he) -> wlook W2 h q = Some wn ->
    exists n c, ref_at W2 h q n c;
  gr_full h q n prev x c : valid (S h) q -> below (S h) q he (k / pow16 he) ->
    wlook W2 (S h) q = Some {| inner := Internal n; prev_version := prev |} -> 0 <= x < 16 ->
    child_at n x = Some c -> is_Some (wlook W2 h (16 * q + x));
  gr_end : is_Some (wlook W2 he (k / pow16 he));
  gr_grows h q : valid h q -> is_Some (wlook W h q) -> is_Some (wlook W2 h q);
}.

Lemma grafted_on_path W W2 V k he h :
  grafted W W2 V k he -> (he <= h <= 64)%nat -> is_Some (wlook W2 h (k / pow16 h)).
Proof.
  intros Hg Hh. destruct (decide (h = he)) as [->|Hne]; [exact (gr_end _ _ _ _ _ Hg)|]. destruct h as [|h]; [nat_lia|].
  destruct (gr_path _ _ _ _ _ Hg h) as (n & prev & n2 & c2 & _ & -> & _); [nat_lia|done].
Qed.

(** A position off the path is not below it, and neither is its parent. *)
Lemma not_below_parent h q he p :
  (h < he)%nat \/ S h = he -> ~ below h q he p -> ~ below (S h) (q / 16) he p.
Proof.
  intros Hh Hnb Hb. apply Hnb. eapply below_trans; [|exact Hb]. split; [nat_lia|].
  replace (S h - h)%nat with 1%nat by nat_lia. by change (pow16 1) with 16.
Qed.

Lemma below_path h q he k : (h <= he)%nat -> q = k / pow16 h -> below h q he (k / pow16 he).
Proof. intros Hh ->. by apply below_key. Qed.

#[local] Instance below_dec h1 q h p : Decision (below h1 q h p).
Proof. unfold below. apply _. Defined.

Lemma grafted_linked W W2 V k he :
  (he <= 64)%nat -> unsigned 256 k -> grafted W W2 V k he -> linked W -> linked W2.
Proof.
  intros Hhe Hk Hg HW h q wn Hh Hv Hwn.
  assert (Hgoal : (exists n c, ref_at W2 h q n c) -> exists n c prev,
    wlook W2 (S h) (q / 16) = Some {| inner := Internal n; prev_version := prev |} /\ child_at n (q mod 16) = Some c).
  { intros (n & c & prev & ?). eauto. }
  destruct (decide (q = k / pow16 h /\ (he <= h)%nat)) as [[-> Hle]|Hoff].
  { destruct (gr_path _ _ _ _ _ Hg h ltac:(nat_lia)) as (n & prev & n2 & c2 & _ & Hn2 & _ & _ & Hc2 & _).
    apply Hgoal. exists n2, c2, prev. by rewrite <- key_parent. }
  destruct (decide (below h q he (k / pow16 he))) as [Hb|Hnb].
  { apply Hgoal. eapply (gr_below _ _ _ _ _ Hg h q wn); [|done..]. destruct Hb as [Hle Hq].
    destruct (decide (h = he)) as [->|]; [|nat_lia]. exfalso. apply Hoff. rewrite Nat.sub_diag in Hq.
    unfold pow16 in Hq at 1. simpl in Hq. rewrite Z.div_1_r in Hq. done. }
  assert (Hq : q <> k / pow16 h).
  { intros ->. destruct (decide (h <= he)%nat); [by apply Hnb, below_key|]. apply Hoff. split; [done|nat_lia]. }
  rewrite (gr_off _ _ _ _ _ Hg) in Hwn by done. destruct (HW h q wn Hh Hv Hwn) as (n & c & prev & Hn & Hc).
  destruct (decide (q / 16 = k / pow16 (S h))) as [Heq|Hneq].
  - assert (he <= h)%nat as Hle.
    { destruct (decide (he <= h)%nat); [done|]. exfalso. eapply (not_below_parent h q he); [|exact Hnb|].
      - nat_lia.
      - rewrite Heq. apply below_key. nat_lia. }
    destruct (gr_path _ _ _ _ _ Hg h ltac:(nat_lia)) as (n1 & prev1 & n2 & c2 & Hn1 & Hn2 & _ & _ & _ & _ & _ & Hy).
    rewrite Heq, Hn1 in Hn. simplify_eq. exists n2, c, prev. rewrite Heq. split; [done|].
    rewrite Hy; [done|apply mod16_range|]. intros Hd. apply Hq. rewrite <- (key_child k h), <- Heq, <- Hd.
    symmetry. apply parent_child.
  - exists n, c, prev. split; [|done]. rewrite (gr_off _ _ _ _ _ Hg); [done|by apply valid_parent| |done].
    destruct (decide (S h <= he)%nat); [apply not_below_parent; [nat_lia|done]|]. intros [? _]. nat_lia.
Qed.

Lemma grafted_loaded W W2 V k he k' :
  (he <= 64)%nat -> unsigned 256 k' -> grafted W W2 V k he -> loaded W k' -> loaded W2 k'.
Proof.
  intros Hhe Hk' Hg HW h n prev c Hh Hn Hc. assert (Hv : valid (S h) (k' / pow16 (S h))) by (apply valid_key; [nat_lia|done]).
  assert (Hv' : valid h (k' / pow16 h)) by (apply valid_key; [nat_lia|done]).
  destruct (decide (below (S h) (k' / pow16 (S h)) he (k / pow16 he))) as [Hb|Hnb].
  { rewrite <- key_child. eapply (gr_full _ _ _ _ _ Hg); [done..|apply digit_range|done]. }
  destruct (decide (k' / pow16 (S h) = k / pow16 (S h))) as [Heq|Hne].
  - assert (he <= h)%nat as Hle.
    { destruct (decide (he <= h)%nat); [done|]. exfalso. apply Hnb. rewrite Heq. apply below_key. nat_lia. }
    destruct (gr_path _ _ _ _ _ Hg h ltac:(nat_lia)) as (n1 & prev1 & n2 & c2 & Hn1 & Hn2 & _ & _ & Hc2 & _ & _ & Hy).
    rewrite Heq, Hn2 in Hn. simplify_eq. destruct (decide (digit k' h = digit k h)) as [Hd|Hd].
    + rewrite <- (key_child k' h), Heq, Hd, key_child. apply (grafted_on_path _ _ _ _ _ _ Hg). nat_lia.
    + apply (gr_grows _ _ _ _ _ Hg); [done|]. eapply HW; [done|rewrite Heq; exact Hn1|].
      rewrite <- Hy; [exact Hc|apply digit_range|done].
  - apply (gr_grows _ _ _ _ _ Hg); [done|]. eapply HW; [done| |exact Hc].
    by rewrite <- (gr_off _ _ _ _ _ Hg).
Qed.

(** Nodes of the patch set were loaded from earlier versions. *)
Lemma prev_version_old N W D V m h p wn q :
  tree_ok N W D V (Some Insert) m -> (h < 64)%nat -> valid h p -> wlook W h p = Some wn ->
  prev_version wn = Some q -> q < V.
Proof.
  intros Hok Hh Hv Hwn Hq. destruct (working_at _ _ _ _ _ _ _ _ _ Hok Hv Hwn) as (r & Hr & _ & _ & Href).
  destruct (Href Hh) as (n & c & _ & _ & _ & _ & [[_ Hp]|(Hp & Hlt & _)]); [by apply Hp|].
  by simplify_eq.
Qed.

Lemma part_key_nonempty h k v m : part h (k / pow16 h) (<[k := v]> m) <> ∅.
Proof. rewrite part_insert_in. apply insert_non_empty. Qed.

Lemma off_path_child k h y : 0 <= y < 16 -> y <> digit k h -> k / pow16 h <> 16 * (k / pow16 (S h)) + y.
Proof. intros Hy Hne Heq. rewrite div_pow16_digit in Heq. lia. Qed.

(** Positions below a child off the path are neither on the path nor below its end. *)
Lemma below_off_path k h y he h1 q :
  (he <= h)%nat -> 0 <= y < 16 -> y <> digit k h -> below h1 q h (16 * (k / pow16 (S h)) + y) ->
  ~ below h1 q he (k / pow16 he) /\ q <> k / pow16 h1.
Proof.
  intros Hle Hy Hne Hb. pose proof (off_path_child k h y Hy Hne) as Hoff. split.
  - intros Hb'. apply Hoff. eapply below_unique; [|exact Hb]. eapply below_trans; [exact Hb'|]. by apply below_key.
  - intros ->. apply Hoff. eapply below_unique; [|exact Hb]. apply below_key. by destruct Hb.
Qed.

Lemma grafted_working N W W2 (D D2 : nat -> Z -> Prop) V op m k v he :
  tree_ok N W D V op m -> unsigned 256 k -> (he <= 64)%nat -> grafted W W2 V k he ->
  (forall h q, D h q -> D2 h q) -> (forall h, (he <= h < 64)%nat -> D2 h (k / pow16 h)) ->
  (op = Some Insert -> (he < 64)%nat -> forall wn2 q,
     wlook W2 he (k / pow16 he) = Some wn2 -> prev_version wn2 = Some q -> q < V) ->
  (forall wn2, wlook W2 he (k / pow16 he) = Some wn2 ->
     working N W2 D2 V op he (k / pow16 he) V (inner wn2) (part he (k / pow16 he) (<[k := v]> m))) ->
  forall h wn2, (he <= h <= 64)%nat -> wlook W2 h (k / pow16 h) = Some wn2 ->
    working N W2 D2 V op h (k / pow16 h) V (inner wn2) (part h (k / pow16 h) (<[k := v]> m)).
Proof.
  intros Hok Hk Hhe Hg HD HD2 Hprev Hend h. induction h as [|h IH]; intros wn2 Hh Hwn2.
  { assert (he = 0%nat) as -> by nat_lia. by apply Hend. }
  destruct (decide (he = S h)) as [->|Hne]; [by apply Hend|].
  destruct (gr_path _ _ _ _ _ Hg h ltac:(nat_lia)) as (n & prev & n2 & c2 & Hn & Hn2 & Hwf2 & Hcache2 & Hc2 & Hver2 & Hleaf2 & Hy2).
  rewrite Hn2 in Hwn2. injection Hwn2 as <-. cbn [inner working].
  assert (Hv : valid (S h) (k / pow16 (S h))) by (apply valid_key; [nat_lia|done]).
  destruct (working_at _ _ _ _ _ _ _ _ _ Hok Hv Hn) as (r & Hr & Hwork & _). cbn [inner working] in Hwork.
  destruct Hwork as (_ & Hcache & _ & Hch).
  assert (Hsub : forall y, 0 <= y < 16 -> y <> digit k h ->
      sub h y (part (S h) (k / pow16 (S h)) (<[k := v]> m)) = sub h y (part (S h) (k / pow16 (S h)) m)).
  { intros y Hy Hyne. rewrite !sub_part by done. apply part_insert_out. by apply off_path_child. }
  split; [done|]. split; [|split].
  - intros cache Hc. rewrite Hcache2 in Hc. destruct (Hcache cache Hc) as (m0 & Hm0 & Hs0). exists m0. split; [done|].
    intros y Hy HDy. assert (y <> digit k h) as Hyne.
    { intros ->. apply HDy. rewrite key_child. apply HD2. nat_lia. }
    rewrite Hsub by done. apply Hs0; [done|]. intros ?. apply HDy. by apply HD.
  - intros _. split; [apply part_key_nonempty|]. exists (digit k h), c2. split; [apply digit_range|done].
  - intros y Hy. destruct (decide (y = digit k h)) as [->|Hyne].
    + rewrite Hc2. split; [by rewrite Hver2|]. rewrite key_child.
      destruct (grafted_on_path _ _ _ _ _ h Hg ltac:(nat_lia)) as [wn Hwn]. rewrite Hwn.
      rewrite sub_part, key_child by apply digit_range. split; [|split; [by apply Hleaf2|split]].
      * intros HDn. exfalso. apply HDn. apply HD2. nat_lia.
      * destruct op as [[]|]; [|done..]. left. split; [done|]. intros q Hq.
        destruct (decide (h = he)) as [->|Hneh]; [by apply (Hprev eq_refl ltac:(nat_lia) wn)|].
        destruct h as [|h']; [nat_lia|].
        destruct (gr_path _ _ _ _ _ Hg h' ltac:(nat_lia)) as (n' & prev' & n2' & c2' & Hn' & Hn2' & _).
        rewrite Hn2' in Hwn. injection Hwn as <-. cbn [prev_version] in Hq. subst prev'.
        eapply (prev_version_old N W D V m (S h')); [done|nat_lia| |exact Hn'|done]. apply valid_key; [nat_lia|done].
      * rewrite Hver2. apply IH; [nat_lia|done].
    + rewrite Hy2 by done. specialize (Hch y Hy). destruct (child_at n y) as [c|]; [|by rewrite Hsub].
      destruct Hch as [Hle Hch]. split; [by transitivity r|]. rewrite Hsub by done.
      assert (Hv' : valid h (16 * (k / pow16 (S h)) + y)) by (by apply valid_child).
      rewrite (gr_off _ _ _ _ _ Hg); [|done|..];
        [|eapply (below_off_path k h y he h); [nat_lia|done..|apply below_refl]..].
      destruct (wlook W h (16 * (k / pow16 (S h)) + y)) as [wn|]; [|done].
      destruct Hch as (Hhash & Hleaf & Hfresh & Hwork). split; [|split; [done|split; [done|]]].
      * intros HDn. apply Hhash. intros ?. apply HDn. by apply HD.
      * eapply working_frame; [done| |exact Hwork]. intros h1 q Hh1 Hq Hb.
        destruct (below_off_path k h y he h1 q ltac:(nat_lia) Hy Hyne Hb) as [Hb1 Hb2].
        split; [by apply (gr_off _ _ _ _ _ Hg)|]. split; [apply HD|done].
Qed.

(** The patch set after the change represents the leaves after the change. *)
Lemma grafted_tree_ok N W W2 (D D2 : nat -> Z -> Prop) V op m k v he :
  tree_ok N W D V op m -> unsigned 256 k -> (he <= 64)%nat -> grafted W W2 V k he ->
  (forall h q, D h q -> D2 h q) -> (forall h, (he <= h < 64)%nat -> D2 h (k / pow16 h)) ->
  (op = Some Insert -> (he < 64)%nat -> forall wn2 q,
     wlook W2 he (k / pow16 he) = Some wn2 -> prev_version wn2 = Some q -> q < V) ->
  (forall wn2, wlook W2 he (k / pow16 he) = Some wn2 ->
     working N W2 D2 V op he (k / pow16 he) V (inner wn2) (part he (k / pow16 he) (<[k := v]> m))) ->
  tree_ok N W2 D2 V op (<[k := v]> m).
Proof.
  intros Hok Hk Hhe Hg HD HD2 Hprev Hend.
  assert (Hkeys : keys_ok (<[k := v]> m)) by (apply keys_ok_insert, Hok; done). constructor.
  - apply Hg.
  - eapply grafted_linked; [exact Hhe|done..|apply Hok].
  - rewrite (gr_version _ _ _ _ _ Hg). apply Hok.
  - done.
  - destruct (grafted_on_path _ _ _ _ _ 64 Hg ltac:(nat_lia)) as [wn Hwn].
    pose proof (grafted_working N W W2 D D2 V op m k v he Hok Hk Hhe Hg HD HD2 Hprev Hend 64 wn ltac:(nat_lia) Hwn) as Hwork.
    rewrite div_pow16_64 in Hwn, Hwork by done. rewrite part_root in Hwork by done. by rewrite Hwn.
Qed.

(** Changes at and below a position, before the versions are raised: the parent refers to it. *)
Record changed (W W1 : WorkingPatchSet) (V k : Z) (he : nat) : Prop := {
  ch_version : root_version W1 = root_version W;
  ch_positions : positions_ok W1;
  ch_off h q : valid h q -> ~ below h q he (k / pow16 he) -> (h, q) <> (S he, k / pow16 (S he)) ->
    wlook W1 h q = wlook W h q;
  ch_parent : (he < 64)%nat -> exists n prev n1 c1,
    wlook W (S he) (k / pow16 (S he)) = Some {| inner := Internal n; prev_version := prev |} /\
    wlook W1 (S he) (k / pow16 (S he)) = Some {| inner := Internal n1; prev_version := prev |} /\
    node_wf n1 /\ node_cache n1 = node_cache n /\ child_at n1 (digit k he) = Some c1 /\ cr_version c1 <= V /\
    (forall wn1, wlook W1 he (k / pow16 he) = Some wn1 -> leafb (inner wn1) = is_leaf c1) /\
    forall y, 0 <= y < 16 -> y <> digit k he -> child_at n1 y = child_at n y;
  ch_below h q wn : (h < he)%nat -> valid h q -> below h q he (k / pow16 he) -> wlook W1 h q = Some wn ->
    exists n c, ref_at W1 h q n c;
  ch_full h q n prev x c : valid (S h) q -> below (S h) q he (k / pow16 he) ->
    wlook W1 (S h) q = Some {| inner := Internal n; prev_version := prev |} -> 0 <= x < 16 ->
    child_at n x = Some c -> is_Some (wlook W1 h (16 * q + x));
  ch_end : is_Some (wlook W1 he (k / pow16 he));
  ch_grows h q : valid h q -> is_Some (wlook W h q) -> is_Some (wlook W1 h q);
}.

(** The nodes above a node of the patch set. *)
Lemma path_above N W D V op m k h wn :
  tree_ok N W D V op m -> unsigned 256 k -> (h <= 64)%nat -> wlook W h (k / pow16 h) = Some wn ->
  forall h1, (h <= h1 < 64)%nat -> exists n prev c,
    wlook W (S h1) (k / pow16 (S h1)) = Some {| inner := Internal n; prev_version := prev |} /\
    node_wf n /\ child_at n (digit k h1) = Some c /\ cr_version c <= V /\
    exists wn1, wlook W h1 (k / pow16 h1) = Some wn1 /\ leafb (inner wn1) = is_leaf c.
Proof.
  intros Hok Hk Hh Hwn h1 Hh1. assert (Hv1 : valid h1 (k / pow16 h1)) by (apply valid_key; [nat_lia|done]).
  assert (exists wn1, wlook W h1 (k / pow16 h1) = Some wn1) as [wn1 Hwn1].
  { destruct (decide (h = h1)) as [<-|Hne]; [by exists wn|].
    destruct (linked_ancestor W h1 (k / pow16 h1) h (k / pow16 h) wn) as (n & prev & ?);
      [apply Hok|apply valid_key; [nat_lia|done]|nat_lia|nat_lia|apply below_key; nat_lia|done|by eexists]. }
  destruct (working_at _ _ _ _ _ _ _ _ _ Hok Hv1 Hwn1) as (r & Hr & _ & _ & Href).
  destruct (Href ltac:(nat_lia)) as (n & c & (prev & Hn & Hc) & Hver & Hleaf & _).
  rewrite <- key_parent in Hn. exists n, prev, c.
  destruct (node_wf_at _ _ _ _ _ _ _ _ _ _ Hok (valid_key (S h1) k ltac:(nat_lia) Hk) Hn) as [Hwf _].
  do 3 (split; [done|]). split; [by rewrite Hver|]. by exists wn1.
Qed.

Lemma raise_changed N W W1 D V op m k he :
  tree_ok N W D V op m -> unsigned 256 k -> (he <= 64)%nat -> changed W W1 V k he ->
  exists W2, raise_versions (2 * KEY_SIZE + 1) W1 V (nib he (k / pow16 he)) = Ret W2 /\
    grafted W W2 V k he /\ (forall h q, valid h q -> below h q he (k / pow16 he) -> wlook W2 h q = wlook W1 h q).
Proof.
  intros Hok Hk Hhe Hch.
  assert (Habove : forall h1, (he < h1 < 64)%nat -> exists n prev c,
      wlook W (S h1) (k / pow16 (S h1)) = Some {| inner := Internal n; prev_version := prev |} /\
      wlook W1 (S h1) (k / pow16 (S h1)) = Some {| inner := Internal n; prev_version := prev |} /\
      node_wf n /\ child_at n (digit k h1) = Some c /\ cr_version c <= V /\ is_leaf c = false).
  { intros h1 Hh1. destruct (ch_parent _ _ _ _ _ Hch ltac:(nat_lia)) as (n0 & prev0 & _ & _ & Hn0 & _).
    destruct (path_above N W D V op m k (S he) _ Hok Hk ltac:(nat_lia) Hn0 h1 ltac:(nat_lia))
      as (n & prev & c & Hn & Hwf & Hc & Hver & wn1 & Hwn1 & Hleaf).
    exists n, prev, c. split; [done|]. split.
    - rewrite (ch_off _ _ _ _ _ Hch); [done|apply valid_key; [nat_lia|done]| |].
      + intros [? _]. nat_lia.
      + intros [= ? _]. nat_lia.
    - do 3 (split; [done|]). destruct (decide (h1 = S he)) as [->|Hne]; [rewrite Hn0 in Hwn1; injection Hwn1 as <-; done|].
      destruct h1 as [|h1]; [nat_lia|].
      destruct (path_above N W D V op m k (S he) _ Hok Hk ltac:(nat_lia) Hn0 h1 ltac:(nat_lia)) as (n' & prev' & _ & Hn' & _).
      rewrite Hn' in Hwn1. by injection Hwn1 as <-. }
  destruct (raise_versions_spec V k (2 * KEY_SIZE + 1) he W1 Hk Hhe) as (W2 & HW2 & Hver & Hpos & Hoff & Hon).
  { unfold KEY_SIZE. nat_lia. }
  { intros h1 Hh1. destruct (decide (h1 = he)) as [->|Hne].
    - destruct (ch_parent _ _ _ _ _ Hch ltac:(nat_lia)) as (n & prev & n1 & c1 & _ & Hn1 & Hwf & _ & Hc & _). eauto 10.
    - destruct (Habove h1 ltac:(nat_lia)) as (n & prev & c & _ & Hn & Hwf & Hc & _). eauto 10. }
  assert (Hsame : forall h q, valid h q -> below h q he (k / pow16 he) -> wlook W2 h q = wlook W1 h q).
  { intros h q Hq [Hle _]. apply Hoff; [done|]. by left. }
  exists W2. split; [done|]. split; [|done].
  assert (Hraised : forall c, cr_version c <= V -> cr_version (raised V c) = V) by (intros c ?; cbn; lia).
  assert (Hpar : forall h, (he <= h < 64)%nat -> exists n prev n1 c1,
    wlook W (S h) (k / pow16 (S h)) = Some {| inner := Internal n; prev_version := prev |} /\
    wlook W1 (S h) (k / pow16 (S h)) = Some {| inner := Internal n1; prev_version := prev |} /\
    node_cache n1 = node_cache n /\ child_at n1 (digit k h) = Some c1 /\ cr_version c1 <= V /\
    (forall wn2, wlook W2 h (k / pow16 h) = Some wn2 -> leafb (inner wn2) = is_leaf c1) /\
    forall y, 0 <= y < 16 -> y <> digit k h -> child_at n1 y = child_at n y).
  { intros h Hh. destruct (decide (h = he)) as [->|Hne].
    - destruct (ch_parent _ _ _ _ _ Hch ltac:(nat_lia)) as (n & prev & n1 & c1 & ? & ? & ? & ? & ? & ? & Hleaf & ?).
      exists n, prev, n1, c1. do 5 (split; [done|]). split; [|done].
      rewrite Hsame; [done|apply valid_key; [nat_lia|done]|apply below_refl].
    - destruct (Habove h ltac:(nat_lia)) as (n & prev & c & ? & ? & ? & ? & ? & Hleaf). exists n, prev, n, c.
      do 5 (split; [done|]). split; [|done]. intros wn2 Hwn2. destruct h as [|h]; [nat_lia|].
      assert (exists n' prev' c', wlook W1 (S h) (k / pow16 (S h)) = Some {| inner := Internal n'; prev_version := prev' |} /\
        child_at n' (digit k h) = Some c') as (n' & prev' & c' & Hn' & Hc').
      { destruct (decide (h = he)) as [->|].
        - destruct (ch_parent _ _ _ _ _ Hch ltac:(nat_lia)) as (?&?&?&?&?&?&?&?&?&?). eauto 10.
        - destruct (Habove h ltac:(nat_lia)) as (?&?&?&?&?&?&?&?). eauto 10. }
      destruct (Hon h n' prev' c' ltac:(nat_lia) Hn' Hc') as (n2 & Hn2 & _). rewrite Hn2 in Hwn2. by injection Hwn2 as <-. }
  constructor.
  - rewrite Hver. apply Hch.
  - apply Hpos, Hch.
  - intros h q Hq Hb Hne. rewrite Hoff by (first [done|by right]). apply Hch; [done..|]. by intros [= -> ->].
  - intros h Hh. destruct (Hpar h Hh) as (n & prev & n1 & c1 & Hn & Hn1 & Hcache & Hc1 & Hle & Hleaf & Hy).
    destruct (Hon h n1 prev c1 Hh Hn1 Hc1) as (n2 & Hn2 & Hwf2 & Hcache2 & Hat).
    exists n, prev, n2, (raised V c1). do 3 (split; [done|]). split; [congruence|].
    split; [rewrite Hat by apply digit_range; by rewrite decide_True|]. split; [by apply Hraised|].
    split; [done|]. intros y Hyr Hyne. rewrite Hat by done. rewrite decide_False by done. by apply Hy.
  - intros h q wn Hlt Hq Hb Hwn. rewrite Hsame in Hwn by done.
    destruct (ch_below _ _ _ _ _ Hch h q wn Hlt Hq Hb Hwn) as (n & c & prev & Hn & Hc). exists n, c, prev.
    split; [|done]. rewrite Hsame; [done|apply valid_parent; [nat_lia|done]|by apply below_parent].
  - intros h q n prev x c Hq Hb Hn Hx Hc. rewrite Hsame in Hn by done.
    destruct (below_child h q x h (16 * q + x) Hx (below_refl _ _)) as [Hb1 _].
    rewrite Hsame; [|by apply valid_child|by eapply below_trans].
    eapply (ch_full _ _ _ _ _ Hch); [exact Hq|done..].
  - rewrite Hsame; [exact (ch_end _ _ _ _ _ Hch)|by apply valid_key|apply below_refl].
  - intros h q Hq Hs. apply (ch_grows _ _ _ _ _ Hch) in Hs; [|done].
    destruct (decide (below h q he (k / pow16 he))); [by rewrite Hsame|].
    destruct (decide (q = k / pow16 h)) as [->|Hne]; [|by rewrite Hoff by (first [done|by right])].
    destruct h as [|h]; [exfalso; apply n; apply below_key; nat_lia|].
    assert (he <= h)%nat by (destruct (decide (he <= h)%nat); [done|]; exfalso; apply n, below_key; nat_lia).
    destruct Hq as [Hq64 _].
    destruct (Hpar h ltac:(nat_lia)) as (n0 & prev & n1 & c1 & _ & Hn1 & _ & Hc1 & _).
    destruct (Hon h n1 prev c1 ltac:(nat_lia) Hn1 Hc1) as (n2 & -> & _). done.
Qed.

Lemma finish_insert N W W1 (D D2 : nat -> Z -> Prop) V op m k v he :
  tree_ok N W D V op m -> unsigned 256 k -> (he <= 64)%nat -> changed W W1 V k he ->
  (forall h q, D h q -> D2 h q) -> (forall h, D2 h (k / pow16 h)) ->
  (op = Some Insert -> (he < 64)%nat -> forall wn1 q,
     wlook W1 he (k / pow16 he) = Some wn1 -> prev_version wn1 = Some q -> q < V) ->
  (forall wn1, wlook W1 he (k / pow16 he) = Some wn1 ->
     working N W1 D2 V op he (k / pow16 he) V (inner wn1) (part he (k / pow16 he) (<[k := v]> m))) ->
  exists W2, raise_versions (2 * KEY_SIZE + 1) W1 V (nib he (k / pow16 he)) = Ret W2 /\
    grafted W W2 V k he /\ tree_ok N W2 D2 V op (<[k := v]> m) /\
    (forall h q, valid h q -> below h q he (k / pow16 he) -> wlook W2 h q = wlook W1 h q).
Proof.
  intros Hok Hk Hhe Hch HD HD2 Hprev Hend.
  destruct (raise_changed N W W1 D V op m k he Hok Hk Hhe Hch) as (W2 & HW2 & Hg & Hsame).
  assert (Hv : valid he (k / pow16 he)) by (by apply valid_key).
  exists W2. split; [done|]. split; [done|]. split; [|done].
  eapply grafted_tree_ok; [done..|intros; apply HD2| |].
  - intros Hop Hlt wn2 q. rewrite Hsame by (first [done|apply below_refl]). by apply Hprev.
  - intros wn2. rewrite Hsame by (first [done|apply below_refl]). intros Hwn.
    eapply working_frame; [done| |by apply Hend]. intros h1 q Hlt Hq Hb. split; [by apply Hsame|]. done.
Qed.

(** ** A leaf at the end of the path *)

Lemma ends_parent N W D V op m k he :
  tree_ok N W D V op m -> unsigned 256 k -> (he <= 64)%nat -> forall l prev,
  wlook W he (k / pow16 he) = Some {| inner := Leaf l; prev_version := prev |} ->
  k / pow16 he = full_key l / pow16 he /\ unsigned 256 (full_key l) /\
  part he (k / pow16 he) m = leaf_contents l /\ m !! full_key l = Some (value_hash l, leaf_index l).
Proof.
  intros Hok Hk Hhe l prev Hwn. assert (Hv : valid he (k / pow16 he)) by (by apply valid_key).
  destruct (working_at _ _ _ _ _ _ _ _ _ Hok Hv Hwn) as (r & _ & Hwork & _).
  cbn [inner] in Hwork. rewrite working_leaf in Hwork.
  assert (Hl : part he (k / pow16 he) m !! full_key l = Some (value_hash l, leaf_index l)).
  { rewrite Hwork. apply lookup_singleton_eq. }
  apply part_lookup in Hl as [Hl Hdiv]. split; [done|]. split; [by eapply (ok_keys _ _ _ _ _ _ Hok)|]. done.
Qed.

Lemma changed_leaf W W1 V k he l prev :
  unsigned 256 k -> (he <= 64)%nat -> root_version W1 = root_version W -> positions_ok W1 ->
  wlook W1 he (k / pow16 he) = Some {| inner := Leaf l; prev_version := prev |} ->
  (forall h q, (h < he)%nat -> valid h q -> below h q he (k / pow16 he) -> wlook W1 h q = None) ->
  (forall h q, valid h q -> (h, q) <> (he, k / pow16 he) -> (h, q) <> (S he, k / pow16 (S he)) ->
     wlook W1 h q = wlook W h q) ->
  ((he < 64)%nat -> exists n prev n1 c1,
    wlook W (S he) (k / pow16 (S he)) = Some {| inner := Internal n; prev_version := prev |} /\
    wlook W1 (S he) (k / pow16 (S he)) = Some {| inner := Internal n1; prev_version := prev |} /\
    node_wf n1 /\ node_cache n1 = node_cache n /\ child_at n1 (digit k he) = Some c1 /\ cr_version c1 <= V /\
    is_leaf c1 = true /\ forall y, 0 <= y < 16 -> y <> digit k he -> child_at n1 y = child_at n y) ->
  changed W W1 V k he.
Proof.
  intros Hk Hhe Hver Hpos Hwn Hnone Hoff Hpar. constructor; [done..| | | | | |].
  - intros h q Hq Hnb Hne. apply Hoff; [done| |done]. intros [= -> ->]. apply Hnb, below_refl.
  - intros Hlt. destruct (Hpar Hlt) as (n & prev0 & n1 & c1 & ? & ? & ? & ? & ? & ? & Hleaf & ?).
    exists n, prev0, n1, c1. do 6 (split; [done|]). split; [|done]. intros wn1. rewrite Hwn, Hleaf. by intros [= <-].
  - intros h q wn Hlt Hq Hb Hwn1. by rewrite Hnone in Hwn1.
  - intros h q n prev0 x c Hq [Hle Hb] Hn Hx Hc. destruct (decide (S h = he)) as [Heq|Hne].
    + subst he. rewrite Nat.sub_diag in Hb. change (pow16 0) with 1 in Hb. rewrite Z.div_1_r in Hb. subst q.
      rewrite Hn in Hwn. done.
    + rewrite Hnone in Hn; [done|nat_lia|done|done].
  - by rewrite Hwn.
  - intros h q Hq Hs. destruct (decide ((h, q) = (he, k / pow16 he))) as [[= -> ->]|Hne]; [by rewrite Hwn|].
    destruct (decide ((h, q) = (S he, k / pow16 (S he)))) as [[= -> ->]|Hne']; [|by rewrite Hoff].
    destruct Hq as [Hq _]. destruct (Hpar ltac:(nat_lia)) as (n & prev0 & n1 & c1 & _ & -> & _). done.
Qed.

(** The references that are no longer known to be right after an insertion. *)
Definition dirtied (D : nat -> Z -> Prop) (k : Z) (adjacent : option (Nibbles * LeafNode)) (h : nat) (q : Z) : Prop :=
  D h q \/ q = k / pow16 h \/ exists l, adjacent = Some (nib h q, l).

Lemma leaf_contents_new entry :
  leaf_contents (leaf_new entry) = ({[te_key entry := (te_value entry, te_leaf_index entry)]} : Leaves).
Proof. done. Qed.

Lemma dirtied_sub D k adj h q : D h q -> dirtied D k adj h q.
Proof. by left. Qed.

Lemma dirtied_path D k adj h : dirtied D k adj h (k / pow16 h).
Proof. right. by left. Qed.

(** A leaf that is put at the end of the path, where at most the same key was. *)
Lemma leaf_inserted N W W1 D V op m entry he prev :
  let k := te_key entry in
  tree_ok N W D V op m -> unsigned 256 k -> (he <= 64)%nat -> changed W W1 V k he ->
  wlook W1 he (k / pow16 he) = Some {| inner := Leaf (leaf_new entry); prev_version := prev |} ->
  (op = Some Insert -> (he < 64)%nat -> forall q, prev = Some q -> q < V) ->
  (forall k' v', part he (k / pow16 he) m !! k' = Some v' -> k' = k) ->
  exists W2, raise_versions (2 * KEY_SIZE + 1) W1 V (nib he (k / pow16 he)) = Ret W2 /\
    grafted W W2 V k he /\
    tree_ok N W2 (dirtied D k None) V op (<[k := (te_value entry, te_leaf_index entry)]> m) /\
    (forall h q, valid h q -> below h q he (k / pow16 he) -> wlook W2 h q = wlook W1 h q).
Proof.
  intros k Hok Hk Hhe Hch Hwn Hprev Honly.
  apply (finish_insert N W W1 D); [done..|apply dirtied_sub|apply dirtied_path| |].
  - intros Hop Hlt wn1 q Hwn1. rewrite Hwn in Hwn1. injection Hwn1 as <-. by apply Hprev.
  - intros wn1 Hwn1. rewrite Hwn in Hwn1. injection Hwn1 as <-. cbn [inner]. apply working_leaf.
    rewrite leaf_contents_new, part_insert_in. apply map_eq. intros k'. destruct (decide (k' = k)) as [->|Hne].
    + by rewrite lookup_insert_eq, lookup_singleton_eq.
    + rewrite lookup_insert_ne, lookup_singleton_ne by done.
      destruct (part he (k / pow16 he) m !! k') as [v'|] eqn:Hk'; [|done]. by apply Honly in Hk'.
Qed.

(** The end of the path holds the key. *)
Lemma match_changed N W D V op m entry he l prev :
  let k := te_key entry in
  let W1 := working_insert W (nib he (k / pow16 he)) (Leaf (leaf_new entry)) in
  tree_ok N W D V op m -> unsigned 256 k -> (he <= 64)%nat ->
  wlook W he (k / pow16 he) = Some {| inner := Leaf l; prev_version := prev |} ->
  changed W W1 V k he /\
  wlook W1 he (k / pow16 he) = Some {| inner := Leaf (leaf_new entry); prev_version := prev |}.
Proof.
  intros k W1 Hok Hk Hhe Hwn. assert (Hv : valid he (k / pow16 he)) by (by apply valid_key).
  assert (Hwn1 : wlook W1 he (k / pow16 he) = Some {| inner := Leaf (leaf_new entry); prev_version := prev |}).
  { unfold W1. rewrite wlook_insert_eq by done. by rewrite Hwn. }
  assert (Hoff : forall h q, valid h q -> (h, q) <> (he, k / pow16 he) -> wlook W1 h q = wlook W h q).
  { intros h q Hq Hne. by apply wlook_insert_ne. }
  split; [|done]. eapply changed_leaf; [done..|apply positions_ok_insert; [done|apply Hok]|exact Hwn1| |by auto|].
  - intros h q Hlt Hq Hb. rewrite Hoff; [|done|intros [= -> _]; nat_lia].
    eapply (below_leaf W he (k / pow16 he)); [apply Hok|done|exact Hwn|done..].
  - intros Hlt. destruct (path_above N W D V op m k he _ Hok Hk Hhe Hwn he ltac:(nat_lia))
      as (n & prev0 & c & Hn & Hwf & Hc & Hver & wn1 & Hwn' & Hleaf).
    rewrite Hwn in Hwn'. injection Hwn' as <-.
    exists n, prev0, n, c. split; [done|]. split; [|done]. rewrite Hoff; [done| |intros [= ? _]; nat_lia].
    apply valid_key; [nat_lia|done].
Qed.

(** The end of the path is an internal node without a reference for the key. *)
Lemma missing_changed N W D V op m entry he n prev :
  let k := te_key entry in
  tree_ok N W D V op m -> unsigned 256 k -> (he < 64)%nat ->
  wlook W (S he) (k / pow16 (S he)) = Some {| inner := Internal n; prev_version := prev |} ->
  child_at n (digit k he) = None ->
  exists n1, insert_child_ref n (digit k he) (child_leaf V) = Ret n1 /\
    let W1 := working_insert (working_insert W (nib (S he) (k / pow16 (S he))) (Internal n1))
                (nib he (k / pow16 he)) (Leaf (leaf_new entry)) in
    changed W W1 V k he /\
    wlook W1 he (k / pow16 he) = Some {| inner := Leaf (leaf_new entry); prev_version := None |}.
Proof.
  intros k Hok Hk Hlt Hn Hc. assert (Hv : valid he (k / pow16 he)) by (apply valid_key; [nat_lia|done]).
  assert (HvS : valid (S he) (k / pow16 (S he))) by (apply valid_key; [nat_lia|done]).
  destruct (node_wf_at _ _ _ _ _ _ _ _ _ _ Hok HvS Hn) as [Hwf _].
  destruct (insert_child_ref_spec n (digit k he) (child_leaf V) Hwf (digit_range k he)) as (n1 & Hins & Hwf1 & Hcache & Hat).
  exists n1. split; [done|]. intros W1.
  destruct (working_missing _ _ _ _ _ _ he (k / pow16 he) n prev Hok Hlt Hv) as [_ Hnone];
    [by rewrite <- key_parent|done|].
  assert (Hne : (he, k / pow16 he) <> (S he, k / pow16 (S he))) by (intros [= ? _]; nat_lia).
  assert (Hwn1 : wlook W1 he (k / pow16 he) = Some {| inner := Leaf (leaf_new entry); prev_version := None |}).
  { unfold W1. rewrite wlook_insert_eq by done. by rewrite wlook_insert_ne, Hnone by done. }
  assert (HnS : wlook W1 (S he) (k / pow16 (S he)) = Some {| inner := Internal n1; prev_version := prev |}).
  { unfold W1. rewrite wlook_insert_ne by done. rewrite wlook_insert_eq by done. by rewrite Hn. }
  assert (Hoff : forall h q, valid h q -> (h, q) <> (he, k / pow16 he) -> (h, q) <> (S he, k / pow16 (S he)) ->
      wlook W1 h q = wlook W h q).
  { intros h q Hq H1 H2. unfold W1. by rewrite !wlook_insert_ne. }
  split; [|done]. eapply changed_leaf; [done|nat_lia|done| |exact Hwn1| |done|].
  - apply positions_ok_insert; [done|]. apply positions_ok_insert; [done|apply Hok].
  - intros h q Hltq Hq Hb. rewrite Hoff; [|done|intros [= -> _]; nat_lia..].
    eapply (below_absent W he (k / pow16 he)); [apply Hok|nat_lia|done..].
  - intros _. exists n, prev, n1, (child_leaf V). do 4 (split; [done|]).
    split; [rewrite Hat by apply digit_range; by rewrite decide_True|]. split; [done|]. split; [done|].
    intros y Hy Hyne. rewrite Hat by done. by rewrite decide_False.
Qed.

(** The tree is empty. *)
Lemma root_changed N W D V op m entry :
  let k := te_key entry in
  let W1 := working_insert (working_insert W EMPTY (Leaf (leaf_new entry))) EMPTY (Leaf (leaf_new entry)) in
  tree_ok N W D V op m -> unsigned 256 k -> wlook W 64 0 = None ->
  changed W W1 V k 64 /\
  wlook W1 64 (k / pow16 64) = Some {| inner := Leaf (leaf_new entry); prev_version := None |}.
Proof.
  intros k W1 Hok Hk Hnone. pose proof valid_root as Hv.
  assert (Hwn1 : wlook W1 64 (k / pow16 64) = Some {| inner := Leaf (leaf_new entry); prev_version := None |}).
  { unfold W1. rewrite div_pow16_64, <- !nib_EMPTY by done. rewrite !wlook_insert_eq by done. by rewrite Hnone. }
  assert (Hoff : forall h q, valid h q -> (h, q) <> (64%nat, k / pow16 64) -> wlook W1 h q = wlook W h q).
  { intros h q Hq Hne. rewrite div_pow16_64 in Hne by done. unfold W1. rewrite <- !nib_EMPTY.
    by rewrite !wlook_insert_ne. }
  split; [|done]. eapply changed_leaf; [done|nat_lia|done| |exact Hwn1| |by auto|].
  - unfold W1. rewrite <- !nib_EMPTY. do 2 (apply positions_ok_insert; [done|]). apply Hok.
  - intros h q Hltq Hq Hb. rewrite Hoff; [|done|intros [= -> _]; nat_lia].
    eapply (below_absent W 64 0); [apply Hok|nat_lia|done..|]. by rewrite <- (div_pow16_64 k).
  - intros Hlt. nat_lia.
Qed.

(** ** A fork of two keys *)

(** The references of the internal node at height [S h] on the way to the fork of two keys. *)
Definition fork_child (V k k' : Z) (h : nat) (x : Z) : option ChildRef :=
  if digit k' h =? digit k h then if decide (x = digit k h) then Some (child_internal V) else None
  else if decide (x = digit k h \/ x = digit k' h) then Some (child_leaf V) else None.

Lemma same_digit_same_div k k' h :
  k / pow16 (S h) = k' / pow16 (S h) -> digit k h = digit k' h -> k / pow16 h = k' / pow16 h.
Proof. intros H1 H2. by rewrite <- (key_child k h), <- (key_child k' h), H1, H2. Qed.

Lemma fork_step fuel u V k k' h :
  (h < 64)%nat -> exists n, node_wf n /\ node_cache n = None /\
    (forall x, 0 <= x < 16 -> child_at n x = fork_child V k k' h x) /\
    fork_loop (S fuel) u V k k' (63 - h) =
      let u1 := insert_node u (nib (S h) (k / pow16 (S h))) (Internal n) true in
      if digit k' h =? digit k h then fork_loop fuel u1 V k k' (63 - h + 1) else Ret (u1, (63 - h)%nat).
Proof.
  intros Hh. cbn [fork_loop]. rewrite !nibble_digit by nat_lia. rewrite !outcome_Ret_bind.
  replace (63 - (63 - h))%nat with h by nat_lia.
  assert (Hnew : nibbles_new k (63 - h) = Ret (nib (S h) (k / pow16 (S h)))).
  { replace (63 - h)%nat with (64 - S h)%nat by nat_lia. apply nibbles_new_nib. nat_lia. }
  rewrite Hnew. unfold fork_child. destruct (digit k' h =? digit k h) eqn:Hd.
  - destruct (insert_child_ref_spec internal_default (digit k h) (child_internal V) internal_default_wf (digit_range k h))
      as (n & -> & Hwf & Hcache & Hat).
    exists n. split; [done|]. split; [done|]. split; [|done].
    intros x Hx. rewrite Hat, child_at_default by done. by repeat case_decide; subst.
  - destruct (insert_child_ref_spec internal_default (digit k h) (child_leaf V) internal_default_wf (digit_range k h))
      as (n0 & -> & Hwf0 & Hcache0 & Hat0). rewrite outcome_Ret_bind.
    destruct (insert_child_ref_spec n0 (digit k' h) (child_leaf V) Hwf0 (digit_range k' h))
      as (n & -> & Hwf & Hcache & Hat).
    exists n. split; [done|]. split; [by rewrite Hcache|]. split; [|done].
    intros x Hx. rewrite Hat, Hat0, child_at_default by done. repeat case_decide; subst; naive_solver.
Qed.

Lemma fork_loop_spec V k k' :
  unsigned 256 k -> unsigned 256 k' -> k <> k' ->
  forall h fuel u, (h < 64)%nat -> (h < fuel)%nat -> k / pow16 (S h) = k' / pow16 (S h) ->
  let W := patch_set u in
  exists u1 hf, fork_loop fuel u V k k' (63 - h) = Ret (u1, 63 - hf)%nat /\ (hf <= h)%nat /\
    new_leaves u1 = new_leaves u /\ digit k hf <> digit k' hf /\ k / pow16 (S hf) = k' / pow16 (S hf) /\
    let W1 := patch_set u1 in
    root_version W1 = root_version W /\ (positions_ok W -> positions_ok W1) /\
    (forall h1 q, valid h1 q -> (h1 <= hf)%nat \/ (S h < h1)%nat \/ q <> k / pow16 h1 -> wlook W1 h1 q = wlook W h1 q) /\
    forall h1, (hf <= h1 <= h)%nat -> exists n,
      wlook W1 (S h1) (k / pow16 (S h1)) =
        Some {| inner := Internal n; prev_version := wlook W (S h1) (k / pow16 (S h1)) ≫= prev_version |} /\
      node_wf n /\ node_cache n = None /\ forall x, 0 <= x < 16 -> child_at n x = fork_child V k k' h1 x.
Proof.
  intros Hk Hk' Hne h. induction h as [|h IH]; intros fuel u Hh Hfuel Hdiv W; (destruct fuel as [|fuel]; [nat_lia|]).
  - destruct (fork_step fuel u V k k' 0 Hh) as (n & Hwf & Hcache & Hat & ->). cbn zeta.
    destruct (digit k' 0 =? digit k 0) eqn:Hd.
    { apply Z.eqb_eq in Hd. exfalso. apply Hne. pose proof (same_digit_same_div k k' 0 Hdiv (eq_sym Hd)) as Heq.
      change (pow16 0) with 1 in Heq. by rewrite !Z.div_1_r in Heq. }
    apply Z.eqb_neq in Hd. assert (Hv : valid 1 (k / pow16 1)) by (apply valid_key; [nat_lia|done]).
    eexists _, 0%nat. split; [done|]. split; [nat_lia|]. split; [done|]. split; [done|]. split; [done|].
    cbn [insert_node patch_set]. split; [done|]. split; [by apply positions_ok_insert|]. split.
    + intros h1 q Hq Hor. apply wlook_insert_ne; [done..|]. intros [= -> ->]. destruct Hor as [?|[?|?]]; [nat_lia..|done].
    + intros h1 Hh1. assert (h1 = 0%nat) as -> by nat_lia. exists n. by rewrite wlook_insert_eq.
  - destruct (fork_step fuel u V k k' (S h) Hh) as (n & Hwf & Hcache & Hat & ->). cbn zeta.
    assert (Hv : valid (S (S h)) (k / pow16 (S (S h)))) by (apply valid_key; [nat_lia|done]).
    set (u1 := insert_node u _ _ _).
    assert (Hoff1 : forall h1 q, valid h1 q -> (h1, q) <> (S (S h), k / pow16 (S (S h))) ->
        wlook (patch_set u1) h1 q = wlook W h1 q) by (intros; by apply wlook_insert_ne).
    assert (Hon1 : wlook (patch_set u1) (S (S h)) (k / pow16 (S (S h))) =
        Some {| inner := Internal n; prev_version := wlook W (S (S h)) (k / pow16 (S (S h))) ≫= prev_version |})
      by (by apply wlook_insert_eq).
    destruct (digit k' (S h) =? digit k (S h)) eqn:Hd.
    + apply Z.eqb_eq in Hd. replace (63 - S h + 1)%nat with (63 - h)%nat by nat_lia.
      destruct (IH fuel u1 ltac:(nat_lia) ltac:(nat_lia) (same_digit_same_div k k' (S h) Hdiv (eq_sym Hd)))
        as (u2 & hf & -> & Hhf & Hnew & Hdf & Hdivf & Hver & Hpos & Hoff & Hon).
      exists u2, hf. split; [done|]. split; [nat_lia|]. split; [by rewrite Hnew|]. split; [done|]. split; [done|].
      split; [by rewrite Hver|]. split; [intros ?; by apply Hpos, positions_ok_insert|]. split.
      * intros h1 q Hq Hor. rewrite Hoff; [|done|].
        -- apply Hoff1; [done|]. intros [= -> ->]. destruct Hor as [?|[?|?]]; [nat_lia..|done].
        -- destruct Hor as [?|[?|?]]; [by left|right; left; nat_lia|by right; right].
      * intros h1 Hh1. destruct (decide (h1 = S h)) as [->|Hne1].
        -- exists n. rewrite Hoff by (first [done|right; left; nat_lia]). done.
        -- destruct (Hon h1 ltac:(nat_lia)) as (n1 & Hn1 & ?). exists n1. rewrite Hn1. split; [|done].
           rewrite Hoff1; [done|apply valid_key; [nat_lia|done]|intros [= ? _]; nat_lia].
    + apply Z.eqb_neq in Hd. exists u1, (S h). split; [done|]. split; [done|]. split; [done|]. split; [done|].
      split; [done|]. split; [done|]. split; [by apply positions_ok_insert|]. split.
      * intros h1 q Hq Hor. apply Hoff1; [done|]. intros [= -> ->]. destruct Hor as [?|[?|?]]; [nat_lia..|done].
      * intros h1 Hh1. assert (h1 = S h) as -> by nat_lia. by exists n.
Qed.

(** The patch set after a leaf at height [S h] has been replaced with the internal nodes down
    to the fork at height [S hf] and the two leaves. *)
Record forked (W1 : WorkingPatchSet) (V : Z) (entry : TreeEntry) (l : LeafNode) (prev : option Z) (h hf : nat) : Prop := {
  fk_le : (hf <= h < 64)%nat;
  fk_div : te_key entry / pow16 (S hf) = full_key l / pow16 (S hf);
  fk_digit : digit (te_key entry) hf <> digit (full_key l) hf;
  fk_node h1 : (hf <= h1 <= h)%nat -> exists n,
    wlook W1 (S h1) (te_key entry / pow16 (S h1)) =
      Some {| inner := Internal n; prev_version := if decide (h1 = h) then prev else None |} /\
    node_wf n /\ node_cache n = None /\
    forall x, 0 <= x < 16 -> child_at n x = fork_child V (te_key entry) (full_key l) h1 x;
  fk_new : wlook W1 hf (te_key entry / pow16 hf) = Some {| inner := Leaf (leaf_new entry); prev_version := None |};
  fk_moved : wlook W1 hf (full_key l / pow16 hf) = Some {| inner := Leaf l; prev_version := None |};
  fk_only h1 q wn : valid h1 q -> below h1 q (S h) (te_key entry / pow16 (S h)) -> wlook W1 h1 q = Some wn ->
    (hf < h1)%nat /\ q = te_key entry / pow16 h1 \/
    h1 = hf /\ (q = te_key entry / pow16 hf \/ q = full_key l / pow16 hf);
}.

Lemma forked_above k k' hf h :
  k / pow16 (S hf) = k' / pow16 (S hf) -> (hf < h)%nat -> k / pow16 h = k' / pow16 h /\ digit k h = digit k' h.
Proof.
  intros Hdiv Hlt. unfold digit. enough (k / pow16 h = k' / pow16 h) as -> by done.
  replace h with (S hf + (h - S hf))%nat by nat_lia. by rewrite !div_pow16_add, Hdiv.
Qed.

Lemma fork_child_above V k k' hf h x :
  k / pow16 (S hf) = k' / pow16 (S hf) -> (hf < h)%nat ->
  fork_child V k k' h x = if decide (x = digit k h) then Some (child_internal V) else None.
Proof.
  intros Hdiv Hlt. destruct (forked_above k k' hf h Hdiv Hlt) as [_ Hd]. unfold fork_child.
  by rewrite <- Hd, Z.eqb_refl.
Qed.

Lemma fork_child_at V k k' hf x :
  digit k hf <> digit k' hf ->
  fork_child V k k' hf x = if decide (x = digit k hf \/ x = digit k' hf) then Some (child_leaf V) else None.
Proof. intros Hd. unfold fork_child. destruct (Z.eqb_spec (digit k' hf) (digit k hf)); [congruence|done]. Qed.

(** Every node below the old leaf is referred to by its parent. *)
Lemma forked_below W1 V entry l prev h hf h1 q wn :
  forked W1 V entry l prev h hf -> unsigned 256 (te_key entry) ->
  (h1 < S h)%nat -> valid h1 q -> below h1 q (S h) (te_key entry / pow16 (S h)) -> wlook W1 h1 q = Some wn ->
  exists n c, ref_at W1 h1 q n c.
Proof.
  intros Hf Hk Hlt Hq Hb Hwn. pose proof (fk_le _ _ _ _ _ _ _ Hf) as Hle.
  assert (Href : forall h2 n x c prev0, wlook W1 (S h2) (te_key entry / pow16 (S h2)) = Some {| inner := Internal n; prev_version := prev0 |} ->
      0 <= x < 16 -> child_at n x = Some c -> exists n c, ref_at W1 h2 (16 * (te_key entry / pow16 (S h2)) + x) n c).
  { intros h2 n x c prev0 Hn Hx Hc. exists n, c, prev0. by rewrite child_div, child_mod. }
  destruct (fk_only _ _ _ _ _ _ _ Hf h1 q wn Hq Hb Hwn) as [[Hlt1 ->]|[-> [-> | ->]]].
  - destruct (fk_node _ _ _ _ _ _ _ Hf h1 ltac:(nat_lia)) as (n & Hn & _ & _ & Hat). rewrite <- key_child.
    eapply Href; [exact Hn|apply digit_range|].
    rewrite Hat, (fork_child_above _ _ _ hf) by (first [apply digit_range|done|by apply Hf]). by rewrite decide_True.
  - destruct (fk_node _ _ _ _ _ _ _ Hf hf ltac:(nat_lia)) as (n & Hn & _ & _ & Hat). rewrite <- key_child.
    eapply Href; [exact Hn|apply digit_range|].
    rewrite Hat, fork_child_at by (first [apply digit_range|apply Hf]). rewrite decide_True by tauto. done.
  - destruct (fk_node _ _ _ _ _ _ _ Hf hf ltac:(nat_lia)) as (n & Hn & _ & _ & Hat).
    rewrite <- key_child, <- (fk_div _ _ _ _ _ _ _ Hf). eapply Href; [exact Hn|apply digit_range|].
    rewrite Hat, fork_child_at by (first [apply digit_range|apply Hf]). rewrite decide_True by tauto. done.
Qed.

(** All references of the new internal nodes lead to nodes of the patch set. *)
Lemma forked_full W1 V entry l prev h hf h1 q n prev0 x c :
  forked W1 V entry l prev h hf -> valid (S h1) q -> below (S h1) q (S h) (te_key entry / pow16 (S h)) ->
  wlook W1 (S h1) q = Some {| inner := Internal n; prev_version := prev0 |} -> 0 <= x < 16 ->
  child_at n x = Some c -> is_Some (wlook W1 h1 (16 * q + x)).
Proof.
  intros Hf Hq Hb Hwn Hx Hc. pose proof (fk_le _ _ _ _ _ _ _ Hf) as Hle. pose proof Hb as [Hh1 _].
  destruct (fk_only _ _ _ _ _ _ _ Hf (S h1) q _ Hq Hb Hwn) as [[Hlt ->]|[Heq Hor]].
  - destruct (fk_node _ _ _ _ _ _ _ Hf h1 ltac:(nat_lia)) as (n' & Hn' & _ & _ & Hat). rewrite Hwn in Hn'. injection Hn' as -> ->.
    rewrite Hat in Hc by done. destruct (decide (h1 = hf)) as [->|Hne].
    + rewrite fork_child_at in Hc by apply Hf. destruct (decide (x = _ \/ x = _)) as [[-> | ->]|]; [| |done].
      * rewrite key_child, (fk_new _ _ _ _ _ _ _ Hf). done.
      * rewrite (fk_div _ _ _ _ _ _ _ Hf), key_child, (fk_moved _ _ _ _ _ _ _ Hf). done.
    + rewrite (fork_child_above _ _ _ hf) in Hc by (first [nat_lia|apply Hf]).
      destruct (decide (x = _)) as [->|]; [|done]. rewrite key_child. destruct h1 as [|h1]; [nat_lia|].
      destruct (fk_node _ _ _ _ _ _ _ Hf h1 ltac:(nat_lia)) as (n1 & -> & _). done.
  - exfalso. rewrite Heq in Hwn. destruct Hor as [-> | ->].
    + rewrite (fk_new _ _ _ _ _ _ _ Hf) in Hwn. done.
    + rewrite (fk_moved _ _ _ _ _ _ _ Hf) in Hwn. done.
Qed.

(** The two leaves under the nodes of the fork. *)
Lemma fork_sub_above h (x : Z) k v l :
  digit k h = digit (full_key l) h ->
  sub h x (<[k := v]> (leaf_contents l)) = if decide (x = digit k h) then <[k := v]> (leaf_contents l) else ∅.
Proof.
  intros Hd. unfold sub, leaf_contents. destruct (decide (x = digit k h)) as [->|Hne].
  - apply map_filter_id. intros k' v' [[-> _]|[_ Hk']]%lookup_insert_Some; [done|].
    apply lookup_singleton_Some in Hk' as [<- _]. done.
  - apply map_empty. intros k'. apply map_lookup_filter_None. right.
    intros v' [[-> _]|[_ Hk']]%lookup_insert_Some; cbn; [done|]. apply lookup_singleton_Some in Hk' as [<- _]. by rewrite <- Hd.
Qed.

Lemma fork_sub_at h (x : Z) k v l :
  digit k h <> digit (full_key l) h ->
  sub h x (<[k := v]> (leaf_contents l)) =
    if decide (x = digit k h) then {[k := v]} else if decide (x = digit (full_key l) h) then leaf_contents l else ∅.
Proof.
  intros Hd. unfold sub, leaf_contents. destruct (decide (x = digit k h)) as [->|Hne].
  - rewrite map_filter_insert_True by done. rewrite map_filter_singleton_False by (cbn; congruence). done.
  - rewrite map_filter_insert_not by (cbn; congruence). destruct (decide (x = digit (full_key l) h)) as [->|Hne'].
    + by apply map_filter_singleton_True.
    + apply map_filter_singleton_False. cbn. congruence.
Qed.

Lemma forked_working N W1 D V op entry l prev h hf :
  let k := te_key entry in
  let D2 := dirtied D k (Some (nib hf (full_key l / pow16 hf), l)) in
  forked W1 V entry l prev h hf -> forall h1, (hf <= h1 <= h)%nat -> forall wn1,
  wlook W1 (S h1) (k / pow16 (S h1)) = Some wn1 ->
  working N W1 D2 V op (S h1) (k / pow16 (S h1)) V (inner wn1)
    (<[k := (te_value entry, te_leaf_index entry)]> (leaf_contents l)).
Proof.
  intros k D2 Hf h1. pose proof (fk_le _ _ _ _ _ _ _ Hf) as Hle. induction h1 as [h1 IH] using lt_wf_ind.
  intros Hh1 wn1 Hwn1. destruct (fk_node _ _ _ _ _ _ _ Hf h1 Hh1) as (n & Hn & Hwf & Hcache & Hat).
  fold k in Hn. rewrite Hn in Hwn1. injection Hwn1 as <-. cbn [inner working].
  assert (Hmax : exists x c, 0 <= x < 16 /\ child_at n x = Some c /\ cr_version c = V).
  { exists (digit k h1). destruct (fork_child V k (full_key l) h1 (digit k h1)) as [c|] eqn:Hc.
    - exists c. split; [apply digit_range|]. split; [by rewrite Hat by apply digit_range|].
      unfold fork_child in Hc. repeat case_match; by simplify_eq.
    - exfalso. unfold fork_child in Hc. repeat case_match; try done; naive_solver. }
  split; [done|]. split; [intros cache; by rewrite Hcache|]. split; [split; [apply insert_non_empty|done]|].
  assert (Hfresh : forall h2 p node m, fresh N V op h2 p V {| inner := node; prev_version := None |} m).
  { intros. destruct op as [[]|]; [|done..]. by left. }
  intros x Hx. rewrite Hat by done. destruct (decide (h1 = hf)) as [->|Hne].
  - rewrite fork_child_at by apply Hf. fold k. rewrite fork_sub_at by apply Hf.
    destruct (decide (x = digit k hf)) as [->|Hx1].
    + rewrite decide_True by tauto. split; [done|]. rewrite key_child. unfold k. rewrite (fk_new _ _ _ _ _ _ _ Hf).
      split; [intros HD; exfalso; apply HD, dirtied_path|]. split; [done|]. split; [apply Hfresh|].
      by apply working_leaf.
    + destruct (decide (x = digit (full_key l) hf)) as [->|Hx2].
      * rewrite decide_True by tauto. split; [done|]. unfold k. rewrite (fk_div _ _ _ _ _ _ _ Hf), key_child.
        rewrite (fk_moved _ _ _ _ _ _ _ Hf). split; [|split; [done|split; [apply Hfresh|by apply working_leaf]]].
        intros HD. exfalso. apply HD. right. right. by exists l.
      * rewrite decide_False by tauto. done.
  - assert (hf < h1)%nat as Hlt by nat_lia.
    destruct (forked_above k (full_key l) hf h1 (fk_div _ _ _ _ _ _ _ Hf) Hlt) as [_ Hd].
    rewrite (fork_child_above _ _ _ hf) by (first [done|apply Hf]). fold k. rewrite fork_sub_above by done.
    destruct (decide (x = digit k h1)) as [->|]; [|done]. split; [done|]. rewrite key_child.
    destruct h1 as [|h1]; [nat_lia|].
    destruct (fk_node _ _ _ _ _ _ _ Hf h1 ltac:(nat_lia)) as (n1 & Hn1 & _). fold k in Hn1. rewrite Hn1.
    split; [intros HD; exfalso; apply HD, dirtied_path|]. split; [done|].
    rewrite decide_False by nat_lia. split; [apply Hfresh|]. cbn [inner].
    apply (IH h1 ltac:(nat_lia) ltac:(nat_lia) _ Hn1).
Qed.

(** The patch set after the reference to a leaf at height [he] has become one to an internal node. *)
Record ref_moved (W W0 : WorkingPatchSet) (V k : Z) (he : nat) : Prop := {
  rm_version : root_version W0 = root_version W;
  rm_positions : positions_ok W0;
  rm_off h q : valid h q -> (h, q) <> (S he, k / pow16 (S he)) -> wlook W0 h q = wlook W h q;
  rm_parent : (he < 64)%nat -> exists n prev n1 c1,
    wlook W (S he) (k / pow16 (S he)) = Some {| inner := Internal n; prev_version := prev |} /\
    wlook W0 (S he) (k / pow16 (S he)) = Some {| inner := Internal n1; prev_version := prev |} /\
    node_wf n1 /\ node_cache n1 = node_cache n /\ child_at n1 (digit k he) = Some c1 /\ cr_version c1 <= V /\
    is_leaf c1 = false /\ forall y, 0 <= y < 16 -> y <> digit k he -> child_at n1 y = child_at n y;
}.

Lemma update_moved_leaf_ref_spec N u D V op m k he wn :
  tree_ok N (patch_set u) D V op m -> unsigned 256 k -> (he <= 64)%nat ->
  wlook (patch_set u) he (k / pow16 he) = Some wn ->
  exists u0, update_moved_leaf_ref u (nib he (k / pow16 he)) = Ret u0 /\ new_leaves u0 = new_leaves u /\
    ref_moved (patch_set u) (patch_set u0) V k he.
Proof.
  intros Hok Hk Hhe Hwn. unfold update_moved_leaf_ref. destruct (decide (he = 64%nat)) as [->|Hlt].
  - rewrite div_pow16_64, nib_EMPTY by done. exists u. split; [done|]. split; [done|].
    constructor; [done|apply Hok|done|]. intros ?. nat_lia.
  - rewrite split_last_nib, outcome_Ret_bind by (first [nat_lia|by apply valid_key]). rewrite <- key_parent.
    change ((k / pow16 he) mod 16) with (digit k he).
    destruct (path_above N _ D V op m k he _ Hok Hk Hhe Hwn he ltac:(nat_lia))
      as (n & prev0 & c & Hn & Hwf & Hc & Hver & _).
    set (f := fun c => {| cr_hash := cr_hash c; cr_version := cr_version c; is_leaf := false |}).
    destruct (working_modify_child_ref_spec _ (S he) _ n prev0 _ c f Hn Hwf (digit_range k he) Hc)
      as (n' & Heq & Hwf' & Hcache & Hat).
    rewrite Heq, outcome_Ret_bind. assert (Hv : valid (S he) (k / pow16 (S he))) by (apply valid_key; [nat_lia|done]).
    eexists. split; [done|]. split; [done|]. cbn [with_patch_set patch_set].
    constructor; [done|apply positions_ok_insert; [done|apply Hok]|intros; by apply wlook_insert_ne|].
    intros _. exists n, prev0, n', (f c). split; [done|]. split; [rewrite wlook_insert_eq by done; by rewrite Hn|].
    split; [done|]. split; [done|]. split; [rewrite Hat by apply digit_range; by rewrite decide_True|].
    split; [done|]. split; [done|]. intros y Hy Hyne. rewrite Hat by done. by rewrite decide_False.
Qed.

(** The nodes of the fork loop and the two leaves. *)
Lemma forked_intro W W0 Wf V entry l prev h hf :
  let k := te_key entry in
  let W1 := working_insert (working_insert Wf (nib hf (k / pow16 hf)) (Leaf (leaf_new entry)))
              (nib hf (full_key l / pow16 hf)) (Leaf l) in
  unsigned 256 k -> unsigned 256 (full_key l) -> (hf <= h < 64)%nat ->
  k / pow16 (S hf) = full_key l / pow16 (S hf) -> digit k hf <> digit (full_key l) hf ->
  ref_moved W W0 V k (S h) ->
  wlook W (S h) (k / pow16 (S h)) = Some {| inner := Leaf l; prev_version := prev |} ->
  (forall h1 q, (h1 < S h)%nat -> valid h1 q -> below h1 q (S h) (k / pow16 (S h)) -> wlook W h1 q = None) ->
  (forall h1 q, valid h1 q -> (h1 <= hf)%nat \/ (S h < h1)%nat \/ q <> k / pow16 h1 -> wlook Wf h1 q = wlook W0 h1 q) ->
  (forall h1, (hf <= h1 <= h)%nat -> exists n,
      wlook Wf (S h1) (k / pow16 (S h1)) =
        Some {| inner := Internal n; prev_version := wlook W0 (S h1) (k / pow16 (S h1)) ≫= prev_version |} /\
      node_wf n /\ node_cache n = None /\ forall x, 0 <= x < 16 -> child_at n x = fork_child V k (full_key l) h1 x) ->
  forked W1 V entry l prev h hf.
Proof.
  intros k W1 Hk Hk' Hhf Hdivf Hdf Hmv Hwn Hold Hoff Hon.
  assert (Hv1 : valid hf (k / pow16 hf)) by (apply valid_key; [nat_lia|done]).
  assert (Hv2 : valid hf (full_key l / pow16 hf)) by (apply valid_key; [nat_lia|done]).
  assert (Hne12 : k / pow16 hf <> full_key l / pow16 hf) by (intros Heq; apply Hdf; unfold digit; by rewrite Heq).
  assert (Hu0W : forall h1 q, (h1 <= S h)%nat -> valid h1 q -> wlook W0 h1 q = wlook W h1 q).
  { intros h1 q Hlt Hq. apply (rm_off _ _ _ _ _ Hmv); [done|]. intros [= -> _]. nat_lia. }
  assert (Hfresh : forall h1 q, (h1 < S h)%nat -> valid h1 q -> below h1 q (S h) (k / pow16 (S h)) -> wlook W0 h1 q = None).
  { intros h1 q Hlt Hq Hb. rewrite Hu0W by (first [nat_lia|done]). by apply Hold. }
  assert (Hbl : below hf (full_key l / pow16 hf) (S h) (k / pow16 (S h))).
  { destruct (forked_above k (full_key l) hf (S h) Hdivf ltac:(nat_lia)) as [-> _]. apply below_key. nat_lia. }
  assert (Hbk : below hf (k / pow16 hf) (S h) (k / pow16 (S h))) by (apply below_key; nat_lia).
  assert (HoffW1 : forall h1 q, valid h1 q -> (h1, q) <> (hf, k / pow16 hf) -> (h1, q) <> (hf, full_key l / pow16 hf) ->
      wlook W1 h1 q = wlook Wf h1 q) by (intros; unfold W1; by rewrite !wlook_insert_ne).
  constructor; fold k; [nat_lia|done|done| | | |].
  - intros h1 Hh1. destruct (Hon h1 Hh1) as (n & Hn & Hrest). exists n. split; [|done].
    assert (HvS : valid (S h1) (k / pow16 (S h1))) by (apply valid_key; [nat_lia|done]).
    rewrite HoffW1; [|done|intros [= ? _]; nat_lia..]. rewrite Hn. do 2 f_equal.
    destruct (decide (h1 = h)) as [->|Hneh].
    + rewrite Hu0W by (first [nat_lia|done]). by rewrite Hwn.
    + rewrite Hfresh; [done|nat_lia|done|apply below_key; nat_lia].
  - unfold W1. rewrite wlook_insert_ne by (first [done|congruence]). rewrite wlook_insert_eq by done.
    rewrite Hoff by (first [done|by left]). rewrite Hfresh by (first [nat_lia|done]). done.
  - unfold W1. rewrite wlook_insert_eq by done. rewrite wlook_insert_ne by (first [done|congruence]).
    rewrite Hoff by (first [done|by left]). rewrite Hfresh by (first [nat_lia|done]). done.
  - intros h1 q wn Hq Hb Hw. pose proof Hb as [Hh1 _].
    destruct (decide ((h1, q) = (hf, k / pow16 hf))) as [[= -> ->]|H1]; [by right; auto|].
    destruct (decide ((h1, q) = (hf, full_key l / pow16 hf))) as [[= -> ->]|H2]; [by right; auto|].
    rewrite HoffW1 in Hw by done. destruct (decide ((hf < h1)%nat /\ q = k / pow16 h1)) as [?|Hnot]; [by left|].
    exfalso. rewrite Hoff in Hw; [|done|].
    + destruct (decide (h1 = S h)) as [->|]; [|rewrite Hfresh in Hw by (first [nat_lia|done]); done].
      apply Hnot. split; [nat_lia|]. eapply below_unique; [apply below_refl|done].
    + destruct (decide (q = k / pow16 h1)); [left|by right; right]. destruct (decide (hf < h1)%nat); [tauto|nat_lia].
Qed.

(** The changes of [insert] for a leaf with another key. *)
Lemma mismatch_changed N u D V op m entry l prev he :
  let k := te_key entry in let W := patch_set u in
  tree_ok N W D V op m -> unsigned 256 k -> (he <= 64)%nat ->
  wlook W he (k / pow16 he) = Some {| inner := Leaf l; prev_version := prev |} -> full_key l <> k ->
  exists u0 u1 h hf, he = S h /\
    update_moved_leaf_ref u (nib he (k / pow16 he)) = Ret u0 /\
    fork_loop (2 * KEY_SIZE + 1) u0 V k (full_key l) (64 - he) = Ret (u1, 63 - hf)%nat /\
    new_leaves u1 = new_leaves u /\
    let W1 := working_insert (working_insert (patch_set u1) (nib hf (k / pow16 hf)) (Leaf (leaf_new entry)))
                (nib hf (full_key l / pow16 hf)) (Leaf l) in
    forked W1 V entry l prev h hf /\ changed W W1 V k he.
Proof.
  intros k W Hok Hk Hhe Hwn Hne. destruct (ends_parent _ _ _ _ _ _ _ _ Hok Hk Hhe _ _ Hwn) as (Hdiv & Hk' & _).
  destruct he as [|h].
  { exfalso. change (pow16 0) with 1 in Hdiv. rewrite !Z.div_1_r in Hdiv. by apply Hne. }
  destruct (update_moved_leaf_ref_spec N u D V op m k (S h) _ Hok Hk Hhe Hwn) as (u0 & Hu0 & Hnew0 & Hmv).
  destruct (fork_loop_spec V k (full_key l) Hk Hk' ltac:(congruence) h (2 * KEY_SIZE + 1) u0)
    as (u1 & hf & Hloop & Hhf & Hnew & Hdf & Hdivf & Hver & Hpos & Hoff & Hon); [nat_lia|unfold KEY_SIZE; nat_lia|done|].
  exists u0, u1, h, hf. split; [done|]. split; [done|]. split; [done|]. split; [by rewrite Hnew|]. intros W1.
  assert (Hold : forall h1 q, (h1 < S h)%nat -> valid h1 q -> below h1 q (S h) (k / pow16 (S h)) -> wlook W h1 q = None).
  { eapply below_leaf; [apply Hok|done|exact Hwn|done]. }
  assert (Hforked : forked W1 V entry l prev h hf) by (by apply (forked_intro W (patch_set u0))).
  assert (Hv1 : valid hf (k / pow16 hf)) by (apply valid_key; [nat_lia|done]).
  assert (Hv2 : valid hf (full_key l / pow16 hf)) by (apply valid_key; [nat_lia|done]).
  assert (HoffW1 : forall h1 q, valid h1 q -> (h1, q) <> (hf, k / pow16 hf) -> (h1, q) <> (hf, full_key l / pow16 hf) ->
      wlook W1 h1 q = wlook (patch_set u1) h1 q) by (intros; unfold W1; by rewrite !wlook_insert_ne).
  assert (Hbelow : forall k1, k1 / pow16 (S h) = k / pow16 (S h) -> below hf (k1 / pow16 hf) (S h) (k / pow16 (S h))).
  { intros k1 <-. apply below_key. nat_lia. }
  destruct (fk_node _ _ _ _ _ _ _ Hforked h ltac:(nat_lia)) as (n2 & Hn2 & _). fold k in Hn2.
  split; [done|]. constructor.
  - change (root_version (patch_set u1) = root_version W). rewrite Hver. apply Hmv.
  - do 2 (apply positions_ok_insert; [done|]). apply Hpos, Hmv.
  - intros h1 q Hq Hnb Hne1. rewrite HoffW1; [|done|intros [= -> ->]; apply Hnb; by apply Hbelow..].
    rewrite Hoff; [by apply Hmv|done|]. destruct (decide (h1 <= S h)%nat); [|right; left; nat_lia].
    right. right. intros ->. apply Hnb. by apply below_key.
  - intros Hlt. destruct (rm_parent _ _ _ _ _ Hmv Hlt) as (n & prev0 & n1 & c1 & Hn & Hn1 & ? & ? & ? & ? & Hleaf1 & ?).
    exists n, prev0, n1, c1. split; [done|]. split; [|do 4 (split; [done|]); split; [|done]].
    + assert (HvS : valid (S (S h)) (k / pow16 (S (S h)))) by (apply valid_key; [nat_lia|done]).
      rewrite HoffW1; [|done|intros [= ? _]; nat_lia..]. rewrite Hoff by (first [done|right; left; nat_lia]). done.
    + intros wn1 Hw1. rewrite Hn2 in Hw1. injection Hw1 as <-. done.
  - intros h1 q wn. by apply (forked_below W1 V entry l prev h hf).
  - intros h1 q n prev0 x c. by apply (forked_full W1 V entry l prev h hf).
  - by rewrite Hn2.
  - intros h1 q Hq Hs. destruct (decide ((h1, q) = (hf, k / pow16 hf))) as [[= -> ->]|H1].
    { unfold k. by rewrite (fk_new _ _ _ _ _ _ _ Hforked). }
    destruct (decide ((h1, q) = (hf, full_key l / pow16 hf))) as [[= -> ->]|H2].
    { by rewrite (fk_moved _ _ _ _ _ _ _ Hforked). }
    rewrite HoffW1 by done. destruct (decide ((hf < h1 <= S h)%nat /\ q = k / pow16 h1)) as [[Hr ->]|Hnot].
    + destruct h1 as [|h1]; [nat_lia|]. destruct (Hon h1 ltac:(nat_lia)) as (n & -> & _). done.
    + rewrite Hoff; [|done|].
      * destruct (decide ((h1, q) = (S (S h), k / pow16 (S (S h))))) as [[= -> ->]|H3]; [|by rewrite (rm_off _ _ _ _ _ Hmv)].
        destruct Hq as [Hq _]. destruct (rm_parent _ _ _ _ _ Hmv ltac:(nat_lia)) as (? & ? & ? & ? & _ & -> & _). done.
      * destruct (decide (q = k / pow16 h1)); [|by right; right]. destruct (decide (h1 <= hf)%nat); [by left|].
        right. left. destruct (decide (h1 <= S h)%nat); [exfalso; apply Hnot; split; [nat_lia|done]|nat_lia].
Qed.

(** ** The whole operation *)

(** What [TreeUpdater::insert] logs. *)
Definition insert_log (m : Leaves) (k : Z) : TreeLogEntry :=
  match m !! k with
  | Some (value, index) => Updated index value
  | None => Inserted
  end.

Definition entry_value (entry : TreeEntry) : Z * Z := (te_value entry, te_leaf_index entry).

(** The state after the insertion of an entry into a patch set that represents [m]. *)
Record inserted (N : Nodes) (u u2 : TreeUpdater) (D : nat -> Z -> Prop) (V : Z) (op : option Operation) (m : Leaves)
    (entry : TreeEntry) (leaf_data : NewLeafData) : Prop := {
  in_tree : tree_ok N (patch_set u2) (dirtied D (te_key entry) (adjacent_leaf leaf_data)) V op
              (<[te_key entry := entry_value entry]> m);
  in_new_leaves : new_leaves u2 = new_leaves u + match m !! te_key entry with Some _ => 0 | None => 1 end;
  in_grafted : exists he, (he <= 64)%nat /\ grafted (patch_set u) (patch_set u2) V (te_key entry) he /\
    forall n prev, wlook (patch_set u) 64 0 = Some {| inner := Internal n; prev_version := prev |} -> (he < 64)%nat;
  in_leaf : nld_leaf leaf_data = leaf_new entry;
  in_position : exists hn prev, (hn <= 64)%nat /\ nld_nibbles leaf_data = nib hn (te_key entry / pow16 hn) /\
    wlook (patch_set u2) hn (te_key entry / pow16 hn) = Some {| inner := Leaf (leaf_new entry); prev_version := prev |} /\
    forall nibbles l, adjacent_leaf leaf_data = Some (nibbles, l) ->
      (hn < 64)%nat /\ unsigned 256 (full_key l) /\ nibbles = nib hn (full_key l / pow16 hn) /\
      te_key entry / pow16 (S hn) = full_key l / pow16 (S hn) /\ digit (te_key entry) hn <> digit (full_key l) hn /\
      m !! full_key l = Some (value_hash l, leaf_index l) /\
      wlook (patch_set u2) hn (full_key l / pow16 hn) = Some {| inner := Leaf l; prev_version := None |};
}.

Lemma insert_match N u D V op m entry he nibbles l prev :
  let k := te_key entry in let W := patch_set u in
  tree_ok N W D V op m -> unsigned 256 k -> (he <= 64)%nat -> full_key l = k ->
  nibbles = nib he (k / pow16 he) ->
  wlook W he (k / pow16 he) = Some {| inner := Leaf l; prev_version := prev |} ->
  exists W2, raise_versions (2 * KEY_SIZE + 1) (working_insert W nibbles (Leaf (leaf_update_from l entry))) V nibbles = Ret W2 /\
    insert_log m k = Updated (leaf_index l) (value_hash l) /\
    inserted N u (with_patch_set u W2) D V op m entry
      {| nld_nibbles := nibbles; nld_leaf := leaf_update_from l entry; adjacent_leaf := None |}.
Proof.
  intros k W Hok Hk Hhe Hkey -> Hwn.
  assert (Hleaf : leaf_update_from l entry = leaf_new entry) by (unfold leaf_update_from, leaf_new; by rewrite Hkey).
  rewrite Hleaf. destruct (match_changed N W D V op m entry he l prev Hok Hk Hhe Hwn) as [Hch Hwn1]. fold k in Hch, Hwn1.
  destruct (ends_parent _ _ _ _ _ _ _ _ Hok Hk Hhe _ _ Hwn) as (_ & _ & Hpart & Hm). rewrite Hkey in Hm.
  destruct (leaf_inserted N W _ D V op m entry he prev Hok Hk Hhe Hch Hwn1) as (W2 & HW2 & Hg & Hok2 & Hsame).
  { intros -> Hlt q ->. eapply (prev_version_old N W D V m he); [done|done| |exact Hwn|done]. by apply valid_key. }
  { intros k' v' Hk'. fold k in Hk'. rewrite Hpart in Hk'. unfold leaf_contents in Hk'.
    apply lookup_singleton_Some in Hk' as [<- _]. done. }
  exists W2. split; [done|]. split; [unfold insert_log; by rewrite Hm|].
  constructor; cbn [patch_set with_patch_set new_leaves adjacent_leaf nld_leaf nld_nibbles].
  - done.
  - fold k. rewrite Hm. lia.
  - exists he. split; [done|]. split; [done|]. intros n prev0 Hroot. destruct (decide (he = 64%nat)) as [->|]; [|nat_lia].
    rewrite div_pow16_64 in Hwn by done. fold W in Hroot. congruence.
  - done.
  - exists he, prev. split; [done|]. split; [done|]. split; [|done].
    rewrite Hsame; [done|by apply valid_key|apply below_refl].
Qed.

Lemma insert_missing N u D V op m entry he nibbles n prev :
  let k := te_key entry in let W := patch_set u in
  tree_ok N W D V op m -> unsigned 256 k -> (he < 64)%nat -> nibbles = nib he (k / pow16 he) ->
  wlook W (S he) (k / pow16 (S he)) = Some {| inner := Internal n; prev_version := prev |} ->
  child_at n (digit k he) = None ->
  exists n1 W2, insert_child_ref n (digit k he) (child_leaf V) = Ret n1 /\
    raise_versions (2 * KEY_SIZE + 1)
      (working_insert (working_insert W (nib (S he) (k / pow16 (S he))) (Internal n1)) nibbles (Leaf (leaf_new entry)))
      V nibbles = Ret W2 /\
    insert_log m k = Inserted /\
    inserted N u {| patch_set := W2; new_leaves := new_leaves u + 1 |} D V op m entry
      {| nld_nibbles := nibbles; nld_leaf := leaf_new entry; adjacent_leaf := None |}.
Proof.
  intros k W Hok Hk Hhe -> Hn Hc.
  destruct (missing_changed N W D V op m entry he n prev Hok Hk Hhe Hn Hc) as (n1 & Hins & Hch & Hwn1).
  fold k in Hins, Hch, Hwn1. assert (Hv : valid he (k / pow16 he)) by (apply valid_key; [nat_lia|done]).
  destruct (working_missing _ _ _ _ _ _ he (k / pow16 he) n prev Hok Hhe Hv) as [Hpart _];
    [by rewrite <- key_parent|done|].
  assert (Hm : m !! k = None) by (by rewrite <- (part_lookup_key he), Hpart, lookup_empty).
  destruct (leaf_inserted N W _ D V op m entry he None Hok Hk ltac:(nat_lia) Hch Hwn1) as (W2 & HW2 & Hg & Hok2 & Hsame).
  { done. }
  { intros k' v' Hk'. fold k in Hk'. by rewrite Hpart in Hk'. }
  exists n1, W2. split; [done|]. split; [done|]. split; [unfold insert_log; by rewrite Hm|].
  constructor; cbn [patch_set with_patch_set new_leaves adjacent_leaf nld_leaf nld_nibbles]; try done.
  - fold k. by rewrite Hm.
  - exists he. split; [nat_lia|]. done.
  - exists he, None. split; [nat_lia|]. split; [done|]. split; [|done]. rewrite Hsame; [done|done|apply below_refl].
Qed.

Lemma insert_root N u D V op m entry :
  let k := te_key entry in let W := patch_set u in
  tree_ok N W D V op m -> unsigned 256 k -> wlook W 64 0 = None ->
  exists W2, raise_versions (2 * KEY_SIZE + 1)
      (working_insert (working_insert W EMPTY (Leaf (leaf_new entry))) EMPTY (Leaf (leaf_new entry)))
      V EMPTY = Ret W2 /\
    insert_log m k = Inserted /\
    inserted N u {| patch_set := W2; new_leaves := new_leaves u + 1 |} D V op m entry
      {| nld_nibbles := EMPTY; nld_leaf := leaf_new entry; adjacent_leaf := None |}.
Proof.
  intros k W Hok Hk Hnone. destruct (root_changed N W D V op m entry Hok Hk Hnone) as [Hch Hwn1]. fold k in Hch, Hwn1.
  assert (Hm : m = ∅) by (pose proof (ok_root _ _ _ _ _ _ Hok) as Hroot; by rewrite Hnone in Hroot).
  destruct (leaf_inserted N W _ D V op m entry 64 None Hok Hk ltac:(nat_lia) Hch Hwn1) as (W2 & HW2 & Hg & Hok2 & Hsame).
  { done. }
  { intros k' v' [Hk' _]%part_lookup. by rewrite Hm in Hk'. }
  fold k in HW2. rewrite div_pow16_64, nib_EMPTY in HW2 by done.
  assert (Hmk : m !! k = None) by (by rewrite Hm, lookup_empty).
  exists W2. split; [done|]. split; [unfold insert_log; by rewrite Hmk|].
  constructor; cbn [patch_set with_patch_set new_leaves adjacent_leaf nld_leaf nld_nibbles]; try done.
  - fold k. by rewrite Hmk.
  - exists 64%nat. split; [done|]. split; [done|]. intros n prev Hroot. fold W in Hroot. congruence.
  - exists 64%nat, None. split; [done|]. split; [by rewrite div_pow16_64, nib_EMPTY|]. split; [|done].
    rewrite Hsame; [done|by apply valid_key|apply below_refl].
Qed.

Lemma insert_mismatch N u D V op m entry he nibbles l prev :
  let k := te_key entry in let W := patch_set u in
  tree_ok N W D V op m -> unsigned 256 k -> (he <= 64)%nat -> full_key l <> k -> nibbles = nib he (k / pow16 he) ->
  wlook W he (k / pow16 he) = Some {| inner := Leaf l; prev_version := prev |} ->
  exists u0 u1 hf W2, update_moved_leaf_ref u nibbles = Ret u0 /\
    fork_loop (2 * KEY_SIZE + 1) u0 V k (full_key l) (nibble_count nibbles) = Ret (u1, 63 - hf)%nat /\
    (hf < 64)%nat /\ new_leaves u1 = new_leaves u /\
    raise_versions (2 * KEY_SIZE + 1)
      (working_insert (working_insert (patch_set u1) (nib hf (k / pow16 hf)) (Leaf (leaf_new entry)))
         (nib hf (full_key l / pow16 hf)) (Leaf l)) V nibbles = Ret W2 /\
    insert_log m k = Inserted /\
    inserted N u {| patch_set := W2; new_leaves := new_leaves u + 1 |} D V op m entry
      {| nld_nibbles := nib hf (k / pow16 hf); nld_leaf := leaf_new entry;
         adjacent_leaf := Some (nib hf (full_key l / pow16 hf), l) |}.
Proof.
  intros k W Hok Hk Hhe Hne -> Hwn.
  destruct (ends_parent _ _ _ _ _ _ _ _ Hok Hk Hhe _ _ Hwn) as (Hdiv & Hk' & Hpart & Hml).
  destruct (mismatch_changed N u D V op m entry l prev he Hok Hk Hhe Hwn Hne)
    as (u0 & u1 & h & hf & -> & Hu0 & Hloop & Hnew & Hf & Hch). fold k W in Hu0, Hloop, Hf, Hch.
  pose proof (fk_le _ _ _ _ _ _ _ Hf) as Hle.
  assert (Hm : m !! k = None).
  { rewrite <- (part_lookup_key (S h)), Hpart. by apply lookup_singleton_ne. }
  destruct (fk_node _ _ _ _ _ _ _ Hf h ltac:(nat_lia)) as (n & Hn & _). fold k in Hn.
  rewrite decide_True in Hn by done.
  destruct (finish_insert N W _ D (dirtied D k (Some (nib hf (full_key l / pow16 hf), l))) V op m k (entry_value entry)
    (S h) Hok Hk Hhe Hch) as (W2 & HW2 & Hg & Hok2 & Hsame).
  { apply dirtied_sub. }
  { apply dirtied_path. }
  { intros -> Hlt wn1 q Hwn1. rewrite Hn in Hwn1. injection Hwn1 as <-. cbn [prev_version]. intros ->.
    eapply (prev_version_old N W D V m (S h)); [done|done| |exact Hwn|done]. by apply valid_key. }
  { intros wn1 Hwn1. rewrite part_insert_in, Hpart. eapply (forked_working N _ D V op entry l prev h hf Hf h); [nat_lia|done]. }
  assert (Hat : forall k1 wn, unsigned 256 k1 -> k1 / pow16 (S h) = k / pow16 (S h) ->
      wlook (working_insert (working_insert (patch_set u1) (nib hf (k / pow16 hf)) (Leaf (leaf_new entry)))
        (nib hf (full_key l / pow16 hf)) (Leaf l)) hf (k1 / pow16 hf) = Some wn -> wlook W2 hf (k1 / pow16 hf) = Some wn).
  { intros k1 wn Hk1 Hd <-. apply Hsame; [apply valid_key; [nat_lia|done]|]. rewrite <- Hd. apply below_key. nat_lia. }
  exists u0, u1, hf, W2. split; [done|]. split; [done|]. split; [nat_lia|]. split; [done|]. split; [done|].
  split; [unfold insert_log; by rewrite Hm|].
  constructor; cbn [patch_set with_patch_set new_leaves adjacent_leaf nld_leaf nld_nibbles]; try done.
  - fold k. by rewrite Hm.
  - exists (S h). split; [done|]. split; [done|]. intros n0 prev0 Hroot. destruct (decide (S h = 64%nat)) as [Heq|]; [|nat_lia].
    rewrite Heq, div_pow16_64 in Hwn by done. fold W in Hroot. congruence.
  - exists hf, None. split; [nat_lia|]. split; [done|]. split; [apply Hat; [done..|apply Hf]|].
    intros nibbles l0 [= <- <-]. split; [nat_lia|]. split; [done|]. split; [done|]. split; [apply Hf|]. split; [apply Hf|].
    split; [done|]. apply Hat; [done..|apply Hf].
Qed.

Lemma updater_insert_spec N u D V op m entry hs :
  let k := te_key entry in
  tree_ok N (patch_set u) D V op m -> unsigned 256 k -> loaded (patch_set u) k -> start_ok (patch_set u) k hs ->
  exists u2 leaf_data, updater_insert u entry (nib hs (k / pow16 hs)) = Ret (u2, insert_log m k, leaf_data) /\
    inserted N u u2 D V op m entry leaf_data.
Proof.
  intros k Hok Hk Hload Hstart. unfold updater_insert. subst k. rewrite (ok_version _ _ _ _ _ _ Hok).
  destruct (traverse_spec N _ D V op m (te_key entry) hs Hok Hk Hload Hstart) as (out & he & -> & Hhe & Hpos & Hends).
  rewrite outcome_Ret_bind. assert (he <= 64)%nat by (destruct Hstart; nat_lia). rewrite Hpos.
  destruct out as [nibbles l|nibbles l|nibbles]; cbn [position] in Hpos; unfold insert_at.
  - destruct Hends as (Hkey & prev & Hwn).
    destruct (insert_match N u D V op m entry he nibbles l prev) as (W2 & HW2 & -> & Hins); [done..|].
    rewrite outcome_Ret_bind. cbn [adjacent_leaf with_patch_set patch_set]. rewrite <- Hpos, HW2. eauto.
  - destruct Hends as (Hkey & prev & Hwn).
    destruct (insert_mismatch N u D V op m entry he nibbles l prev) as (u0 & u1 & hf & W2 & -> & Hloop & Hhf & Hnew & HW2 & -> & Hins);
      [done..|]. rewrite outcome_Ret_bind, (ok_version _ _ _ _ _ _ Hok).  rewrite Hloop, outcome_Ret_bind.
    replace (63 - hf + 1)%nat with (64 - hf)%nat by nat_lia. rewrite !nibbles_new_nib by nat_lia. rewrite !outcome_Ret_bind.
    cbn [adjacent_leaf nld_nibbles nld_leaf insert_node patch_set new_leaves]. rewrite <- Hpos, HW2.
    do 2 eexists. split; [|exact Hins].
    unfold with_patch_set, insert_node. cbn [new_leaves patch_set]. by rewrite Hnew.
  - destruct Hends as (Hnone & Hor). destruct (decide (he = 64%nat)) as [->|Hne].
    + rewrite div_pow16_64 in Hnone, Hpos |- * by done. rewrite nib_EMPTY in Hpos |- *. subst nibbles.
      destruct (insert_root N u D V op m entry) as (W2 & HW2 & -> & Hins); [done..|].
      cbn [EMPTY nibble_count Nat.eqb]. rewrite outcome_Ret_bind.
      cbn [adjacent_leaf nld_nibbles nld_leaf insert_node set_root_node with_patch_set patch_set new_leaves].
      rewrite HW2. eauto.
    + destruct Hor as [?|(n & prev & Hlt & Hn & Hc)]; [done|].
      destruct (insert_missing N u D V op m entry he nibbles n prev) as (n1 & W2 & Hins1 & HW2 & -> & Hins); [done..|].
      assert (Hcount : (nibble_count nibbles =? 0)%nat = false) by (subst nibbles; apply Nat.eqb_neq; cbn [nib nibble_count]; nat_lia).
      rewrite Hcount. rewrite Hpos, split_last_nib by (first [nat_lia|by apply valid_key]). rewrite outcome_Ret_bind.
      cbn [expect]. rewrite outcome_Ret_bind, <- key_parent, working_get_nib.
      change ((te_key entry / pow16 he) mod 16) with (digit (te_key entry) he).
      rewrite Hn. cbn [fmap option_fmap option_map inner]. rewrite (ok_version _ _ _ _ _ _ Hok), Hins1.
      rewrite !outcome_Ret_bind. cbn [adjacent_leaf nld_nibbles nld_leaf insert_node with_patch_set patch_set new_leaves].
      rewrite Hpos in HW2. rewrite HW2. rewrite Hpos in Hins. eauto.
Qed.

Lemma inserted_loaded N u u2 D V op m entry leaf_data k' :
  inserted N u u2 D V op m entry leaf_data -> unsigned 256 k' -> loaded (patch_set u) k' -> loaded (patch_set u2) k'.
Proof.
  intros Hins Hk' Hload. destruct (in_grafted _ _ _ _ _ _ _ _ _ Hins) as (he & Hhe & Hg & _).
  by eapply grafted_loaded.
Qed.

Lemma inserted_start N u u2 D V op m entry leaf_data k' hs :
  inserted N u u2 D V op m entry leaf_data -> unsigned 256 k' -> start_ok (patch_set u) k' hs -> start_ok (patch_set u2) k' hs.
Proof.
  intros Hins Hk' [Hhs Hor]. destruct (in_grafted _ _ _ _ _ _ _ _ _ Hins) as (he & Hhe & Hg & _). split; [done|].
  destruct Hor as [->|Hs]; [by left|right]. apply (gr_grows _ _ _ _ _ Hg); [by apply valid_key|done].
Qed.
End Insert.
