(* ===== verification/TreeLoad.v ===== *)
(** * Loading of nodes of the state tree

    [load_ancestors] and [load_greatest_key] on a database that stores a set of leaves: they
    return, and the patch set then holds the nodes on the way to the keys, so that entries can
    be read from it or inserted into it. *)

From S2P Require Import Prelude Bytes Utils TreeUtils TreeTypes TreeHasher TreeDatabase TreeStorage TreeSpec TreeInvariant TreeInsert.
Open Scope Z_scope.

(** The reads of a database that holds the nodes [N]. *)
Record reads_ok {DB} `{!Database DB} (db : DB) (N : Nodes) : Prop := {
  read_node key node : N key = Some node -> try_tree_node db key (leafb node) = Ok (Some node);
  read_nodes keys :
    (forall key b, (key, b) ∈ keys -> exists node, N key = Some node /\ leafb node = b) ->
    tree_nodes db keys = Ret ((fun kb => N kb.1) <$> keys);
}.

(** ** Patch sets without changes *)

(** Every node of the patch set is the one its parent refers to. *)
Record reflects (N : Nodes) (W : WorkingPatchSet) (V : Z) (root : Node) : Prop := {
  rf_positions : positions_ok W;
  rf_version : root_version W = V;
  rf_root : exists prev, wlook W 64 0 = Some {| inner := root; prev_version := prev |};
  rf_node h p wn : (h < 64)%nat -> valid h p -> wlook W h p = Some wn ->
    exists n c, ref_at W h p n c /\ prev_version wn = Some (cr_version c) /\
      N (with_version (nib h p) (cr_version c)) = Some (inner wn);
}.

Section Reflects.
Context `{!HashTree, !HashTreeLaws}.

Lemma reflects_linked N W V root : reflects N W V root -> linked W.
Proof.
  intros HW h p wn Hh Hv Hwn. destruct (rf_node _ _ _ _ HW h p wn Hh Hv Hwn) as (n & c & (prev & Hn & Hc) & _).
  eauto.
Qed.

(** The reference to a child of a stored node. *)
Lemma stored_child N h p u n m x c :
  stored N (S h) p u (Internal n) m -> 0 <= x < 16 -> child_at n x = Some c ->
  cr_version c <= u /\ cr_hash c = tree_hash (4 * h) (sub h x m) /\
  exists node', N (with_version (nib h (16 * p + x)) (cr_version c)) = Some node' /\ leafb node' = is_leaf c /\
    stored N h (16 * p + x) (cr_version c) node' (sub h x m).
Proof. cbn [stored]. intros (_ & _ & _ & _ & Hch) Hx Hc. specialize (Hch x Hx). by rewrite Hc in Hch. Qed.

(** The nodes are older than a new version; an updated version is the only one. *)
Definition read_version (N : Nodes) (V : Z) (op : option Operation) (u : Z) : Prop :=
  match op with
  | None => True
  | Some Update => forall key node, N key = Some node -> nk_version key = V
  | Some Insert => u < V
  end.

Lemma reflects_working N W V root D op h p u node m prev :
  reflects N W V root -> valid h p -> read_version N V op u ->
  wlook W h p = Some {| inner := node; prev_version := prev |} ->
  stored N h p u node m -> working N W D V op h p u node m.
Proof.
  intros HW. revert p u node m prev. induction h as [|h IH]; intros p u [n|l] m prev Hv Hu Hwn Hst; [done|done| |done].
  pose proof (fun x c => stored_child N h p u n m x c Hst) as Hchild. cbn [stored working] in *.
  destruct Hst as (Hwf & Hcache & Hne & Hmax & Hch). split; [done|]. split; [intros ?; congruence|]. split; [tauto|].
  intros x Hx. specialize (Hch x Hx). destruct (child_at n x) as [c|] eqn:Hc; [|done].
  destruct (Hchild x c Hx Hc) as (Hver & Hhash & node' & HN & Hleaf & Hst'). split; [done|].
  pose proof (valid_child h p x Hv Hx) as Hv'.
  destruct (wlook W h (16 * p + x)) as [wn|] eqn:Hwn'; [|eauto].
  destruct (rf_node _ _ _ _ HW h (16 * p + x) wn) as (n' & c' & (prev' & Hn' & Hc') & Hprev & HN'); [destruct Hv; lia|done..|].
  rewrite child_div, Hwn in Hn' by done. rewrite child_mod in Hc' by done. injection Hn' as <- <-.
  rewrite Hc in Hc'. injection Hc' as <-. rewrite HN in HN'. injection HN' as ->.
  split; [done|]. split; [done|]. split.
  - destruct op as [[]|]; cbn in *; [|by apply (Hu _ _ HN)|done]. right. split; [done|]. split; [lia|]. eauto.
  - destruct wn as [node prev1]. eapply IH; [done| |exact Hwn'|done]. destruct op as [[]|]; cbn in *; [lia|done..].
Qed.

(** The root may be referred to with any later version. *)
Lemma working_raise N W D V op h p u r node m :
  (64 <= h)%nat -> u <= r -> working N W D V op h p u node m -> working N W D V op h p r node m.
Proof.
  intros Hh Hle. destruct node as [n|l], h as [|h]; cbn [working]; try done. intros (Hwf & Hcache & _ & Hch).
  split; [done|]. split; [done|]. split; [lia|]. intros x Hx. specialize (Hch x Hx).
  destruct (child_at n x) as [c|]; [|done]. destruct Hch as [Hver Hch]. split; [lia|done].
Qed.

Lemma reflects_tree_ok N W V root D op m u :
  reflects N W V root -> keys_ok m -> stored N 64 0 u root m -> read_version N V op u -> u <= V ->
  tree_ok N W D V op m.
Proof.
  intros HW Hm Hst Hu Hle. constructor; [apply HW|by eapply reflects_linked|apply HW|done|].
  destruct (rf_root _ _ _ _ HW) as [prev Hroot]. rewrite Hroot. cbn [inner].
  apply (working_raise N W D V op 64 0 u); [done..|].
  by apply (reflects_working N W V root D op 64 0 u root m prev HW valid_root).
Qed.

(** What is stored at the positions of the patch set. *)
Lemma reflects_stored N W V root m u h p wn :
  reflects N W V root -> keys_ok m -> stored N 64 0 u root m -> valid h p -> wlook W h p = Some wn ->
  exists r, r <= u /\ stored N h p r (inner wn) (part h p m) /\
    ((h < 64)%nat -> exists n c, ref_at W h p n c /\ cr_version c = r /\ is_leaf c = leafb (inner wn)).
Proof.
  intros HW Hm Hst. remember (64 - h)%nat as d eqn:Hd. revert h p wn Hd.
  induction d as [|d IH]; intros h p wn Hd Hv Hwn.
  - assert (h = 64%nat) as -> by (destruct Hv; lia). apply valid_root_eq in Hv as ->. exists u.
    destruct (rf_root _ _ _ _ HW) as [prev Hroot]. rewrite Hroot in Hwn. injection Hwn as <-.
    rewrite part_root by done. repeat split; [lia|done|lia].
  - assert (h < 64)%nat as Hh by lia. destruct (rf_node _ _ _ _ HW h p wn Hh Hv Hwn) as (n & c & Href & Hprev & HN).
    pose proof Href as (prev & Hn & Hc).
    destruct (IH (S h) (p / 16) _ ltac:(lia) (valid_parent h p Hh Hv) Hn) as (r & Hr & Hst' & _). cbn [inner] in Hst'.
    destruct (stored_child _ _ _ _ _ _ _ _ Hst' (mod16_range p) Hc) as (Hver & _ & node' & HN' & Hleaf & Hst'').
    rewrite parent_child in HN', Hst''. rewrite HN in HN'. injection HN' as <-.
    rewrite sub_part, parent_child in Hst'' by apply mod16_range.
    exists (cr_version c). split; [lia|]. split; [done|]. intros _. by exists n, c.
Qed.

(** ** The end of the way to a key *)

Definition resolved (W : WorkingPatchSet) (k : Z) (h : nat) : Prop :=
  (h <= 64)%nat /\ exists node prev, wlook W h (k / pow16 h) = Some {| inner := node; prev_version := prev |} /\
    match node, h with
    | Leaf _, _ => True
    | Internal _, O => False
    | Internal n, S h' => child_at n (digit k h') = None
    end.

Lemma path_linked W k h h2 wn :
  linked W -> unsigned 256 k -> (h < h2 <= 64)%nat -> wlook W h (k / pow16 h) = Some wn ->
  exists n prev, wlook W h2 (k / pow16 h2) = Some {| inner := Internal n; prev_version := prev |}.
Proof.
  intros HW Hk Hh Hwn. eapply (linked_ancestor W h2 _ h); [done|apply valid_key|..|exact Hwn]; try nat_lia; [done|].
  apply below_key. nat_lia.
Qed.

Lemma resolved_loaded W k h : linked W -> unsigned 256 k -> resolved W k h -> loaded W k.
Proof.
  intros HW Hk (Hh & node & prev & Hwn & Hend) h2 n prev2 c Hh2 Hn Hc.
  destruct (decide (h <= h2)%nat) as [Hle|Hgt].
  - destruct (decide (h = h2)) as [<-|Hne]; [by rewrite Hwn|].
    by destruct (path_linked W k h h2 _ HW Hk ltac:(nat_lia) Hwn) as (n' & prev' & ->).
  - exfalso. destruct (decide (S h2 = h)) as [<-|Hne].
    + rewrite Hn in Hwn. injection Hwn as <- <-. congruence.
    + destruct h as [|h]; [nat_lia|].
      assert (exists n0 c0 prev0, wlook W (S h) (k / pow16 (S h)) = Some {| inner := Internal n0; prev_version := prev0 |} /\
        child_at n0 (digit k h) = Some c0) as (n0 & c0 & prev0 & Hn0 & Hc0).
      { assert (exists wn, wlook W h (k / pow16 h) = Some wn) as [wn Hwn1].
        { destruct (decide (S h2 = h)) as [<-|]; [eauto|].
          destruct (path_linked W k (S h2) h _ HW Hk ltac:(nat_lia) Hn) as (n' & prev' & ->). eauto. }
        destruct (HW h (k / pow16 h) wn) as (n0 & c0 & prev0 & Hn0 & Hc0);
          [nat_lia|apply valid_key; [nat_lia|done]|done|]. rewrite <- key_parent in Hn0. eauto. }
      rewrite Hwn in Hn0. injection Hn0 as -> ->. congruence.
Qed.

Lemma resolved_start W k h : resolved W k h -> start_ok W k h.
Proof. intros (Hh & node & prev & Hwn & _). split; [done|]. right. by rewrite Hwn. Qed.

(** The value of a key is read off the end of its way. *)
Lemma resolved_lookup N W D V op m k h :
  tree_ok N W D V op m -> unsigned 256 k -> resolved W k h ->
  m !! k = match wlook W h (k / pow16 h) with
           | Some {| inner := Leaf l |} => if full_key l =? k then Some (value_hash l, leaf_index l) else None
           | _ => None
           end.
Proof.
  intros Hok Hk (Hh & node & prev & Hwn & Hend). rewrite Hwn.
  assert (Hv : valid h (k / pow16 h)) by (by apply valid_key). rewrite <- (part_lookup_key h).
  destruct (working_at _ _ _ _ _ _ _ _ _ Hok Hv Hwn) as (r & _ & Hwork & _). cbn [inner] in Hwork.
  destruct node as [n|l].
  - destruct h as [|h]; [done|].
    destruct (working_missing _ _ _ _ _ _ h (k / pow16 h) n prev Hok) as [Hnone _];
      [nat_lia|apply valid_key; [nat_lia|done]|by rewrite <- key_parent|done|].
    rewrite part_lookup_key. by rewrite <- (part_lookup_key h), Hnone, lookup_empty.
  - apply working_leaf in Hwork. rewrite Hwork. unfold leaf_contents.
    destruct (Z.eqb_spec (full_key l) k) as [->|Hne]; [apply lookup_singleton_eq|by apply lookup_singleton_ne].
Qed.
End Reflects.

(** ** Levels *)

Lemma level_from_db_snoc level key node :
  level_from_db (level ++ [(key, node)]) =
    <[nibble_bytes (nk_nibbles key) := {| inner := node; prev_version := Some (nk_version key) |}]> (level_from_db level).
Proof. unfold level_from_db. by rewrite foldl_app. Qed.

Lemma level_from_db_some level bytes wn :
  level_from_db level !! bytes = Some wn ->
  exists key node, (key, node) ∈ level /\ bytes = nibble_bytes (nk_nibbles key) /\
    wn = {| inner := node; prev_version := Some (nk_version key) |}.
Proof.
  induction level as [|[key node] level IH] using rev_ind; [done|]. rewrite level_from_db_snoc.
  intros [[<- <-]|[_ Hwn]]%lookup_insert_Some.
  - exists key, node. split; [|done]. apply elem_of_app. right. by apply list_elem_of_singleton.
  - destruct (IH Hwn) as (key' & node' & Hin & ?). exists key', node'. split; [|done]. apply elem_of_app. by left.
Qed.

Lemma level_from_db_present level key node :
  (key, node) ∈ level -> is_Some (level_from_db level !! nibble_bytes (nk_nibbles key)).
Proof.
  induction level as [|[key' node'] level IH] using rev_ind; [by intros ?%elem_of_nil|]. rewrite level_from_db_snoc.
  intros [Hin|Hin]%elem_of_app.
  - destruct (decide (nibble_bytes (nk_nibbles key') = nibble_bytes (nk_nibbles key))) as [->|Hne].
    + by rewrite lookup_insert_eq.
    + rewrite lookup_insert_ne by done. by apply IH.
  - apply list_elem_of_singleton in Hin as [= -> ->]. by rewrite lookup_insert_eq.
Qed.

(** Lookups below the last level fail. *)
Lemma wlook_deep W h p : (length (changes_by_nibble_count W) <= 64 - h)%nat -> wlook W h p = None.
Proof. intros Hlen. unfold wlook. by rewrite lookup_ge_None_2. Qed.

Lemma wlook_some_level W h p wn : wlook W h p = Some wn -> (64 - h < length (changes_by_nibble_count W))%nat.
Proof.
  intros Hwn. destruct (decide (64 - h < length (changes_by_nibble_count W))%nat); [done|].
  rewrite wlook_deep in Hwn by lia. done.
Qed.

Lemma wlook_push_old W level h p :
  (64 - h < length (changes_by_nibble_count W))%nat -> wlook (push_level_from_db W level) h p = wlook W h p.
Proof. intros Hlt. unfold wlook, push_level_from_db. cbn [changes_by_nibble_count]. by rewrite lookup_app_l. Qed.

Lemma wlook_push_new W level h p :
  (64 - h)%nat = length (changes_by_nibble_count W) ->
  wlook (push_level_from_db W level) h p = level_from_db level !! nibble_bytes (nib h p).
Proof.
  intros Heq. unfold wlook, push_level_from_db. cbn [changes_by_nibble_count]. rewrite Heq.
  rewrite lookup_app_r by lia. by rewrite Nat.sub_diag.
Qed.

Section Load.
Context `{!HashTree, !HashTreeLaws}.

(** A node to be loaded: its parent refers to it. *)
Definition requested (W : WorkingPatchSet) (h : nat) (key : NodeKey) (b : bool) : Prop :=
  exists p n c, valid h p /\ key = with_version (nib h p) (cr_version c) /\ b = is_leaf c /\ ref_at W h p n c.

Lemma push_level_reflects N W V root level h :
  reflects N W V root -> (h < 64)%nat -> length (changes_by_nibble_count W) = (64 - h)%nat ->
  (forall key node, (key, node) ∈ level -> N key = Some node /\ requested W h key (leafb node)) ->
  reflects N (push_level_from_db W level) V root.
Proof.
  intros HW Hh Hlen Hlevel.
  assert (Hold : forall h1 q, (h < h1)%nat -> wlook (push_level_from_db W level) h1 q = wlook W h1 q).
  { intros h1 q Hlt. apply wlook_push_old. lia. }
  constructor.
  - intros i lv bytes wn Hi Hwn. unfold push_level_from_db in Hi. cbn [changes_by_nibble_count] in Hi.
    apply lookup_app_Some in Hi as [Hi|[Hge Hi]]; [by apply (rf_positions _ _ _ _ HW i lv bytes wn)|].
    apply list_lookup_singleton_Some in Hi as [Hi <-]. assert (i = (64 - h)%nat) as -> by lia. split; [lia|].
    destruct (level_from_db_some _ _ _ Hwn) as (key & node & Hin & -> & _).
    destruct (Hlevel key node Hin) as [_ (p & n & c & Hv & -> & _)].
    exists p. replace (64 - (64 - h))%nat with h by lia. done.
  - apply HW.
  - destruct (rf_root _ _ _ _ HW) as [prev Hroot]. exists prev. by rewrite Hold by lia.
  - intros h1 p wn Hh1 Hv Hwn. destruct (decide (h < h1)%nat) as [Hlt|Hge].
    + rewrite Hold in Hwn by done. destruct (rf_node _ _ _ _ HW h1 p wn Hh1 Hv Hwn) as (n & c & (prev & Hn & Hc) & Hrest).
      exists n, c. split; [|done]. exists prev. by rewrite Hold by lia.
    + destruct (decide (h1 = h)) as [->|Hne].
      2:{ rewrite wlook_deep in Hwn; [done|]. unfold push_level_from_db. cbn [changes_by_nibble_count].
          rewrite length_app. cbn [length]. lia. }
      rewrite wlook_push_new in Hwn by done. destruct (level_from_db_some _ _ _ Hwn) as (key & node & Hin & Hkey & ->).
      destruct (Hlevel key node Hin) as [HN (p' & n & c & Hv' & -> & _ & (prev & Hn & Hc))].
      cbn [nk_nibbles with_version] in Hkey. apply nib_inj in Hkey as <-; [|apply Hv|apply Hv|apply Hv'].
      exists n, c. split; [exists prev; by rewrite Hold by lia|]. done.
Qed.
End Load.

(** ** Loading the nodes on the ways to keys *)

Section Ancestors.
Context `{!HashTree, !HashTreeLaws}.
Context (N : Nodes) (V u : Z) (root : Node) (m : Leaves) (keys : list (nat * Z)) (len : nat).
Hypothesis Hm : keys_ok m.
Hypothesis Hst : stored N 64 0 u root m.
Hypothesis Hkeys : forall idx k, (idx, k) ∈ keys -> unsigned 256 k.
Hypothesis Hfun : forall idx k k', (idx, k) ∈ keys -> (idx, k') ∈ keys -> k = k'.

(** What is known of a key before the level below height [hp] is loaded: its way has ended, or its
    node at height [hp] is there. *)
Definition found_ok (W : WorkingPatchSet) (hp : nat) (found : list (option Nibbles)) (idx : nat) (k : Z) : Prop :=
  match found !! idx with
  | Some (Some nb) => exists hr, nb = nib hr (k / pow16 hr) /\ resolved W k hr
  | Some None => is_Some (wlook W hp (k / pow16 hp))
  | None => False
  end.

(** The loop over the keys of a level, after the keys [done]. *)
Record level_ok (W : WorkingPatchSet) (hp : nat) (done : list (nat * Z)) (st : LoadState) : Prop := {
  lv_length : length (found_prefixes st) = len;
  lv_found idx k : (idx, k) ∈ keys -> found_ok W hp (found_prefixes st) idx k;
  lv_requested key b : (key, b) ∈ requested_keys st -> exists h, hp = S h /\ requested W h key b;
  lv_done idx k : (idx, k) ∈ done -> found_prefixes st !! idx = Some None ->
    exists h v b, hp = S h /\ (with_version (nib h (k / pow16 h)) v, b) ∈ requested_keys st;
  lv_prev nb : prev_nibbles st = Some nb ->
    (nibble_count nb < 65 - hp)%nat \/ exists v b, (with_version nb v, b) ∈ requested_keys st;
}.

Lemma found_ok_set W hp found idx k hr idx' k' :
  (idx, k) ∈ keys -> (idx', k') ∈ keys -> found_ok W hp found idx k -> resolved W k hr ->
  found_ok W hp found idx' k' -> found_ok W hp (<[idx := Some (nib hr (k / pow16 hr))]> found) idx' k'.
Proof.
  intros Hin Hin' Hf Hres Hf'. unfold found_ok in *. destruct (decide (idx = idx')) as [<-|Hne].
  - rewrite (Hfun _ _ _ Hin' Hin). rewrite list_lookup_insert_eq; [by exists hr|].
    apply lookup_lt_is_Some. destruct (found !! idx); [eauto|done].
  - by rewrite list_lookup_insert_ne by done.
Qed.

(** The way of a key ends at the current height. *)
Lemma level_ok_set W hp done st idx k :
  (idx, k) ∈ keys -> found_prefixes st !! idx = Some None -> resolved W k hp -> level_ok W hp done st ->
  level_ok W hp (done ++ [(idx, k)])
    {| found_prefixes := <[idx := Some (nib hp (k / pow16 hp))]> (found_prefixes st);
       prev_nibbles := prev_nibbles st; requested_keys := requested_keys st |}.
Proof.
  intros Hin Hnone Hres [Hl Hf Hr Hd Hp]. split; cbn [found_prefixes prev_nibbles requested_keys];
    [by rewrite length_insert| |done| |done].
  - intros idx' k' Hin'. apply found_ok_set; auto.
  - assert (idx < length (found_prefixes st))%nat as Hlt by (by apply lookup_lt_is_Some; eauto).
    intros idx' k' Hin' Hnone'. destruct (decide (idx' = idx)) as [->|Hne].
    + by rewrite list_lookup_insert_eq in Hnone'.
    + rewrite list_lookup_insert_ne in Hnone' by done. apply elem_of_app in Hin' as [Hin'|Hin'].
      * by apply (Hd idx' k').
      * apply list_elem_of_singleton in Hin'. congruence.
Qed.

Lemma level_ok_skip W hp done st idx k :
  level_ok W hp done st -> (found_prefixes st !! idx = Some None ->
    exists h v b, hp = S h /\ (with_version (nib h (k / pow16 h)) v, b) ∈ requested_keys st) ->
  level_ok W hp (done ++ [(idx, k)]) st.
Proof.
  intros [Hl Hf Hr Hd Hp] Hskip. split; [done..| |done].
  intros idx' k' [Hin'|Hin']%elem_of_app; [by apply Hd|].
  apply list_elem_of_singleton in Hin' as [= -> ->]. done.
Qed.

(** A node is requested. *)
Lemma level_ok_request W h done st idx k n c :
  unsigned 256 k -> (h < 64)%nat -> ref_at W h (k / pow16 h) n c -> level_ok W (S h) done st ->
  level_ok W (S h) (done ++ [(idx, k)])
    {| found_prefixes := found_prefixes st; prev_nibbles := Some (nib h (k / pow16 h));
       requested_keys := requested_keys st ++ [(with_version (nib h (k / pow16 h)) (cr_version c), is_leaf c)] |}.
Proof.
  intros Hk Hh Href [Hl Hf Hr Hd Hp]. split; cbn [found_prefixes prev_nibbles requested_keys]; [done..| | |].
  - intros key b [Hin|Hin]%elem_of_app; [by apply Hr|]. apply list_elem_of_singleton in Hin as [= -> ->].
    exists h. split; [done|]. exists (k / pow16 h), n, c. split; [|done]. apply valid_key; [nat_lia|done].
  - intros idx' k' [Hin'|Hin']%elem_of_app Hnone.
    + destruct (Hd idx' k' Hin' Hnone) as (h' & v & b & Heq & Hin). exists h', v, b. split; [done|].
      apply elem_of_app. by left.
    + apply list_elem_of_singleton in Hin' as [= -> ->]. exists h, (cr_version c), (is_leaf c).
      split; [done|]. apply elem_of_app. right. by apply list_elem_of_singleton.
  - intros nb [= <-]. right. exists (cr_version c), (is_leaf c). apply elem_of_app. right.
    by apply list_elem_of_singleton.
Qed.

Lemma child_ref_loaded W h k wn :
  reflects N W V root -> unsigned 256 k -> (h < 64)%nat -> wlook W (S h) (k / pow16 (S h)) = Some wn ->
  working_child_ref W (nib (S h) (k / pow16 (S h))) (digit k h) =
  Ret (match inner wn with Internal n => child_at n (digit k h) | Leaf _ => None end).
Proof.
  intros HW Hk Hh Hwn. unfold working_child_ref. rewrite working_get_nib, Hwn. cbn [fmap option_fmap option_map].
  destruct wn as [[n|l] prev]; cbn [inner]; [|done]. apply child_ref_at; [|apply digit_range].
  destruct (reflects_stored _ _ _ _ _ _ _ _ _ HW Hm Hst (valid_key (S h) k ltac:(nat_lia) Hk) Hwn) as (r & _ & Hs & _).
  cbn [inner stored] in Hs. tauto.
Qed.

Lemma request_key_ok W hp done st idx k :
  reflects N W V root -> (hp <= 64)%nat -> (idx, k) ∈ keys -> level_ok W hp done st ->
  exists st', request_key W (65 - hp) st (idx, k) = Ret st' /\ level_ok W hp (done ++ [(idx, k)]) st'.
Proof.
  intros HW Hhp Hin Hlv. pose proof (Hkeys _ _ Hin) as Hk. pose proof (lv_found _ _ _ _ Hlv idx k Hin) as Hf.
  unfold found_ok in Hf. unfold request_key.
  destruct (found_prefixes st !! idx) as [found|] eqn:Hfound; [|done].
  assert (index_vec (found_prefixes st) idx = Ret found) as -> by (by apply index_vec_Ret).
  rewrite outcome_Ret_bind. destruct found as [nb|].
  { exists st. split; [done|]. apply level_ok_skip; [done|]. congruence. }
  destruct Hf as [wn Hwn]. pose proof (valid_key hp k Hhp Hk) as Hv.
  destruct (reflects_stored _ _ _ _ _ _ _ _ _ HW Hm Hst Hv Hwn) as (r & _ & Hs & _).
  destruct hp as [|h].
  { change (2 * KEY_SIZE <? 65 - 0)%nat with true. cbv iota.
    change (2 * KEY_SIZE)%nat with (64 - 0)%nat. rewrite nibbles_new_nib, outcome_Ret_bind by nat_lia.
    eexists. split; [done|]. apply level_ok_set; [done..| |done].
    split; [nat_lia|]. destruct wn as [[n|l] prev]; [done|]. by exists (Leaf l), prev. }
  assert ((2 * KEY_SIZE <? 65 - S h)%nat = false) as -> by (apply Nat.ltb_ge; unfold KEY_SIZE; nat_lia). cbv iota.
  replace (65 - S h)%nat with (64 - h)%nat by nat_lia. rewrite nibbles_new_nib, outcome_Ret_bind by nat_lia.
  rewrite split_last_nib; [|nat_lia|apply Z.div_pos; [apply Hk|apply pow16_pos]]. rewrite outcome_Ret_bind.
  cbn [expect]. rewrite outcome_Ret_bind. rewrite <- key_parent. fold (digit k h).
  rewrite (child_ref_loaded W h k wn HW Hk ltac:(nat_lia) Hwn), outcome_Ret_bind.
  destruct wn as [[n|l] prev]; cbn [inner].
  2: { eexists. split; [done|]. apply level_ok_set; [done..| |done]. split; [nat_lia|]. by exists (Leaf l), prev. }
  destruct (child_at n (digit k h)) as [c|] eqn:Hc.
  2: { eexists. split; [done|]. apply level_ok_set; [done..| |done]. split; [nat_lia|]. by exists (Internal n), prev. }
  case_bool_decide as Hprev.
  - exists st. split; [done|]. apply level_ok_skip; [done|]. intros _.
    destruct (lv_prev _ _ _ _ Hlv _ Hprev) as [Hlt|(v & b & Hreq)]; [cbn in Hlt; nat_lia|]. by exists h, v, b.
  - eexists. split; [done|]. apply (level_ok_request W h done st idx k n c); [done|nat_lia| |done].
    exists prev. by rewrite <- key_parent.
Qed.

Lemma request_level_ok W hp st :
  reflects N W V root -> (hp <= 64)%nat -> level_ok W hp [] st ->
  exists st', foldM (request_key W (65 - hp)) st keys = Ret st' /\ level_ok W hp keys st'.
Proof.
  intros HW Hhp Hlv. apply (foldM_list_invariant (level_ok W hp)); [done|].
  intros done [idx k] rest acc Heq Hacc. apply request_key_ok; [done..| |done].
  rewrite Heq. apply elem_of_app. right. by left.
Qed.

(** What is known of the requested nodes. *)
Lemma requested_stored W h key b :
  reflects N W V root -> (h < 64)%nat -> requested W h key b -> exists node, N key = Some node /\ leafb node = b.
Proof.
  intros HW Hh (p & n & c & Hv & -> & -> & (prev & Hn & Hc)).
  destruct (reflects_stored _ _ _ _ _ _ _ _ _ HW Hm Hst (valid_parent h p Hh Hv) Hn) as (r & _ & Hs & _).
  destruct (stored_child _ _ _ _ _ _ _ _ Hs (mod16_range p) Hc) as (_ & _ & node & HN & Hleaf & _).
  rewrite parent_child in HN. by exists node.
Qed.

(** The level that is read for the requested nodes. *)
Definition read_level (reqs : list (NodeKey * bool)) : list (NodeKey * Node) :=
  omap (fun kb => (fun node => (kb.1, node)) <$> N kb.1) reqs.

Lemma read_level_elem reqs key node :
  (key, node) ∈ read_level reqs <-> (exists b, (key, b) ∈ reqs) /\ N key = Some node.
Proof.
  unfold read_level. rewrite list_elem_of_omap. split.
  - intros ([key' b] & Hin & Heq). cbn in Heq. destruct (N key') as [node'|] eqn:HN; [|done].
    injection Heq as -> ->. eauto.
  - intros [[b Hin] HN]. exists (key, b). split; [done|]. cbn. by rewrite HN.
Qed.

Lemma read_level_map reqs :
  (forall key b, (key, b) ∈ reqs -> is_Some (N key)) ->
  map_outcome (fun '((key, _), node) => node ← expect node UNWRAP_NONE; Ret (key, node))
    (zip reqs ((fun kb => N kb.1) <$> reqs)) = Ret (read_level reqs).
Proof.
  intros Hall. induction reqs as [|[key b] reqs IH]; [done|].
  destruct (Hall key b) as [node HN]; [by left|].
  cbn. rewrite HN. cbn. rewrite IH; [done|]. intros key' b' Hin. apply (Hall key' b'). by right.
Qed.

Lemma resolved_push W level k h :
  resolved W k h -> resolved (push_level_from_db W level) k h.
Proof.
  intros (Hh & node & prev & Hwn & Hend). split; [done|]. exists node, prev. split; [|done].
  rewrite wlook_push_old; [done|]. by eapply wlook_some_level.
Qed.

(** After a level has been read, the keys whose way goes on have their node on it. *)
Lemma level_loaded W h st :
  reflects N W V root -> (h < 64)%nat -> length (changes_by_nibble_count W) = (64 - h)%nat ->
  level_ok W (S h) keys st ->
  let W' := push_level_from_db W (read_level (requested_keys st)) in
  reflects N W' V root /\ length (changes_by_nibble_count W') = S (64 - h) /\
  level_ok W' h [] {| found_prefixes := found_prefixes st; prev_nibbles := prev_nibbles st; requested_keys := [] |}.
Proof.
  intros HW Hh Hlen Hlv W'.
  assert (Hreq : forall key b, (key, b) ∈ requested_keys st -> requested W h key b).
  { intros key b Hin. destruct (lv_requested _ _ _ _ Hlv key b Hin) as (h' & [= <-] & ?). done. }
  split; [|split].
  - apply (push_level_reflects N W V root _ h); [done..|]. intros key node [[b Hin] HN]%read_level_elem.
    split; [done|]. destruct (requested_stored W h key b HW Hh (Hreq _ _ Hin)) as (node' & HN' & <-).
    rewrite HN in HN'. injection HN' as <-. by apply Hreq.
  - unfold W', push_level_from_db. cbn [changes_by_nibble_count]. rewrite length_app, Hlen. cbn. nat_lia.
  - split; cbn [found_prefixes prev_nibbles requested_keys]; [by apply Hlv| | | |].
    + intros idx k Hin. pose proof (lv_found _ _ _ _ Hlv idx k Hin) as Hf. unfold found_ok in *.
      destruct (found_prefixes st !! idx) as [[nb|]|] eqn:Hfound; [| |done].
      * destruct Hf as (hr & -> & Hres). exists hr. split; [done|]. by apply resolved_push.
      * destruct (lv_done _ _ _ _ Hlv idx k Hin Hfound) as (h' & v & b & [= <-] & Hr).
        destruct (requested_stored W h _ b HW Hh (Hreq _ _ Hr)) as (node & HN & _).
        unfold W'. rewrite wlook_push_new by done.
        apply (level_from_db_present _ (with_version (nib h (k / pow16 h)) v) node).
        apply read_level_elem. eauto.
    + intros key b ?%elem_of_nil. done.
    + intros idx k ?%elem_of_nil. done.
    + intros nb Hprev. left. destruct (lv_prev _ _ _ _ Hlv nb Hprev) as [Hlt|(v & b & Hin)]; [nat_lia|].
      destruct (Hreq _ _ Hin) as (p & n & c & _ & Heq & _). injection Heq as _ ->. cbn. nat_lia.
Qed.

Context {DB : Type} `{!Database DB}.

Lemma load_levels_ok db fuel : forall hp W found prev reads,
  reads_ok db N -> reflects N W V root -> fuel = S hp -> (hp <= 64)%nat ->
  length (changes_by_nibble_count W) = (65 - hp)%nat ->
  level_ok W hp [] {| found_prefixes := found; prev_nibbles := prev; requested_keys := [] |} ->
  exists W' found' reads', load_levels fuel db keys (65 - hp) W found prev reads = Ret (W', found', reads') /\
    reflects N W' V root /\ length found' = len /\
    forall idx k, (idx, k) ∈ keys ->
      exists hr, found' !! idx = Some (Some (nib hr (k / pow16 hr))) /\ resolved W' k hr.
Proof.
  induction fuel as [|fuel IH]; intros hp W found prev reads Hdb HW Hfuel Hhp Hlen Hlv; [done|].
  injection Hfuel as ->. cbn [load_levels].
  destruct (request_level_ok W hp _ HW Hhp Hlv) as (st & Heq & Hst'). rewrite Heq, outcome_Ret_bind.
  destruct (requested_keys st) as [|req reqs] eqn:Hreqs.
  { exists W, (found_prefixes st), reads. split; [done|]. split; [done|]. split; [by apply Hst'|]. intros idx k Hin.
    pose proof (lv_found _ _ _ _ Hst' idx k Hin) as Hf. unfold found_ok in Hf.
    destruct (found_prefixes st !! idx) as [[nb|]|] eqn:Hfound; [| |done].
    - destruct Hf as (hr & -> & Hres). eauto.
    - destruct (lv_done _ _ _ _ Hst' idx k Hin Hfound) as (h & v & b & _ & Hr). rewrite Hreqs in Hr.
      by apply elem_of_nil in Hr. }
  destruct hp as [|h].
  { exfalso. destruct req as [key b]. destruct (lv_requested _ _ _ _ Hst' key b) as (h & ? & _); [|done].
    rewrite Hreqs. by left. }
  rewrite <- Hreqs.
  assert (Hall : forall key b, (key, b) ∈ requested_keys st -> exists node, N key = Some node /\ leafb node = b).
  { intros key b Hin. destruct (lv_requested _ _ _ _ Hst' key b Hin) as (h' & [= <-] & Hr).
    by apply (requested_stored W h key b HW ltac:(nat_lia)). }
  rewrite (read_nodes _ _ Hdb _ Hall), outcome_Ret_bind.
  rewrite read_level_map, outcome_Ret_bind by (intros key b Hin; destruct (Hall key b Hin) as (node & -> & _); eauto).
  destruct (level_loaded W h st HW ltac:(nat_lia) ltac:(nat_lia) Hst') as (HW' & Hlen' & Hlv').
  replace (65 - S h + 1)%nat with (65 - h)%nat by nat_lia.
  apply IH; [done..|nat_lia| |done]. rewrite Hlen'. nat_lia.
Qed.
End Ancestors.

(** ** [load_ancestors] *)

Lemma sorted_keys_elem ks idx k : (idx, k) ∈ sorted_keys ks <-> ks !! idx = Some k.
Proof.
  unfold sorted_keys. rewrite stable_sort_Permutation. rewrite list_elem_of_lookup. setoid_rewrite list_lookup_imap.
  split.
  - intros [i Hi]. destruct (ks !! i) as [k'|] eqn:Hk; [|done]. cbn in Hi. by injection Hi as -> ->.
  - intros Hk. exists idx. by rewrite Hk.
Qed.

Lemma sorted_keys_length ks : length (sorted_keys ks) = length ks.
Proof. unfold sorted_keys. by rewrite stable_sort_Permutation, length_imap. Qed.

(** The way to each key is loaded and ends at, or goes on from, its prefix. *)
Definition prepared (W : WorkingPatchSet) (k : Z) (prefix : Nibbles) : Prop :=
  exists hs, prefix = nib hs (k / pow16 hs) /\ loaded W k /\ start_ok W k hs.

(** What a stored root represents. *)
Definition root_stored `{!HashTree, !HashTreeLaws} (N : Nodes) (u : Z) (root : Root) (m : Leaves) : Prop :=
  match root with
  | RootEmpty => m = ∅
  | RootFilled _ node => stored N 64 0 u node m
  end.

Section LoadAncestors.
Context `{!HashTree, !HashTreeLaws} {DB : Type} `{!Database DB}.

Lemma wlook_new V count root h p :
  wlook (working_new V (RootFilled count root)) h p =
  if decide ((64 <= h)%nat /\ nibble_bytes (nib h p) = nibble_bytes EMPTY)
  then Some {| inner := root; prev_version := checked_pred V |} else None.
Proof.
  unfold wlook, working_new. cbn [changes_by_nibble_count].
  destruct (64 - h)%nat as [|i] eqn:Hi.
  - cbn -[nibble_bytes nib EMPTY]. destruct (decide (nibble_bytes EMPTY = nibble_bytes (nib h p))) as [Heq|Hne].
    + rewrite <- Heq, lookup_singleton_eq, decide_True; [done|]. split; [lia|done].
    + rewrite lookup_singleton_ne, decide_False; [done|naive_solver|done].
  - rewrite decide_False by lia. by destruct i.
Qed.

Lemma reflects_new N V count root : reflects N (working_new V (RootFilled count root)) V root.
Proof.
  split; [|done| |].
  - intros c level bytes wn Hc Hwn. unfold working_new in Hc. cbn [changes_by_nibble_count] in Hc.
    apply list_lookup_singleton_Some in Hc as [-> <-]. apply lookup_singleton_Some in Hwn as [<- _].
    split; [lia|]. exists 0. split; [exact valid_root|]. change (64 - 0)%nat with 64%nat. by rewrite nib_EMPTY.
  - exists (checked_pred V). rewrite wlook_new, decide_True; [done|]. split; [lia|]. by rewrite nib_EMPTY.
  - intros h p wn Hh _. rewrite wlook_new, decide_False; [done|lia].
Qed.

(** The prefixes are all determined. *)
Lemma prefixes_expected W ks found :
  Forall2 (fun k o => exists h, o = Some (nib h (k / pow16 h)) /\ resolved W k h) ks found ->
  exists prefixes, map_outcome (fun prefix => expect prefix UNWRAP_NONE) found = Ret prefixes /\
    Forall2 (fun k nb => exists h, nb = nib h (k / pow16 h) /\ resolved W k h) ks prefixes.
Proof.
  induction 1 as [|k o ks found (h & -> & Hres) _ (prefixes & Heq & IH)]; [by exists []|].
  exists (nib h (k / pow16 h) :: prefixes). cbn [map_outcome expect]. rewrite outcome_Ret_bind, Heq. split; [done|].
  constructor; [by exists h|done].
Qed.

Lemma load_ancestors_resolved db N V u count root m ks :
  reads_ok db N -> keys_ok m -> stored N 64 0 u root m -> Forall (unsigned 256) ks ->
  exists res W, load_ancestors (working_new V (RootFilled count root)) (sorted_keys ks) db = Ret (res, W) /\
    reflects N W V root /\
    Forall2 (fun k nb => exists h, nb = nib h (k / pow16 h) /\ resolved W k h) ks (longest_prefixes res).
Proof.
  intros Hdb Hm Hst Hks. set (W0 := working_new V (RootFilled count root)).
  pose proof (reflects_new N V count root) as HW0. fold W0 in HW0.
  assert (Hroot : wlook W0 64 0 = Some {| inner := root; prev_version := checked_pred V |}).
  { unfold W0. rewrite wlook_new, decide_True; [done|]. split; [lia|]. by rewrite nib_EMPTY. }
  rewrite Forall_lookup in Hks.
  assert (Htop : forall k, unsigned 256 k -> k / pow16 64 = 0) by (intros k Hk; by apply div_pow16_64).
  unfold load_ancestors. rewrite <- nib_EMPTY, working_get_nib, Hroot, sorted_keys_length. cbn [fmap option_fmap option_map inner].
  destruct root as [n|l].
  - destruct (load_levels_ok N V u (Internal n) m (sorted_keys ks) (length ks) Hm Hst
      ltac:(intros idx k Hin%sorted_keys_elem; by eapply Hks)
      ltac:(intros idx k k' H1%sorted_keys_elem H2%sorted_keys_elem; congruence)
      db 65 64 W0 (replicate (length ks) None) None 0 Hdb HW0 eq_refl ltac:(lia) eq_refl)
      as (W & found & reads & Heq & HW & Hlen & Hfound).
    { split; cbn [found_prefixes prev_nibbles requested_keys]; [by rewrite length_replicate| |by intros ? ? ?%elem_of_nil..|done].
      intros idx k Hin%sorted_keys_elem. unfold found_ok.
      rewrite lookup_replicate_2 by (by apply lookup_lt_is_Some; eauto).
      rewrite Htop, Hroot by (by eapply Hks). eauto. }
    change (2 * KEY_SIZE + 1)%nat with 65%nat. change (65 - 64)%nat with 1%nat in Heq. rewrite Heq, outcome_Ret_bind.
    assert (Forall2 (fun k o => exists h, o = Some (nib h (k / pow16 h)) /\ resolved W k h) ks found) as Hall.
    { apply Forall2_same_length_lookup_2; [done|]. intros idx k o Hk Ho.
      destruct (Hfound idx k) as (h & Hf & Hres); [by apply sorted_keys_elem|]. rewrite Ho in Hf. injection Hf as ->. eauto. }
    destruct (prefixes_expected W ks found Hall) as (prefixes & Hmap & Hres).
    rewrite Hmap, outcome_Ret_bind. eexists _, W. split; [done|]. by split.
  - eexists _, W0. split; [done|]. split; [done|]. cbn [longest_prefixes].
    apply Forall2_same_length_lookup_2; [by rewrite length_replicate|]. intros idx k nb Hk [-> _]%lookup_replicate.
    exists 64%nat. rewrite Htop by (by eapply Hks). split; [by rewrite nib_EMPTY|]. split; [lia|].
    exists (Leaf l), (checked_pred V). by rewrite Htop by (by eapply Hks).
Qed.
End LoadAncestors.
