(* ===== verification/TreeFinalize.v ===== *)
(** * Finalization of changes of the state tree

    [WorkingPatchSet::finalize] on a patch set that represents a set of leaves: level by level
    the nodes get their hashes and move to the new patch, which with the old nodes stores the
    leaves; the root hash is the hash of the tree with these leaves. *)

From S2P Require Import Prelude Bytes Utils TreeUtils TreeTypes TreeHasher TreeDatabase TreeStorage TreeSpec TreeInvariant TreeInsert TreeLoad.
Open Scope Z_scope.

(** The nodes of a database with those of a patch over them. *)
Definition patched_over (N : Nodes) (P : gmap NodeKey Node) : Nodes :=
  fun key => match P !! key with Some node => Some (node_clone node) | None => N key end.

Lemma key_inj h p v h1 q v1 :
  valid h p -> valid h1 q -> with_version (nib h p) v = with_version (nib h1 q) v1 -> h = h1 /\ p = q /\ v = v1.
Proof.
  intros Hv Hv1 Heq. pose proof (f_equal nk_version Heq) as Hver. pose proof (f_equal nk_nibbles Heq) as Hnib.
  cbn [with_version nk_version nk_nibbles] in Hver, Hnib.
  pose proof (f_equal nibble_count Hnib) as Hlen. pose proof (f_equal nibble_bytes Hnib) as Hbytes.
  cbn [nib nibble_count] in Hlen. clear Heq Hnib.
  assert (h = h1) by (destruct Hv, Hv1; nat_lia). subst h1. split; [done|]. split; [|done].
  apply (nib_inj h); [apply Hv|apply Hv|apply Hv1|exact Hbytes].
Qed.

Lemma below_up h p : below h p (S h) (p / 16).
Proof. split; [nat_lia|]. replace (S h - h)%nat with 1%nat by nat_lia. done. Qed.

Section Finalize.
Context `{!HashTree, !HashTreeLaws}.

(** ** A node leaves the patch set *)

(** [W2] is [W] without the node at [(h, p)], with [hash] in its reference. *)
Record retired (W W2 : WorkingPatchSet) (h : nat) (p : Z) (n n2 : InternalNode) (c : ChildRef) (hash : Z) : Prop := {
  rt_version : root_version W2 = root_version W;
  rt_positions : positions_ok W2;
  rt_gone : wlook W2 h p = None;
  rt_parent : exists prev,
    wlook W (S h) (p / 16) = Some {| inner := Internal n; prev_version := prev |} /\
    wlook W2 (S h) (p / 16) = Some {| inner := Internal n2; prev_version := prev |};
  rt_ref : child_at n (p mod 16) = Some c;
  rt_wf : node_wf n2;
  rt_cache : node_cache n2 = node_cache n;
  rt_child y : 0 <= y < 16 -> child_at n2 y =
    if decide (p mod 16 = y) then Some {| cr_hash := hash; cr_version := cr_version c; is_leaf := is_leaf c |}
    else child_at n y;
  rt_other h1 q : valid h1 q -> (h1 = h -> q <> p) -> (h1 = S h -> q <> p / 16) -> wlook W2 h1 q = wlook W h1 q;
}.

(** What the database holds for the retired node afterwards. *)
Definition settled (N : Nodes) (V : Z) (op : option Operation) (h : nat) (p r : Z) (wn : WorkingNode) (N2 : Nodes) : Prop :=
  (forall key, key <> with_version (nib h p) r -> N2 key = N key) /\
  ((N2 (with_version (nib h p) r) = Some (node_clone (inner wn)) /\ r = V) \/
   (N2 (with_version (nib h p) r) = N (with_version (nib h p) r) /\ op = Some Insert /\ r < V /\ prev_version wn = Some r)).

Lemma leafb_clone node : leafb (node_clone node) = leafb node.
Proof. by destruct node. Qed.

(** Below other positions, and among older versions, nothing changes. *)
Lemma settled_stored N V op h p r wn N2 h1 q u node m :
  settled N V op h p r wn N2 -> valid h p -> valid h1 q ->
  (~ below h p h1 q \/ (h1 <= h)%nat \/ u < V) ->
  stored N h1 q u node m -> stored N2 h1 q u node m.
Proof.
  intros [Hsame Hset] Hv Hv1 Hor. apply stored_frame; [done|]. intros h2 q2 v Hh2 Hv2 Hb2 Hle.
  destruct (decide (with_version (nib h2 q2) v = with_version (nib h p) r)) as [Heq|Hne]; [|by apply Hsame].
  apply key_inj in Heq as (-> & -> & ->); [|done..].
  destruct Hor as [Hnb|[Hle1|Hlt]]; [by destruct Hnb|nat_lia|].
  destruct Hset as [[_ Hr]|[Hs _]]; [lia|by rewrite Hs].
Qed.

(** The retired node is stored under its reference. *)
Lemma settled_node N W D V op h p r wn N2 m :
  settled N V op h p r wn N2 -> valid h p -> (h < 64)%nat ->
  (forall h1 q, (h1 < h)%nat -> valid h1 q -> below h1 q h p -> wlook W h1 q = None) ->
  fresh N V op h p r wn m -> working N W D V op h p r (inner wn) m ->
  exists node, N2 (with_version (nib h p) r) = Some node /\ leafb node = leafb (inner wn) /\ stored N2 h p r node m.
Proof.
  intros Hs Hv Hh Hbelow Hfresh Hwork. pose proof Hs as [Hsame Hset].
  destruct Hset as [[HN Hr]|(HN & -> & Hlt & Hprev)].
  - exists (node_clone (inner wn)). split; [done|]. split; [apply leafb_clone|].
    eapply (settled_stored N V op h p r wn N2 h p); [done..|by right; left|].
    eapply working_stored; [done..| |exact Hwork]. by eapply working_nonempty.
  - destruct Hfresh as [[-> _]|(_ & _ & s & HNs & Hleaf & Hst)]; [lia|].
    exists s. rewrite HN. split; [done|]. split; [done|].
    eapply (settled_stored N V (Some Insert) h p r wn N2 h p); [done..|by right; left|done].
Qed.

(** ** The patch set without the node represents the same leaves *)

Section Retired.
Context (N N2 : Nodes) (W W2 : WorkingPatchSet) (D : nat -> Z -> Prop) (V : Z) (op : option Operation) (m : Leaves).
Context (h : nat) (p : Z) (n n2 : InternalNode) (c : ChildRef) (wn : WorkingNode).
Hypothesis Hok : tree_ok N W D V op m.
Hypothesis Hh : (h < 64)%nat.
Hypothesis Hv : valid h p.
Hypothesis Hwn : wlook W h p = Some wn.
Hypothesis Hbelow : forall h1 q, (h1 < h)%nat -> valid h1 q -> wlook W h1 q = None.
Hypothesis Hret : retired W W2 h p n n2 c (tree_hash (4 * h) (part h p m)).
Hypothesis Hset : settled N V op h p (cr_version c) wn N2.

Lemma retired_off_path h1 q h2 q2 :
  ~ below h p h1 q -> valid h2 q2 -> below h2 q2 h1 q -> wlook W2 h2 q2 = wlook W h2 q2.
Proof.
  intros Hnb Hv2 Hb2. apply (rt_other _ _ _ _ _ _ _ _ Hret); [done|..].
  - intros -> ->. by apply Hnb.
  - intros -> ->. apply Hnb. eapply below_trans; [|exact Hb2]. apply below_up.
Qed.

Lemma retired_off_fresh h1 q r wn1 m1 :
  valid h1 q -> ~ below h p h1 q -> fresh N V op h1 q r wn1 m1 -> fresh N2 V op h1 q r wn1 m1.
Proof.
  intros Hv1 Hnb. unfold fresh. destruct op as [[]|]; [|done..].
  intros [Hnew|(Hprev & Hlt & s & HN & Hleaf & Hst)]; [by left|right]. split; [done|]. split; [done|].
  exists s. split; [|split; [done|]].
  - destruct Hset as [Hsame _]. rewrite Hsame; [done|]. intros Heq. apply key_inj in Heq as (-> & -> & _); [|done..].
    by apply Hnb, below_refl.
  - eapply settled_stored; [exact Hset|done..| |done]. by left.
Qed.

Lemma retired_off_working h1 q r node m1 :
  valid h1 q -> ~ below h p h1 q -> working N W D V op h1 q r node m1 -> working N2 W2 D V op h1 q r node m1.
Proof.
  intros Hv1 Hnb. apply working_frame; [done|]. intros h2 q2 Hlt Hv2 Hb2.
  split; [by eapply retired_off_path|]. split; [done|]. intros v. destruct Hset as [Hsame _]. apply Hsame.
  intros Heq. apply key_inj in Heq as (-> & -> & _); done.
Qed.

(** A reference to a child that is not on the way to the retired node. *)
Lemma retired_off_child h1 q r c1 m1 :
  valid h1 q -> ~ below h p h1 q ->
  (cr_version c1 <= r /\
   match wlook W h1 q with
   | Some wn1 =>
       (~ D h1 q -> cr_hash c1 = tree_hash (4 * h1) m1) /\ leafb (inner wn1) = is_leaf c1 /\
       fresh N V op h1 q (cr_version c1) wn1 m1 /\ working N W D V op h1 q (cr_version c1) (inner wn1) m1
   | None =>
       cr_hash c1 = tree_hash (4 * h1) m1 /\
       exists node', N (with_version (nib h1 q) (cr_version c1)) = Some node' /\ leafb node' = is_leaf c1 /\
         stored N h1 q (cr_version c1) node' m1
   end) ->
  cr_version c1 <= r /\
   match wlook W2 h1 q with
   | Some wn1 =>
       (~ D h1 q -> cr_hash c1 = tree_hash (4 * h1) m1) /\ leafb (inner wn1) = is_leaf c1 /\
       fresh N2 V op h1 q (cr_version c1) wn1 m1 /\ working N2 W2 D V op h1 q (cr_version c1) (inner wn1) m1
   | None =>
       cr_hash c1 = tree_hash (4 * h1) m1 /\
       exists node', N2 (with_version (nib h1 q) (cr_version c1)) = Some node' /\ leafb node' = is_leaf c1 /\
         stored N2 h1 q (cr_version c1) node' m1
   end.
Proof.
  intros Hv1 Hnb [Hver Hch]. split; [done|].
  rewrite (retired_off_path h1 q h1 q) by (done || apply below_refl).
  destruct (wlook W h1 q) as [wn1|].
  - destruct Hch as (Hhash & Hleaf & Hfresh & Hwork). split; [done|]. split; [done|].
    split; [by apply retired_off_fresh|by apply retired_off_working].
  - destruct Hch as (Hhash & node' & HN & Hleaf & Hst). split; [done|]. exists node'. split; [|split; [done|]].
    + destruct Hset as [Hsame _]. rewrite Hsame; [done|]. intros Heq.
      apply key_inj in Heq as (-> & -> & _); [|done..]. by apply Hnb, below_refl.
    + eapply settled_stored; [exact Hset|done..| |done]. by left.
Qed.

(** The parent of the retired node. *)
Lemma retired_parent r :
  working N W D V op (S h) (p / 16) r (Internal n) (part (S h) (p / 16) m) ->
  working N2 W2 D V op (S h) (p / 16) r (Internal n2) (part (S h) (p / 16) m).
Proof.
  intros Hwork. cbn [working] in *. destruct Hwork as (Hwf & Hcache & Hmax & Hch).
  pose proof (mod16_range p) as Hmod.
  split; [apply (rt_wf _ _ _ _ _ _ _ _ Hret)|]. split; [|split].
  - intros cache Hc. apply Hcache. by rewrite <- (rt_cache _ _ _ _ _ _ _ _ Hret).
  - intros Hlt. destruct (Hmax Hlt) as (Hne & x & c0 & Hx & Hc0 & Hver). split; [done|].
    exists x. rewrite (rt_child _ _ _ _ _ _ _ _ Hret x Hx). destruct (decide (p mod 16 = x)) as [<-|]; [|by exists c0].
    eexists. split; [done|]. split; [done|]. rewrite (rt_ref _ _ _ _ _ _ _ _ Hret) in Hc0. injection Hc0 as ->. done.
  - intros y Hy. rewrite (rt_child _ _ _ _ _ _ _ _ Hret y Hy). specialize (Hch y Hy).
    destruct (decide (p mod 16 = y)) as [<-|Hne].
    + rewrite (rt_ref _ _ _ _ _ _ _ _ Hret), parent_child, Hwn in Hch. rewrite sub_part, parent_child in * by done.
      destruct Hch as (Hver & _ & Hleaf & Hfresh & Hwork). cbn [cr_version cr_hash is_leaf]. split; [done|].
      rewrite (rt_gone _ _ _ _ _ _ _ _ Hret). split; [done|].
      destruct (settled_node N W D V op h p (cr_version c) wn N2 (part h p m)) as (node & HN & Hl & Hst); [done..|by auto|done|done|].
      exists node. split; [done|]. split; [congruence|done].
    + destruct (child_at n y) as [c1|]; [|done]. apply retired_off_child; [|intros [_ Hb]|done].
      * apply valid_child; [|done]. by apply valid_parent.
      * rewrite Nat.sub_diag in Hb. change (pow16 0) with 1 in Hb. rewrite Z.div_1_r in Hb. apply Hne.
        rewrite Hb. by apply child_mod.
Qed.

(** The nodes above the parent stay as they are. *)
Lemma retired_above h1 q : valid h1 q -> (S h < h1)%nat -> wlook W2 h1 q = wlook W h1 q.
Proof. intros Hv1 Hlt. apply (rt_other _ _ _ _ _ _ _ _ Hret); [done|nat_lia|nat_lia]. Qed.

Lemma retired_path d : forall h1 q r wn1 wn2,
  h1 = (S h + d)%nat -> (h1 <= 64)%nat -> valid h1 q -> below h p h1 q ->
  wlook W h1 q = Some wn1 -> wlook W2 h1 q = Some wn2 ->
  working N W D V op h1 q r (inner wn1) (part h1 q m) ->
  working N2 W2 D V op h1 q r (inner wn2) (part h1 q m) /\ leafb (inner wn2) = leafb (inner wn1) /\
  prev_version wn2 = prev_version wn1.
Proof.
  destruct (rt_parent _ _ _ _ _ _ _ _ Hret) as (prev & Hn & Hn2).
  induction d as [|d IH]; intros h1 q r wn1 wn2 -> Hh1 Hv1 Hb Hwn1 Hwn2 Hwork.
  - rewrite Nat.add_0_r in *. assert (q = p / 16) as -> by (eapply below_unique; [exact Hb|apply below_up]).
    rewrite Hn in Hwn1. rewrite Hn2 in Hwn2. injection Hwn1 as <-. injection Hwn2 as <-.
    split; [by apply retired_parent|done].
  - replace (S h + S d)%nat with (S (S h + d)) in * by nat_lia. set (h' := (S h + d)%nat) in *.
    rewrite retired_above, Hwn1 in Hwn2 by (done || nat_lia). injection Hwn2 as <-. split; [|done].
    destruct wn1 as [[n1|l] prev1]; cbn [inner]; [|by rewrite working_leaf in *].
    cbn [inner working] in *. destruct Hwork as (Hwf & Hcache & Hmax & Hch).
    split; [done|]. split; [done|]. split; [done|]. intros y Hy. specialize (Hch y Hy).
    destruct (child_at n1 y) as [c1|]; [|done]. pose proof (valid_child h' q y Hv1 Hy) as Hv'.
    destruct (decide (below h p h' (16 * q + y))) as [Hon|Hoff]; [|by apply retired_off_child].
    destruct (linked_ancestor W h' (16 * q + y) h p wn) as (n' & prev' & Hn'); [apply Hok|done|nat_lia|nat_lia|done..|].
    rewrite Hn' in Hch. rewrite sub_part in * by done.
    destruct Hch as (Hver & Hhash & Hleaf & Hfresh & Hwork).
    assert (is_Some (wlook W2 h' (16 * q + y))) as [wn2 Hwn2].
    { destruct (decide (h' = S h)) as [Heq|Hne'].
      - assert (16 * q + y = p / 16) as ->; [|rewrite Heq, Hn2; eauto]. rewrite Heq in Hon.
        eapply below_unique; [exact Hon|apply below_up].
      - rewrite retired_above, Hn' by (done || nat_lia). eauto. }
    destruct (IH h' (16 * q + y) (cr_version c1) _ wn2 eq_refl ltac:(nat_lia) Hv' Hon Hn' Hwn2 Hwork)
      as (Hwork2 & Hleaf2 & Hprev2).
    split; [done|]. rewrite Hwn2. split; [done|]. split; [congruence|]. split; [|done].
    unfold fresh in *. destruct op as [[]|]; [|done..]. rewrite Hprev2, Hleaf2.
    destruct Hfresh as [Hnew|(Hp & Hlt & s & HN & Hl & Hst)]; [by left|right]. split; [done|]. split; [done|].
    exists s. split; [|split; [done|]].
    + destruct Hset as [Hsame _]. rewrite Hsame; [done|]. intros Heq. apply key_inj in Heq as (Heq & _); [nat_lia|done..].
    + eapply settled_stored; [exact Hset|done..| |done]. by right; right.
Qed.

Lemma retired_tree_ok : tree_ok N2 W2 D V op m.
Proof.
  destruct (rt_parent _ _ _ _ _ _ _ _ Hret) as (prev & Hn & Hn2).
  assert (Htop : below h p 64 0).
  { split; [nat_lia|]. apply Z.div_small. destruct Hv as [_ Hp]. done. }
  destruct (linked_ancestor W 64 0 h p wn) as (nr & prevr & Hnr); [apply Hok|done|nat_lia|nat_lia|done..|].
  assert (is_Some (wlook W2 64 0)) as [wn2 Hwn2].
  { destruct (decide (S h = 64)%nat) as [Heq|Hne].
    - assert (0 = p / 16) as ->; [|rewrite <- Heq, Hn2; eauto]. rewrite <- Heq in Htop.
      eapply below_unique; [exact Htop|apply below_up].
    - rewrite retired_above, Hnr by (exact valid_root || nat_lia). eauto. }
  constructor.
  - apply (rt_positions _ _ _ _ _ _ _ _ Hret).
  - intros h1 q wn1 Hh1 Hv1 Hwn1.
    assert (is_Some (wlook W h1 q)) as [wn0 Hwn0].
    { destruct (decide (h1 = S h /\ q = p / 16)) as [[-> ->]|Hne]; [rewrite Hn; eauto|].
      rewrite (rt_other _ _ _ _ _ _ _ _ Hret) in Hwn1; [eauto|done| |intros -> ->; by apply Hne].
      intros -> ->. rewrite (rt_gone _ _ _ _ _ _ _ _ Hret) in Hwn1. done. }
    assert (h <= h1)%nat as Hle.
    { destruct (decide (h <= h1)%nat); [done|]. rewrite Hbelow in Hwn0 by (done || nat_lia). done. }
    destruct (ok_linked _ _ _ _ _ _ Hok h1 q wn0 Hh1 Hv1 Hwn0) as (n1 & c1 & prev1 & Hn1 & Hc1).
    destruct (decide (h1 = h /\ q / 16 = p / 16)) as [[-> Heq]|Hne].
    + rewrite Heq in *. rewrite Hn in Hn1. injection Hn1 as <- <-. exists n2.
      rewrite (rt_child _ _ _ _ _ _ _ _ Hret) by apply mod16_range.
      case_decide; eexists _, prev; split; [done..|done|by rewrite Hc1].
    + exists n1, c1, prev1. split; [|done]. rewrite (rt_other _ _ _ _ _ _ _ _ Hret); [done| |nat_lia|].
      * by apply valid_parent.
      * intros [= ->]. intros Heq. by apply Hne.
  - rewrite (rt_version _ _ _ _ _ _ _ _ Hret). apply Hok.
  - apply Hok.
  - rewrite Hwn2. pose proof (ok_root _ _ _ _ _ _ Hok) as Hroot. rewrite Hnr in Hroot.
    rewrite <- (part_root m) in Hroot |- * by apply Hok.
    by eapply (retired_path (63 - h) 64 0); [nat_lia|nat_lia|exact valid_root|exact Htop|exact Hnr|exact Hwn2|].
Qed.
End Retired.

(** ** One node of a level *)

(** The patch set made of the remaining levels and what is left of the level at work. *)
Definition with_last (V : Z) (L : list (gmap (list Z) WorkingNode)) (R : gmap (list Z) WorkingNode) : WorkingPatchSet :=
  {| root_version := V; changes_by_nibble_count := L ++ [R] |}.

Lemma wlook_last V L R h q : length L = (64 - h)%nat -> wlook (with_last V L R) h q = R !! nibble_bytes (nib h q).
Proof.
  intros Hlen. unfold wlook, with_last. cbn [changes_by_nibble_count]. rewrite <- Hlen, lookup_app_r by done.
  by rewrite Nat.sub_diag.
Qed.

Lemma wlook_upper V L R h q :
  (64 - h < length L)%nat -> wlook (with_last V L R) h q = L !! (64 - h)%nat ≫= fun level => level !! nibble_bytes (nib h q).
Proof. intros Hlt. unfold wlook, with_last. cbn [changes_by_nibble_count]. by rewrite lookup_app_l. Qed.

Lemma positions_ok_last V L L' R R' :
  (forall i level' b wn', L' !! i = Some level' -> level' !! b = Some wn' ->
     exists level wn, L !! i = Some level /\ level !! b = Some wn) ->
  length L' = length L -> (forall b wn, R' !! b = Some wn -> is_Some (R !! b)) ->
  positions_ok (with_last V L R) -> positions_ok (with_last V L' R').
Proof.
  intros HL Hlen HR Hpos i level b wn Hi Hb. unfold positions_ok, with_last in *. cbn [changes_by_nibble_count] in *.
  apply lookup_app_Some in Hi as [Hi|[Hge Hi]].
  - destruct (HL i level b wn Hi Hb) as (level0 & wn0 & Hi0 & Hb0). apply (Hpos i level0 b wn0); [|done].
    by apply lookup_app_l_Some.
  - apply list_lookup_singleton_Some in Hi as [Hi <-]. destruct (HR b wn Hb) as [wn0 Hb0].
    apply (Hpos i R b wn0); [|done]. rewrite lookup_app_r by lia. by rewrite <- Hlen, Hi.
Qed.

(** The hash that is written to the reference, if any. *)
Definition hash_known (D : nat -> Z -> Prop) (m : Leaves) (h : nat) (p : Z) (hash : option Z) : Prop :=
  match hash with
  | Some hash => hash = tree_hash (4 * h) (part h p m)
  | None => ~ D h p
  end.

Definition write_hash (hash : option Z) (c : ChildRef) : ChildRef :=
  match hash with
  | Some hash => {| cr_hash := hash; cr_version := cr_version c; is_leaf := is_leaf c |}
  | None => c
  end.

Lemma retire_last V L R h p wn n n2 c prev upper hash :
  (h < 64)%nat -> valid h p -> length L = (64 - h)%nat -> R !! nibble_bytes (nib h p) = None ->
  positions_ok (with_last V L (<[nibble_bytes (nib h p) := wn]> R)) ->
  L !! (64 - S h)%nat = Some upper ->
  upper !! nibble_bytes (nib (S h) (p / 16)) = Some {| inner := Internal n; prev_version := prev |} ->
  child_at n (p mod 16) = Some c -> node_wf n2 -> node_cache n2 = node_cache n ->
  (forall y, 0 <= y < 16 -> child_at n2 y = if decide (p mod 16 = y) then Some (write_hash (Some hash) c) else child_at n y) ->
  retired (with_last V L (<[nibble_bytes (nib h p) := wn]> R))
    (with_last V (<[(64 - S h)%nat := <[nibble_bytes (nib (S h) (p / 16)) := {| inner := Internal n2; prev_version := prev |}]> upper]> L) R)
    h p n n2 c hash.
Proof.
  intros Hh Hv Hlen HR Hpos Hup Hn Hc Hwf2 Hcache2 Hat2.
  assert (Hup' : (64 - S h < length L)%nat) by nat_lia.
  constructor; [done| | | |done..|].
  - eapply positions_ok_last; [| | |exact Hpos]; [|by rewrite length_insert|].
    + intros i level' b wn' Hi Hb. destruct (decide (i = (64 - S h)%nat)) as [->|Hne].
      * rewrite list_lookup_insert_eq in Hi by done. injection Hi as <-. exists upper.
        apply lookup_insert_Some in Hb as [[<- _]|[_ Hb]]; eauto.
      * rewrite list_lookup_insert_ne in Hi by done. eauto.
    + intros b wn' Hb. destruct (decide (b = nibble_bytes (nib h p))) as [->|]; [by rewrite lookup_insert_eq|].
      by rewrite lookup_insert_ne.
  - rewrite wlook_last by (by rewrite length_insert). done.
  - exists prev. rewrite !wlook_upper by (rewrite ?length_insert; done). rewrite Hup, list_lookup_insert_eq by done.
    cbn -[nib nibble_bytes]. by rewrite Hn, lookup_insert_eq.
  - intros h1 q Hv1 Hne1 Hne2. destruct (decide (h1 = h)) as [->|Hneh].
    { rewrite !wlook_last by (rewrite ?length_insert; done). rewrite lookup_insert_ne; [done|].
      intros Heq%nib_inj; [by apply Hne1|apply Hv|apply Hv|apply Hv1]. }
    destruct (decide (h1 < h)%nat) as [Hlt|Hge].
    { rewrite !wlook_deep; [done|..]; cbn [with_last changes_by_nibble_count]; rewrite length_app, ?length_insert; cbn [length]; destruct Hv1; nat_lia. }
    rewrite !wlook_upper by (rewrite ?length_insert; destruct Hv1; nat_lia).
    destruct (decide (h1 = S h)) as [->|Hne'].
    + rewrite Hup, list_lookup_insert_eq by done. cbn -[nib nibble_bytes]. rewrite lookup_insert_ne; [done|].
      intros Heq%nib_inj; [by apply Hne2|nat_lia|apply valid_parent; done|apply Hv1].
    + rewrite list_lookup_insert_ne; [done|]. destruct Hv1; nat_lia.
Qed.

Lemma patched_over_insert N P key node key' :
  patched_over N (<[key := node]> P) key' = if decide (key = key') then Some (node_clone node) else patched_over N P key'.
Proof.
  unfold patched_over. destruct (decide (key = key')) as [->|Hne]; [by rewrite lookup_insert_eq|by rewrite lookup_insert_ne].
Qed.

(** The new nodes: those of the current version, except for unchanged nodes. *)
Lemma finalize_settled N P V op h p r wn m P2 replaced :
  fresh (patched_over N P) V (Some op) h p r wn m ->
  replaced = match prev_version wn with None => true | Some prev => prev <? r end ->
  P2 = (if replaced || bool_decide (op = Update) then <[with_version (nib h p) r := inner wn]> P else P) ->
  settled (patched_over N P) V (Some op) h p r wn (patched_over N P2) /\
  (forall key node, P2 !! key = Some node -> P !! key = Some node \/ nk_version key = V).
Proof.
  intros Hfresh -> ->.
  assert (Hins : r = V -> settled (patched_over N P) V (Some op) h p r wn (patched_over N (<[with_version (nib h p) r := inner wn]> P)) /\
    (forall key node, <[with_version (nib h p) r := inner wn]> P !! key = Some node -> P !! key = Some node \/ nk_version key = V)).
  { intros Hr. split.
    - split; [intros key Hne; by rewrite patched_over_insert, decide_False|left]. by rewrite patched_over_insert, decide_True.
    - intros key node [[<- _]|[_ ?]]%lookup_insert_Some; [by right|by left]. }
  destruct op; cbn [fresh] in Hfresh.
  - rewrite bool_decide_eq_false_2, orb_false_r by done.
    destruct Hfresh as [[Hr Hprev]|(Hprev & Hlt & _)].
    + destruct (prev_version wn) as [q|]; [|by apply Hins]. specialize (Hprev q eq_refl).
      destruct (Z.ltb_spec q r); [by apply Hins|lia].
    + rewrite Hprev, Z.ltb_irrefl. split; [|by left]. split; [done|right]. done.
  - rewrite bool_decide_eq_true_2, orb_true_r by done. by apply Hins.
Qed.

Lemma finalize_node_ok N V D op m h p wn R st hash :
  (h < 64)%nat -> valid h p -> length (levels st) = (64 - h)%nat -> R !! nibble_bytes (nib h p) = None ->
  tree_ok (patched_over N (patched_nodes st)) (with_last V (levels st) (<[nibble_bytes (nib h p) := wn]> R)) D V (Some op) m ->
  hash_known D m h p hash ->
  exists st', finalize_node op st {| hn_nibbles := nib h p; hn_hash := hash; hn_node := wn |} = Ret st' /\
    length (levels st') = (64 - h)%nat /\
    tree_ok (patched_over N (patched_nodes st')) (with_last V (levels st') R) D V (Some op) m /\
    (forall key node, patched_nodes st' !! key = Some node -> patched_nodes st !! key = Some node \/ nk_version key = V).
Proof.
  intros Hh Hv Hlen HR Hok Hhash. set (W := with_last V (levels st) (<[nibble_bytes (nib h p) := wn]> R)) in *.
  assert (Hwn : wlook W h p = Some wn) by (unfold W; rewrite wlook_last by done; by rewrite lookup_insert_eq).
  destruct (working_at _ _ _ _ _ _ _ _ _ Hok Hv Hwn) as (r & _ & _ & _ & Href).
  destruct (Href Hh) as (n & c & (prev & Hn & Hc) & Hr & _ & Hclean & Hfresh). clear Href.
  destruct (node_wf_at _ _ _ _ _ _ _ _ _ _ Hok (valid_parent h p Hh Hv) Hn) as [Hwf _].
  pose proof Hn as Hn'. unfold W in Hn'. rewrite wlook_upper in Hn' by nat_lia.
  apply bind_Some in Hn' as (upper & Hup & Hn').
  pose proof (mod16_range p) as Hmod.
  destruct (modify_child_ref_spec n (p mod 16) (write_hash hash) Hwf Hmod) as (n2 & Hmodify & Hwf2 & Hcache2 & Hat2).
  unfold finalize_node. cbn [hn_nibbles hn_hash hn_node]. rewrite Hlen.
  replace (64 - h - 1)%nat with (64 - S h)%nat by nat_lia. unfold index_vec. rewrite Hup. cbn [expect]. rewrite outcome_Ret_bind.
  rewrite split_last_nib, outcome_Ret_bind by (done || apply Hv). cbn [expect]. rewrite outcome_Ret_bind, Hn'. cbn [expect].
  rewrite outcome_Ret_bind. cbn [inner prev_version]. rewrite child_ref_at, outcome_Ret_bind, Hc by done. cbn [expect].
  rewrite outcome_Ret_bind. unfold write_hash in Hmodify. rewrite Hmodify, outcome_Ret_bind.
  eexists. split; [done|]. cbn [levels patched_nodes]. rewrite length_insert. split; [done|].
  subst r. edestruct (finalize_settled N (patched_nodes st) V op h p (cr_version c) wn) as [Hset Hkeys]; [done..|].
  split; [|exact Hkeys].
  eapply (retired_tree_ok _ _ W _ D V (Some op) m h p n n2 c wn Hok Hh Hv Hwn); [| |exact Hset].
  - intros h1 q Hlt Hv1. apply wlook_deep. cbn [W with_last changes_by_nibble_count]. rewrite length_app. cbn [length].
    destruct Hv1; nat_lia.
  - eapply retire_last; [done..|apply Hok|done|done|done|done|done|]. intros y Hy. rewrite Hat2, Hc by done.
    destruct (decide (p mod 16 = y)); [|done]. cbn [fmap option_fmap option_map]. f_equal.
    destruct hash as [hash|]; cbn [write_hash hash_known] in *; [by rewrite Hhash|].
    rewrite <- (Hclean Hhash). by destruct c.
Qed.

(** ** Levels *)

(** The nodes of the level at height [h] with their hashes. *)
Definition hashed_node (D : nat -> Z -> Prop) (m : Leaves) (h : nat) (kv : list Z * WorkingNode) (n : HashedNode) : Prop :=
  exists p, valid h p /\ kv.1 = nibble_bytes (nib h p) /\ hash_known D m h p (hn_hash n) /\
    n = {| hn_nibbles := nib h p; hn_hash := hn_hash n; hn_node := kv.2 |}.

Definition patch_extends (V : Z) (P P2 : gmap NodeKey Node) : Prop :=
  forall key node, P2 !! key = Some node -> P !! key = Some node \/ nk_version key = V.

Lemma finalize_level_ok N V D op m h l : forall hashed st,
  (h < 64)%nat -> NoDup l.*1 -> Forall2 (hashed_node D m h) l hashed -> length (levels st) = (64 - h)%nat ->
  tree_ok (patched_over N (patched_nodes st)) (with_last V (levels st) (list_to_map l)) D V (Some op) m ->
  exists st', foldM (finalize_node op) st hashed = Ret st' /\ length (levels st') = (64 - h)%nat /\
    tree_ok (patched_over N (patched_nodes st')) (with_last V (levels st') ∅) D V (Some op) m /\
    patch_extends V (patched_nodes st) (patched_nodes st').
Proof.
  induction l as [|[b wn] l IH]; intros hashed st Hh Hnd Hl Hlen Hok.
  { apply Forall2_nil_inv_l in Hl as ->. exists st. do 3 (split; [done|]). intros key node Hkey. by left. }
  apply Forall2_cons_inv_l in Hl as (n & hashed' & (p & Hv & Hb & Hhash & Hn) & Hl & ->). cbn [fst snd] in Hb, Hn. subst b.
  cbn [fmap list_fmap fst] in Hnd. apply NoDup_cons in Hnd as [Hnot Hnd]. cbn [list_to_map foldr fst snd] in Hok.
  destruct (finalize_node_ok N V D op m h p wn (list_to_map l) st (hn_hash n)) as (st1 & Hst1 & Hlen1 & Hok1 & Hext1); [done..| |done|done|].
  { by apply not_elem_of_list_to_map. }
  destruct (IH hashed' st1 Hh Hnd Hl Hlen1 Hok1) as (st2 & Hst2 & Hlen2 & Hok2 & Hext2).
  exists st2. cbn [foldM]. rewrite Hn, Hst1, outcome_Ret_bind. split; [done|]. split; [done|]. split; [done|].
  intros key node Hkey. destruct (Hext2 key node Hkey) as [Hkey1|]; [|by right]. by apply Hext1.
Qed.

(** The invariant only depends on what the patch set holds. *)
Lemma tree_ok_ext N W W2 D V op m :
  positions_ok W2 -> root_version W2 = root_version W -> (forall h p, valid h p -> wlook W2 h p = wlook W h p) ->
  tree_ok N W D V op m -> tree_ok N W2 D V op m.
Proof.
  intros Hpos Hver Heq Hok. constructor; [done| |rewrite Hver; apply Hok|apply Hok|].
  - intros h p wn Hh Hv Hwn. rewrite Heq in Hwn by done.
    destruct (ok_linked _ _ _ _ _ _ Hok h p wn Hh Hv Hwn) as (n & c & prev & Hn & Hc). exists n, c, prev.
    rewrite Heq; [done|]. by apply valid_parent.
  - rewrite Heq by exact valid_root. pose proof (ok_root _ _ _ _ _ _ Hok) as Hroot. destruct (wlook W 64 0); [|done].
    eapply working_frame; [exact valid_root| |exact Hroot]. intros h1 q _ Hv1 _. by split; [apply Heq|].
Qed.

Lemma tree_ok_nodes N N2 W D V op m : (forall key, N2 key = N key) -> tree_ok N W D V op m -> tree_ok N2 W D V op m.
Proof.
  intros Heq Hok. constructor; [apply Hok..|]. pose proof (ok_root _ _ _ _ _ _ Hok) as Hroot.
  destruct (wlook W 64 0); [|done]. eapply working_frame; [exact valid_root| |exact Hroot]. auto.
Qed.

Lemma tree_ok_pop N V L D op m :
  tree_ok N (with_last V L ∅) D V op m -> tree_ok N {| root_version := V; changes_by_nibble_count := L |} D V op m.
Proof.
  intros Hok. apply (tree_ok_ext N (with_last V L ∅)); [|done| |exact Hok].
  - intros i level b wn Hi Hb. apply (ok_positions _ _ _ _ _ _ Hok i level b wn); [|done]. by apply lookup_app_l_Some.
  - intros h p _. unfold wlook. cbn [with_last changes_by_nibble_count]. destruct (decide (64 - h < length L)%nat) as [Hlt|Hge].
    + by rewrite lookup_app_l.
    + rewrite lookup_ge_None_2, lookup_app_r by lia. destruct (64 - h - length L)%nat as [|i]; [|by destruct i].
      cbn [lookup list_lookup mbind option_bind]. by rewrite lookup_empty.
Qed.

Lemma with_last_take V L level c :
  L !! c = Some level -> length L = S c -> {| root_version := V; changes_by_nibble_count := L |} = with_last V (take c L) level.
Proof. intros Hc Hlen. unfold with_last. f_equal. rewrite <- (take_S_r L c level Hc). by rewrite firstn_all2 by lia. Qed.

(** What the function passed to [finalize_inner] does on the levels. *)
Definition levels_hashed (f : nat -> gmap (list Z) WorkingNode -> outcome (list HashedNode))
    (D : nat -> Z -> Prop) (V : Z) (op : Operation) (m : Leaves) : Prop :=
  (forall c, f c ∅ = Ret []) /\
  forall N L level h, (h <= 64)%nat -> length L = (64 - h)%nat -> ((h < 64)%nat \/ m <> ∅) ->
    tree_ok N (with_last V L level) D V (Some op) m ->
    exists hashed, f (64 - h)%nat level = Ret hashed /\ Forall2 (hashed_node D m h) (map_to_list level) hashed.

Definition finalized (N : Nodes) (D : nat -> Z -> Prop) (V : Z) (op : Operation) (m : Leaves) (manifest : Manifest)
    (leaf_count : Z) (P0 : gmap NodeKey Node) (res : option Z * PatchSet) : Prop :=
  exists hash node P stale, res = (hash, patch_new manifest V (RootFilled leaf_count node) P stale op) /\
    hash_known D m 64 0 hash /\ stored (patched_over N P) 64 0 V (node_clone node) m /\ patch_extends V P0 P.

Lemma finalize_levels_ok N V D op m f manifest leaf_count : forall c st,
  levels_hashed f D V op m -> m <> ∅ -> leaf_count <> 0 -> length (levels st) = S c ->
  tree_ok (patched_over N (patched_nodes st)) {| root_version := V; changes_by_nibble_count := levels st |} D V (Some op) m ->
  exists res, finalize_levels V manifest leaf_count op f (S c) st = Ret res /\
    finalized N D V op m manifest leaf_count (patched_nodes st) res.
Proof.
  intros c. induction c as [|c IH]; intros st Hf Hm Hcount Hlen Hok; pose proof Hf as [Hempty Hlevel].
  - destruct (levels st) as [|level [|]] eqn:HL; try done. cbn [finalize_levels]. rewrite HL.
    rewrite (with_last_take V [level] level 0) in Hok by done. change (take 0 [level]) with (@nil (gmap (list Z) WorkingNode)) in *.
    destruct (Hlevel _ [] level 64%nat ltac:(done) eq_refl (or_intror Hm) Hok) as (hashed & Heq & Hall).
    change (64 - 64)%nat with 0%nat in Heq. cbn [index_vec expect lookup list_lookup]. rewrite outcome_Ret_bind, Heq, outcome_Ret_bind.
    pose proof (ok_root _ _ _ _ _ _ Hok) as Hroot. rewrite wlook_last in Hroot by done.
    destruct (map_to_list level) as [|[b wn] l] eqn:Hl.
    { apply map_to_list_empty_iff in Hl as ->. rewrite lookup_empty in Hroot. done. }
    apply Forall2_cons_inv_l in Hall as (n & hashed' & (p & Hv & Hb & Hhash & Hn) & _ & ->). cbn [fst snd] in Hb, Hn.
    apply valid_root_eq in Hv as ->. assert (Hwn : level !! b = Some wn) by (apply elem_of_map_to_list; rewrite Hl; left).
    subst b. rewrite Hwn in Hroot. rewrite Hn. unfold finalize_root. cbn [hn_hash hn_node hn_nibbles]. unfold root_new.
    destruct (Z.eqb_spec leaf_count 0); [done|]. rewrite outcome_Ret_bind. eexists. split; [done|].
    exists (hn_hash n), (inner wn), (patched_nodes st). eexists. split; [done|]. split; [done|]. split; [|by left].
    eapply working_stored; [exact valid_root| |done|exact Hroot]. intros h1 q Hlt Hv1 _. apply wlook_deep. cbn.
    destruct Hv1; nat_lia.
  - destruct (lookup_lt_is_Some_2 (levels st) (S c) ltac:(lia)) as [level Hlv].
    cbn [finalize_levels]. unfold index_vec. rewrite Hlv. cbn [expect]. rewrite outcome_Ret_bind.
    rewrite (with_last_take V (levels st) level (S c)) in Hok by done.
    assert (Hlen' : length (take (S c) (levels st)) = S c) by (rewrite length_take; lia).
    assert (exists st', (hashed ← f (S c) level; foldM (finalize_node op)
        {| levels := take (S c) (levels st); patched_nodes := patched_nodes st; finalize_stale_keys := finalize_stale_keys st |} hashed) = Ret st' /\
      length (levels st') = S c /\ tree_ok (patched_over N (patched_nodes st')) (with_last V (levels st') ∅) D V (Some op) m /\
      patch_extends V (patched_nodes st) (patched_nodes st')) as (st' & Heq & Hlen2 & Hok2 & Hext).
    { destruct (decide (S c <= 64)%nat) as [Hle|Hgt].
      - destruct (Hlevel _ (take (S c) (levels st)) level (64 - S c)%nat ltac:(nat_lia) ltac:(nat_lia) ltac:(left; nat_lia) Hok)
          as (hashed & Heq & Hall).
        replace (64 - (64 - S c))%nat with (S c) in Heq by nat_lia. rewrite Heq, outcome_Ret_bind.
        rewrite <- (list_to_map_to_list level) in Hok.
        destruct (finalize_level_ok N V D op m (64 - S c) (map_to_list level) hashed
          {| levels := take (S c) (levels st); patched_nodes := patched_nodes st; finalize_stale_keys := finalize_stale_keys st |})
          as (st' & Hst' & Hlen2 & Hok2 & Hext); [nat_lia|apply NoDup_fst_map_to_list|done|cbn; nat_lia|done|].
        exists st'. split; [done|]. split; [nat_lia|]. done.
      - assert (level = ∅) as ->.
        { apply map_empty. intros b. destruct (level !! b) as [wn|] eqn:Hb; [|done]. exfalso.
          destruct (ok_positions _ _ _ _ _ _ Hok (S c) level b wn) as [Hle _]; [|done|nat_lia].
          cbn [with_last changes_by_nibble_count]. rewrite lookup_app_r by nat_lia. by rewrite Hlen', Nat.sub_diag. }
        rewrite Hempty, outcome_Ret_bind. eexists. split; [done|]. split; [done|]. split; [done|]. by left. }
    destruct (f (S c) level) as [hashed|]; [|done]. rewrite outcome_Ret_bind in Heq. rewrite outcome_Ret_bind, Heq, outcome_Ret_bind.
    apply tree_ok_pop in Hok2. destruct (IH st' Hf Hm Hcount Hlen2 Hok2) as (res & Hres & hash & node & P & stale & Hr & Hh & Hst & HP).
    exists res. split; [done|]. exists hash, node, P, stale. split; [done|]. split; [done|]. split; [done|].
    intros key nd Hkey. destruct (HP key nd Hkey) as [Hk|]; [|by right]. by apply Hext.
Qed.

Lemma node_hash_clone node level : node_hash (node_clone node) level = node_hash node level.
Proof. by destruct node. Qed.

(** The nodes of a level with nothing below it. *)
Lemma level_node N V L level D op m h b wn :
  (h <= 64)%nat -> length L = (64 - h)%nat -> ((h < 64)%nat \/ m <> ∅) ->
  tree_ok N (with_last V L level) D V op m -> level !! b = Some wn ->
  exists p r, valid h p /\ b = nibble_bytes (nib h p) /\ stored N h p r (node_clone (inner wn)) (part h p m).
Proof.
  intros Hh Hlen Hne Hok Hb.
  destruct (ok_positions _ _ _ _ _ _ Hok (64 - h)%nat level b wn) as (_ & p & Hv & ->); [|done|].
  { cbn [with_last changes_by_nibble_count]. by rewrite lookup_app_r, Hlen, Nat.sub_diag by lia. }
  replace (64 - (64 - h))%nat with h in * by lia. rewrite <- (wlook_last V L) in Hb by done.
  destruct (working_at _ _ _ _ _ _ _ _ _ Hok Hv Hb) as (r & _ & Hwork & _). exists p, r. split; [done|]. split; [done|].
  eapply working_stored; [done| | |exact Hwork].
  - intros h1 q Hlt Hv1 _. apply wlook_deep. cbn [with_last changes_by_nibble_count]. rewrite length_app. cbn [length].
    destruct Hv1; nat_lia.
  - destruct (decide (h = 64%nat)) as [->|].
    + apply valid_root_eq in Hv as ->. rewrite part_root by apply Hok. destruct Hne; [nat_lia|done].
    + eapply working_nonempty; [|exact Hwork]. nat_lia.
Qed.

Lemma hash_level_nodes_ok D V op m : levels_hashed hash_level_nodes D V op m.
Proof.
  split; [intros c; unfold hash_level_nodes; by rewrite map_to_list_empty|].
  intros N L level h Hh Hlen Hne Hok. unfold hash_level_nodes.
  assert (Hall : Forall (fun kv : list Z * WorkingNode => exists n, hashed_node D m h kv n /\
    (hash ← node_hash (inner kv.2) ((64 - h) * 4);
     Ret {| hn_nibbles := nibbles_from_parts kv.1 (64 - h); hn_hash := Some hash; hn_node := kv.2 |}) = Ret n) (map_to_list level)).
  { apply Forall_forall. intros [b wn] Hin%elem_of_map_to_list.
    destruct (level_node N V L level D (Some op) m h b wn Hh Hlen Hne Hok Hin) as (p & r & Hv & -> & Hst).
    eexists. split; [|cbn [fst snd]; rewrite <- node_hash_clone; replace ((64 - h) * 4)%nat with (TREE_DEPTH - 4 * h)%nat by (unfold TREE_DEPTH; lia);
      rewrite (stored_hash _ _ _ _ _ _ Hh Hst), outcome_Ret_bind; done].
    exists p. done. }
  apply Forall_exists_Forall2_l in Hall as [hashed Hall]. exists hashed. split.
  - apply map_outcome_Ret. eapply Forall2_impl; [exact Hall|]. by intros [b wn] n [_ ?].
  - eapply Forall2_impl; [exact Hall|]. by intros kv n [? _].
Qed.

Lemma plain_level_nodes_ok D V op m : (forall h p, ~ D h p) -> levels_hashed plain_level_nodes D V op m.
Proof.
  intros HD. split; [intros c; unfold plain_level_nodes; by rewrite map_to_list_empty|].
  intros N L level h Hh Hlen Hne Hok. eexists. split; [done|]. apply Forall2_fmap_r, Forall_Forall2_diag, Forall_forall.
  intros [b wn] Hin%elem_of_map_to_list.
  destruct (level_node N V L level D (Some op) m h b wn Hh Hlen Hne Hok Hin) as (p & r & Hv & -> & _).
  exists p. split; [done|]. split; [done|]. split; [apply HD|done].
Qed.

(** ** [WorkingPatchSet::finalize] *)

Lemma finalize_inner_ok N W D V op m f manifest leaf_count :
  levels_hashed f D V op m -> m <> ∅ -> leaf_count <> 0 -> tree_ok N W D V (Some op) m ->
  exists res, finalize_inner W manifest leaf_count op f = Ret res /\ finalized N D V op m manifest leaf_count ∅ res.
Proof.
  intros Hf Hm Hcount Hok. unfold finalize_inner. destruct (forallb _ _) eqn:Hall.
  { exfalso. rewrite forallb_forall in Hall. pose proof (ok_root _ _ _ _ _ _ Hok) as Hroot.
    destruct (wlook W 64 0) as [wn|] eqn:Hwn; [|done]. unfold wlook in Hwn. apply bind_Some in Hwn as (level & Hlv & Hwn).
    specialize (Hall level ltac:(eapply list_elem_of_In, list_elem_of_lookup_2; exact Hlv)).
    apply bool_decide_eq_true in Hall as ->. by rewrite lookup_empty in Hwn. }
  destruct (changes_by_nibble_count W) as [|level rest] eqn:HL; [done|]. cbn [length].
  rewrite (ok_version _ _ _ _ _ _ Hok). apply finalize_levels_ok; [done..|]. cbn [levels patched_nodes].
  eapply (tree_ok_ext _ W); [|by rewrite (ok_version _ _ _ _ _ _ Hok)| |].
  - intros i lv b wn. cbn [changes_by_nibble_count]. rewrite <- HL. apply Hok.
  - intros h p _. unfold wlook. by rewrite HL.
  - eapply tree_ok_nodes; [|exact Hok]. intros key. unfold patched_over. by rewrite lookup_empty.
Qed.

Lemma tree_ok_dirty N W (D D2 : nat -> Z -> Prop) V op m :
  (forall h p, D h p -> D2 h p) -> tree_ok N W D V op m -> tree_ok N W D2 V op m.
Proof.
  intros HD Hok. constructor; [apply Hok..|]. pose proof (ok_root _ _ _ _ _ _ Hok) as Hroot.
  destruct (wlook W 64 0); [|done]. eapply working_frame; [exact valid_root| |exact Hroot]. auto.
Qed.

(** What a patch with the given root and nodes adds to the nodes [N]. *)
Record patch_stores (N : Nodes) (V : Z) (m : Leaves) (node : Node) (P : gmap NodeKey Node) : Prop := {
  pa_stored : stored (patched_over N P) 64 0 V (node_clone node) m;
  pa_versions key n : P !! key = Some n -> nk_version key = V;
}.

Lemma patch_extends_empty V P : patch_extends V ∅ P -> forall key n, P !! key = Some n -> nk_version key = V.
Proof. intros HP key n Hkey. by destruct (HP key n Hkey) as [?|]. Qed.

Lemma working_finalize_ok N W D V op m manifest leaf_count :
  m <> ∅ -> leaf_count <> 0 -> tree_ok N W D V (Some op) m ->
  exists node P stale,
    working_finalize W manifest leaf_count op =
      Ret (tree_hash 256 m, patch_new manifest V (RootFilled leaf_count node) P stale op) /\
    patch_stores N V m node P.
Proof.
  intros Hm Hcount Hok. apply (tree_ok_dirty _ _ _ (fun _ _ => True)) in Hok as Hok'; [|done].
  destruct (finalize_inner_ok N W _ V op m hash_level_nodes manifest leaf_count (hash_level_nodes_ok _ V op m) Hm Hcount Hok')
    as (res & Heq & hash & node & P & stale & -> & Hhash & Hst & HP).
  destruct hash as [hash|]; cbn [hash_known] in Hhash; [|by destruct Hhash]. rewrite part_root in Hhash by apply Hok. subst hash.
  exists node, P, stale. unfold working_finalize. rewrite Heq, outcome_Ret_bind. split; [done|].
  split; [done|by apply patch_extends_empty].
Qed.

Lemma finalize_without_hashing_ok N W V m manifest leaf_count :
  m <> ∅ -> leaf_count <> 0 -> tree_ok N W (fun _ _ => False) V (Some Insert) m ->
  exists node P stale,
    finalize_without_hashing W manifest leaf_count = Ret (patch_new manifest V (RootFilled leaf_count node) P stale Insert) /\
    patch_stores N V m node P.
Proof.
  intros Hm Hcount Hok.
  destruct (finalize_inner_ok N W _ V Insert m plain_level_nodes manifest leaf_count
    (plain_level_nodes_ok _ V Insert m (fun _ _ HD => HD)) Hm Hcount Hok) as (res & Heq & hash & node & P & stale & -> & _ & Hst & HP).
  exists node, P, stale. unfold finalize_without_hashing. rewrite Heq, outcome_Ret_bind. split; [done|].
  split; [done|by apply patch_extends_empty].
Qed.

(** Without any leaves. *)
Lemma finalize_empty manifest leaf_count V op f :
  finalize_inner (working_new V RootEmpty) manifest leaf_count op f = Ret (None, patch_for_empty_root manifest V).
Proof. done. Qed.
End Finalize.
