(* ===== verification/TreeProofs.v ===== *)
(** * Merkle proofs of the state tree

    [create_proof] on a patch set that represents a set of leaves: the path it returns holds the
    hashes next to the way from the key to the root, for present and for absent keys, and only
    caches of nodes change. *)

From S2P Require Import Prelude Bytes Utils TreeUtils TreeTypes TreeHasher TreeDatabase TreeStorage TreeSpec TreeRange TreeInvariant TreeInsert TreeLoad TreeFinalize.
Open Scope Z_scope.

(** ** Changes of caches *)

Definition same_node (a b : Node) : Prop :=
  match a, b with
  | Internal n, Internal n' => children n' = children n
  | Leaf l, Leaf l' => l' = l
  | _, _ => False
  end.

(** The patch sets differ in the caches of nodes at most. *)
Record recached (W W2 : WorkingPatchSet) : Prop := {
  rc_version : root_version W2 = root_version W;
  rc_positions : positions_ok W -> positions_ok W2;
  rc_nodes h q : valid h q ->
    match wlook W h q, wlook W2 h q with
    | Some a, Some b => prev_version b = prev_version a /\ same_node (inner a) (inner b)
    | None, None => True
    | _, _ => False
    end;
}.

Lemma same_node_refl node : same_node node node.
Proof. by destruct node. Qed.

Lemma same_node_trans a b c : same_node a b -> same_node b c -> same_node a c.
Proof. destruct a, b, c; cbn; try done; congruence. Qed.

Lemma recached_refl W : recached W W.
Proof. split; [done|done|]. intros h q _. destruct (wlook W h q); [|done]. split; [done|apply same_node_refl]. Qed.

Lemma recached_trans W W2 W3 : recached W W2 -> recached W2 W3 -> recached W W3.
Proof.
  intros [Hv Hp Hn] [Hv2 Hp2 Hn2]. split; [congruence|by auto|]. intros h q Hvalid. specialize (Hn h q Hvalid). specialize (Hn2 h q Hvalid).
  destruct (wlook W h q), (wlook W2 h q), (wlook W3 h q); try done. destruct Hn, Hn2. split; [congruence|by eapply same_node_trans].
Qed.

Lemma same_node_leafb a b : same_node a b -> leafb b = leafb a.
Proof. by destruct a, b. Qed.

Lemma same_node_internal a b n : same_node a b -> b = Internal n -> exists n0, a = Internal n0 /\ children n = children n0.
Proof. intros Hs ->. destruct a as [n0|]; [|done]. by exists n0. Qed.

Lemma child_at_same n n' x : children n' = children n -> child_at n' x = child_at n x.
Proof. unfold child_at. by intros ->. Qed.

Lemma recached_internal W W2 h q n prev :
  recached W W2 -> valid h q -> wlook W2 h q = Some {| inner := Internal n; prev_version := prev |} ->
  exists n0, wlook W h q = Some {| inner := Internal n0; prev_version := prev |} /\ children n = children n0.
Proof.
  intros HW Hv Hn. pose proof (rc_nodes _ _ HW h q Hv) as Hs. rewrite Hn in Hs.
  destruct (wlook W h q) as [[a preva]|]; [|done]. destruct Hs as [Hprev Hs]. cbn [inner prev_version] in *.
  destruct (same_node_internal a (Internal n) n Hs eq_refl) as (n0 & -> & Hch). exists n0. by rewrite Hprev.
Qed.

Lemma recached_some W W2 h q : recached W W2 -> valid h q -> is_Some (wlook W h q) <-> is_Some (wlook W2 h q).
Proof.
  intros HW Hv. pose proof (rc_nodes _ _ HW h q Hv) as Hs. destruct (wlook W h q), (wlook W2 h q); try done; split; eauto.
Qed.

Lemma recached_linked W W2 : recached W W2 -> linked W -> linked W2.
Proof.
  intros HW HL h p wn Hh Hv Hwn. assert (is_Some (wlook W h p)) as [wn0 Hwn0] by (apply (recached_some W W2); eauto).
  destruct (HL h p wn0 Hh Hv Hwn0) as (n & c & prev & Hn & Hc).
  pose proof (rc_nodes _ _ HW (S h) (p / 16) (valid_parent h p Hh Hv)) as Hs. rewrite Hn in Hs.
  destruct (wlook W2 (S h) (p / 16)) as [[[n2|l2] prev2]|]; try done; destruct Hs as [Hprev Hs]; [|done]. cbn in Hprev, Hs.
  exists n2, c, prev2. split; [done|]. by rewrite (child_at_same n).
Qed.

Lemma recached_loaded W W2 k : recached W W2 -> unsigned 256 k -> loaded W k -> loaded W2 k.
Proof.
  intros HW Hk HL h n prev c Hh Hn Hc. destruct (recached_internal _ _ _ _ _ _ HW (valid_key (S h) k ltac:(nat_lia) Hk) Hn) as (n0 & Hn0 & Hch).
  rewrite (child_at_same n0) in Hc by done.
  apply (recached_some W W2); [done|apply valid_key; [nat_lia|done]|]. by eapply HL.
Qed.

Lemma recached_start W W2 k hs : recached W W2 -> unsigned 256 k -> start_ok W k hs -> start_ok W2 k hs.
Proof.
  intros HW Hk [Hhs Hor]. split; [done|]. destruct Hor as [->|Hs]; [by left|right].
  apply (recached_some W W2); [done|by apply valid_key|done].
Qed.

Section Proofs.
Context `{!HashTree, !HashTreeLaws}.

(** The caches of the nodes are right for the leaves [m]. *)
Definition caches_ok (W : WorkingPatchSet) (D : nat -> Z -> Prop) (m : Leaves) : Prop :=
  forall h p n prev, valid (S h) p -> wlook W (S h) p = Some {| inner := Internal n; prev_version := prev |} ->
    cache_clean D h p n (part (S h) p m).

Lemma tree_ok_caches N W D V op m : tree_ok N W D V op m -> caches_ok W D m.
Proof.
  intros Hok h p n prev Hv Hn. destruct (working_at _ _ _ _ _ _ _ _ _ Hok Hv Hn) as (r & _ & Hwork & _).
  cbn [inner working] in Hwork. apply Hwork.
Qed.

Lemma working_recached N W W2 D V op m h : forall q r node node2,
  recached W W2 -> caches_ok W2 D m -> valid h q -> same_node node node2 ->
  (forall h' n, h = S h' -> node2 = Internal n -> cache_clean D h' q n (part h q m)) ->
  working N W D V op h q r node (part h q m) -> working N W2 D V op h q r node2 (part h q m).
Proof.
  induction h as [|h IH]; intros q r node node2 HW Hc Hv Hs Hcache Hwork; destruct node as [n|l], node2 as [n2|l2]; try done;
    cbn [same_node] in Hs; [by subst l2| |by subst l2].
  cbn [working] in *. destruct Hwork as (Hwf & _ & Hmax & Hch).
  split; [unfold node_wf in *; by rewrite Hs|]. split; [by apply (Hcache h n2)|].
  setoid_rewrite (child_at_same n n2 _ Hs). split; [done|]. intros x Hx. specialize (Hch x Hx). pose proof (valid_child h q x Hv Hx) as Hv'.
  destruct (child_at n x) as [c|]; [|done]. destruct Hch as [Hver Hch]. split; [done|].
  pose proof (rc_nodes _ _ HW h (16 * q + x) Hv') as Hnodes. rewrite sub_part in * by done.
  destruct (wlook W h (16 * q + x)) as [a|], (wlook W2 h (16 * q + x)) as [b|] eqn:Hb; try done.
  destruct Hnodes as [Hprev Hsame]. destruct Hch as (Hhash & Hleaf & Hfresh & Hwork). split; [done|].
  split; [by rewrite (same_node_leafb _ _ Hsame)|]. split.
  - unfold fresh in *. by rewrite Hprev, (same_node_leafb _ _ Hsame).
  - eapply IH; [done..|exact Hsame| |exact Hwork]. intros h' n' -> Hn'. destruct b as [nb prevb]. cbn in Hn'. subst nb. by eapply Hc.
Qed.

Lemma recached_tree_ok N W W2 D V op m :
  recached W W2 -> caches_ok W2 D m -> tree_ok N W D V op m -> tree_ok N W2 D V op m.
Proof.
  intros HW Hc Hok. constructor; [by apply (rc_positions _ _ HW), Hok|by eapply recached_linked; [|apply Hok]| |apply Hok|].
  - rewrite (rc_version _ _ HW). apply Hok.
  - pose proof (ok_root _ _ _ _ _ _ Hok) as Hroot. pose proof (rc_nodes _ _ HW 64 0 valid_root) as Hs.
    destruct (wlook W 64 0) as [a|], (wlook W2 64 0) as [b|] eqn:Hb; try done. destruct Hs as [Hprev Hs].
    rewrite <- (part_root m) in Hroot |- * by apply Hok.
    eapply working_recached; [done..|exact valid_root|exact Hs| |exact Hroot].
    intros h' n [= <-] Hn. destruct b as [nb prevb]. cbn in Hn. subst nb. by eapply Hc; [exact valid_root|].
Qed.

(** A node gets a cache. *)
Lemma recache_insert N W D V op m h p n n' prev :
  tree_ok N W D V op m -> valid (S h) p -> wlook W (S h) p = Some {| inner := Internal n; prev_version := prev |} ->
  children n' = children n -> cache_clean D h p n' (part (S h) p m) ->
  recached W (working_insert W (nib (S h) p) (Internal n')) /\
  tree_ok N (working_insert W (nib (S h) p) (Internal n')) D V op m.
Proof.
  intros Hok Hv Hn Hch Hcache. set (W2 := working_insert W (nib (S h) p) (Internal n')).
  assert (HW : recached W W2).
  { split; [done|by intros; apply positions_ok_insert|]. intros h1 q Hv1. unfold W2. rewrite wlook_insert by done.
    destruct (decide (h1 = S h /\ q = p)) as [[-> ->]|Hne].
    - rewrite Hn. cbn. done.
    - destruct (wlook W h1 q); [|done]. split; [done|apply same_node_refl]. }
  split; [done|]. eapply recached_tree_ok; [done| |done]. intros h1 q n1 prev1 Hv1. unfold W2. rewrite wlook_insert by done.
  destruct (decide (S h1 = S h /\ q = p)) as [[[= ->] ->]|Hne].
  - intros [= <- _]. done.
  - by apply (tree_ok_caches N W D V op m Hok).
Qed.

(** ** Leaves next to the way to a key *)

Lemma pow16_pow2 h : pow16 h = 2 ^ Z.of_nat (4 * h).
Proof. rewrite pow16_2. f_equal. lia. Qed.

Lemma part_same h k m : part h (k / pow16 h) m = same (4 * h) k m.
Proof. unfold part, same. by rewrite pow16_pow2. Qed.

Lemma lxor_1_half z : Z.lxor z 1 / 2 = z / 2.
Proof. rewrite Z_lxor_1. pose proof (Z.mod_pos_bound z 2). div_lia. Qed.

Lemma lxor_1_ne z : Z.lxor z 1 <> z.
Proof. rewrite Z_lxor_1. pose proof (Z.mod_pos_bound z 2). lia. Qed.

Lemma pow2_div_trans z a b : (a <= b)%nat -> z / 2 ^ Z.of_nat b = z / 2 ^ Z.of_nat a / 2 ^ Z.of_nat (b - a).
Proof. intros Hab. rewrite Z.div_div by lia. rewrite <- Z.pow_add_r by lia. do 2 f_equal. lia. Qed.

(** Two different neighbours have the same ancestors. *)
Lemma sibling_above z z' a b :
  (a < b)%nat -> z' / 2 ^ Z.of_nat a = Z.lxor (z / 2 ^ Z.of_nat a) 1 -> z' / 2 ^ Z.of_nat b = z / 2 ^ Z.of_nat b.
Proof. intros Hab Heq. by rewrite (div_split z' a b), (div_split z a b), Heq, lxor_1_half by done. Qed.

(** Next to the way inside a subtree there are only leaves of the subtree. *)
Lemma sibling_part h j k m : (j < 4 * h)%nat -> sibling j k m = sibling j k (part h (k / pow16 h) m).
Proof.
  intros Hj. unfold sibling, part. rewrite map_filter_filter. apply map_filter_ext. intros z v _. cbn [fst].
  rewrite pow16_pow2. split; [|tauto]. intros Hz. split; [done|]. by eapply sibling_above.
Qed.

Lemma sibling_empty j k : sibling j k ∅ = ∅.
Proof. apply map_filter_empty. Qed.

Lemma sibling_leaf j k l :
  sibling j k (leaf_contents l) = if decide (full_key l / 2 ^ Z.of_nat j = Z.lxor (k / 2 ^ Z.of_nat j) 1) then leaf_contents l else ∅.
Proof.
  unfold sibling, leaf_contents. case_decide; [by apply map_filter_singleton_True|by apply map_filter_singleton_False].
Qed.

Lemma diverging_unique k k' d j :
  k' / 2 ^ Z.of_nat d = Z.lxor (k / 2 ^ Z.of_nat d) 1 -> k' / 2 ^ Z.of_nat j = Z.lxor (k / 2 ^ Z.of_nat j) 1 -> j = d.
Proof.
  intros Hd Hj. destruct (decide (j < d)%nat) as [Hlt|Hge].
  - exfalso. apply (lxor_1_ne (k / 2 ^ Z.of_nat d)). rewrite <- Hd. by eapply sibling_above.
  - destruct (decide (d < j)%nat) as [Hlt|]; [|lia]. exfalso. apply (lxor_1_ne (k / 2 ^ Z.of_nat j)). rewrite <- Hj. by eapply sibling_above.
Qed.

(** Pushing nothing while there are no leaves. *)
Lemma push_empties k m p n s :
  path_ok k m p -> (n <= current_level p)%nat ->
  (forall j, (TREE_DEPTH - current_level p <= j < TREE_DEPTH - current_level p + n)%nat -> sibling j k m = ∅) ->
  exists p', foldM (fun path (_ : nat) => path_push path None) p (seq s n) = Ret p' /\ path_ok k m p' /\
    current_level p' = (current_level p - n)%nat.
Proof.
  revert p s. induction n as [|n IH]; intros p s Hp Hn Hj; [exists p; split; [done|]; split; [done|lia]|].
  destruct (path_push_spec k m p None Hp ltac:(lia)) as (p1 & Hp1 & Hok1 & Hl1).
  { cbn [from_option]. rewrite Hj by lia. by rewrite tree_hash_empty. }
  pose proof (path_level _ _ _ Hp) as Hlevel.
  destruct (IH p1 (S s) Hok1 ltac:(lia)) as (p2 & Hp2 & Hok2 & Hl2).
  { intros j Hj1. apply Hj. lia. }
  exists p2. cbn [seq foldM]. rewrite Hp1, outcome_Ret_bind. split; [done|]. split; [done|lia].
Qed.

Lemma mismatch_path_ok he k m l :
  (he <= 64)%nat -> unsigned 256 k -> unsigned 256 (full_key l) -> full_key l <> k -> k / pow16 he = full_key l / pow16 he ->
  part he (k / pow16 he) m = leaf_contents l ->
  exists p, mismatch_path k (nib he (k / pow16 he)) l = Ret p /\ path_ok k m p /\ current_level p = (TREE_DEPTH - 4 * he)%nat.
Proof.
  intros Hhe Hk Hk' Hne Hdiv Hpart. destruct (diverging_ne k (full_key l) Hk Hk' ltac:(done)) as (Hd & Hfind & Hbit).
  set (d := diverging k (full_key l)) in *. unfold mismatch_path. rewrite Hfind. cbn [nib nibble_count].
  assert (Hlow : (d < 4 * he)%nat).
  { destruct (decide (d < 4 * he)%nat); [done|]. exfalso. apply (lxor_1_ne (k / 2 ^ Z.of_nat d)). rewrite <- Hbit.
    rewrite !pow16_pow2 in Hdiv. rewrite (pow2_div_trans k (4 * he) d), (pow2_div_trans (full_key l) (4 * he) d) by nat_lia. by rewrite Hdiv. }
  assert (Hsib : forall j, (j < 4 * he)%nat -> sibling j k m = if decide (j = d) then leaf_contents l else ∅).
  { intros j Hj. rewrite (sibling_part he) by done. rewrite Hpart, sibling_leaf.
    destruct (decide (j = d)) as [->|Hjd]; [by rewrite decide_True|]. rewrite decide_False; [done|].
    intros Heq. apply Hjd. by eapply diverging_unique. }
  rewrite leaf_hash_spec by nat_lia. rewrite outcome_Ret_bind. replace (TREE_DEPTH - (TREE_DEPTH - d))%nat with d by (unfold TREE_DEPTH; nat_lia).
  destruct (path_push_spec k m (path_new (TREE_DEPTH - d)) (Some (tree_hash d (leaf_contents l)))) as (p & -> & Hp & Hl).
  { apply path_new_ok; [nat_lia|]. intros j Hj. unfold TREE_DEPTH in *. rewrite Hsib, decide_False by nat_lia. by rewrite tree_hash_empty. }
  { cbn. unfold TREE_DEPTH. nat_lia. }
  { cbn [current_level path_new]. replace (TREE_DEPTH - (TREE_DEPTH - d))%nat with d by (unfold TREE_DEPTH; nat_lia). cbn.
    by rewrite Hsib, decide_True. }
  rewrite outcome_Ret_bind. cbn [current_level path_new] in Hl. unfold TREE_DEPTH in *.
  destruct (push_empties k m p (256 - d - (4 * (64 - he) + 1)) (4 * (64 - he) + 1) Hp ltac:(nat_lia)) as (p' & Hp' & Hok' & Hl').
  { unfold TREE_DEPTH. intros j Hj. rewrite Hsib, decide_False by nat_lia. done. }
  exists p'. split; [done|]. split; [done|nat_lia].
Qed.

(** The path below the end of the way. *)
Lemma path_start_ok he k m :
  (he <= 64)%nat -> (forall j, (j < 4 * he)%nat -> sibling j k m = ∅) -> path_ok k m (path_new ((64 - he) * 4)).
Proof.
  intros Hhe Hj. apply path_new_ok; [unfold TREE_DEPTH; lia|]. intros j Hlt. unfold TREE_DEPTH in Hlt.
  rewrite Hj by lia. by rewrite tree_hash_empty.
Qed.

(** ** The way up *)

(** A node whose references are all known. *)
Lemma node_hashed_at N W D V op m h p n prev :
  tree_ok N W D V op m -> valid (S h) p -> (forall q, ~ D h q) ->
  wlook W (S h) p = Some {| inner := Internal n; prev_version := prev |} -> node_hashed h n (part (S h) p m).
Proof.
  intros Hok Hv HD Hn. destruct (working_at _ _ _ _ _ _ _ _ _ Hok Hv Hn) as (r & _ & Hwork & _).
  cbn [inner working] in Hwork. destruct Hwork as (Hwf & Hcache & _ & Hch). split; [done| |].
  - apply child_hashes_of. intros x Hx. specialize (Hch x Hx). destruct (child_at n x) as [c|]; [|done].
    destruct Hch as [_ Hch]. destruct (wlook W h (16 * p + x)); [|by destruct Hch]. destruct Hch as (Hhash & _). by apply Hhash.
  - intros cache Hc. destruct (Hcache cache Hc) as (m0 & Hm0 & Hsub).
    rewrite <- (sub_ext h (part (S h) p m) m0); [done|]. intros x Hx. by apply Hsub.
Qed.

Lemma node_hashed_clean D h p n m : node_hashed h n m -> cache_clean D h p n m.
Proof. intros [_ _ Hc] cache Hcache. exists m. split; [by apply Hc|done]. Qed.

(** The nodes on the way to a key above height [h]. *)
Definition path_internal (W : WorkingPatchSet) (k : Z) (h top : nat) : Prop :=
  forall h1, (h < h1 <= top)%nat -> exists n prev, wlook W h1 (k / pow16 h1) = Some {| inner := Internal n; prev_version := prev |}.

Lemma recached_path W W2 k h top : recached W W2 -> unsigned 256 k -> (top <= 64)%nat -> path_internal W k h top -> path_internal W2 k h top.
Proof.
  intros HW Hk Htop Hp h1 Hh1. destruct (Hp h1 Hh1) as (n & prev & Hn).
  pose proof (rc_nodes _ _ HW h1 (k / pow16 h1) (valid_key h1 k ltac:(nat_lia) Hk)) as Hs. rewrite Hn in Hs.
  destruct (wlook W2 h1 (k / pow16 h1)) as [[[n2|l] prev2]|]; try done; [by eexists _, _|]. by destruct Hs.
Qed.

Lemma prove_loop_ok N D V op m k rc fuel : forall h W p,
  (rc <= 64)%nat -> (h <= 64 - rc)%nat -> (64 - rc - h < fuel)%nat -> unsigned 256 k ->
  (forall h1 q, (h1 < 64 - rc)%nat -> ~ D h1 q) ->
  tree_ok N W D V op m -> path_internal W k h (64 - rc) -> path_ok k m p -> current_level p = (TREE_DEPTH - 4 * h)%nat ->
  exists W2 p2, prove_loop fuel W (nib h (k / pow16 h)) rc p = Ret (W2, p2) /\ recached W W2 /\
    tree_ok N W2 D V op m /\ path_ok k m p2 /\ current_level p2 = (4 * rc)%nat.
Proof.
  induction fuel as [|fuel IH]; intros h W p Hrc Hh Hfuel Hk HD Hok Hpath Hp Hlevel; [nat_lia|]. cbn [prove_loop].
  destruct (decide (h = 64 - rc)%nat) as [Heq|Hne].
  - exists W, p. assert (current_level p = (4 * rc)%nat) as Hl by (unfold TREE_DEPTH in *; nat_lia).
    pose proof (recached_refl W) as Hrefl. destruct (decide (h = 64)%nat) as [->|].
    + rewrite div_pow16_64, nib_EMPTY by done. done.
    + rewrite split_last_nib, outcome_Ret_bind by (first [nat_lia|apply valid_key; [nat_lia|done]]). cbn [nib nibble_count].
      destruct (Nat.ltb_spec (64 - S h) rc); [done|nat_lia].
  - rewrite split_last_nib, outcome_Ret_bind by (first [nat_lia|apply valid_key; [nat_lia|done]]). cbn [nib nibble_count].
    destruct (Nat.ltb_spec (64 - S h) rc); [nat_lia|]. rewrite <- key_parent.
    change ((k / pow16 h) mod 16) with (digit k h).
    assert (Hv : valid (S h) (k / pow16 (S h))) by (apply valid_key; [nat_lia|done]).
    destruct (Hpath (S h) ltac:(nat_lia)) as (n & prev & Hn).
    change (mkNibbles (64 - S h) (be_bytes KEY_SIZE (k / pow16 (S h) * pow16 (S h)))) with (nib (S h) (k / pow16 (S h))).
    rewrite working_get_nib, Hn. cbn [fmap option_fmap option_map inner].
    pose proof (node_hashed_at N W D V op m h _ n prev Hok Hv (fun q => HD h q ltac:(nat_lia)) Hn) as Hnode.
    rewrite part_same in Hnode.
    destruct (extend_merkle_path_spec h n k m p ltac:(nat_lia) Hnode Hp Hlevel) as (n' & p' & Heq & Hnode' & Hch & Hp' & Hl').
    replace ((64 - S h) * 4)%nat with (TREE_DEPTH - 4 * S h)%nat by (unfold TREE_DEPTH; nat_lia). rewrite Heq, outcome_Ret_bind.
    rewrite <- part_same in Hnode'.
    destruct (recache_insert N W D V op m h _ n n' prev Hok Hv Hn Hch (node_hashed_clean D h _ n' _ Hnode')) as [HW1 Hok1].
    destruct (IH (S h) _ p' Hrc ltac:(nat_lia) ltac:(nat_lia) Hk HD Hok1) as (W2 & p2 & Heq2 & HW2 & Hrest); [|done|done|].
    { eapply recached_path; [exact HW1|done|nat_lia|]. intros h1 Hh1. apply Hpath. nat_lia. }
    exists W2, p2. split; [done|]. split; [by eapply recached_trans|done].
Qed.

(** ** [create_proof] *)

Definition leaf_at (m : Leaves) (k : Z) : option LeafNode :=
  match m !! k with
  | Some (value, index) => Some {| full_key := k; value_hash := value; leaf_index := index |}
  | None => None
  end.

(** Nothing is next to the way below its end, unless there is a leaf with another key. *)
Lemma ends_path N W D V op m k he out :
  tree_ok N W D V op m -> unsigned 256 k -> (he <= 64)%nat -> ends W k he out ->
  leaf_at m k = match out with LeafMatch _ l => Some l | _ => None end /\ path_internal W k he 64 /\
  exists p, match out with
            | LeafMismatch nibbles leaf => mismatch_path k nibbles leaf
            | _ => Ret (path_new (nibble_count (position out) * 4))
            end = Ret p /\ path_ok k m p /\ current_level p = (TREE_DEPTH - 4 * he)%nat.
Proof.
  intros Hok Hk Hhe [Hpos Hend]. rewrite Hpos. cbn [nib nibble_count].
  assert (Hlink : forall wn h1, wlook W he (k / pow16 he) = Some wn -> (he < h1 <= 64)%nat ->
    exists n prev, wlook W h1 (k / pow16 h1) = Some {| inner := Internal n; prev_version := prev |}).
  { intros wn h1 Hwn Hh1. by eapply (path_linked W k he h1 wn); [apply Hok|..]. }
  assert (Hlevel : ((64 - he) * 4)%nat = (TREE_DEPTH - 4 * he)%nat) by (unfold TREE_DEPTH; nat_lia).
  destruct out as [nibbles l|nibbles l|nibbles]; cbn [position] in Hpos; subst nibbles.
  - destruct Hend as (Hkey & prev & Hwn). destruct (ends_parent _ _ _ _ _ _ _ _ Hok Hk Hhe _ _ Hwn) as (_ & _ & Hpart & Hm).
    split; [unfold leaf_at; rewrite <- Hkey, Hm; by destruct l|]. split; [intros h1 Hh1; by eapply Hlink|].
    eexists. split; [done|]. split; [|done]. apply path_start_ok; [done|]. intros j Hj.
    rewrite (sibling_part he), Hpart, sibling_leaf by done. rewrite decide_False; [done|]. rewrite Hkey. intros Heq. by apply (lxor_1_ne (k / 2 ^ Z.of_nat j)).
  - destruct Hend as (Hkey & prev & Hwn). destruct (ends_parent _ _ _ _ _ _ _ _ Hok Hk Hhe _ _ Hwn) as (Hdiv & Hk' & Hpart & Hm).
    split; [|split; [intros h1 Hh1; by eapply Hlink|by apply mismatch_path_ok]].
    unfold leaf_at. rewrite <- (part_lookup_key he), Hpart. unfold leaf_contents. by rewrite lookup_singleton_ne.
  - destruct Hend as (Hnone & Hor).
    assert (part he (k / pow16 he) m = ∅ /\ path_internal W k he 64) as [Hpart Hpath].
    { destruct Hor as [->|(n & prev & Hlt & Hn & Hc)].
      - rewrite div_pow16_64 in Hnone |- * by done. rewrite part_root by apply Hok.
        pose proof (ok_root _ _ _ _ _ _ Hok) as Hroot. rewrite Hnone in Hroot. split; [done|]. intros h1 Hh1. nat_lia.
      - destruct (working_missing _ _ _ _ _ _ he (k / pow16 he) n prev Hok Hlt) as [Hpart _];
          [by apply valid_key|by rewrite <- key_parent|done|]. split; [done|]. intros h1 Hh1.
        destruct (decide (h1 = S he)) as [->|]; [eauto|]. eapply (path_linked W k (S he) h1); [apply Hok|done|nat_lia|exact Hn]. }
    split; [|split; [done|]].
    + unfold leaf_at. by rewrite <- (part_lookup_key he), Hpart, lookup_empty.
    + eexists. split; [done|]. split; [|done]. apply path_start_ok; [done|]. intros j Hj.
      by rewrite (sibling_part he), Hpart, sibling_empty.
Qed.

Lemma create_proof_ok N W D V op m k hs rc :
  tree_ok N W D V op m -> unsigned 256 k -> loaded W k -> start_ok W k hs ->
  (rc = 0 \/ rc = 1 /\ exists n prev, wlook W 64 0 = Some {| inner := Internal n; prev_version := prev |})%nat ->
  (forall h1 q, (h1 < 64 - rc)%nat -> ~ D h1 q) ->
  exists p W2, create_proof W k (nib hs (k / pow16 hs)) rc = Ret (leaf_at m k, p, W2) /\ recached W W2 /\
    tree_ok N W2 D V op m /\ path_ok k m p /\ current_level p = (4 * rc)%nat.
Proof.
  intros Hok Hk Hload Hstart Hrc HD. unfold create_proof.
  destruct (traverse_spec N W D V op m k hs Hok Hk Hload Hstart) as (out & he & -> & Hhe & Hends). rewrite outcome_Ret_bind.
  assert (he <= 64)%nat as Hhe' by (destruct Hstart; nat_lia).
  destruct (ends_path N W D V op m k he out Hok Hk Hhe' Hends) as (Hleaf & Hpath & p & Hp & Hpok & Hl). rewrite Hp, outcome_Ret_bind.
  assert (he <= 64 - rc)%nat as Hhrc.
  { destruct Hrc as [->|(-> & n & prev & Hroot)]; [nat_lia|]. destruct (decide (he = 64%nat)) as [->|]; [|nat_lia]. exfalso.
    destruct Hends as [_ Hends]. rewrite div_pow16_64 in Hends by done. rewrite Hroot in Hends.
    destruct out; [by destruct Hends as (_ & ? & ?)..|by destruct Hends]. }
  assert (rc <= 1)%nat by (destruct Hrc as [->|[-> _]]; nat_lia). destruct Hends as [Hpos _]. rewrite Hpos.
  destruct (prove_loop_ok N D V op m k rc (2 * KEY_SIZE + 1) he W p) as (W2 & p2 & -> & HW2 & Hok2 & Hpok2 & Hl2);
    [nat_lia|done|unfold KEY_SIZE; nat_lia|done|done|done| |done|done|].
  { intros h1 Hh1. apply Hpath. nat_lia. }
  exists p2, W2. rewrite outcome_Ret_bind, Hleaf. done.
Qed.
End Proofs.
