(* ===== verification/TreeExtend.v ===== *)
(** * Extension of the state tree

    [Storage::extend] and [MerkleTree::extend] against the versioned map they implement: on a
    database that holds the leaves of the latest version, the new version holds the updated
    leaves, its root hash is their hash, and the older versions stay. *)

From S2P Require Import Prelude Bytes Utils TreeUtils TreeTypes TreeHasher TreeDatabase TreeStorage MerkleTree TreeSpec TreeInvariant TreeInsert TreeLoad TreeFinalize TreeProofs.
Open Scope Z_scope.

(** ** The effect on the leaves *)

Definition insert_entry (m : Leaves) (entry : TreeEntry) : Leaves := <[te_key entry := entry_value entry]> m.

Definition insert_entries (m : Leaves) (entries : list TreeEntry) : Leaves := foldl insert_entry m entries.

Fixpoint insert_logs (m : Leaves) (entries : list TreeEntry) : list TreeLogEntry :=
  match entries with
  | [] => []
  | entry :: entries => insert_log m (te_key entry) :: insert_logs (insert_entry m entry) entries
  end.

Definition leaves_count (m : Leaves) : Z := Z.of_nat (size m).

Lemma leaves_count_insert m entry :
  leaves_count (insert_entry m entry) = leaves_count m + match m !! te_key entry with Some _ => 0 | None => 1 end.
Proof.
  unfold leaves_count, insert_entry. destruct (m !! te_key entry) as [v|] eqn:Hk.
  - rewrite map_size_insert_Some by (by rewrite Hk). lia.
  - rewrite map_size_insert_None by done. lia.
Qed.

Lemma leaves_count_grows m entries : leaves_count m <= leaves_count (insert_entries m entries).
Proof.
  revert m. induction entries as [|entry entries IH]; intros m; [done|]. cbn [insert_entries foldl].
  specialize (IH (insert_entry m entry)). rewrite leaves_count_insert in IH. unfold insert_entries in IH.
  destruct (m !! te_key entry); lia.
Qed.

Lemma leaves_count_zero m : leaves_count m = 0 <-> m = ∅.
Proof. unfold leaves_count. rewrite <- map_size_empty_iff. lia. Qed.

Lemma leaves_count_no_leaves : leaves_count ∅ = 0.
Proof. done. Qed.

Lemma insert_entries_keys m entries :
  keys_ok m -> Forall (fun e => unsigned 256 (te_key e)) entries -> keys_ok (insert_entries m entries).
Proof.
  intros Hm Hall. revert m Hm. induction Hall as [|entry entries Hk _ IH]; intros m Hm; [done|].
  apply IH. by apply keys_ok_insert.
Qed.

Section Extend.
Context `{!HashTree, !HashTreeLaws}.

(** ** The loop over the entries *)

Lemma prepared_inserted N u u2 D V op m entry leaf_data k prefix :
  inserted N u u2 D V op m entry leaf_data -> unsigned 256 k -> prepared (patch_set u) k prefix -> prepared (patch_set u2) k prefix.
Proof.
  intros Hins Hk (hs & Hprefix & Hload & Hstart). exists hs. split; [done|].
  split; [by eapply inserted_loaded|by eapply inserted_start].
Qed.

Lemma extend_loop_ok N V op entries : forall prefixes u D m logs,
  tree_ok N (patch_set u) D V op m ->
  Forall2 (fun e prefix => unsigned 256 (te_key e) /\ prepared (patch_set u) (te_key e) prefix) entries prefixes ->
  leaves_count (insert_entries m entries) < 2 ^ 64 ->
  exists u2 D2, foldM extend_step (u, leaves_count m, logs) (zip entries prefixes) =
      Ret (u2, leaves_count (insert_entries m entries), logs ++ insert_logs m entries) /\
    tree_ok N (patch_set u2) D2 V op (insert_entries m entries).
Proof.
  induction entries as [|entry entries IH]; intros prefixes u D m logs Hok Hall Hcount.
  { exists u, D. cbn [zip zip_with foldM insert_entries foldl insert_logs]. by rewrite app_nil_r. }
  apply Forall2_cons_inv_l in Hall as (prefix & prefixes' & [Hk (hs & -> & Hload & Hstart)] & Hall & ->).
  destruct (updater_insert_spec N u D V op m entry hs Hok Hk Hload Hstart) as (u1 & leaf_data & Heq & Hins).
  cbn [zip zip_with foldM extend_step fst snd]. rewrite Heq, !outcome_Ret_bind.
  change (insert_entries m (entry :: entries)) with (insert_entries (insert_entry m entry) entries) in *.
  assert (Hlc : match insert_log m (te_key entry) with Inserted => wrap 64 (leaves_count m + 1) | _ => leaves_count m end =
    leaves_count (insert_entry m entry)).
  { pose proof (leaves_count_grows (insert_entry m entry) entries) as Hle. rewrite leaves_count_insert in Hle |- *.
    unfold insert_log. revert Hle. destruct (m !! te_key entry) as [[value index]|]; intros Hle; [lia|]. apply wrap_small. unfold unsigned, leaves_count in *. lia. }
  rewrite Hlc. destruct (IH prefixes' u1 _ (insert_entry m entry) (logs ++ [insert_log m (te_key entry)]) (in_tree _ _ _ _ _ _ _ _ _ Hins))
    as (u2 & D2 & Hfold & Hok2); [|done|].
  { eapply Forall2_impl; [exact Hall|]. intros e prefix [Hke Hp]. split; [done|]. by eapply prepared_inserted. }
  exists u2, D2. cbn [insert_logs]. rewrite Hfold, <- app_assoc. done.
Qed.
End Extend.

(** ** What a database promises *)

(** A patch over the roots and the nodes of a database. *)
Definition over_roots (roots : Z -> option Root) (patch : PatchSet) (v : Z) : option Root :=
  match patches_by_version patch !! v with
  | Some partial => root_clone <$> pp_root partial
  | None => roots v
  end.

Definition over_nodes (N : Nodes) (patch : PatchSet) (key : NodeKey) : option Node :=
  match patches_by_version patch !! nk_version key with
  | Some partial => node_clone <$> pp_nodes partial !! key
  | None => N key
  end.

(** The content of a database: nodes, roots and the manifest.  A patch with new versions adds
    their roots and nodes and keeps the older ones; a patch that only has a manifest may drop
    recent versions. *)
Class DatabaseLaws (DB : Type) `{!Database DB} := {
  db_ok : DB -> Prop;
  db_nodes : DB -> Nodes;
  db_roots : DB -> Z -> option Root;
  db_manifest : DB -> option Manifest;
  db_reads_ok db : db_ok db -> reads_ok db (db_nodes db);
  db_read_root db v : db_ok db -> try_root db v = Ok (db_roots db v);
  db_read_manifest db : db_ok db -> try_manifest db = Ok (db_manifest db);
  db_versions db key n :
    db_ok db -> db_nodes db key = Some n -> nk_version key < version_count (default manifest_default (db_manifest db));
  db_apply db patch :
    db_ok db -> updated_version patch = None ->
    (forall v, is_Some (patches_by_version patch !! v) ->
       version_count (default manifest_default (db_manifest db)) <= v < version_count (ps_manifest patch)) ->
    exists db', apply_patch db patch = Ret (Ok db') /\ db_ok db' /\ db_manifest db' = Some (ps_manifest patch) /\
      (forall v root, v < version_count (ps_manifest patch) ->
         over_roots (db_roots db) patch v = Some root -> db_roots db' v = Some root) /\
      (forall key n, nk_version key < version_count (ps_manifest patch) ->
         over_nodes (db_nodes db) patch key = Some n -> db_nodes db' key = Some n);
}.

Section Laws.
Context `{!HashTree, !HashTreeLaws} {DB : Type} `{!Database DB, !DatabaseLaws DB}.
Implicit Types db : DB.

Definition next_version db : Z := version_count (default manifest_default (db_manifest db)).

(** Version [v] of the tree has the leaves [m]. *)
Definition holds db (v : Z) (m : Leaves) : Prop :=
  keys_ok m /\ exists root, db_roots db v = Some root /\ root_stored (db_nodes db) v root m /\
    root_leaf_count root = leaves_count m.

(** The latest version has the leaves [m]; without versions there are none. *)
Definition latest db (m : Leaves) : Prop := (next_version db = 0 /\ m = ∅) \/ (0 < next_version db /\ holds db (next_version db - 1) m).

Lemma root_stored_mono N N2 u root m :
  (forall key n, nk_version key <= u -> N key = Some n -> N2 key = Some n) -> root_stored N u root m -> root_stored N2 u root m.
Proof. intros HN. destruct root as [|count node]; [done|]. cbn [root_stored]. by apply stored_mono. Qed.

(** The root hash of a version is the hash of its leaves. *)
Lemma root_stored_hash N u root m : root_stored N u root m -> root_hash_of root = Ret (tree_hash 256 m).
Proof.
  destruct root as [|count node]; cbn [root_stored root_hash_of].
  - intros ->. unfold empty_tree_hash. rewrite tree_hash_empty. by apply empty_subtree_hash_at.
  - intros Hst. apply (stored_hash N 64 0 u node m ltac:(done) Hst).
Qed.

Lemma holds_root_hash db v m : db_ok db -> holds db v m -> tree_root_hash db v = Ret (Some (tree_hash 256 m)).
Proof.
  intros Hdb (_ & root & Hroot & Hst & _). unfold tree_root_hash, db_root. rewrite db_read_root, Hroot by done.
  cbn [unwrap_result]. rewrite outcome_Ret_bind, (root_stored_hash _ _ _ _ Hst). done.
Qed.

(** ** Loading *)

Lemma prepared_empty V k : unsigned 256 k -> prepared (working_new V RootEmpty) k EMPTY.
Proof.
  intros Hk. exists 64%nat. rewrite div_pow16_64, nib_EMPTY by done. split; [done|].
  split; [intros h n prev c _ Hn; done|]. split; [done|by left].
Qed.

Lemma load_no_ancestors db V keys :
  load_ancestors (working_new V RootEmpty) keys db =
    Ret ({| longest_prefixes := replicate (length keys) EMPTY; db_reads := 0 |}, working_new V RootEmpty).
Proof. done. Qed.

Lemma load_ancestors_ok db N V u root m ks op :
  reads_ok db N -> keys_ok m -> root_stored N u root m -> u <= V -> read_version N V op u -> Forall (unsigned 256) ks ->
  exists res W, load_ancestors (working_new V root) (sorted_keys ks) db = Ret (res, W) /\
    tree_ok N W (fun _ _ => False) V op m /\ Forall2 (prepared W) ks (longest_prefixes res).
Proof.
  intros Hdb Hm Hst Hle Hu Hks. destruct root as [|count root]; cbn [root_stored] in Hst.
  - subst m. rewrite load_no_ancestors. eexists _, _. split; [done|]. split.
    + constructor; [by intros ? ? ? ? ?|by intros ? ? ? ? ?|done|done|done].
    + cbn [longest_prefixes]. apply Forall2_same_length_lookup_2; [by rewrite length_replicate, sorted_keys_length|].
      intros idx k nb Hk [-> _]%lookup_replicate. apply prepared_empty. by eapply Forall_lookup_1.
  - destruct (load_ancestors_resolved db N V u count root m ks Hdb Hm Hst Hks) as (res & W & Heq & HW & Hall).
    exists res, W. split; [done|]. split; [by eapply reflects_tree_ok|].
    apply Forall2_same_length_lookup_2; [by eapply Forall2_length|]. intros i k nb Hk Hnb.
    destruct (Forall2_lookup_lr _ _ _ _ _ _ Hall Hk Hnb) as (h & -> & Hres). exists h. split; [done|].
    split; [|by apply resolved_start]. eapply resolved_loaded; [by eapply reflects_linked| |done].
    by eapply Forall_lookup_1.
Qed.

(** ** [Storage::extend] *)

(** What the patch for version [V] adds to the nodes [N]. *)
Definition version_patch (N : Nodes) (V : Z) (m : Leaves) (op : Operation) (manifest : Manifest) (patch : PatchSet) : Prop :=
  exists root P stale op', patch = patch_new manifest V root P stale op' /\
    root_stored (patched_over N P) V (root_clone root) m /\ root_leaf_count root = leaves_count m /\
    (forall key n, P !! key = Some n -> nk_version key = V) /\ (op' = op \/ (m = ∅ /\ op' = Insert)).

Lemma finalize_version N W D V op m manifest :
  m <> ∅ -> tree_ok N W D V (Some op) m ->
  exists patch, working_finalize W manifest (leaves_count m) op = Ret (tree_hash 256 m, patch) /\
    version_patch N V m op manifest patch.
Proof.
  intros Hm Hok. destruct (working_finalize_ok N W D V op m manifest (leaves_count m) Hm) as (node & P & stale & -> & [Hst HP]);
    [by rewrite leaves_count_zero|done|].
  eexists. split; [done|]. exists (RootFilled (leaves_count m) node), P, stale, op.
  do 4 (split; [done|]). by left.
Qed.

Lemma finalize_no_leaves N V op manifest :
  exists patch, working_finalize (working_new V RootEmpty) manifest 0 op = Ret (tree_hash 256 ∅, patch) /\
    version_patch N V ∅ op manifest patch.
Proof.
  eexists. split.
  - unfold working_finalize. rewrite finalize_empty, outcome_Ret_bind. unfold empty_tree_hash.
    rewrite empty_subtree_hash_at, outcome_Ret_bind, tree_hash_empty by done. done.
  - unfold patch_for_empty_root. eexists RootEmpty, ∅, _, Insert. split; [done|]. repeat split; [|by right].
    intros key n Hkey. by rewrite lookup_empty in Hkey.
Qed.

Lemma insert_entries_empty m entries : insert_entries m entries = ∅ -> m = ∅ /\ entries = [].
Proof.
  intros Hm. pose proof (leaves_count_grows m entries) as Hle. apply leaves_count_zero in Hm as Hc.
  assert (m = ∅) as -> by (apply leaves_count_zero; unfold leaves_count in *; lia). split; [done|].
  destruct entries as [|entry entries]; [done|]. pose proof (leaves_count_grows (insert_entry ∅ entry) entries) as Hle2.
  rewrite leaves_count_insert, lookup_empty in Hle2. unfold insert_entries in *. cbn [foldl] in Hc. unfold leaves_count in *. lia.
Qed.

Lemma storage_extend_ok db N V u root m manifest op entries :
  reads_ok db N -> keys_ok m -> root_stored N u root m -> u <= V -> read_version N V (Some op) u ->
  Forall (fun e => unsigned 256 (te_key e)) entries -> leaves_count (insert_entries m entries) < 2 ^ 64 ->
  exists patch, storage_extend {| st_manifest := manifest; st_leaf_count := leaves_count m; st_operation := op;
                                  st_updater := updater_new V root |} db entries =
      Ret ({| root_hash := tree_hash 256 (insert_entries m entries); leaf_count := leaves_count (insert_entries m entries);
              logs := insert_logs m entries |}, patch) /\
    version_patch N V (insert_entries m entries) op manifest patch.
Proof.
  intros Hdb Hm Hst Hle Hu Hks Hcount. unfold storage_extend, storage_finalize. cbn [st_updater st_leaf_count st_manifest st_operation].
  destruct (decide (insert_entries m entries = ∅)) as [He|Hne].
  - rewrite He. apply insert_entries_empty in He as [-> ->]. destruct root as [|count root]; [|by apply stored_nonempty in Hst].
    destruct (finalize_no_leaves N V op manifest) as (patch & Heq & Hpatch). exists patch. split; [|done].
    cbn [updater_new patch_set]. rewrite load_no_ancestors, outcome_Ret_bind. cbn [zip zip_with foldM].
    rewrite outcome_Ret_bind, leaves_count_no_leaves. cbn [patch_set with_patch_set]. by rewrite Heq, outcome_Ret_bind.
  - assert (Forall (unsigned 256) (te_key <$> entries)) as Hks' by (by apply Forall_fmap).
    destruct (load_ancestors_ok db N V u root m (te_key <$> entries) (Some op) Hdb Hm Hst Hle Hu Hks') as (res & W & Heq & Hok & Hall).
    cbn [updater_new patch_set]. rewrite Heq, outcome_Ret_bind.
    destruct (extend_loop_ok N V (Some op) entries (longest_prefixes res) (with_patch_set (updater_new V root) W) (fun _ _ => False) m [])
      as (u2 & D2 & Hloop & Hok2); [done| |done|].
    { rewrite Forall2_fmap_l in Hall. apply Forall2_same_length_lookup_2; [exact (Forall2_length _ _ _ Hall)|]. intros i e nb He Hnb.
      split; [exact (Forall_lookup_1 _ _ _ _ Hks He)|exact (Forall2_lookup_lr _ _ _ _ _ _ Hall He Hnb)]. }
    rewrite Hloop, outcome_Ret_bind. cbn [patch_set].
    destruct (finalize_version N _ _ _ _ _ manifest Hne Hok2) as (patch & Heq2 & Hpatch). exists patch. split; [|done].
    by rewrite Heq2, outcome_Ret_bind.
Qed.

(** ** [MerkleTree::extend] *)

Lemma storage_new_ok db m :
  db_ok db -> latest db m -> unsigned 64 (next_version db + 1) ->
  exists root tags, storage_new db (next_version db) true =
      Ret {| st_manifest := {| version_count := next_version db + 1; tags := tags |}; st_leaf_count := leaves_count m;
             st_operation := Insert; st_updater := updater_new (next_version db) root |} /\
    keys_ok m /\ root_stored (db_nodes db) (next_version db - 1) root m.
Proof.
  intros Hdb Hm Hver. unfold storage_new, manifest, db_root. rewrite db_read_manifest by done. cbn [unwrap_result].
  rewrite outcome_Ret_bind. unfold checked_pred. destruct Hm as [[-> ->]|(Hpos & Hkeys & root & Hroot & Hst & Hcount)].
  - change (1 <=? 0) with false. cbv beta iota zeta. rewrite outcome_Ret_bind. eexists RootEmpty, _. split; [done|]. done.
  - destruct (Z.leb_spec 1 (next_version db)); [|lia]. cbv beta iota zeta. rewrite db_read_root, Hroot by done. cbn [unwrap_result].
    rewrite !outcome_Ret_bind. cbn [default from_option id]. rewrite wrap_small, Hcount by done. eexists root, _. split; [done|]. done.
Qed.

(** The new version after its patch is applied. *)
Lemma apply_version db m patch tags :
  db_ok db -> keys_ok m ->
  version_patch (db_nodes db) (next_version db) m Insert {| version_count := next_version db + 1; tags := tags |} patch ->
  exists db', apply_patch db patch = Ret (Ok db') /\ db_ok db' /\ next_version db' = next_version db + 1 /\
    holds db' (next_version db) m /\ forall v m0, v < next_version db -> holds db v m0 -> holds db' v m0.
Proof.
  intros Hdb Hm (root & P & stale & op & -> & Hst & Hcount & HP & Hop).
  assert (op = Insert) as -> by (by destruct Hop as [|[_ ?]]).
  set (V := next_version db) in *.
  set (patch := patch_new _ _ _ _ _ _).
  assert (Hpatches : patches_by_version patch = {[V := {| pp_root := Some root; pp_nodes := P |}]}) by done.
  destruct (db_apply db patch Hdb eq_refl) as (db' & Heq & Hdb' & Hman & Hroots & Hnodes).
  { intros v [partial Hv]. rewrite Hpatches in Hv. apply lookup_singleton_Some in Hv as [<- _]. change (V <= V < V + 1). lia. }
  change (version_count (ps_manifest patch)) with (V + 1) in Hroots, Hnodes.
  assert (Hold : forall v, v < V -> patches_by_version patch !! v = None).
  { intros v Hv. rewrite Hpatches. apply lookup_singleton_ne. lia. }
  exists db'. split; [done|]. split; [done|]. split; [unfold next_version; by rewrite Hman|]. split.
  - split; [done|]. exists (root_clone root). split; [|split].
    + apply Hroots; [lia|]. unfold over_roots. by rewrite Hpatches, lookup_singleton_eq.
    + eapply root_stored_mono; [|exact Hst]. intros key n Hle Hn. apply Hnodes; [lia|]. revert Hn. unfold patched_over, over_nodes.
      rewrite Hpatches. destruct (P !! key) as [n'|] eqn:Hkey.
      * rewrite (HP _ _ Hkey), lookup_singleton_eq. cbn [pp_nodes]. by rewrite Hkey.
      * intros Hn. rewrite lookup_singleton_ne; [done|]. apply db_versions in Hn; [|done]. fold (next_version db) in Hn. subst V. lia.
    + rewrite <- Hcount. by destruct root.
  - intros v m0 Hv (Hm0 & root0 & Hroot0 & Hst0 & Hcount0). split; [done|]. exists root0.
    split; [|split; [|done]].
    + apply Hroots; [lia|]. unfold over_roots. by rewrite Hold.
    + eapply root_stored_mono; [|exact Hst0]. intros key n Hle Hn. apply Hnodes; [lia|]. unfold over_nodes. by rewrite Hold by lia.
Qed.

Lemma tree_extend_ok db m entries :
  db_ok db -> latest db m -> unsigned 64 (next_version db + 1) ->
  Forall (fun e => unsigned 256 (te_key e)) entries -> leaves_count (insert_entries m entries) < 2 ^ 64 ->
  exists db', tree_extend db entries =
      Ret (Ok ({| root_hash := tree_hash 256 (insert_entries m entries); leaf_count := leaves_count (insert_entries m entries);
                  logs := insert_logs m entries |}, db')) /\
    db_ok db' /\ next_version db' = next_version db + 1 /\ holds db' (next_version db) (insert_entries m entries) /\
    forall v m0, v < next_version db -> holds db v m0 -> holds db' v m0.
Proof.
  intros Hdb Hlatest Hver Hks Hcount. unfold tree_extend, manifest. rewrite db_read_manifest by done. cbn [unwrap_result].
  rewrite outcome_Ret_bind. fold (next_version db).
  destruct (storage_new_ok db m Hdb Hlatest Hver) as (root & tags & -> & Hm & Hst). rewrite outcome_Ret_bind.
  destruct (storage_extend_ok db (db_nodes db) (next_version db) (next_version db - 1) root m
    {| version_count := next_version db + 1; tags := tags |} Insert entries) as (patch & -> & Hpatch);
    [by apply db_reads_ok|done|done|lia|cbn; lia|done|done|].
  rewrite outcome_Ret_bind. destruct (apply_version db _ patch tags Hdb (insert_entries_keys m entries Hm Hks) Hpatch)
    as (db' & -> & Hdb' & Hnext & Hnew & Hold).
  exists db'. done.
Qed.

(** ** Reading of entries *)

Definition entry_at (m : Leaves) (k : Z) : TreeEntry :=
  match m !! k with
  | Some (value, index) => {| te_key := k; te_value := value; te_leaf_index := index |}
  | None => entry_empty k
  end.

Lemma extract_resolved N W D V op m k h :
  tree_ok N W D V op m -> unsigned 256 k -> resolved W k h -> extract_entry W k (nib h (k / pow16 h)) = entry_at m k.
Proof.
  intros Hok Hk Hres. unfold extract_entry, entry_at. rewrite (resolved_lookup _ _ _ _ _ _ _ _ Hok Hk Hres), working_get_nib.
  destruct (wlook W h (k / pow16 h)) as [[[n|l] prev]|]; cbn [fmap option_fmap option_map inner]; [done| |done].
  destruct (Z.eqb_spec (full_key l) k) as [<-|]; done.
Qed.

Lemma transform_pure {T} (f : WorkingPatchSet -> Z -> Nibbles -> T) W keys : forall acc,
  foldM (fun '(entries, ps) '(leaf_key, longest_prefix) =>
      '(entry, ps) ← Ret (f ps leaf_key longest_prefix, ps); Ret (entries ++ [entry], ps)) (acc, W) keys =
    Ret (acc ++ ((fun kp => f W kp.1 kp.2) <$> keys), W).
Proof.
  induction keys as [|[k prefix] keys IH]; intros acc; cbn [foldM fmap list_fmap]; [by rewrite app_nil_r|].
  rewrite !outcome_Ret_bind, IH. by rewrite <- app_assoc.
Qed.

Lemma zip_fmap_Forall2 {A B C} (R : A -> B -> Prop) (f : A * B -> C) (g : A -> C) l k :
  Forall2 R l k -> (forall x y, R x y -> f (x, y) = g x) -> f <$> zip l k = g <$> l.
Proof. intros Hall Heq. induction Hall as [|x y l k Hxy _ IH]; [done|]. cbn. by rewrite Heq, IH. Qed.

Lemma entries_ok db v m keys :
  db_ok db -> holds db v m -> Forall (unsigned 256) keys -> entries db v keys = Ret (Ok (entry_at m <$> keys)).
Proof.
  intros Hdb (Hm & root & Hroot & Hst & _) Hks. unfold entries, load_and_transform_entries, db_root.
  rewrite db_read_root, Hroot by done. cbn [unwrap_result]. rewrite outcome_Ret_bind.
  destruct root as [|count root]; cbn [root_stored] in Hst.
  - subst m. rewrite load_no_ancestors, outcome_Ret_bind. cbn [longest_prefixes]. rewrite transform_pure, outcome_Ret_bind, sorted_keys_length.
    do 3 f_equal. cbn [app]. apply (zip_fmap_Forall2 (fun _ prefix => prefix = EMPTY)); [|intros k prefix ->; unfold entry_at; by rewrite lookup_empty].
    apply Forall2_same_length_lookup_2; [by rewrite length_replicate|]. by intros i k prefix _ [-> _]%lookup_replicate.
  - destruct (load_ancestors_resolved db (db_nodes db) v v count root m keys (db_reads_ok db Hdb) Hm Hst Hks)
      as (res & W & -> & HW & Hall).
    rewrite outcome_Ret_bind, transform_pure, outcome_Ret_bind. do 3 f_equal. cbn [app].
    assert (Hok : tree_ok (db_nodes db) W (fun _ _ => False) v None m) by (by eapply reflects_tree_ok).
    apply (zip_fmap_Forall2 (fun k prefix => unsigned 256 k /\ exists h, prefix = nib h (k / pow16 h) /\ resolved W k h)).
    + apply Forall2_same_length_lookup_2; [by eapply Forall2_length|]. intros i k prefix Hk Hprefix.
      split; [by eapply Forall_lookup_1|]. exact (Forall2_lookup_lr _ _ _ _ _ _ Hall Hk Hprefix).
    + intros k prefix (Hk & h & -> & Hres). by eapply extract_resolved.
Qed.

(** ** Entries with proofs *)

(** An entry of the tree with the path of its key. *)
Definition proved_entry (m : Leaves) (k : Z) (e : TreeEntryWithProof) : Prop :=
  base e = entry_at m k /\ exists p, merkle_path e = path_hashes p /\ path_ok k m p /\ current_level p = 0%nat.

Lemma prove_entry_ok N W V op m k hs :
  tree_ok N W (fun _ _ => False) V op m -> unsigned 256 k -> loaded W k -> start_ok W k hs ->
  exists e W2, prove_entry W k (nib hs (k / pow16 hs)) = Ret (e, W2) /\ recached W W2 /\
    tree_ok N W2 (fun _ _ => False) V op m /\ proved_entry m k e.
Proof.
  intros Hok Hk Hload Hstart. unfold prove_entry.
  destruct (create_proof_ok N W _ V op m k hs 0 Hok Hk Hload Hstart (or_introl eq_refl) (fun _ _ _ HD => HD))
    as (p & W2 & -> & HW2 & Hok2 & Hp & Hl).
  rewrite outcome_Ret_bind. eexists _, W2. split; [done|]. split; [done|]. split; [done|].
  split; [|by exists p]. cbn [base]. unfold leaf_at, entry_at. by destruct (m !! k) as [[value index]|].
Qed.

Lemma prepared_recached W W2 k prefix : recached W W2 -> unsigned 256 k -> prepared W k prefix -> prepared W2 k prefix.
Proof.
  intros HW Hk (hs & -> & Hload & Hstart). exists hs. split; [done|].
  split; [by eapply recached_loaded|by eapply recached_start].
Qed.

Lemma prove_entries_ok N V op m keys : forall prefixes W acc,
  tree_ok N W (fun _ _ => False) V op m -> Forall2 (fun k prefix => unsigned 256 k /\ prepared W k prefix) keys prefixes ->
  exists es W2, foldM (fun '(entries, ps) '(leaf_key, longest_prefix) =>
      '(entry, ps) ← prove_entry ps leaf_key longest_prefix; Ret (entries ++ [entry], ps)) (acc, W) (zip keys prefixes) =
    Ret (acc ++ es, W2) /\ Forall2 (proved_entry m) keys es.
Proof.
  induction keys as [|k keys IH]; intros prefixes W acc Hok Hall.
  { exists [], W. cbn. by rewrite app_nil_r. }
  apply Forall2_cons_inv_l in Hall as (prefix & prefixes' & [Hk (hs & -> & Hload & Hstart)] & Hall & ->).
  destruct (prove_entry_ok N W V op m k hs Hok Hk Hload Hstart) as (e & W2 & Heq & HW2 & Hok2 & He).
  destruct (IH prefixes' W2 (acc ++ [e]) Hok2) as (es & W3 & Heq3 & Hes).
  { eapply Forall2_impl; [exact Hall|]. intros k' prefix [Hk' Hp]. split; [done|]. by eapply prepared_recached. }
  exists (e :: es), W3. cbn [zip zip_with foldM]. rewrite Heq, !outcome_Ret_bind.
  change (zip_with pair keys prefixes') with (zip keys prefixes'). rewrite Heq3, <- app_assoc. split; [done|]. by constructor.
Qed.

Lemma entries_with_proofs_ok db v m keys :
  db_ok db -> holds db v m -> Forall (unsigned 256) keys ->
  exists es, entries_with_proofs db v keys = Ret (Ok es) /\ Forall2 (proved_entry m) keys es.
Proof.
  intros Hdb (Hm & root & Hroot & Hst & _) Hks. unfold entries_with_proofs, load_and_transform_entries, db_root.
  rewrite db_read_root, Hroot by done. cbn [unwrap_result]. rewrite outcome_Ret_bind.
  destruct (load_ancestors_ok db (db_nodes db) v v root m keys None (db_reads_ok db Hdb) Hm Hst ltac:(done) I Hks)
    as (res & W & -> & Hok & Hall). rewrite outcome_Ret_bind.
  destruct (prove_entries_ok (db_nodes db) v None m keys (longest_prefixes res) W [] Hok) as (es & W2 & Heq & Hes).
  { apply Forall2_same_length_lookup_2; [by eapply Forall2_length|]. intros i k prefix Hk Hprefix.
    split; [by eapply Forall_lookup_1|exact (Forall2_lookup_lr _ _ _ _ _ _ Hall Hk Hprefix)]. }
  rewrite Heq, outcome_Ret_bind. by exists es.
Qed.
End Laws.
