(* ===== verification/TreeLaws.v ===== *)
(** * Databases of the state tree keep what they promise

    The in-memory database and a database with changes held in memory satisfy [DatabaseLaws];
    flushing the changes keeps the content of every version. *)

From S2P Require Import Prelude Bytes Utils TreeUtils TreeTypes TreeHasher TreeDatabase TreeStorage MerkleTree TreeSpec TreeInvariant TreeInsert TreeLoad TreeFinalize TreeExtend.
Open Scope Z_scope.

(** ** The in-memory database *)

Definition patch_ok (p : PatchSet) : Prop :=
  forall v, is_Some (patches_by_version p !! v) -> v < version_count (ps_manifest p).

Definition patch_nodes (p : PatchSet) : Nodes := over_nodes (fun _ => None) p.

Definition patch_roots (p : PatchSet) : Z -> option Root := over_roots (fun _ => None) p.

Lemma patch_read_node p key b : patch_try_tree_node p key b = Ok (patch_nodes p key).
Proof. unfold patch_try_tree_node, patch_nodes, over_nodes. by destruct (patches_by_version p !! nk_version key). Qed.

Lemma patch_read_root p v : patch_try_root p v = Ok (patch_roots p v).
Proof. unfold patch_try_root, patch_roots, over_roots. by destruct (patches_by_version p !! v). Qed.

Lemma default_tree_nodes_ok read (N : Nodes) keys : forall acc,
  (forall key b, (key, b) ∈ keys -> read key b = Ok (N key)) ->
  foldM (fun nodes '(key, is_leaf) => node ← unwrap_result (read key is_leaf); Ret (nodes ++ [node])) acc keys =
    Ret (acc ++ ((fun kb : NodeKey * bool => N kb.1) <$> keys)).
Proof.
  induction keys as [|[key b] keys IH]; intros acc Hread; cbn [foldM fmap list_fmap]; [by rewrite app_nil_r|].
  rewrite Hread by left. cbn [unwrap_result]. rewrite !outcome_Ret_bind, IH; [by rewrite <- app_assoc|].
  intros key' b' Hin. apply Hread. by right.
Qed.

Lemma patch_reads p : reads_ok p (patch_nodes p).
Proof.
  split.
  - intros key node Hkey. cbn [try_tree_node patch_database]. by rewrite patch_read_node, Hkey.
  - intros keys _. cbn [tree_nodes patch_database]. unfold default_tree_nodes.
    rewrite (default_tree_nodes_ok _ (patch_nodes p)); [done|]. intros key b _. apply patch_read_node.
Qed.

(** A patch without updated versions replaces its versions and drops those above its manifest. *)
Lemma patch_apply_new p other :
  updated_version other = None ->
  exists p', patch_apply_patch p other = Ret (Ok p') /\ ps_manifest p' = ps_manifest other /\
    updated_version p' = updated_version p /\
    (forall v, is_Some (patches_by_version p' !! v) ->
       is_Some (patches_by_version other !! v) \/
       (is_Some (patches_by_version p !! v) /\
        (version_count (ps_manifest p) <= version_count (ps_manifest other) \/ v < version_count (ps_manifest other)))) /\
    (forall v, v < version_count (ps_manifest other) ->
       patches_by_version p' !! v =
         match patches_by_version other !! v with Some x => Some x | None => patches_by_version p !! v end).
Proof.
  intros Hup. unfold patch_apply_patch. rewrite Hup. eexists. split; [done|]. do 2 (split; [done|]).
  cbn [patches_by_version]. split.
  - intros v [x Hx]. apply lookup_union_Some_raw in Hx as [Hx|[_ Hx]]; [by left; rewrite Hx|right].
    destruct (Z.ltb_spec (version_count (ps_manifest other)) (version_count (ps_manifest p))) as [Hlt|Hge].
    + apply map_lookup_filter_Some in Hx as [Hx Hv]. cbn in Hv. split; [by rewrite Hx|by right].
    + split; [by rewrite Hx|by left].
  - intros v Hv. rewrite lookup_union. destruct (patches_by_version other !! v) as [x|]; [by rewrite union_Some_l|].
    rewrite (left_id_L None union). destruct (_ <? _); [|done]. rewrite map_lookup_filter.
    destruct (patches_by_version p !! v); [|done]. cbn. by rewrite option_guard_True.
Qed.

Lemma patch_node_version p key n : patch_ok p -> patch_nodes p key = Some n -> nk_version key < version_count (ps_manifest p).
Proof. intros Hok Hn. apply Hok. unfold patch_nodes, over_nodes in Hn. by destruct (patches_by_version p !! nk_version key). Qed.

#[export, refine] Instance patch_database_laws : DatabaseLaws PatchSet := {|
  db_ok := patch_ok;
  db_nodes := patch_nodes;
  db_roots := patch_roots;
  db_manifest p := Some (ps_manifest p);
|}.
Proof.
  - intros p _. apply patch_reads.
  - intros p v _. apply patch_read_root.
  - done.
  - apply patch_node_version.
  - intros p other Hok Hup Hvers. cbn [default from_option id] in *.
    destruct (patch_apply_new p other Hup) as (p' & Heq & Hman & _ & Hdom & Hlook).
    exists p'. split; [done|]. split; [|split; [by rewrite Hman|split]].
    + intros v Hv. rewrite Hman. destruct (Hdom v Hv) as [Ho|[Hp [Hle|Hlt]]]; [by apply Hvers| |done].
      specialize (Hok v Hp). lia.
    + intros v root Hv Hroot. unfold patch_roots, over_roots in *. rewrite Hlook by done.
      by destruct (patches_by_version other !! v).
    + intros key n Hv Hn. unfold patch_nodes, over_nodes in *. rewrite Hlook by done.
      by destruct (patches_by_version other !! nk_version key).
Defined.

(** ** A database with changes held in memory *)

Section Patched.
Context {DB : Type} `{!Database DB, !DatabaseLaws DB}.
Implicit Types p : Patched DB.

Definition patched_ok p : Prop :=
  db_ok (db_inner p) /\ forall patch, db_patch p = Some patch -> patch_ok patch /\ updated_version patch = None.

Definition patched_nodes_of p : Nodes := fun key =>
  match db_patch p with
  | Some patch => if is_new_version patch (nk_version key) then patch_nodes patch key else db_nodes (db_inner p) key
  | None => db_nodes (db_inner p) key
  end.

Definition patched_roots_of p (v : Z) : option Root :=
  match db_patch p with
  | Some patch => if is_new_version patch v then patch_roots patch v else db_roots (db_inner p) v
  | None => db_roots (db_inner p) v
  end.

Definition patched_manifest_of p : option Manifest :=
  match db_patch p with
  | Some patch => Some (ps_manifest patch)
  | None => db_manifest (db_inner p)
  end.

Lemma is_new_version_iff patch v :
  updated_version patch = None ->
  is_new_version patch v = true <-> version_count (ps_manifest patch) <= v \/ is_Some (patches_by_version patch !! v).
Proof.
  intros Hup. unfold is_new_version. rewrite Hup, orb_true_iff, andb_true_iff, Z.leb_le, !bool_decide_eq_true. naive_solver.
Qed.

Lemma lookup_patch_new p patch key b :
  db_patch p = Some patch -> updated_version patch = None ->
  lookup_patch p key b =
    Ret (if is_new_version patch (nk_version key) then (patch_nodes patch key, true) else (None, false)).
Proof.
  intros Hp Hup. unfold lookup_patch. rewrite Hp, Hup. destruct (is_new_version patch (nk_version key)); [|done].
  unfold tree_node. cbn [try_tree_node patch_database]. by rewrite patch_read_node.
Qed.

(** The flags and the values of the loop of [patched_tree_nodes]. *)
Lemma patched_nodes_loop p patch keys : forall flags values,
  db_patch p = Some patch -> updated_version patch = None ->
  foldM (fun '(flags, values) '(key, is_leaf) =>
      '(patch_node, is_final) ← lookup_patch p key is_leaf;
      if (is_final : bool) then Ret (flags ++ [true], values ++ [patch_node])
      else match patch_node with
           | Some node => Ret (flags ++ [true], values ++ [Some node])
           | None => Ret (flags ++ [false], values)
           end) (flags, values) keys =
    Ret (flags ++ ((fun kb : NodeKey * bool => is_new_version patch (nk_version kb.1)) <$> keys),
         values ++ ((fun kb : NodeKey * bool => patch_nodes patch kb.1) <$>
           List.filter (fun kb : NodeKey * bool => is_new_version patch (nk_version kb.1)) keys)).
Proof.
  intros flags values Hp Hup. revert flags values.
  induction keys as [|[key b] keys IH]; intros flags values; cbn [foldM fmap list_fmap List.filter fst]; [by rewrite !app_nil_r|].
  rewrite (lookup_patch_new p patch) by done. destruct (is_new_version patch (nk_version key)); rewrite !outcome_Ret_bind, IH.
  - cbn [fmap list_fmap]. by rewrite <- !app_assoc.
  - by rewrite <- !app_assoc.
Qed.

Lemma filter_zip_flags {A} (f : A -> bool) (l : list A) :
  fst <$> List.filter (fun '(_, flag) => negb flag) (zip l (f <$> l)) = List.filter (fun x => negb (f x)) l.
Proof.
  induction l as [|x l IH]; [done|]. cbn [fmap list_fmap zip zip_with List.filter]. destruct (f x); cbn [negb]; [done|].
  cbn [fmap list_fmap fst]. f_equal. exact IH.
Qed.

Lemma interleave_filter {A B} (f : A -> bool) (g h : A -> B) (l : list A) :
  interleave (f <$> l) (g <$> List.filter f l) (h <$> List.filter (fun x => negb (f x)) l) =
    Ret ((fun x => if f x then g x else h x) <$> l).
Proof.
  induction l as [|x l IH]; [done|]. cbn [fmap list_fmap List.filter].
  destruct (f x); cbn [negb fmap list_fmap interleave]; by rewrite IH.
Qed.

Lemma patched_reads p : patched_ok p -> reads_ok p (patched_nodes_of p).
Proof.
  intros [Hin Hpatch]. pose proof (db_reads_ok _ Hin) as [Hread Hreads]. unfold patched_nodes_of.
  destruct (db_patch p) as [patch|] eqn:Hp.
  - destruct (Hpatch patch eq_refl) as [_ Hup]. split.
    + intros key node Hkey. cbn [try_tree_node patched_database]. unfold patched_try_tree_node.
      rewrite (lookup_patch_new p patch) by done. destruct (is_new_version patch (nk_version key)); [by rewrite Hkey|by apply Hread].
    + intros keys Hkeys. cbn [tree_nodes patched_database]. unfold patched_tree_nodes. rewrite Hp.
      rewrite (patched_nodes_loop p patch) by done. cbn [app]. rewrite outcome_Ret_bind.
      rewrite (filter_zip_flags (fun kb : NodeKey * bool => is_new_version patch (nk_version kb.1))), Hreads, outcome_Ret_bind.
      * apply (interleave_filter (fun kb : NodeKey * bool => is_new_version patch (nk_version kb.1))).
      * intros key b [Hin' Hnew]%list_elem_of_In%filter_In. apply list_elem_of_In in Hin'. cbn [fst] in Hnew.
        destruct (Hkeys key b Hin') as (node & Hnode & Hleaf). destruct (is_new_version patch (nk_version key)); [done|]. eauto.
  - split.
    + intros key node Hkey. cbn [try_tree_node patched_database]. unfold patched_try_tree_node, lookup_patch. rewrite Hp.
      by apply Hread.
    + intros keys Hkeys. cbn [tree_nodes patched_database]. unfold patched_tree_nodes. rewrite Hp. by apply Hreads.
Qed.

(** What a patch shows of version [v], over the content [inner]. *)
Definition version_view {T} (f : PartialPatchSet -> option T) (inner : option T) (patch : PatchSet) (v : Z) : option T :=
  if is_new_version patch v then match patches_by_version patch !! v with Some x => f x | None => None end else inner.

Lemma version_view_first {T} (f : PartialPatchSet -> option T) inner other v :
  updated_version other = None -> v < version_count (ps_manifest other) ->
  version_view f inner other v = match patches_by_version other !! v with Some x => f x | None => inner end.
Proof.
  intros Hup Hv. unfold version_view. pose proof (is_new_version_iff other v Hup) as Hnew.
  destruct (patches_by_version other !! v) as [x|], (is_new_version other v); [done| | |done].
  - destruct Hnew as [_ Hnew]. discriminate Hnew. by right.
  - destruct Hnew as [Hnew _]. destruct (Hnew eq_refl) as [?|[? ?]]; [lia|done].
Qed.

Lemma version_view_apply {T} (f : PartialPatchSet -> option T) inner (p other p' : PatchSet) v t :
  updated_version p = None -> updated_version p' = None -> v < version_count (ps_manifest p') ->
  patches_by_version p' !! v = match patches_by_version other !! v with Some x => Some x | None => patches_by_version p !! v end ->
  match patches_by_version other !! v with Some x => f x | None => version_view f inner p v end = Some t ->
  version_view f inner p' v = Some t.
Proof.
  intros Hup Hup' Hv Hlook Ht. rewrite version_view_first, Hlook by done.
  destruct (patches_by_version other !! v) as [x|]; [done|]. unfold version_view in Ht.
  pose proof (is_new_version_iff p v Hup) as Hnew.
  destruct (patches_by_version p !! v) as [x|], (is_new_version p v); [done| |done|done].
  destruct Hnew as [_ Hnew]. discriminate Hnew. by right.
Qed.

Lemma patched_apply_ok p other :
  patched_ok p -> updated_version other = None ->
  (forall v, is_Some (patches_by_version other !! v) ->
     version_count (default manifest_default (patched_manifest_of p)) <= v < version_count (ps_manifest other)) ->
  exists p', patched_apply_patch p other = Ret (Ok p') /\ patched_ok p' /\ patched_manifest_of p' = Some (ps_manifest other) /\
    (forall v root, v < version_count (ps_manifest other) ->
       over_roots (patched_roots_of p) other v = Some root -> patched_roots_of p' v = Some root) /\
    (forall key n, nk_version key < version_count (ps_manifest other) ->
       over_nodes (patched_nodes_of p) other key = Some n -> patched_nodes_of p' key = Some n).
Proof.
  intros [Hin Hpatch] Hup Hvers. unfold patched_apply_patch, patched_manifest_of, patched_roots_of, patched_nodes_of, over_roots, over_nodes in *.
  destruct (db_patch p) as [ex|] eqn:Hp.
  - destruct (Hpatch ex eq_refl) as [Hex Hexup]. cbn [default from_option id] in Hvers.
    destruct (patch_apply_new ex other Hup) as (ex' & Heq & Hman & Hup' & Hdom & Hlook).
    rewrite Heq. eexists. split; [done|]. cbn [db_inner db_patch]. split; [|split; [by rewrite Hman|split]].
    { split; [done|]. intros patch [= <-]. split; [|congruence]. intros v Hv. rewrite Hman.
      destruct (Hdom v Hv) as [Ho|[Hp' [Hle|Hlt]]]; [by apply Hvers| |done]. specialize (Hex v Hp'). lia. }
    + intros v root Hv. apply (version_view_apply (fun x => root_clone <$> pp_root x)); [done|congruence|by rewrite Hman|by apply Hlook].
    + intros key n Hv. apply (version_view_apply (fun x => node_clone <$> pp_nodes x !! key)); [done|congruence|by rewrite Hman|by apply Hlook].
  - eexists. split; [done|]. cbn [db_inner db_patch]. split; [|split; [done|split]].
    { split; [done|]. intros patch [= <-]. split; [|done]. intros v Hv. by apply Hvers. }
    + intros v root Hv <-. apply (version_view_first (fun x => root_clone <$> pp_root x)); done.
    + intros key n Hv <-. apply (version_view_first (fun x => node_clone <$> pp_nodes x !! key)); done.
Qed.

#[export, refine] Instance patched_database_laws : DatabaseLaws (Patched DB) := {|
  db_ok := patched_ok;
  db_nodes := patched_nodes_of;
  db_roots := patched_roots_of;
  db_manifest := patched_manifest_of;
|}.
Proof.
  - apply patched_reads.
  - intros p v [Hin Hpatch]. cbn [try_root patched_database]. unfold patched_try_root, patched_roots_of.
    destruct (db_patch p) as [patch|]; [|by apply db_read_root]. destruct (Hpatch patch eq_refl) as [_ ->].
    rewrite bool_decide_eq_false_2, orb_false_r by done.
    destruct (is_new_version patch v); [apply patch_read_root|by apply db_read_root].
  - intros p [Hin Hpatch]. cbn [try_manifest patched_database]. unfold patched_try_manifest, patched_manifest_of.
    destruct (db_patch p); [done|by apply db_read_manifest].
  - intros p key n [Hin Hpatch]. unfold patched_nodes_of, patched_manifest_of. destruct (db_patch p) as [patch|].
    + destruct (Hpatch patch eq_refl) as [Hok Hup]. pose proof (is_new_version_iff patch (nk_version key) Hup) as Hnew.
      cbn [default from_option id]. destruct (is_new_version patch (nk_version key)).
      * intros Hn. by eapply patch_node_version.
      * intros _. destruct (decide (version_count (ps_manifest patch) <= nk_version key)); [|lia].
        destruct Hnew as [_ Hnew]. discriminate Hnew. by left.
    + intros Hn. by apply (db_versions (db_inner p) key n).
  - apply patched_apply_ok.
Defined.
End Patched.
