(* ===== verification/TreeApi.v ===== *)
(** * The state tree is a versioned map

    The guarantees of the public interface of the state tree, for every database that satisfies
    [DatabaseLaws]: sequences of extensions and truncations, reading of entries, and changes
    that are held in memory and flushed. *)

From S2P Require Import Prelude Bytes Utils TreeUtils TreeTypes TreeHasher TreeDatabase TreeStorage MerkleTree TreeSpec TreeExamples TreeInvariant TreeInsert TreeLoad TreeFinalize TreeProofs TreeExtend TreeLaws.
Open Scope Z_scope.

(** ** Sequences of operations *)

Inductive TreeOp : Type :=
| OpExtend (entries : list TreeEntry)
| OpTruncate (retained_version_count : nat).

Section Run.
Context `{!HashTree, !HashTreeLaws} {DB : Type} `{!Database DB, !DatabaseLaws DB}.
Implicit Types db : DB.

(** One operation; the second component is the output of an extension. *)
Definition tree_step db (op : TreeOp) : outcome (result (option BlockOutput * DB) string) :=
  match op with
  | OpExtend entries => res <-? tree_extend db entries;; Ret (Ok (Some (res : BlockOutput * DB).1, res.2))
  | OpTruncate count => db <-? truncate_recent_versions db (Z.of_nat count);; Ret (Ok (None, db))
  end.

(** The versioned map: the leaves of every version. *)
Definition latest_leaves (vs : list Leaves) : Leaves := default ∅ (last vs).

Definition spec_step (vs : list Leaves) (op : TreeOp) : list Leaves :=
  match op with
  | OpExtend entries => vs ++ [insert_entries (latest_leaves vs) entries]
  | OpTruncate count => take count vs
  end.

Definition spec_output (vs : list Leaves) (op : TreeOp) : option BlockOutput :=
  match op with
  | OpExtend entries =>
      let m := insert_entries (latest_leaves vs) entries in
      Some {| root_hash := tree_hash 256 m; leaf_count := leaves_count m; logs := insert_logs (latest_leaves vs) entries |}
  | OpTruncate _ => None
  end.

(** Keys are hashes, and the counters of leaves and versions do not overflow. *)
Definition op_ok (vs : list Leaves) (op : TreeOp) : Prop :=
  match op with
  | OpExtend entries =>
      Forall (fun e => unsigned 256 (te_key e)) entries /\
      leaves_count (insert_entries (latest_leaves vs) entries) < 2 ^ 64 /\ Z.of_nat (length vs) + 1 < 2 ^ 64
  | OpTruncate _ => True
  end.

(** The database holds the versions [vs]. *)
Record represents db (vs : list Leaves) : Prop := {
  rp_ok : db_ok db;
  rp_next : next_version db = Z.of_nat (length vs);
  rp_holds v m : vs !! v = Some m -> holds db (Z.of_nat v) m;
}.

Lemma represents_latest db vs : represents db vs -> latest db (latest_leaves vs).
Proof.
  intros [_ Hnext Hholds]. unfold latest, latest_leaves. rewrite Hnext, last_lookup.
  destruct vs as [|m vs] using rev_ind; [by left|right]. rewrite length_app. cbn [length].
  replace (pred (length vs + 1)) with (length vs) by lia. rewrite lookup_app_r, Nat.sub_diag by done. split; [lia|].
  replace (Z.of_nat (length vs + 1) - 1) with (Z.of_nat (length vs)) by lia. apply Hholds.
  by rewrite lookup_app_r, Nat.sub_diag by done.
Qed.

Lemma extend_step_refines db vs entries :
  represents db vs -> op_ok vs (OpExtend entries) ->
  exists db', tree_step db (OpExtend entries) = Ret (Ok (spec_output vs (OpExtend entries), db')) /\
    represents db' (spec_step vs (OpExtend entries)).
Proof.
  intros Hrep (Hks & Hcount & Hlen). pose proof (represents_latest db vs Hrep) as Hlatest. destruct Hrep as [Hok Hnext Hholds].
  destruct (tree_extend_ok db _ entries Hok Hlatest) as (db' & Heq & Hok' & Hnext' & Hnew & Hold); [split; lia|done..|].
  exists db'. cbn [tree_step]. rewrite Heq. split; [done|]. split; [done| |].
  - rewrite Hnext', Hnext. cbn [spec_step]. rewrite length_app. cbn [length]. lia.
  - intros v m. cbn [spec_step]. intros [Hv|[Hv Hm]]%lookup_app_Some.
    + apply Hold; [|by apply Hholds]. apply lookup_lt_Some in Hv. lia.
    + apply list_lookup_singleton_Some in Hm as [Hm <-]. replace (Z.of_nat v) with (next_version db) by lia. done.
Qed.

Lemma truncate_step_refines db vs count :
  represents db vs ->
  exists db', tree_step db (OpTruncate count) = Ret (Ok (None, db')) /\ represents db' (spec_step vs (OpTruncate count)).
Proof.
  intros [Hok Hnext Hholds]. cbn [tree_step spec_step]. unfold truncate_recent_versions, manifest.
  rewrite db_read_manifest by done. cbn [unwrap_result]. rewrite outcome_Ret_bind. fold (next_version db).
  destruct (Z.ltb_spec (Z.of_nat count) (next_version db)) as [Hlt|Hge].
  - set (patch := patch_from_manifest _). destruct (db_apply db patch Hok eq_refl) as (db' & -> & Hok' & Hman & Hroots & Hnodes).
    { intros v [x Hx]. cbn in Hx. by rewrite lookup_empty in Hx. }
    change (version_count (ps_manifest patch)) with (Z.of_nat count) in Hroots, Hnodes.
    exists db'. split; [done|]. split; [done| |].
    + unfold next_version. rewrite Hman. cbn. rewrite length_take. lia.
    + intros v m [Hv Hlt']%lookup_take_Some. destruct (Hholds v m Hv) as (Hm & root & Hroot & Hst & Hc).
      split; [done|]. exists root. split; [|split; [|done]].
      * apply Hroots; [lia|]. unfold over_roots. cbn [patch patch_from_manifest patches_by_version]. by rewrite lookup_empty.
      * eapply root_stored_mono; [|exact Hst]. intros key n Hle Hn. apply Hnodes; [lia|]. unfold over_nodes.
        cbn [patch patch_from_manifest patches_by_version]. by rewrite lookup_empty.
  - exists db. split; [done|]. rewrite take_ge by lia. by split.
Qed.

Lemma step_refines db vs op :
  represents db vs -> op_ok vs op ->
  exists db', tree_step db op = Ret (Ok (spec_output vs op, db')) /\ represents db' (spec_step vs op).
Proof. destruct op; [by apply extend_step_refines|]. intros Hrep _. by apply truncate_step_refines. Qed.

Fixpoint tree_run db (ops : list TreeOp) : outcome (result (list (option BlockOutput) * DB) string) :=
  match ops with
  | [] => Ret (Ok ([], db))
  | op :: ops =>
      res <-? tree_step db op;;
      rest <-? tree_run (res : option BlockOutput * DB).2 ops;;
      Ret (Ok (res.1 :: (rest : list (option BlockOutput) * DB).1, rest.2))
  end.

Fixpoint spec_run (vs : list Leaves) (ops : list TreeOp) : list (option BlockOutput) * list Leaves :=
  match ops with
  | [] => ([], vs)
  | op :: ops => let rest := spec_run (spec_step vs op) ops in (spec_output vs op :: rest.1, rest.2)
  end.

Fixpoint ops_ok (vs : list Leaves) (ops : list TreeOp) : Prop :=
  match ops with
  | [] => True
  | op :: ops => op_ok vs op /\ ops_ok (spec_step vs op) ops
  end.

(** C1: a sequence of extensions and truncations of a state tree returns the outputs of the
    versioned map that it implements (root hashes are the hashes of the full binary tree over
    the leaves, leaf counts and logs), ends in a database that holds exactly the leaves of every
    version, and the root hash of every version is the hash of its leaves. *)
Theorem tree_run_refines db vs ops :
  represents db vs -> ops_ok vs ops ->
  exists db', tree_run db ops = Ret (Ok ((spec_run vs ops).1, db')) /\ represents db' (spec_run vs ops).2 /\
    forall v m, (spec_run vs ops).2 !! v = Some m -> tree_root_hash db' (Z.of_nat v) = Ret (Some (tree_hash 256 m)).
Proof.
  revert db vs. induction ops as [|op ops IH]; intros db vs Hrep Hops.
  - exists db. split; [done|]. split; [done|]. intros v m Hv. destruct Hrep as [Hok _ Hholds]. by apply holds_root_hash, Hholds.
  - destruct Hops as [Hop Hops]. destruct (step_refines db vs op Hrep Hop) as (db1 & Heq1 & Hrep1).
    destruct (IH db1 _ Hrep1 Hops) as (db2 & Heq2 & Hrep2 & Hhash). exists db2. cbn [tree_run spec_run fst snd].
    rewrite Heq1. cbn [try_outcome snd]. by rewrite Heq2.
Qed.

(** C2: reading entries of a version returns the leaves of this version in the order of the
    keys, with empty entries for absent keys; if there is no such version, the error names it
    and the number of versions. *)
Theorem entries_read_leaves db v keys :
  db_ok db -> Forall (unsigned 256) keys ->
  (forall m, holds db v m -> entries db v keys = Ret (Ok (entry_at m <$> keys))) /\
  (db_roots db v = None ->
   entries db v keys = Ret (Err {| missing_version := v; nv_version_count := next_version db |})).
Proof.
  intros Hok Hks. split; [intros m Hm; by apply entries_ok|]. intros Hnone.
  unfold entries, load_and_transform_entries, db_root, manifest. rewrite db_read_root, Hnone by done. cbn [unwrap_result].
  rewrite outcome_Ret_bind, db_read_manifest by done. done.
Qed.

(** ** Changes held in memory *)


(** ** Merkle proofs *)

(** Leaves with index zero, if there are any, have no value. *)
Definition indices_ok (m : Leaves) : Prop := forall k value, m !! k = Some (value, 0) -> value = 0.

Lemma proved_entry_verifies m k e :
  proved_entry m k e -> keys_ok m -> unsigned 256 k -> indices_ok m -> verify e (tree_hash 256 m) = Ret (Ok tt).
Proof.
  intros (Hbase & p & Hpath & Hp & Hl) Hm Hk Hidx. unfold verify. rewrite Hpath, Hbase. unfold entry_at.
  destruct (m !! k) as [[value index]|] eqn:Hmk.
  - rewrite (fold_insert k m p), (insert_id m k) by done. cbn [te_leaf_index te_value].
    change (tree_hash TREE_DEPTH m) with (tree_hash 256 m). generalize (tree_hash 256 m). intros root.
    destruct (Z.eqb_spec index 0) as [->|_]; [rewrite (Hidx k value Hmk)|]; cbn; by rewrite Z.eqb_refl.
  - rewrite (fold_missing k m p) by done. change (tree_hash TREE_DEPTH m) with (tree_hash 256 m).
    generalize (tree_hash 256 m). intros root. cbn. by rewrite Z.eqb_refl.
Qed.

(** What an accepted proof says of its path. *)
Lemma verify_fold e root : verify e root = Ret (Ok tt) -> fold_merkle_path (merkle_path e) (base e) = Ret root.
Proof.
  unfold verify. destruct (fold_merkle_path _ _) as [h|]; cbn.
  - destruct (Z.eqb_spec h root) as [->|]; [done|]. destruct (te_leaf_index (base e) =? 0), (te_value (base e) =? 0); done.
  - destruct (te_leaf_index (base e) =? 0), (te_value (base e) =? 0); done.
Qed.

(** C4: the entries that are read with proofs are the leaves of the version (empty entries for
    absent keys), and every proof verifies against the root hash of the version. *)
Theorem entries_with_proofs_verify db v m keys :
  db_ok db -> holds db v m -> indices_ok m -> Forall (unsigned 256) keys ->
  exists es, entries_with_proofs db v keys = Ret (Ok es) /\ (base <$> es) = (entry_at m <$> keys) /\
    tree_root_hash db v = Ret (Some (tree_hash 256 m)) /\
    Forall (fun e => verify e (tree_hash 256 m) = Ret (Ok tt)) es.
Proof.
  intros Hdb Hm Hidx Hks. destruct (entries_with_proofs_ok db v m keys Hdb Hm Hks) as (es & Heq & Hes).
  exists es. split; [done|]. split; [|split; [by apply holds_root_hash|]].
  - clear -Hes. induction Hes as [|k e keys es [He _] _ IH]; [done|]. cbn. by rewrite He, IH.
  - clear Heq. induction Hes as [|k e keys es He _ IH]; [done|]. apply Forall_cons in Hks as [Hk Hks].
    constructor; [|by apply IH]. eapply proved_entry_verifies; [done|apply Hm|done|done].
Qed.

Lemma fold_path_sound k m path hash :
  (forall a b c d, hash_branch a b = hash_branch c d -> a = c /\ b = d) ->
  foldl (fun hash '(depth, adjacent_hash) => hash_step k depth hash adjacent_hash) hash (imap pair path) =
    tree_hash (length path) (same (length path) k m) ->
  hash = tree_hash 0 (same 0 k m).
Proof.
  intros Hinj. induction path as [|a path IH] using rev_ind; [done|].
  rewrite imap_app, foldl_app, length_app. cbn [imap foldl length compose]. rewrite !Nat.add_0_r, Nat.add_1_r, same_sibling_step.
  intros Heq. apply IH. unfold hash_step in Heq. destruct (Z.testbit k (Z.of_nat (length path))); by apply Hinj in Heq as [? ?].
Qed.

(** C5: if the hash functions do not collide, every entry that verifies against the root hash of
    a tree is the one in the tree: its value and leaf index, or nothing for an absent key. *)
Theorem verified_entry_in_tree m e :
  (forall a b c d, hash_branch a b = hash_branch c d -> a = c /\ b = d) ->
  (forall v i v' i', hash_leaf v i = hash_leaf v' i' -> v = v' /\ i = i') ->
  keys_ok m -> unsigned 256 (te_key (base e)) -> verify e (tree_hash 256 m) = Ret (Ok tt) ->
  base e = entry_at m (te_key (base e)).
Proof.
  intros Hbranch Hleaf Hm Hk Hfold%verify_fold. unfold fold_merkle_path in Hfold.
  destruct (decide (length (merkle_path e) <= TREE_DEPTH)%nat) as [Hle|Hgt]; [|by rewrite extend_path_panics in Hfold by lia].
  rewrite extend_path_ret, outcome_Ret_bind in Hfold by done. apply (inj Ret) in Hfold.
  set (full := _ ++ merkle_path e) in Hfold.
  assert (length full = TREE_DEPTH) as Hlen by (unfold full; rewrite length_app, length_fmap, length_seq; lia).
  assert (tree_hash 256 m = tree_hash (length full) (same (length full) (te_key (base e)) m)) as Hroot
    by (by rewrite Hlen, same_all). rewrite Hroot in Hfold. apply fold_path_sound in Hfold; [|done].
  rewrite <- (partial_alter_self m (te_key (base e))), same_0 in Hfold. unfold entry_at.
  destruct (base e) as [k value index]. cbn [te_key te_value te_leaf_index] in *.
  destruct (m !! k) as [[v i]|].
  - rewrite tree_hash_leaf in Hfold. by apply Hleaf in Hfold as [-> ->].
  - rewrite tree_hash_empty, empty_at_0 in Hfold. by apply Hleaf in Hfold as [-> ->].
Qed.
End Run.

(** ** Runs on the in-memory database *)

Lemma one_entry_lookup e k v : insert_entries ∅ [e] !! k = Some v -> k = te_key e /\ v = entry_value e.
Proof.
  cbn [insert_entries foldl]. unfold insert_entry. intros [[<- <-]|[_ Hv]]%lookup_insert_Some; [done|by rewrite lookup_empty in Hv].
Qed.

Section Witnesses.
#[local] Existing Instance sum_hasher.
#[local] Existing Instance sum_laws.

Lemma represents_default : represents patch_default [].
Proof.
  split; [|done|done]. intros v [x Hx]. cbn in Hx. by rewrite lookup_empty in Hx.
Qed.

Definition example_ops : list TreeOp :=
  [OpExtend [run_entry 1 11 1; run_entry 5 22 2]; OpExtend [run_entry 1 33 1]; OpTruncate 1; OpExtend [run_entry 9 44 3]].

Lemma example_ops_ok : ops_ok [] example_ops.
Proof. repeat split; repeat constructor; vm_compute; congruence. Qed.

Lemma tree_run_refines_witness :
  exists db', tree_run patch_default example_ops = Ret (Ok ((spec_run [] example_ops).1, db')) /\
    represents db' (spec_run [] example_ops).2 /\
    forall v m, (spec_run [] example_ops).2 !! v = Some m -> tree_root_hash db' (Z.of_nat v) = Ret (Some (tree_hash 256 m)).
Proof. exact (tree_run_refines patch_default [] example_ops represents_default example_ops_ok). Defined.

(** A tree with one version. *)
Lemma one_leaf_holds : holds one_leaf 0 (insert_entries ∅ [run_entry 1 11 1]).
Proof.
  destruct (tree_extend_ok patch_default ∅ [run_entry 1 11 1]) as (db' & Heq & _ & _ & Hnew & _);
    [apply represents_default|by left|by split|by repeat constructor|by vm_compute|].
  assert (one_leaf = db') as -> by (unfold one_leaf, after; by rewrite Heq). exact Hnew.
Qed.

Lemma one_leaf_ok : db_ok one_leaf.
Proof.
  destruct (tree_extend_ok patch_default ∅ [run_entry 1 11 1]) as (db' & Heq & Hok & _);
    [apply represents_default|by left|by split|by repeat constructor|by vm_compute|].
  assert (one_leaf = db') as -> by (unfold one_leaf, after; by rewrite Heq). exact Hok.
Qed.

Lemma entries_read_leaves_witness :
  entries one_leaf 0 [te_key (run_entry 1 11 1); 7] = Ret (Ok [run_entry 1 11 1; entry_empty 7]) /\
  entries one_leaf 3 [7] = Ret (Err {| missing_version := 3; nv_version_count := 1 |}).
Proof.
  split.
  - destruct (entries_read_leaves one_leaf 0 [te_key (run_entry 1 11 1); 7] one_leaf_ok) as [Hread _]; [by repeat constructor|].
    rewrite (Hread _ one_leaf_holds). by vm_compute.
  - destruct (entries_read_leaves one_leaf 3 [7] one_leaf_ok) as [_ Hread]; [by repeat constructor|].
    rewrite Hread; by vm_compute.
Defined.

Definition one_leaf_patched : Patched PatchSet := {| db_inner := patch_default; db_patch := Some one_leaf |}.


Lemma entries_with_proofs_verify_witness :
  exists es, entries_with_proofs one_leaf 0 [te_key (run_entry 1 11 1); 7] = Ret (Ok es) /\
    (base <$> es) = [run_entry 1 11 1; entry_empty 7] /\
    tree_root_hash one_leaf 0 = Ret (Some (tree_hash 256 (insert_entries ∅ [run_entry 1 11 1]))) /\
    Forall (fun e => verify e (tree_hash 256 (insert_entries ∅ [run_entry 1 11 1])) = Ret (Ok tt)) es.
Proof.
  destruct (entries_with_proofs_verify one_leaf 0 (insert_entries ∅ [run_entry 1 11 1]) [te_key (run_entry 1 11 1); 7]
    one_leaf_ok one_leaf_holds) as (es & Heq & Hbase & Hrest); [|by repeat constructor|].
  - intros k value [_ Hv]%one_entry_lookup. by injection Hv.
  - exists es. split; [done|]. split; [|done]. rewrite Hbase. by vm_compute.
Defined.
End Witnesses.

(** A hasher without collisions. *)
Definition free_hasher : HashTree := {|
  hasher_name := "free";
  hash_leaf value index := Zneg (encode (value, index));
  hash_branch lhs rhs := Zpos (encode (lhs, rhs));
  empty_subtree_hash depth := Ret (Nat.iter depth (fun hash => Zpos (encode (hash, hash))) (Zneg (encode (0, 0))));
|}.

Definition free_laws : @HashTreeLaws free_hasher.
Proof.
  refine (@Build_HashTreeLaws free_hasher (fun depth => Nat.iter depth (fun hash => Zpos (encode (hash, hash))) (Zneg (encode (0, 0)))) _ _ _);
    done.
Defined.

Section FreeWitness.
#[local] Existing Instance free_hasher.
#[local] Existing Instance free_laws.

Lemma verified_entry_in_tree_witness :
  verify {| base := run_entry 1 11 1; merkle_path := [] |} (tree_hash 256 (insert_entries ∅ [run_entry 1 11 1])) = Ret (Ok tt) /\
  run_entry 1 11 1 = entry_at (insert_entries ∅ [run_entry 1 11 1]) (te_key (run_entry 1 11 1)).
Proof.
  set (m := insert_entries ∅ [run_entry 1 11 1]). assert (Hk : unsigned 256 (te_key (run_entry 1 11 1))) by done.
  assert (Hm : keys_ok m) by (by intros k v [-> _]%one_entry_lookup).
  assert (Hv : verify {| base := run_entry 1 11 1; merkle_path := [] |} (tree_hash 256 m) = Ret (Ok tt)).
  { apply (proved_entry_verifies m (te_key (run_entry 1 11 1))); [|done|done|].
    - split; [done|]. exists (path_new 0). split; [done|]. split; [|done]. apply path_new_ok; [unfold TREE_DEPTH; lia|].
      intros j _. change m with (leaf_contents (leaf_new (run_entry 1 11 1))). rewrite sibling_leaf.
      rewrite decide_False; [apply tree_hash_empty|]. intros Heq. symmetry in Heq. by apply lxor_1_ne in Heq.
    - intros k value [_ Hx]%one_entry_lookup. by injection Hx. }
  split; [exact Hv|].
  refine (verified_entry_in_tree m {| base := run_entry 1 11 1; merkle_path := [] |} _ _ Hm Hk Hv).
  - clear Hv. intros a b c d Heq. injection Heq as Heq. apply (inj encode) in Heq. by injection Heq.
  - clear Hv. intros v i v' i' Heq. injection Heq as Heq. apply (inj encode) in Heq. by injection Heq.
Defined.
End FreeWitness.
