(* ===== verification/TreeConsistency.v ===== *)
(** * Consistency checks of the state tree

    [MerkleTree::verify_consistency] ([src/core/lib/merkle_tree/src/consistency.rs]) is sound and
    complete: it returns for every database, and accepts a version exactly if its nodes represent
    a set of leaves whose indices are the numbers from 1 to the number of leaves. *)

From S2P Require Import Prelude Bytes Utils TreeUtils TreeTypes TreeHasher TreeDatabase TreeStorage MerkleTree TreeSpec TreeExamples TreeInvariant TreeInsert TreeLoad TreeFinalize TreeProofs TreeExtend TreeLaws TreeApi.
Open Scope Z_scope.

(** ** The set of leaf indices *)

Definition bit_at (bits : list Z) (j : nat) : bool :=
  Z.testbit (bits !!! (j / BITS_PER_ATOMIC)%nat) (Z.of_nat (j mod BITS_PER_ATOMIC)).

Record bits_rep (bits : list Z) (n : nat) (X : gset Z) : Prop := {
  bits_length : length bits = ((n + BITS_PER_ATOMIC - 1) / BITS_PER_ATOMIC)%nat;
  bits_member j : (j < n)%nat -> bit_at bits j = bool_decide (Z.of_nat j + 1 ∈ X);
}.

Lemma bit_lookup n (bits : list Z) j :
  length bits = ((n + BITS_PER_ATOMIC - 1) / BITS_PER_ATOMIC)%nat -> (j < n)%nat ->
  exists atomic, bits !! (j / BITS_PER_ATOMIC)%nat = Some atomic.
Proof. intros Hlen Hj. apply lookup_lt_is_Some_2. rewrite Hlen. unfold BITS_PER_ATOMIC. div_lia. Qed.

Lemma bits_new n : bits_rep (bit_set_new n) n ∅.
Proof.
  assert (Hlen : length (bit_set_new n) = ((n + BITS_PER_ATOMIC - 1) / BITS_PER_ATOMIC)%nat) by apply length_replicate.
  split; [done|]. intros j Hj. destruct (bit_lookup n _ j Hlen Hj) as [atomic Ha]. unfold bit_at.
  rewrite (list_lookup_total_correct _ _ _ Ha). apply lookup_replicate in Ha as [-> _]. rewrite Z.testbit_0_l.
  symmetry. apply bool_decide_eq_false. set_solver.
Qed.

Lemma bit_at_set (bits : list Z) i j atomic :
  bits !! (j / BITS_PER_ATOMIC)%nat = Some atomic -> is_Some (bits !! (i / BITS_PER_ATOMIC)%nat) ->
  bit_at (<[(j / BITS_PER_ATOMIC)%nat := Z.lor atomic (SmallMap.mask (Z.of_nat (j mod BITS_PER_ATOMIC)))]> bits) i =
    bit_at bits i || (i =? j)%nat.
Proof.
  intros Ha [atomic' Ha']. unfold bit_at. rewrite (list_lookup_total_correct _ _ _ Ha').
  destruct (decide (i / BITS_PER_ATOMIC = j / BITS_PER_ATOMIC)%nat) as [Hd|Hd].
  - rewrite Hd in *. rewrite Ha in Ha'. injection Ha' as <-.
    rewrite (list_lookup_total_correct _ _ (Z.lor atomic (SmallMap.mask (Z.of_nat (j mod BITS_PER_ATOMIC)))));
      [|by eapply list_lookup_insert_eq, lookup_lt_Some].
    rewrite SmallMapFacts.lor_mask_bit. f_equal. apply eq_true_iff_eq. rewrite !Nat.eqb_eq. unfold BITS_PER_ATOMIC in *. div_lia.
  - rewrite (list_lookup_total_correct _ _ atomic') by (by rewrite list_lookup_insert_ne).
    destruct (Nat.eqb_spec i j) as [->|]; [done|]. by rewrite orb_false_r.
Qed.

Lemma bit_set_set_ok bits n X j :
  bits_rep bits n X -> (j < n)%nat ->
  exists bits', bit_set_set bits j = Ret (bool_decide (Z.of_nat j + 1 ∈ X), bits') /\ bits_rep bits' n ({[Z.of_nat j + 1]} ∪ X).
Proof.
  intros [Hlen Hmem] Hj. destruct (bit_lookup n bits j Hlen Hj) as [atomic Ha]. unfold bit_set_set, index_vec. rewrite Ha. cbn [expect].
  rewrite outcome_Ret_bind. eexists. split.
  - do 2 f_equal. rewrite <- Hmem by done. unfold bit_at. rewrite (list_lookup_total_correct _ _ _ Ha).
    change (Z.shiftl 1 (Z.of_nat (j mod BITS_PER_ATOMIC))) with (SmallMap.mask (Z.of_nat (j mod BITS_PER_ATOMIC))).
    rewrite SmallMapFacts.land_mask. apply negb_involutive.
  - split; [by rewrite length_insert|]. intros i Hi.
    change (Z.shiftl 1 (Z.of_nat (j mod BITS_PER_ATOMIC))) with (SmallMap.mask (Z.of_nat (j mod BITS_PER_ATOMIC))).
    rewrite (bit_at_set bits i j atomic Ha (bit_lookup n bits i Hlen Hi)), Hmem by done.
    destruct (Nat.eqb_spec i j) as [->|Hne].
    + rewrite orb_true_r. symmetry. apply bool_decide_eq_true. set_solver.
    + rewrite orb_false_r. apply bool_decide_ext. rewrite elem_of_union, elem_of_singleton. split; [by right|]. intros [?|?]; [lia|done].
Qed.

(** ** Data on the leaves *)

Section Data.
Variable E : Z.

Record data_rep (d : LeafConsistencyData) (X : gset Z) : Prop := {
  dr_expected : expected_leaf_count d = E;
  dr_bits : bits_rep (leaf_indices_set d) (Z.to_nat E) X;
  dr_actual : actual_leaf_count d = Z.of_nat (size X);
  dr_range i : i ∈ X -> 1 <= i <= E;
}.

Lemma data_new : data_rep (leaf_data_new E) ∅.
Proof. split; [done|apply bits_new|done|set_solver]. Qed.

(** The indices of leaves. *)
Definition idx (m : Leaves) : gset Z := map_to_set (fun _ v => v.2) m.

Lemma elem_of_idx m i : i ∈ idx m <-> exists k value, m !! k = Some (value, i).
Proof.
  unfold idx. rewrite elem_of_map_to_set. split.
  - intros (k & [value i'] & Hk & Hi). cbn in Hi. subst. eauto.
  - intros (k & value & Hk). eauto.
Qed.

(** The leaves [m] have indices in the range that are different and not in [X]. *)
Record claims (X : gset Z) (m : Leaves) (X2 : gset Z) : Prop := {
  cl_new k value i : m !! k = Some (value, i) -> (1 <= i <= E) /\ (i ∉ X);
  cl_inj k k' value value' i : m !! k = Some (value, i) -> m !! k' = Some (value', i) -> k = k';
  cl_set : X2 = idx m ∪ X;
}.

Lemma claims_empty X : claims X ∅ X.
Proof.
  split; [by intros ? ? ? ?|by intros ? ? ? ? ? ?|]. apply set_eq. intros i. rewrite elem_of_union, elem_of_idx. split; [by right|].
  intros [(k & value & Hk)|?]; [by rewrite lookup_empty in Hk|done].
Qed.

Lemma claims_leaf X l X2 :
  claims X (leaf_contents l) X2 <-> (1 <= leaf_index l <= E) /\ (leaf_index l ∉ X) /\ X2 = {[leaf_index l]} ∪ X.
Proof.
  assert (Hidx : idx (leaf_contents l) = {[leaf_index l]}).
  { apply set_eq. intros i. rewrite elem_of_idx, elem_of_singleton. unfold leaf_contents. split.
    - intros (k & value & [_ [= _ <-]]%lookup_singleton_Some). done.
    - intros ->. exists (full_key l), (value_hash l). by rewrite lookup_singleton_eq. }
  split.
  - intros [Hnew _ ->]. destruct (Hnew (full_key l) (value_hash l) (leaf_index l)) as [Hr Hn]; [by apply lookup_singleton_eq|].
    by rewrite Hidx.
  - intros (Hr & Hn & ->). split; [| |by rewrite Hidx]; unfold leaf_contents.
    + intros k value i [_ [= _ <-]]%lookup_singleton_Some. done.
    + intros k k' value value' i [<- _]%lookup_singleton_Some [<- _]%lookup_singleton_Some. done.
Qed.

Lemma claims_union X m1 m2 X2 :
  m1 ##ₘ m2 -> claims X (m1 ∪ m2) X2 <-> claims X m1 (idx m1 ∪ X) /\ claims (idx m1 ∪ X) m2 X2.
Proof.
  intros Hdisj.
  assert (Hlook : forall k v, (m1 ∪ m2) !! k = Some v <-> m1 !! k = Some v \/ m2 !! k = Some v).
  { intros k v. by apply lookup_union_Some. }
  assert (Hidx : idx (m1 ∪ m2) = idx m1 ∪ idx m2).
  { apply set_eq. intros i. rewrite elem_of_union, !elem_of_idx. setoid_rewrite Hlook. naive_solver. }
  split.
  - intros [Hnew Hinj ->]. split; split; [| |done| | |rewrite Hidx; set_solver].
    + intros k value i Hk. apply (Hnew k value). apply Hlook. by left.
    + intros k k' value value' i Hk Hk'. eapply Hinj; apply Hlook; by left.
    + intros k value i Hk. destruct (Hnew k value i) as [Hr Hn]; [apply Hlook; by right|]. split; [done|].
      intros [Hi|Hi]%elem_of_union; [|done]. apply elem_of_idx in Hi as (k' & value' & Hk').
      assert (k = k') as <- by (eapply Hinj; apply Hlook; [by right|by left]).
      by eapply (map_disjoint_spec m1 m2).
    + intros k k' value value' i Hk Hk'. eapply Hinj; apply Hlook; by right.
  - intros [[Hnew1 Hinj1 _] [Hnew2 Hinj2 ->]]. split; [| |rewrite Hidx; set_solver].
    + intros k value i [Hk|Hk]%Hlook; [by eapply Hnew1|]. destruct (Hnew2 k value i Hk). split; [done|set_solver].
    + assert (Hno : forall k k' value value' i, m1 !! k = Some (value, i) -> m2 !! k' = Some (value', i) -> False).
      { intros k k' value value' i Hk Hk'. destruct (Hnew2 k' value' i Hk') as [_ Hn]. apply Hn, elem_of_union_l, elem_of_idx. eauto. }
      intros k k' value value' i [Hk|Hk]%Hlook [Hk'|Hk']%Hlook; [by eapply Hinj1| | |by eapply Hinj2]; exfalso; eauto.
Qed.

(** The same for checks that do not look at the indices. *)
Definition data_opt (d : option LeafConsistencyData) (o : option (gset Z)) : Prop :=
  match d, o with
  | Some d, Some X => data_rep d X
  | None, None => True
  | _, _ => False
  end.

Definition claims_opt (o : option (gset Z)) (m : Leaves) (o2 : option (gset Z)) : Prop :=
  match o, o2 with
  | Some X, Some X2 => claims X m X2
  | None, None => True
  | _, _ => False
  end.

Lemma claims_opt_empty o : claims_opt o ∅ o.
Proof. destruct o; [apply claims_empty|done]. Qed.

Lemma claims_opt_union o m1 m2 o2 :
  m1 ##ₘ m2 -> claims_opt o (m1 ∪ m2) o2 <-> exists o1, claims_opt o m1 o1 /\ claims_opt o1 m2 o2.
Proof.
  intros Hdisj. destruct o as [X|], o2 as [X2|]; cbn.
  - rewrite claims_union by done. split.
    + intros [H1 H2]. by exists (Some (idx m1 ∪ X)).
    + intros ([X1|] & H1 & H2); [|done]. assert (X1 = idx m1 ∪ X) as -> by apply H1. done.
  - split; [done|]. intros ([X1|] & H1 & H2); done.
  - split; [done|]. intros ([X1|] & H1 & H2); done.
  - split; [by exists None|done].
Qed.

Lemma claims_opt_functional o m o2 o3 : claims_opt o m o2 -> claims_opt o m o3 -> o2 = o3.
Proof. destruct o as [X|], o2 as [X2|], o3 as [X3|]; cbn; try done. intros [_ _ ->] [_ _ ->]. done. Qed.

(** Leaf indices and counts are 64-bit integers. *)
Hypothesis HE : unsigned 64 E.

Lemma range_size (X : gset Z) : (forall i, i ∈ X -> 1 <= i <= E) -> Z.of_nat (size X) <= E.
Proof.
  intros HX. assert (X ⊆ list_to_set (seqZ 1 E)) as Hsub by (intros i Hi%HX; apply elem_of_list_to_set, elem_of_seqZ; lia).
  apply subseteq_size in Hsub. rewrite size_list_to_set, length_seqZ in Hsub by apply NoDup_seqZ. destruct HE. lia.
Qed.

Lemma insert_leaf_ok d X l :
  data_rep d X -> 0 <= leaf_index l ->
  exists r, insert_leaf d l = Ret r /\
    match r with
    | Ok d' => (1 <= leaf_index l <= E) /\ (leaf_index l ∉ X) /\ data_rep d' ({[leaf_index l]} ∪ X)
    | Err _ => ~ ((1 <= leaf_index l <= E) /\ (leaf_index l ∉ X))
    end.
Proof.
  intros [Hexp Hbits Hact Hrange] Hl. unfold insert_leaf. rewrite Hexp.
  destruct (Z.eqb_spec (leaf_index l) 0); [eexists; split; [done|]; intros [? _]; lia|].
  destruct (Z.ltb_spec E (leaf_index l)); [eexists; split; [done|]; intros [? _]; lia|].
  destruct (bit_set_set_ok _ _ _ (Z.to_nat (leaf_index l - 1)) Hbits ltac:(lia)) as (bits' & -> & Hbits'). rewrite outcome_Ret_bind.
  replace (Z.of_nat (Z.to_nat (leaf_index l - 1)) + 1) with (leaf_index l) in * by lia.
  case_bool_decide as Hin; [eexists; split; [done|]; by intros [_ ?]|].
  eexists. split; [done|]. split; [lia|]. split; [done|].
  assert (Hr : forall i, i ∈ {[leaf_index l]} ∪ X -> 1 <= i <= E).
  { intros i [->%elem_of_singleton|Hi]%elem_of_union; [lia|by apply Hrange]. }
  pose proof (range_size _ Hr) as Hsize. rewrite size_union, size_singleton in Hsize by set_solver.
  split; [done|done| |done]. cbn [actual_leaf_count]. rewrite Hact, size_union, size_singleton by set_solver.
  rewrite wrap_small; [lia|]. destruct HE. split; lia.
Qed.
End Data.

(** ** Leaves of the children of a node *)

Definition at_pos (h : nat) (p : Z) (m : Leaves) : Prop := forall k v, m !! k = Some v -> unsigned 256 k /\ k / pow16 h = p.

Lemma at_pos_digit h p x m k v : at_pos h (16 * p + x) m -> 0 <= x < 16 -> m !! k = Some v -> digit k h = x.
Proof. intros Hm Hx Hk. destruct (Hm k v Hk) as [_ Hdiv]. unfold digit. rewrite Hdiv. by apply child_mod. Qed.

Lemma sub_at_pos h p x y m : at_pos h (16 * p + x) m -> 0 <= x < 16 -> sub h y m = if decide (y = x) then m else ∅.
Proof.
  intros Hm Hx. unfold sub. case_decide as Hy.
  - subst. apply map_filter_id. intros k v Hk. cbn. by eapply at_pos_digit.
  - apply map_empty. intros k. apply map_lookup_filter_None. right. intros v Hk. cbn. intros <-. apply Hy. by eapply at_pos_digit.
Qed.

Lemma at_pos_child h p x m : at_pos (S h) p m -> 0 <= x < 16 -> at_pos h (16 * p + x) (sub h x m).
Proof.
  intros Hm Hx k v [Hk Hd]%map_lookup_filter_Some. destruct (Hm k v Hk) as [Hu Hdiv]. split; [done|]. cbn in Hd.
  rewrite (div_pow16_digit k h). by rewrite Hdiv, Hd.
Qed.

Lemma at_pos_parent h p x m : at_pos h (16 * p + x) m -> 0 <= x < 16 -> at_pos (S h) p m.
Proof.
  intros Hm Hx k v Hk. destruct (Hm k v Hk) as [Hu Hdiv]. split; [done|]. rewrite div_pow16_S, Hdiv. by apply child_div.
Qed.

Lemma sub_union h y (m1 m2 : Leaves) : m1 ##ₘ m2 -> sub h y (m1 ∪ m2) = sub h y m1 ∪ sub h y m2.
Proof. intros Hdisj. by apply map_filter_union. Qed.

Lemma at_pos_disjoint h p x (m m2 : Leaves) :
  at_pos h (16 * p + x) m -> 0 <= x < 16 -> sub h x m2 = ∅ -> m ##ₘ m2.
Proof.
  intros Hm Hx He. apply map_disjoint_spec. intros k v1 v2 H1 H2.
  assert (sub h x m2 !! k = Some v2) as Hk; [|by rewrite He, lookup_empty in Hk].
  apply map_lookup_filter_Some. split; [done|]. cbn. by eapply at_pos_digit.
Qed.

(** The union of the leaves of the children. *)
Record gathered (h : nat) (p : Z) (xs : list Z) (ms : list Leaves) : Prop := {
  ga_child i x mx : xs !! i = Some x -> ms !! i = Some mx -> sub h x (⋃ ms) = mx;
  ga_none y : y ∉ xs -> sub h y (⋃ ms) = ∅;
  ga_pos : at_pos (S h) p (⋃ ms);
}.

Lemma gather h p xs ms :
  NoDup xs -> Forall2 (fun x mx => (0 <= x < 16) /\ at_pos h (16 * p + x) mx) xs ms -> gathered h p xs ms.
Proof.
  intros Hnd Hall. induction Hall as [|x mx xs ms [Hx Hmx] Hall IH]; [split; [done| |]|].
  - intros y _. apply map_filter_empty.
  - intros k v Hk. cbn in Hk. by rewrite lookup_empty in Hk.
  - apply NoDup_cons in Hnd as [Hnot Hnd]. destruct (IH Hnd) as [Hc Hn Hp].
    assert (Hdisj : mx ##ₘ ⋃ ms) by (eapply at_pos_disjoint; [done|done|by apply Hn]).
    assert (Hsub : forall y, sub h y (⋃ (mx :: ms)) = (if decide (y = x) then mx else ∅) ∪ sub h y (⋃ ms)).
    { intros y. change (⋃ (mx :: ms)) with (mx ∪ ⋃ ms). by rewrite sub_union, (sub_at_pos h p x) by done. }
    split.
    + intros [|i] y my Hi Hm; cbn in Hi, Hm.
      * injection Hi as <-. injection Hm as <-. rewrite Hsub, decide_True, Hn by done. apply map_union_empty.
      * rewrite Hsub, decide_False by (intros ->; apply Hnot; by eapply list_elem_of_lookup_2). rewrite (left_id_L ∅ (∪)). by eapply Hc.
    + intros y [Hne Hy]%not_elem_of_cons. by rewrite Hsub, decide_False, Hn, (left_id_L ∅ (∪)) by done.
    + intros k v Hk. change (⋃ (mx :: ms)) with (mx ∪ ⋃ ms) in Hk. apply lookup_union_Some in Hk as [Hk|Hk]; [|by apply (Hp k v)|done].
      by eapply (at_pos_parent h p x mx Hmx Hx).
Qed.

Fixpoint claims_list E (o : option (gset Z)) (ms : list Leaves) (o2 : option (gset Z)) : Prop :=
  match ms with
  | [] => o2 = o
  | m :: ms => exists o1, claims_opt E o m o1 /\ claims_list E o1 ms o2
  end.

Lemma claims_list_union E h p xs ms : forall o o2,
  NoDup xs -> Forall2 (fun x mx => (0 <= x < 16) /\ at_pos h (16 * p + x) mx) xs ms ->
  claims_list E o ms o2 <-> claims_opt E o (⋃ ms) o2.
Proof.
  intros o o2 Hnd Hall. revert o o2. induction Hall as [|x mx xs ms [Hx Hmx] Hall IH]; intros o o2.
  - cbn [claims_list]. split; [intros ->; apply claims_opt_empty|]. intros Hc. by eapply claims_opt_functional; [|apply claims_opt_empty].
  - apply NoDup_cons in Hnd as [Hnot Hnd]. change (⋃ (mx :: ms)) with (mx ∪ ⋃ ms). rewrite claims_opt_union.
    + cbn [claims_list]. by setoid_rewrite (IH Hnd).
    + eapply at_pos_disjoint; [done|done|]. by apply (ga_none h p xs ms (gather h p xs ms Hnd Hall)).
Qed.

(** ** The references of a node *)

Lemma children_iter n x c : node_wf n -> (x, c) ∈ SmallMap.iter (children n) <-> (0 <= x < 16) /\ child_at n x = Some c.
Proof.
  intros Hwf. split.
  - intros Hin. destruct (SmallMapFacts.iter_keys _ _ _ Hin) as (i & -> & Hi).
    apply SmallMapFacts.iter_lookup in Hin as [_ Hl]; [|done]. split; [lia|]. unfold child_at. by rewrite Nat2Z.id.
  - intros [Hx Hc]. unfold child_at in Hc. rewrite <- (Z2Nat.id x) by lia. apply SmallMapFacts.iter_lookup; [done|]. split; [lia|done].
Qed.

Lemma max_child_version_spec n : node_wf n ->
  match max_child_version n with
  | None => forall x, 0 <= x < 16 -> child_at n x = None
  | Some v => (exists x c, (0 <= x < 16) /\ child_at n x = Some c /\ cr_version c = v) /\
      forall x c, 0 <= x < 16 -> child_at n x = Some c -> cr_version c <= v
  end.
Proof.
  intros Hwf. unfold max_child_version.
  assert (Hfold : forall l : list (Z * ChildRef),
    match foldr (fun '(_, c) acc => Some (match acc with Some v => Z.max (cr_version c) v | None => cr_version c end)) None l with
    | None => l = []
    | Some v => (exists x c, (x, c) ∈ l /\ cr_version c = v) /\ forall x c, (x, c) ∈ l -> cr_version c <= v
    end).
  { induction l as [|[x c] l IH]; [done|]. cbn [foldr].
    destruct (foldr _ None l) as [v|].
    - destruct IH as [(x0 & c0 & Hin & Hv) Hall]. split.
      + destruct (decide (v <= cr_version c)).
        * exists x, c. split; [left|lia].
        * exists x0, c0. split; [by right|lia].
      + intros y d [[= -> ->]|Hy]%elem_of_cons; [lia|]. specialize (Hall y d Hy). lia.
    - subst l. split; [exists x, c; split; [left|done]|]. intros y d [[= -> ->]|Hy]%elem_of_cons; [done|by apply elem_of_nil in Hy]. }
  specialize (Hfold (SmallMap.iter (children n))). destruct (foldr _ None _) as [v|].
  - destruct Hfold as [(x & c & Hin & Hv) Hall]. apply children_iter in Hin as [Hx Hc]; [|done]. split; [eauto|].
    intros y d Hy Hd. apply (Hall y d). by apply children_iter.
  - intros x Hx. destruct (child_at n x) as [c|] eqn:Hc; [|done]. assert ((x, c) ∈ SmallMap.iter (children n)) as Hin by (by apply children_iter).
    rewrite Hfold in Hin. by apply elem_of_nil in Hin.
Qed.

Lemma max_child_version_eq n v :
  node_wf n -> (exists x c, (0 <= x < 16) /\ child_at n x = Some c /\ cr_version c = v) ->
  (forall x c, 0 <= x < 16 -> child_at n x = Some c -> cr_version c <= v) -> max_child_version n = Some v.
Proof.
  intros Hwf (x & c & Hx & Hc & Hv) Hall. pose proof (max_child_version_spec n Hwf) as Hmax.
  destruct (max_child_version n) as [v'|]; [|by rewrite Hmax in Hc].
  destruct Hmax as [(x' & c' & Hx' & Hc' & Hv') Hall']. specialize (Hall x' c' Hx' Hc'). specialize (Hall' x c Hx Hc). f_equal. lia.
Qed.

(** ** Loops over references *)

Section Loop.
Variable E : Z.
Variable f : Z * ChildRef -> option LeafConsistencyData -> outcome (result (option LeafConsistencyData) ConsistencyError).

Lemma children_complete cs ms :
  Forall2 (fun xc m => forall d o o2, data_opt E d o -> claims_opt E o m o2 -> exists d2, f xc d = Ret (Ok d2) /\ data_opt E d2 o2) cs ms ->
  forall d o o2, data_opt E d o -> claims_list E o ms o2 ->
  exists d2, validate_children f cs d = Ret (Ok d2) /\ data_opt E d2 o2.
Proof.
  induction 1 as [|xc m cs ms Hf _ IH]; intros d o o2 Hd Hc; cbn [claims_list validate_children] in *.
  - subst o2. eauto.
  - destruct Hc as (o1 & Hc1 & Hc2). destruct (Hf d o o1 Hd Hc1) as (d1 & -> & Hd1). cbn [try_outcome]. by eapply IH.
Qed.

Lemma children_sound (Q : Z * ChildRef -> Leaves -> Prop) cs :
  (forall xc, xc ∈ cs -> forall d o, data_opt E d o -> exists r, f xc d = Ret r /\
     forall d2, r = Ok d2 -> exists m o2, Q xc m /\ claims_opt E o m o2 /\ data_opt E d2 o2) ->
  forall d o, data_opt E d o -> exists r, validate_children f cs d = Ret r /\
    forall d2, r = Ok d2 -> exists ms o2, Forall2 Q cs ms /\ claims_list E o ms o2 /\ data_opt E d2 o2.
Proof.
  induction cs as [|xc cs IH]; intros Hf d o Hd; cbn [validate_children].
  - exists (Ok d). split; [done|]. intros d2 [= <-]. exists [], o. done.
  - destruct (Hf xc ltac:(left) d o Hd) as (r & -> & Hr). destruct r as [d1|err]; cbn [try_outcome]; [|by eexists].
    destruct (Hr d1 eq_refl) as (m & o1 & HQ & Hc1 & Hd1).
    destruct (IH ltac:(intros xc' Hin; apply Hf; by right) d1 o1 Hd1) as (r & -> & Hr2). exists r. split; [done|].
    intros d2 ->. destruct (Hr2 d2 eq_refl) as (ms & o2 & HQs & Hc2 & Hd2). exists (m :: ms), o2.
    split; [by constructor|]. split; [by exists o1|done].
Qed.
End Loop.

Section Check.
Context `{!HashTree, !HashTreeLaws} {DB : Type} `{!Database DB}.
Variables (db : DB) (N : Nodes) (v0 : Z) (root : Node) (E : Z).
Hypothesis HE : unsigned 64 E.

(** What the types of nodes guarantee; a node that is read has no cache. *)
Definition node_typed (node : Node) : Prop :=
  match node with
  | Internal n => node_wf n /\ node_cache n = None
  | Leaf l => unsigned 256 (full_key l) /\ unsigned 64 (leaf_index l)
  end.

(** The nodes of the database and the root of the version at hand. *)
Definition node_in (key : NodeKey) (node : Node) : Prop := N key = Some node \/ (key = with_version (nib 64 0) v0 /\ node = root).

(** Reading along a reference returns a node of the kind that the reference says. *)
Definition typed_reads : Prop := forall h p u n x c node,
  valid (S h) p -> node_in (with_version (nib (S h) p) u) (Internal n) -> 0 <= x < 16 -> child_at n x = Some c ->
  try_tree_node db (with_version (nib h (16 * p + x)) (cr_version c)) (is_leaf c) = Ok (Some node) ->
  N (with_version (nib h (16 * p + x)) (cr_version c)) = Some node /\ leafb node = is_leaf c /\ node_typed node.

(** The outcome of the check of a node. *)
Definition node_checked (h : nat) (p u : Z) (node : Node) (o : option (gset Z))
    (r : result (Z * option LeafConsistencyData) ConsistencyError) : Prop :=
  forall hash d2, r = Ok (hash, d2) -> exists m o2,
    stored N h p u node m /\ at_pos h p m /\ hash = tree_hash (4 * h) m /\ claims_opt E o m o2 /\ data_opt E d2 o2.

Lemma key_is_root h p u : valid h p -> node_key_is_empty (with_version (nib h p) u) = bool_decide (h = 64%nat).
Proof.
  intros [Hh _]. unfold node_key_is_empty. cbn [nk_nibbles with_version nib nibble_count].
  apply eq_true_iff_eq. rewrite Nat.eqb_eq, bool_decide_eq_true. lia.
Qed.

Lemma validate_leaf_ok fuel h p u l d o :
  valid h p -> node_typed (Leaf l) -> data_opt E d o ->
  exists r, validate_node (S fuel) db (Leaf l) (with_version (nib h p) u) d = Ret r /\ node_checked h p u (Leaf l) o r /\
    (at_pos h p (leaf_contents l) -> forall o2, claims_opt E o (leaf_contents l) o2 -> exists d2,
       r = Ok (tree_hash (4 * h) (leaf_contents l), d2) /\ data_opt E d2 o2).
Proof.
  intros Hv [Hk Hi] Hd. cbn [validate_node nk_nibbles with_version nib nibble_count].
  change (mkNibbles (64 - h) (be_bytes KEY_SIZE (p * pow16 h))) with (nib h p).
  rewrite nibbles_new_nib, outcome_Ret_bind by apply Hv.
  destruct (decide (full_key l / pow16 h = p)) as [Hp|Hp].
  - rewrite Hp, bool_decide_eq_true_2 by done. cbn [negb].
    assert (Hhash : leaf_hash l ((64 - h) * 4) = Ret (tree_hash (4 * h) (leaf_contents l))).
    { rewrite leaf_hash_spec by (unfold TREE_DEPTH; lia). do 2 f_equal. unfold TREE_DEPTH. destruct Hv. lia. }
    assert (Hpos : at_pos h p (leaf_contents l)).
    { unfold leaf_contents. intros k v [<- _]%lookup_singleton_Some. done. }
    destruct d as [d|], o as [X|]; try done.
    + destruct (insert_leaf_ok E HE d X l Hd ltac:(apply Hi)) as (r & -> & Hr). destruct r as [d'|err]; cbn [try_outcome].
      * destruct Hr as (Hrange & Hnew & Hd'). rewrite Hhash, outcome_Ret_bind. eexists. split; [done|]. split.
        -- intros hash d2 [= <- <-]. exists (leaf_contents l), (Some ({[leaf_index l]} ∪ X)).
           split; [by apply stored_leaf|]. split; [done|]. split; [done|]. split; [by apply claims_leaf|done].
        -- intros _ [X2|] Hc; [|done]. apply claims_leaf in Hc as (_ & _ & ->). by exists (Some d').
      * eexists. split; [done|]. split; [done|]. intros _ [X2|] Hc; [|done]. apply claims_leaf in Hc as (? & ? & _). by destruct Hr.
    + cbn [try_outcome]. rewrite Hhash, outcome_Ret_bind. eexists. split; [done|]. split.
      * intros hash d2 [= <- <-]. exists (leaf_contents l), None. split; [by apply stored_leaf|]. done.
      * intros _ [X2|] Hc; [done|]. by exists None.
  - rewrite bool_decide_eq_false_2.
    + eexists. split; [done|]. split; [done|]. intros Hpos. exfalso. apply Hp.
      by apply (Hpos (full_key l) (value_hash l, leaf_index l)), lookup_singleton_eq.
    + intros Heq. apply Hp. apply nib_eq in Heq as [_ ?]; [done| |done]. by apply valid_key; [apply Hv|].
Qed.

(** *** Internal nodes *)

Lemma validate_version_ok h p u v :
  valid h p -> exists r, validate_version (with_version (nib h p) u) v = r /\
    (r = Ok tt <-> ((h < 64)%nat -> v = u) /\ (h = 64%nat -> v <= u)).
Proof.
  intros Hv. eexists. split; [done|]. unfold validate_version. rewrite key_is_root by done. cbn [nk_version with_version].
  destruct Hv as [Hh _]. case_bool_decide as Hr; cbn [negb andb].
  - subst. destruct (Z.ltb_spec u v); [split; [done|]; intros [_ ?]; lia|]. split; [|done]. intros _. split; [lia|done].
  - destruct (Z.eqb_spec v u) as [->|]; cbn [negb]; [by split|]. split; [done|]. intros [Heq _]. exfalso. apply n, Heq. lia.
Qed.

Definition child_stored (h : nat) (p : Z) (xc : Z * ChildRef) (m : Leaves) : Prop :=
  cr_hash xc.2 = tree_hash (4 * h) m /\ at_pos h (16 * p + xc.1) m /\
  exists node, N (with_version (nib h (16 * p + xc.1)) (cr_version xc.2)) = Some node /\ leafb node = is_leaf xc.2 /\
    stored N h (16 * p + xc.1) (cr_version xc.2) node m.

Lemma child_stored_pos h p n ms :
  node_wf n -> Forall2 (child_stored h p) (SmallMap.iter (children n)) ms ->
  Forall2 (fun x mx => (0 <= x < 16) /\ at_pos h (16 * p + x) mx) (SmallMap.iter (children n)).*1 ms.
Proof.
  intros Hwf Hall. rewrite Forall2_fmap_l. apply Forall2_same_length_lookup_2; [by eapply Forall2_length|]. intros i [x c] mx Hi Hm.
  destruct (Forall2_lookup_lr _ _ _ _ _ _ Hall Hi Hm) as (_ & Hp & _). cbn [fst snd] in *. split; [|done].
  apply list_elem_of_lookup_2, children_iter in Hi as [? _]; done.
Qed.

(** The leaves below a node whose children are stored. *)
Lemma stored_gathered h p u n ms v :
  node_wf n -> node_cache n = None -> max_child_version n = Some v -> v <= u -> ((S h < 64)%nat -> v = u) ->
  Forall2 (child_stored h p) (SmallMap.iter (children n)) ms ->
  stored N (S h) p u (Internal n) (⋃ ms) /\ at_pos (S h) p (⋃ ms) /\ child_hashes_ok h n (⋃ ms).
Proof.
  intros Hwf Hcache Hmax Hle Hroot Hall. pose proof (max_child_version_spec n Hwf) as Hspec. rewrite Hmax in Hspec.
  destruct Hspec as [(x0 & c0 & Hx0 & Hc0 & Hv0) Hvers].
  destruct (gather h p (SmallMap.iter (children n)).*1 ms (SmallMapFacts.iter_NoDup _)) as [Hchild Hnone Hpos].
  { by apply child_stored_pos. }
  assert (Hat : forall x c, (0 <= x < 16) -> child_at n x = Some c -> child_stored h p (x, c) (sub h x (⋃ ms))).
  { intros x c Hx Hc. assert ((x, c) ∈ SmallMap.iter (children n)) as [i Hi]%list_elem_of_lookup by (by apply children_iter).
    destruct (Forall2_lookup_l _ _ _ _ _ Hall Hi) as (mx & Hm & Hst).
    rewrite (Hchild i x mx); [done| |done]. by rewrite list_lookup_fmap, Hi. }
  assert (Hempty : forall x, 0 <= x < 16 -> child_at n x = None -> sub h x (⋃ ms) = ∅).
  { intros x Hx Hc. apply Hnone. intros ([x' c'] & -> & Hin)%list_elem_of_fmap. apply children_iter in Hin as [_ Hin]; [|done]. cbn in Hc. congruence. }
  assert (Hne : ⋃ ms <> ∅).
  { intros He. destruct (Hat x0 c0 Hx0 Hc0) as (_ & _ & node & _ & _ & Hst). apply stored_nonempty in Hst. apply Hst. rewrite He. apply map_filter_empty. }
  split; [|split; [done|]].
  - cbn [stored]. split; [done|]. split; [done|]. split; [done|]. split.
    + intros Hlt. exists x0, c0. rewrite Hv0, Hroot by done. done.
    + intros x Hx. destruct (child_at n x) as [c|] eqn:Hc; [|by apply Hempty].
      destruct (Hat x c Hx Hc) as (Hhash & _ & node & HN & Hleaf & Hst). split; [specialize (Hvers x c Hx Hc); lia|]. split; [done|]. by exists node.
  - apply child_hashes_of. intros x Hx. destruct (child_at n x) as [c|] eqn:Hc; [|by apply Hempty]. by apply (Hat x c Hx Hc).
Qed.

Lemma push_root_leaf p x : nibbles_push (nib 0 p) x = Ret None.
Proof. done. Qed.

Lemma level_of_height h : (h <= 64)%nat -> ((64 - h) * 4)%nat = (TREE_DEPTH - 4 * h)%nat.
Proof. unfold TREE_DEPTH. lia. Qed.

(** A child, if the check of nodes is sound. *)
Lemma validate_child_sound (validate : Node -> NodeKey -> option LeafConsistencyData ->
    outcome (result (Z * option LeafConsistencyData) ConsistencyError)) h p u n x c d o :
  (forall node d o, node_in (with_version (nib h (16 * p + x)) (cr_version c)) node -> node_typed node -> data_opt E d o ->
     exists r, validate node (with_version (nib h (16 * p + x)) (cr_version c)) d = Ret r /\
       node_checked h (16 * p + x) (cr_version c) node o r) ->
  typed_reads -> node_in (with_version (nib (S h) p) u) (Internal n) -> valid (S h) p -> node_wf n -> (x, c) ∈ SmallMap.iter (children n) -> data_opt E d o ->
  exists r, validate_child validate db (with_version (nib (S h) p) u) (x, c) d = Ret r /\
    forall d2, r = Ok d2 -> exists m o2, child_stored h p (x, c) m /\ claims_opt E o m o2 /\ data_opt E d2 o2.
Proof.
  intros Hval Htyped Hin Hv Hwf [Hx Hc]%children_iter Hd; [|done]. unfold validate_child. cbn [nk_nibbles with_version].
  rewrite nibbles_push_nib, outcome_Ret_bind by (done || (destruct Hv as [? [? ?]]; lia)).
  destruct (try_tree_node db _ (is_leaf c)) as [[node|]|err] eqn:Hread; [|by eexists..].
  destruct (Htyped h p u n x c node Hv Hin Hx Hc Hread) as (HN & Hleaf & Hnode).
  destruct (Hval node d o (or_introl HN) Hnode Hd) as (r & -> & Hr).
  destruct r as [[hash d2]|err]; cbn [try_outcome]; [|by eexists]. destruct (Hr hash d2 eq_refl) as (m & o2 & Hst & Hpos & -> & Hc2 & Hd2).
  destruct (Z.eqb_spec (tree_hash (4 * h) m) (cr_hash c)) as [Hh|]; [|by eexists]. eexists. split; [done|].
  intros d3 [= <-]. exists m, o2. split; [|done]. split; [done|]. split; [done|]. by exists node.
Qed.

(** The check of a node returns, and what it accepts is stored. *)
Lemma validate_node_sound fuel : forall h p u node d o,
  typed_reads -> (h < fuel)%nat -> valid h p -> node_in (with_version (nib h p) u) node -> node_typed node -> data_opt E d o ->
  exists r, validate_node fuel db node (with_version (nib h p) u) d = Ret r /\ node_checked h p u node o r.
Proof.
  induction fuel as [|fuel IH]; intros h p u node d o Htyped Hfuel Hv Hin Hnode Hd; [lia|].
  destruct node as [n|l].
  2:{ destruct (validate_leaf_ok fuel h p u l d o Hv Hnode Hd) as (r & Hr & Hc & _). eauto. }
  destruct Hnode as [Hwf Hcache]. cbn [validate_node]. pose proof (max_child_version_spec n Hwf) as Hmax.
  destruct (max_child_version n) as [v|] eqn:Hv0; [|by eexists].
  destruct (validate_version_ok h p u v Hv) as (r0 & -> & Hver). destruct r0 as [[]|err]; cbn [try_outcome]; [|by eexists].
  apply proj1 in Hver. specialize (Hver eq_refl). destruct Hver as [Hlt Heq]. set (check := validate_child _ _ _).
  destruct h as [|h].
  - destruct (children_sound E check (fun _ _ => False) (SmallMap.iter (children n))) with (d := d) (o := o) as (r & -> & Hr); [|done|].
    + intros [x c] _ d1 o1 _. unfold check, validate_child. cbn [nk_nibbles with_version]. rewrite push_root_leaf, outcome_Ret_bind. by eexists.
    + destruct r as [d2|err]; cbn [try_outcome]; [|by eexists]. destruct (Hr d2 eq_refl) as (ms & o2 & Hall & _).
      destruct Hmax as [(x & c & Hx & Hc & _) _]. assert ((x, c) ∈ SmallMap.iter (children n)) as [i Hi]%list_elem_of_lookup by (by apply children_iter).
      by destruct (Forall2_lookup_l _ _ _ _ _ Hall Hi) as (? & _ & ?).
  - destruct (children_sound E check (child_stored h p) (SmallMap.iter (children n))) with (d := d) (o := o) as (r & -> & Hr); [|done|].
    + intros [x c] Hxc d1 o1 Hd1. apply (validate_child_sound _ h p u n); [|done..]. intros node d2 o2 Hin2 Hnode Hd2.
      apply IH; [done|lia| |done..]. apply children_iter in Hxc as [Hx _]; [|done]. by apply valid_child.
    + destruct r as [d2|err]; cbn [try_outcome]; [|by eexists]. destruct (Hr d2 eq_refl) as (ms & o2 & Hall & Hc & Hd2).
      assert (v <= u) as Hle by (destruct (decide (S h = 64)%nat) as [H64|H64]; [by apply Heq|rewrite Hlt; [lia|destruct Hv; lia]]).
      destruct (stored_gathered h p u n ms v Hwf Hcache Hv0 Hle Hlt Hall) as (Hst & Hpos & Hhashes).
      cbn [nk_nibbles with_version nib nibble_count]. rewrite level_of_height by apply Hv.
      rewrite (internal_hash_spec h n (⋃ ms)) by (done || (destruct Hv; lia)). rewrite outcome_Ret_bind. eexists. split; [done|].
      intros hash d3 [= <- <-]. exists (⋃ ms), o2. split; [done|]. split; [done|]. split; [done|]. split; [|done].
      by apply (claims_list_union E h p _ ms o o2 (SmallMapFacts.iter_NoDup _) (child_stored_pos h p n ms Hwf Hall)).
Qed.

(** *** What is stored is accepted *)

Definition indices_64 (m : Leaves) : Prop := forall k value i, m !! k = Some (value, i) -> unsigned 64 i.

Lemma stored_children h p u n m :
  stored N (S h) p u (Internal n) m -> at_pos (S h) p m ->
  (forall xc, xc ∈ SmallMap.iter (children n) -> child_stored h p xc (sub h xc.1 m)) /\
  Forall2 (child_stored h p) (SmallMap.iter (children n)) ((fun xc => sub h xc.1 m) <$> SmallMap.iter (children n)) /\
  ⋃ ((fun xc => sub h xc.1 m) <$> SmallMap.iter (children n)) = m.
Proof.
  intros Hst Hpos. pose proof (fun x c => stored_child N h p u n m x c Hst) as Hchild.
  cbn [stored] in Hst. destruct Hst as (Hwf & _ & _ & _ & Hch).
  assert (Heach : forall xc, xc ∈ SmallMap.iter (children n) -> child_stored h p xc (sub h xc.1 m)).
  { intros [x c] [Hx Hc]%children_iter; [|done].
    destruct (Hchild x c Hx Hc) as (_ & Hhash & node & HN & Hleaf & Hst). split; [done|]. cbn [fst snd].
    split; [by apply at_pos_child|]. by exists node. }
  assert (Hall : Forall2 (child_stored h p) (SmallMap.iter (children n)) ((fun xc => sub h xc.1 m) <$> SmallMap.iter (children n))).
  { by apply Forall2_fmap_r, Forall_Forall2_diag, Forall_forall. }
  split; [done|]. split; [done|]. apply (sub_ext h). intros x Hx.
  destruct (gather h p _ _ (SmallMapFacts.iter_NoDup (children n)) (child_stored_pos h p n _ Hwf Hall)) as [Hsub Hnone _].
  specialize (Hch x Hx). destruct (child_at n x) as [c|] eqn:Hc.
  - assert ((x, c) ∈ SmallMap.iter (children n)) as [i Hi]%list_elem_of_lookup by (by apply children_iter).
    apply (Hsub i); rewrite list_lookup_fmap, Hi; done.
  - rewrite Hch. apply Hnone. intros ([x' c'] & -> & Hin)%list_elem_of_fmap. apply children_iter in Hin as [_ Hin]; [|done].
    cbn [fst] in *. congruence.
Qed.

Lemma indices_64_sub h x m : indices_64 m -> indices_64 (sub h x m).
Proof. intros Hm k value i [Hk _]%map_lookup_filter_Some. by eapply Hm. Qed.

(** The version of a node that is stored. *)
Lemma stored_max_version h p u n m :
  stored N (S h) p u (Internal n) m -> exists v, max_child_version n = Some v /\ v <= u /\ ((S h < 64)%nat -> v = u).
Proof.
  intros (Hwf & _ & Hne & Hmax & Hch).
  assert (Hvers : forall x c, 0 <= x < 16 -> child_at n x = Some c -> cr_version c <= u).
  { intros x c Hx Hc. specialize (Hch x Hx). rewrite Hc in Hch. by destruct Hch. }
  pose proof (max_child_version_spec n Hwf) as Hspec. destruct (max_child_version n) as [v|].
  - destruct Hspec as [(x & c & Hx & Hc & <-) Hall]. exists (cr_version c). split; [done|]. split; [by eapply Hvers|].
    intros Hlt. destruct (Hmax Hlt) as (x' & c' & Hx' & Hc' & <-). specialize (Hvers x c Hx Hc). specialize (Hall x' c' Hx' Hc'). lia.
  - exfalso. apply Hne. apply (sub_ext h). intros x Hx. specialize (Hch x Hx). rewrite Hspec in Hch by done. rewrite Hch. symmetry. apply map_filter_empty.
Qed.

Lemma validate_child_complete (validate : Node -> NodeKey -> option LeafConsistencyData ->
    outcome (result (Z * option LeafConsistencyData) ConsistencyError)) h p u n x c m d o2 :
  (forall node, stored N h (16 * p + x) (cr_version c) node m ->
     exists d2, validate node (with_version (nib h (16 * p + x)) (cr_version c)) d = Ret (Ok (tree_hash (4 * h) m, d2)) /\
       data_opt E d2 o2) ->
  reads_ok db N -> valid (S h) p -> node_wf n -> (x, c) ∈ SmallMap.iter (children n) -> child_stored h p (x, c) m ->
  exists d2, validate_child validate db (with_version (nib (S h) p) u) (x, c) d = Ret (Ok d2) /\ data_opt E d2 o2.
Proof.
  intros Hval Hdb Hv Hwf [Hx Hc]%children_iter (Hhash & _ & node & HN & Hleaf & Hst); [|done]. cbn [fst snd] in *.
  unfold validate_child. cbn [nk_nibbles with_version].
  rewrite nibbles_push_nib, outcome_Ret_bind by (done || (destruct Hv as [? [? ?]]; lia)).
  rewrite <- Hleaf, (read_node db N Hdb _ _ HN). destruct (Hval node Hst) as (d2 & -> & Hd2). cbn [try_outcome].
  rewrite Hhash, Z.eqb_refl. eauto.
Qed.

Lemma validate_node_complete fuel : forall h p u node m d o o2,
  reads_ok db N -> (h < fuel)%nat -> valid h p -> stored N h p u node m -> at_pos h p m -> indices_64 m ->
  data_opt E d o -> claims_opt E o m o2 ->
  exists d2, validate_node fuel db node (with_version (nib h p) u) d = Ret (Ok (tree_hash (4 * h) m, d2)) /\ data_opt E d2 o2.
Proof.
  induction fuel as [|fuel IH]; intros h p u node m d o o2 Hdb Hfuel Hv Hst Hpos Hidx Hd Hc; [lia|].
  destruct node as [n|l].
  2:{ apply stored_leaf in Hst as ->.
      assert (leaf_contents l !! full_key l = Some (value_hash l, leaf_index l)) as Hl by apply lookup_singleton_eq.
      destruct (validate_leaf_ok fuel h p u l d o Hv) as (r & -> & _ & Hr); [split; [by apply (Hpos _ _ Hl)|by eapply Hidx]|done|].
      destruct (Hr Hpos o2 Hc) as (d2 & -> & Hd2). eauto. }
  destruct h as [|h]; [done|]. destruct (stored_children h p u n m Hst Hpos) as (Heach & Hall & Hm).
  pose proof Hst as (Hwf & _ & _ & _ & Hch). cbn [validate_node].
  destruct (stored_max_version h p u n m Hst) as (v & -> & Hle & Hlt).
  destruct (validate_version_ok (S h) p u v Hv) as (r0 & -> & Hver). rewrite (proj2 Hver) by (split; [done|lia]). cbn [try_outcome].
  destruct (children_complete E (validate_child (validate_node fuel db) db (with_version (nib (S h) p) u))
    (SmallMap.iter (children n)) ((fun xc => sub h xc.1 m) <$> SmallMap.iter (children n))) with (d := d) (o := o) (o2 := o2)
    as (d2 & -> & Hd2); [|done| |].
  - apply Forall2_fmap_r, Forall_Forall2_diag, Forall_forall. intros [x c] Hin d1 o1 o3 Hd1 Hc1.
    apply (validate_child_complete _ h p u n x c (sub h x m)); [|done..|by apply (Heach (x, c))].
    intros node Hst1. apply children_iter in Hin as [Hx _]; [|done].
    apply (IH h (16 * p + x) (cr_version c) node (sub h x m) d1 o1 o3); [done|lia|by apply valid_child|done|by apply at_pos_child|by apply indices_64_sub|done..].
  - apply (claims_list_union E h p _ _ o o2 (SmallMapFacts.iter_NoDup _) (child_stored_pos h p n _ Hwf Hall)). by rewrite Hm.
  - cbn [try_outcome nk_nibbles with_version nib nibble_count]. rewrite level_of_height by apply Hv.
    rewrite (internal_hash_spec h n m), outcome_Ret_bind; [eauto|destruct Hv; lia|done|]. apply child_hashes_of.
    intros x Hx. specialize (Hch x Hx). destruct (child_at n x); [|done]. by destruct Hch as (_ & ? & _).
Qed.
End Check.

(** ** [verify_consistency] *)

Lemma idx_size m :
  (forall k k' value value' i, m !! k = Some (value, i) -> m !! k' = Some (value', i) -> k = k') -> size (idx m) = size m.
Proof.
  intros Hinj. unfold idx, map_to_set. rewrite size_list_to_set, length_fmap; [apply length_map_to_list|].
  apply NoDup_fmap_2_strong; [|apply NoDup_map_to_list].
  intros [k [value i]] [k' [value' i']] Hk%elem_of_map_to_list Hk'%elem_of_map_to_list. cbn. intros <-.
  assert (k = k') as <- by (by eapply Hinj). by rewrite Hk in Hk'; injection Hk' as <-.
Qed.

Lemma at_pos_root m : at_pos 64 0 m <-> keys_ok m.
Proof.
  split.
  - intros Hm k v Hk. by apply (Hm k v).
  - intros Hm k v Hk. specialize (Hm k v Hk). split; [done|]. by apply div_pow16_64.
Qed.

(** The indices of the leaves are the numbers from 1 to their count. *)
Definition indices_dense (m : Leaves) : Prop :=
  (forall k value i, m !! k = Some (value, i) -> 1 <= i <= leaves_count m) /\
  (forall k k' value value' i, m !! k = Some (value, i) -> m !! k' = Some (value', i) -> k = k').

Lemma indices_dense_claims m : indices_dense m <-> exists X, claims (leaves_count m) ∅ m X /\ Z.of_nat (size X) = leaves_count m.
Proof.
  split.
  - intros [Hr Hinj]. exists (idx m ∪ ∅). rewrite (right_id_L ∅ (∪)), idx_size by done. split; [|done].
    split; [|done|by rewrite (right_id_L ∅ (∪))]. intros k value i Hk. split; [by eapply Hr|set_solver].
  - intros (X & [Hnew Hinj _] & _). split; [|done]. intros k value i Hk. by apply (Hnew k value i).
Qed.

Section Verify.
Context `{!HashTree, !HashTreeLaws} {DB : Type} `{!Database DB, !DatabaseLaws DB}.
Implicit Types db : DB.

(** Nodes that are read have the requested kind and the values their types allow. *)
Definition db_typed db (v : Z) : Prop := forall count node, db_roots db v = Some (RootFilled count node) ->
  typed_reads db (db_nodes db) v node /\ node_typed node /\ unsigned 64 count.

Lemma stored_indices db v root h : forall p u node m,
  db_ok db -> typed_reads db (db_nodes db) v root -> valid h p -> node_in (db_nodes db) v root (with_version (nib h p) u) node ->
  node_typed node -> stored (db_nodes db) h p u node m -> indices_64 m.
Proof.
  induction h as [|h IH]; intros p u node m Hok Htyped Hv Hin Hnode Hst; (destruct node as [n|l]; [|apply stored_leaf in Hst as ->;
    unfold leaf_contents; intros k value i [_ [= _ <-]]%lookup_singleton_Some; by destruct Hnode]); [done|].
  pose proof (fun x c => stored_child _ h p u n m x c Hst) as Hchild. destruct Hst as (_ & _ & _ & _ & Hch).
  intros k value i Hk. specialize (Hch (digit k h) (digit_range k h)).
  assert (sub h (digit k h) m !! k = Some (value, i)) as Hsub by (by apply map_lookup_filter_Some).
  destruct (child_at n (digit k h)) as [c|] eqn:Hc; [|by rewrite Hch, lookup_empty in Hsub].
  destruct (Hchild _ c (digit_range k h) Hc) as (_ & _ & node' & HN & Hleaf & Hst').
  pose proof (read_node _ _ (db_reads_ok db Hok) _ _ HN) as Hread. rewrite Hleaf in Hread.
  destruct (Htyped h p u n _ c node' Hv Hin (digit_range k h) Hc Hread) as (_ & _ & Hnode').
  eapply (IH _ _ node' _ Hok Htyped (valid_child _ _ _ Hv (digit_range k h)) (or_introl HN) Hnode' Hst'), Hsub.
Qed.

(** What the check establishes of a root. *)
Definition root_consistent db (v : Z) (validate_indices : bool) (root : Root) (m : Leaves) : Prop :=
  keys_ok m /\ root_stored (db_nodes db) v root m /\
  (validate_indices = true -> root_leaf_count root = leaves_count m /\ indices_dense m).

Lemma check_filled_root db v (b : bool) count node :
  db_ok db -> typed_reads db (db_nodes db) v node -> node_typed node -> unsigned 64 count ->
  exists r, validate_node (2 * KEY_SIZE + 1) db node (with_version EMPTY v) (if b then Some (leaf_data_new count) else None) = Ret r /\
    ((exists x, r = Ok x /\ (forall d, x.2 = Some d -> validate_count d = Ok tt)) <-> exists m, root_consistent db v b (RootFilled count node) m).
Proof.
  intros Hok Htyped Hnode Hcount. rewrite <- nib_EMPTY.
  set (d0 := if b then Some (leaf_data_new count) else None). set (o0 := if b then Some (∅ : gset Z) else None).
  assert (Hd : data_opt count d0 o0) by (destruct b; [apply data_new|done]).
  assert (Hin : node_in (db_nodes db) v node (with_version (nib 64 0) v) node) by (by right).
  destruct (validate_node_sound db (db_nodes db) v node count Hcount (2 * KEY_SIZE + 1) 64 0 v node d0 o0 Htyped
    ltac:(unfold KEY_SIZE; lia) valid_root Hin Hnode Hd) as (r & Heq & Hr).
  exists r. split; [done|]. split.
  - intros ([hash d2] & -> & Hval). destruct (Hr hash d2 eq_refl) as (m & o2 & Hst & Hpos & _ & Hc & Hd2). exists m.
    split; [by apply at_pos_root|]. split; [done|]. intros ->. destruct o2 as [X|], d2 as [d2|]; try done. cbn in Hc, Hd2.
    specialize (Hval d2 eq_refl). unfold validate_count in Hval. rewrite (dr_actual _ _ _ Hd2), (dr_expected _ _ _ Hd2) in Hval.
    destruct (Z.eqb_spec (Z.of_nat (size X)) count) as [Hsize|]; [|done].
    assert (count = leaves_count m) as ->.
    { rewrite <- Hsize, (cl_set _ _ _ _ Hc), (right_id_L ∅ (∪)), idx_size by apply Hc. done. }
    split; [done|]. apply indices_dense_claims. eauto.
  - intros (m & Hm & Hst & Hb). cbn [root_stored root_leaf_count] in *.
    assert (exists o2, claims_opt count o0 m o2 /\ (forall X, o2 = Some X -> Z.of_nat (size X) = count)) as (o2 & Hc & Hsize).
    { destruct b; [|by exists None]. destruct (Hb eq_refl) as [-> Hdense]. apply indices_dense_claims in Hdense as (X & Hc & Hs).
      exists (Some X). split; [done|]. by intros X' [= <-]. }
    destruct (validate_node_complete db (db_nodes db) count Hcount (2 * KEY_SIZE + 1) 64 0 v node m d0 o0 o2 (db_reads_ok db Hok)
      ltac:(unfold KEY_SIZE; lia) valid_root Hst ltac:(by apply at_pos_root) ltac:(by eapply stored_indices; [..|exact Hst]) Hd Hc) as (d2 & Heq2 & Hd2).
    rewrite Heq in Heq2. apply (inj Ret) in Heq2 as ->. eexists. split; [done|]. intros d [= ->].
    destruct o2 as [X|]; [|done]. cbn in Hd2. unfold validate_count. rewrite (dr_actual _ _ _ Hd2), (dr_expected _ _ _ Hd2), (Hsize X eq_refl), Z.eqb_refl. done.
Qed.

End Verify.

(** ** A run on the in-memory database *)

Section Witness.
#[local] Existing Instance sum_hasher.
#[local] Existing Instance sum_laws.

Definition two_leaves : PatchSet := after (tree_extend patch_default [run_entry 1 11 1; run_entry 5 22 2]).

Lemma two_leaves_ok : db_ok two_leaves.
Proof.
  destruct (tree_extend_ok patch_default ∅ [run_entry 1 11 1; run_entry 5 22 2]) as (db' & Heq & Hok & _);
    [apply represents_default|by left|by split|by repeat constructor|by vm_compute|].
  assert (two_leaves = db') as -> by (unfold two_leaves, after; by rewrite Heq). exact Hok.
Qed.

(** All nodes below the root are leaves, with the kinds that the root says. *)
Definition leaf_nodeb (node : Node) : bool :=
  match node with
  | Internal _ => false
  | Leaf l => bool_decide (unsigned 256 (full_key l)) && bool_decide (unsigned 64 (leaf_index l))
  end.

Lemma two_leaves_nodes key node : db_nodes two_leaves key = Some node -> leaf_nodeb node = true.
Proof.
  assert (patches_by_version two_leaves = {[0 := default partial_empty (patches_by_version two_leaves !! 0)]}) as Hp by by vm_compute.
  assert (Hall : forallb (fun kv => leaf_nodeb (node_clone kv.2)) (map_to_list (pp_nodes (default partial_empty (patches_by_version two_leaves !! 0)))) = true)
    by by vm_compute.
  revert Hp Hall. generalize (default partial_empty (patches_by_version two_leaves !! 0)). intros pp Hp Hall.
  cbn [db_nodes patch_database_laws]. unfold patch_nodes, over_nodes. rewrite Hp. destruct (decide (nk_version key = 0)) as [->|Hne].
  - rewrite lookup_singleton_eq. intros (n & Hn & ->)%fmap_Some. rewrite forallb_forall in Hall.
    apply (Hall (key, n)), list_elem_of_In. by apply elem_of_map_to_list.
  - by rewrite lookup_singleton_ne.
Qed.

Lemma leaves_typed (p : PatchSet) v n :
  (forall key node, patch_nodes p key = Some node -> leaf_nodeb node = true) ->
  (forall x c, 0 <= x < 16 -> child_at n x = Some c -> is_leaf c = true) -> typed_reads p (patch_nodes p) v (Internal n).
Proof.
  intros Hnodes Hrefs h q u n' x c node Hv Hin Hx Hc. cbn [try_tree_node patch_database]. rewrite patch_read_node.
  intros [= HN]. split; [done|]. pose proof (Hnodes _ _ HN) as Hnode.
  destruct node as [|l]; [done|]. cbn in Hnode. apply andb_prop in Hnode as [Hk Hi]. apply bool_decide_eq_true in Hk, Hi.
  split; [|done]. destruct Hin as [Hin|[_ [= ->]]]; [by apply Hnodes in Hin|]. symmetry. by eapply Hrefs.
Qed.

Lemma two_leaves_typed : db_typed two_leaves 0.
Proof.
  intros count root Hroot. assert (exists n, root = Internal n /\ count = 2 /\ node_typed root /\
    forallb (fun x => match child_at n x with Some c => is_leaf c | None => true end) (seqZ 0 16) = true) as (n & -> & -> & Hn & Hleaf).
  { vm_compute in Hroot. injection Hroot as <- <-. eexists. split; [done|]. split; [done|]. split; [by split|by vm_compute]. }
  clear Hroot. split; [|by split]. apply leaves_typed; [exact two_leaves_nodes|]. intros x c Hx Hc. rewrite forallb_forall in Hleaf.
  specialize (Hleaf x). rewrite Hc in Hleaf. apply Hleaf, list_elem_of_In, elem_of_seqZ. lia.
Qed.

End Witness.
