(* ===== verification/ProtocolVersion.v ===== *)
(** * Protocol versions

    Model of [src/core/lib/basic_types/src/protocol_version.rs] and [vm.rs]: protocol
    version identifiers, the VM each of them runs, semantic versions with their packed
    (on-chain) and textual representations. *)

From Stdlib Require Import Ascii.
From S2P Require Import Prelude.
Open Scope Z_scope.

(** ** Identifiers *)

Inductive ProtocolVersionId : Type :=
| Version0 | Version1 | Version2 | Version3 | Version4 | Version5 | Version6
| Version7 | Version8 | Version9 | Version10 | Version11 | Version12 | Version13
| Version14 | Version15 | Version16 | Version17 | Version18 | Version19 | Version20
| Version21 | Version22 | Version23 | Version24 | Version25.

#[export] Instance ProtocolVersionId_eq_dec : EqDecision ProtocolVersionId.
Proof. solve_decision. Defined.

(** [self as u16] *)
Definition as_u16 (v : ProtocolVersionId) : Z :=
  match v with
  | Version0 => 0 | Version1 => 1 | Version2 => 2 | Version3 => 3 | Version4 => 4
  | Version5 => 5 | Version6 => 6 | Version7 => 7 | Version8 => 8 | Version9 => 9
  | Version10 => 10 | Version11 => 11 | Version12 => 12 | Version13 => 13 | Version14 => 14
  | Version15 => 15 | Version16 => 16 | Version17 => 17 | Version18 => 18 | Version19 => 19
  | Version20 => 20 | Version21 => 21 | Version22 => 22 | Version23 => 23 | Version24 => 24
  | Version25 => 25
  end.

Definition all_versions : list ProtocolVersionId :=
  [Version0; Version1; Version2; Version3; Version4; Version5; Version6; Version7; Version8;
   Version9; Version10; Version11; Version12; Version13; Version14; Version15; Version16;
   Version17; Version18; Version19; Version20; Version21; Version22; Version23; Version24;
   Version25].

(** The derived [TryFromPrimitive]: the variant with the given discriminant. *)
Definition try_from_primitive (z : Z) : option ProtocolVersionId :=
  List.find (fun v => as_u16 v =? z) all_versions.

(** The derived orders compare discriminants. *)
Definition le (v1 v2 : ProtocolVersionId) : bool := as_u16 v1 <=? as_u16 v2.
Definition lt (v1 v2 : ProtocolVersionId) : bool := as_u16 v1 <? as_u16 v2.
Definition eq (v1 v2 : ProtocolVersionId) : bool := as_u16 v1 =? as_u16 v2.

(** [vm.rs] *)
Inductive VmVersion : Type :=
| M5WithoutRefunds | M5WithRefunds | M6Initial | M6BugWithCompressionFixed | Vm1_3_2
| VmVirtualBlocks | VmVirtualBlocksRefundsEnhancement | VmBoojumIntegration | Vm1_4_1
| Vm1_4_2 | Vm1_5_0SmallBootloaderMemory | Vm1_5_0IncreasedBootloaderMemory.

#[export] Instance VmVersion_eq_dec : EqDecision VmVersion.
Proof. solve_decision. Defined.

Definition vm_latest : VmVersion := Vm1_5_0IncreasedBootloaderMemory.

Definition latest : ProtocolVersionId := Version24.
Definition next : ProtocolVersionId := Version25.
Definition last_potentially_undefined : ProtocolVersionId := Version9.

Definition into_api_vm_version (v : ProtocolVersionId) : VmVersion :=
  match v with
  | Version0 => Vm1_3_2
  | Version1 => Vm1_3_2
  | Version2 => Vm1_3_2
  | Version3 => Vm1_3_2
  | Version4 => Vm1_3_2
  | Version5 => Vm1_3_2
  | Version6 => Vm1_3_2
  | Version7 => Vm1_3_2
  | Version8 => Vm1_3_2
  | Version9 => Vm1_3_2
  | Version10 => Vm1_3_2
  | Version11 => Vm1_3_2
  | Version12 => Vm1_3_2
  | Version13 => VmVirtualBlocks
  | Version14 => VmVirtualBlocks
  | Version15 => VmVirtualBlocks
  | Version16 => VmVirtualBlocksRefundsEnhancement
  | Version17 => VmVirtualBlocksRefundsEnhancement
  | Version18 => VmBoojumIntegration
  | Version19 => VmBoojumIntegration
  | Version20 => Vm1_4_1
  | Version21 => Vm1_4_2
  | Version22 => Vm1_4_2
  | Version23 => Vm1_5_0SmallBootloaderMemory
  | Version24 => Vm1_5_0IncreasedBootloaderMemory
  | Version25 => Vm1_5_0IncreasedBootloaderMemory
  end.

(** [impl From<ProtocolVersionId> for VmVersion] *)
Definition vm_version (v : ProtocolVersionId) : VmVersion :=
  match v with
  | Version0 => M5WithoutRefunds
  | Version1 => M5WithoutRefunds
  | Version2 => M5WithRefunds
  | Version3 => M5WithRefunds
  | Version4 => M6Initial
  | Version5 => M6BugWithCompressionFixed
  | Version6 => M6BugWithCompressionFixed
  | Version7 => Vm1_3_2
  | Version8 => Vm1_3_2
  | Version9 => Vm1_3_2
  | Version10 => Vm1_3_2
  | Version11 => Vm1_3_2
  | Version12 => Vm1_3_2
  | Version13 => VmVirtualBlocks
  | Version14 => VmVirtualBlocks
  | Version15 => VmVirtualBlocks
  | Version16 => VmVirtualBlocksRefundsEnhancement
  | Version17 => VmVirtualBlocksRefundsEnhancement
  | Version18 => VmBoojumIntegration
  | Version19 => VmBoojumIntegration
  | Version20 => Vm1_4_1
  | Version21 => Vm1_4_2
  | Version22 => Vm1_4_2
  | Version23 => Vm1_5_0SmallBootloaderMemory
  | Version24 => Vm1_5_0IncreasedBootloaderMemory
  | Version25 => Vm1_5_0IncreasedBootloaderMemory
  end.

Definition is_pre_boojum (v : ProtocolVersionId) : bool := le v Version17.
Definition is_pre_shared_bridge (v : ProtocolVersionId) : bool := le v Version22.
Definition is_1_4_0 (v : ProtocolVersionId) : bool := le Version18 v && lt v Version20.
Definition is_1_4_1 (v : ProtocolVersionId) : bool := eq v Version20.
Definition is_pre_1_4_1 (v : ProtocolVersionId) : bool := lt v Version20.
Definition is_post_1_4_1 (v : ProtocolVersionId) : bool := le Version20 v.
Definition is_post_1_4_2 (v : ProtocolVersionId) : bool := le Version21 v.
Definition is_pre_1_4_2 (v : ProtocolVersionId) : bool := lt v Version21.
Definition is_1_4_2 (v : ProtocolVersionId) : bool := eq v Version21 || eq v Version22.
Definition is_pre_1_5_0 (v : ProtocolVersionId) : bool := lt v Version23.
Definition is_post_1_5_0 (v : ProtocolVersionId) : bool := le Version23 v.

(** [TryFrom<U256>]; [None] stands for the "unknown protocol version ID" error. *)
Definition try_from_u256 (value : Z) : option ProtocolVersionId :=
  if 2 ^ 16 - 1 <? value then None else try_from_primitive (wrap 16 (wrap 32 value)).

(** ** Semantic versions *)

Definition PACKED_SEMVER_MINOR_OFFSET : Z := 32.
Definition PACKED_SEMVER_MINOR_MASK : Z := 0xFFFF.

Record ProtocolSemanticVersion := {
  minor : ProtocolVersionId;
  patch : Z;
}.

Definition pack (v : ProtocolSemanticVersion) : Z :=
  Z.lor (wrap 256 (Z.shiftl (as_u16 (minor v)) PACKED_SEMVER_MINOR_OFFSET)) (patch v).

Definition try_from_packed (packed : Z) : option ProtocolSemanticVersion :=
  minor ← try_from_u256
            (Z.land (Z.shiftr packed PACKED_SEMVER_MINOR_OFFSET) PACKED_SEMVER_MINOR_MASK);
  let patch := wrap 32 (wrap 64 packed) in
  Some {| minor := minor; patch := patch |}.

Definition try_from_packed_semver (packed_semver : Z) : option ProtocolVersionId :=
  minor <$> try_from_packed packed_semver.

Definition into_packed_semver_with_patch (v : ProtocolVersionId) (patch : Z) : Z :=
  Z.lor (wrap 256 (Z.shiftl (as_u16 v) PACKED_SEMVER_MINOR_OFFSET)) (wrap 32 patch).

(** ** Text *)

(** [Display] of unsigned integers: decimal digits, most significant first.  Numbers of at
    most 32 bits have at most 10 digits. *)
Definition digit_char (d : Z) : ascii := ascii_of_nat (48 + Z.to_nat d).

Fixpoint show_digits (fuel : nat) (z : Z) : list ascii :=
  match fuel with
  | O => []
  | S fuel' =>
      if z <? 10 then [digit_char z] else show_digits fuel' (z / 10) ++ [digit_char (z mod 10)]
  end.

Definition show_u32 (z : Z) : list ascii := show_digits 10 z.

Definition show_id (v : ProtocolVersionId) : list ascii := show_u32 (as_u16 v).

Definition MAJOR_VERSION : Z := 0.

Definition show_version (v : ProtocolSemanticVersion) : list ascii :=
  show_u32 MAJOR_VERSION ++ ["."%char] ++ show_id (minor v) ++ ["."%char] ++ show_u32 (patch v).

(** [str::parse] for unsigned integers. *)
Inductive IntErrorKind : Type := Empty | InvalidDigit | PosOverflow.

Definition char_digit (c : ascii) : option Z :=
  let n := nat_of_ascii c in
  if ((48 <=? n) && (n <=? 57))%nat then Some (Z.of_nat n - 48) else None.

Fixpoint parse_digits (max acc : Z) (s : list ascii) : result Z IntErrorKind :=
  match s with
  | [] => Ok acc
  | c :: s' =>
      match char_digit c with
      | None => Err InvalidDigit
      | Some d =>
          if max <? acc * 10 then Err PosOverflow
          else if max <? acc * 10 + d then Err PosOverflow
          else parse_digits max (acc * 10 + d) s'
      end
  end.

Definition parse_uint (max : Z) (s : list ascii) : result Z IntErrorKind :=
  match s with
  | [] => Err Empty
  | ["+"%char] | ["-"%char] => Err InvalidDigit
  | "+"%char :: s' => parse_digits max 0 s'
  | _ => parse_digits max 0 s
  end.

(** [str::split] on a character. *)
Fixpoint split_on (c : ascii) (s : list ascii) : list (list ascii) :=
  match s with
  | [] => [[]]
  | x :: s' =>
      if bool_decide (x = c) then [] :: split_on c s'
      else match split_on c s' with
           | part :: parts => (x :: part) :: parts
           | [] => [[x]]
           end
  end.

Inductive ParseProtocolSemanticVersionError : Type :=
| InvalidFormat
| NonZeroMajorVersion
| ParseIntError (e : IntErrorKind).

Definition from_str (s : list ascii) :
    result ProtocolSemanticVersion ParseProtocolSemanticVersionError :=
  match split_on "."%char s with
  | [p0; p1; p2] =>
      match parse_uint (2 ^ 16 - 1) p0 with
      | Err e => Err (ParseIntError e)
      | Ok major =>
      if negb (major =? 0) then Err NonZeroMajorVersion
      else
      match parse_uint (2 ^ 16 - 1) p1 with
      | Err e => Err (ParseIntError e)
      | Ok minor =>
      match try_from_primitive minor with
      | None => Err InvalidFormat
      | Some minor =>
      match parse_uint (2 ^ 32 - 1) p2 with
      | Err e => Err (ParseIntError e)
      | Ok patch => Ok {| minor := minor; patch := patch |}
      end end end end
  | _ => Err InvalidFormat
  end.

(** ** Identifiers and virtual machines *)

Lemma try_from_primitive_Some z v : try_from_primitive z = Some v <-> as_u16 v = z.
Proof.
  unfold try_from_primitive. split.
  - intros [_ Hv]%List.find_some. by apply Z.eqb_eq.
  - intros <-. by destruct v.
Qed.

Lemma as_u16_inj v1 v2 : as_u16 v1 = as_u16 v2 -> v1 = v2.
Proof.
  intros H. apply try_from_primitive_Some in H.
  pose proof (proj2 (try_from_primitive_Some (as_u16 v2) v2) eq_refl). congruence.
Qed.

Lemma as_u16_bound v : 0 <= as_u16 v < 2 ^ 16.
Proof. by destruct v. Qed.

Definition vm_index (v : VmVersion) : Z :=
  match v with
  | M5WithoutRefunds => 0 | M5WithRefunds => 1 | M6Initial => 2
  | M6BugWithCompressionFixed => 3 | Vm1_3_2 => 4 | VmVirtualBlocks => 5
  | VmVirtualBlocksRefundsEnhancement => 6 | VmBoojumIntegration => 7 | Vm1_4_1 => 8
  | Vm1_4_2 => 9 | Vm1_5_0SmallBootloaderMemory => 10 | Vm1_5_0IncreasedBootloaderMemory => 11
  end.

(** Protocol versions select virtual machines consistently: upgrading the protocol never
    moves to an older VM; the VM the API uses is the one of the protocol exactly from
    version 7 on, and is never older; and the version predicates coincide with the VM that
    runs the version (pre-Boojum, 1.4.0, 1.4.1, 1.4.2, 1.5.0). *)
Theorem vm_version_consistent v1 v2 :
  (le v1 v2 = true -> vm_index (vm_version v1) <= vm_index (vm_version v2)) /\
  (into_api_vm_version v1 = vm_version v1 <-> le Version7 v1 = true) /\
  vm_index (vm_version v1) <= vm_index (into_api_vm_version v1) /\
  is_pre_boojum v1 = (vm_index (vm_version v1) <? vm_index VmBoojumIntegration) /\
  is_1_4_0 v1 = bool_decide (vm_version v1 = VmBoojumIntegration) /\
  is_1_4_1 v1 = bool_decide (vm_version v1 = Vm1_4_1) /\
  is_1_4_2 v1 = bool_decide (vm_version v1 = Vm1_4_2) /\
  is_pre_1_4_1 v1 = negb (is_post_1_4_1 v1) /\
  is_pre_1_4_2 v1 = negb (is_post_1_4_2 v1) /\
  is_pre_1_5_0 v1 = negb (is_post_1_5_0 v1) /\
  is_post_1_5_0 v1 = (vm_index Vm1_5_0SmallBootloaderMemory <=? vm_index (vm_version v1)) /\
  is_pre_shared_bridge v1 = is_pre_1_5_0 v1 /\
  vm_version latest = vm_latest.
Proof.
  split; [|by destruct v1].
  destruct v1, v2; vm_compute; congruence.
Qed.

(** ** Packed versions *)

Lemma pack_add v :
  unsigned 32 (patch v) -> pack v = as_u16 (minor v) * 2 ^ 32 + patch v.
Proof.
  intros Hp. unfold pack, PACKED_SEMVER_MINOR_OFFSET. rewrite wrap_small.
  - by apply lor_shiftl_add.
  - rewrite Z.shiftl_mul_pow2 by lia. unfold unsigned. pose proof (as_u16_bound (minor v)). lia.
Qed.

Lemma try_from_u256_Some z v : 0 <= z -> try_from_u256 z = Some v <-> as_u16 v = z.
Proof.
  intros Hz. unfold try_from_u256. pose proof (as_u16_bound v).
  destruct (Z.ltb_spec (2 ^ 16 - 1) z); [split; [done|lia]|].
  rewrite !wrap_small by (unfold unsigned; rewrite ?wrap_small; unfold unsigned; lia).
  apply try_from_primitive_Some.
Qed.

(** Packed versions are decoded exactly.  Unpacking a word yields a version precisely when
    the low 48 bits of the word are the packed form of that version (higher bits are
    ignored); in particular packing followed by unpacking is the identity, and packing
    preserves and reflects the order of versions (by minor version, then by patch). *)
Theorem packed_version_exact packed v1 v2 :
  0 <= packed -> unsigned 32 (patch v1) -> unsigned 32 (patch v2) ->
  (try_from_packed packed = Some v1 <-> wrap 48 packed = pack v1) /\
  try_from_packed (pack v1) = Some v1 /\
  pack v1 = into_packed_semver_with_patch (minor v1) (patch v1) /\
  (pack v1 <= pack v2 <->
   lt (minor v1) (minor v2) = true \/ minor v1 = minor v2 /\ patch v1 <= patch v2).
Proof.
  intros Hpk Hp1 Hp2.
  assert (forall w, 0 <= w -> try_from_packed w = Some v1 <-> wrap 48 w = pack v1) as Hexact.
  { intros w Hw. rewrite pack_add by done. unfold try_from_packed. unfold unsigned in Hp1.
    change PACKED_SEMVER_MINOR_MASK with (Z.ones 16). unfold PACKED_SEMVER_MINOR_OFFSET.
    rewrite Z.land_ones, Z.shiftr_div_pow2 by lia.
    assert (wrap 32 (wrap 64 w) = w mod 2 ^ 32) as -> by (unfold wrap; div_lia).
    assert (wrap 48 w = (w / 2 ^ 32) mod 2 ^ 16 * 2 ^ 32 + w mod 2 ^ 32) as ->
      by (unfold wrap; div_lia).
    pose proof (as_u16_bound (minor v1)).
    destruct (try_from_u256 ((w / 2 ^ 32) mod 2 ^ 16)) as [m|] eqn:Hm; cbn.
    - apply try_from_u256_Some in Hm; [|apply Z.mod_pos_bound; lia]. split.
      + intros [= <-]. cbn. by rewrite Hm.
      + intros Heq. rewrite <- Hm in Heq. destruct v1 as [m1 p1]. cbn in *.
        pose proof (as_u16_bound m). assert (as_u16 m = as_u16 m1) as Hmm by div_lia.
        assert (p1 = w mod 2 ^ 32) as -> by div_lia. do 2 f_equal.
        by apply as_u16_inj.
    - split; [done|]. intros Heq. assert (as_u16 (minor v1) = (w / 2 ^ 32) mod 2 ^ 16) as Hm1 by div_lia.
      apply try_from_u256_Some in Hm1; [|apply Z.mod_pos_bound; lia]. congruence. }
  pose proof (as_u16_bound (minor v1)). pose proof (as_u16_bound (minor v2)).
  unfold unsigned in Hp1, Hp2. split; [by apply Hexact|]. split.
  { apply Hexact; rewrite pack_add by done; [lia|]. apply wrap_small. unfold unsigned. lia. }
  split.
  { unfold pack, into_packed_semver_with_patch. by rewrite (wrap_small 32). }
  rewrite !pack_add by done. unfold lt. rewrite Z.ltb_lt. split.
  - intros Hle. destruct (decide (minor v1 = minor v2)) as [Heq|Hne]; [right; rewrite Heq in Hle; split; [done|lia]|left].
    assert (as_u16 (minor v1) <> as_u16 (minor v2)) by (intros Ha; apply Hne, as_u16_inj, Ha). lia.
  - intros [Hlt|[-> Hle]]; lia.
Qed.

(** ** Printing and parsing *)

Lemma char_digit_char d : 0 <= d <= 9 -> char_digit (digit_char d) = Some d.
Proof.
  intros Hd. assert (d ∈ seqZ 0 10) as Hin by (apply elem_of_seqZ; lia).
  vm_compute in Hin. repeat (apply elem_of_cons in Hin as [->|Hin]; [done|]). by apply elem_of_nil in Hin.
Qed.

Lemma parse_digits_snoc max s acc c :
  parse_digits max acc (s ++ [c]) =
    match parse_digits max acc s with
    | Ok a => parse_digits max a [c]
    | Err e => Err e
    end.
Proof.
  revert acc. induction s as [|x s IH]; intros acc; [done|].
  cbn [app parse_digits]. destruct (char_digit x) as [d|]; [|done].
  destruct (max <? acc * 10); [done|]. destruct (max <? acc * 10 + d); [done|]. apply IH.
Qed.

Lemma parse_show_digits max fuel z :
  0 <= z < 10 ^ Z.of_nat fuel -> z <= max -> parse_digits max 0 (show_digits fuel z) = Ok z.
Proof.
  revert z. induction fuel as [|fuel IH]; intros z Hz Hmax.
  { change (10 ^ Z.of_nat 0) with 1 in Hz. cbn. f_equal. lia. }
  cbn [show_digits]. destruct (Z.ltb_spec z 10).
  - cbn [parse_digits]. rewrite char_digit_char by lia.
    destruct (Z.ltb_spec max (0 * 10)); [lia|]. by rewrite (proj2 (Z.ltb_ge _ _)).
  - rewrite parse_digits_snoc, IH; [|split; [div_lia|]|div_lia].
    + cbn [parse_digits]. rewrite char_digit_char by div_lia.
      rewrite !(proj2 (Z.ltb_ge _ _)) by div_lia. f_equal. div_lia.
    + apply Z.div_lt_upper_bound; [lia|]. rewrite Nat2Z.inj_succ, Z.pow_succ_r in Hz by lia. lia.
Qed.

Lemma show_digits_chars fuel z :
  0 <= z -> Forall (fun c => exists d, 0 <= d <= 9 /\ c = digit_char d) (show_digits fuel z).
Proof.
  revert z. induction fuel as [|fuel IH]; intros z Hz; [constructor|].
  cbn [show_digits]. destruct (Z.ltb_spec z 10).
  - repeat constructor. exists z. split; [lia|done].
  - apply Forall_app. split; [apply IH; div_lia|]. repeat constructor.
    exists (z mod 10). split; [div_lia|done].
Qed.

Lemma digit_char_cases c :
  (exists d, 0 <= d <= 9 /\ c = digit_char d) -> c <> "."%char /\ c <> "+"%char /\ c <> "-"%char.
Proof.
  intros (d & Hd & ->). pose proof (char_digit_char d Hd) as Hc.
  split; [|split]; intros Heq; rewrite Heq in Hc; vm_compute in Hc; discriminate.
Qed.

Lemma show_digits_nonempty fuel z : show_digits (S fuel) z <> [].
Proof. cbn [show_digits]. case_match; [done|]. by intros [_ ?]%app_nil. Qed.

(** Printed numbers are read back by the parser. *)
Lemma parse_show_u32 max z :
  unsigned 32 z -> z <= max -> parse_uint max (show_u32 z) = Ok z.
Proof.
  intros [Hz0 Hz] Hmax. pose proof (show_digits_chars 10 z Hz0) as Hchars.
  rewrite <- (parse_show_digits max 10 z) by lia. unfold show_u32.
  pose proof (show_digits_nonempty 9 z) as Hne.
  destruct (show_digits 10 z) as [|c s]; [done|].
  apply Forall_cons in Hchars as [Hc _]. apply digit_char_cases in Hc as (_ & Hp & Hm).
  destruct c as [[] [] [] [] [] [] [] []]; try done; by destruct s.
Qed.

Lemma show_u32_no_dot z : 0 <= z -> "."%char ∉ show_u32 z.
Proof.
  intros Hz Hin. pose proof (show_digits_chars 10 z Hz) as Hchars.
  rewrite Forall_forall in Hchars. by apply Hchars, digit_char_cases in Hin as [? _].
Qed.

Lemma split_on_app c p rest :
  c ∉ p -> split_on c (p ++ c :: rest) = p :: split_on c rest.
Proof.
  induction p as [|x p IH]; intros Hc; cbn [app split_on].
  - by rewrite bool_decide_eq_true_2.
  - rewrite not_elem_of_cons in Hc. destruct Hc as [Hx Hc].
    rewrite bool_decide_eq_false_2 by done. by rewrite IH.
Qed.

Lemma split_on_none c p : c ∉ p -> split_on c p = [p].
Proof.
  induction p as [|x p IH]; intros Hc; [done|]. cbn [split_on].
  rewrite not_elem_of_cons in Hc. destruct Hc as [Hx Hc].
  rewrite bool_decide_eq_false_2 by done. by rewrite IH.
Qed.

(** Parsing a printed semantic version gives the version back, for every protocol version
    identifier and every 32-bit patch number. *)
Theorem version_text_roundtrip v :
  unsigned 32 (patch v) -> from_str (show_version v) = Ok v.
Proof.
  intros Hp. pose proof (as_u16_bound (minor v)) as Hm.
  unfold from_str, show_version, show_id. cbn [app].
  rewrite split_on_app by (by apply show_u32_no_dot).
  rewrite split_on_app by (apply show_u32_no_dot; lia).
  rewrite split_on_none by (apply show_u32_no_dot; apply Hp).
  rewrite !parse_show_u32 by (unfold unsigned in *; unfold MAJOR_VERSION; lia).
  cbn [MAJOR_VERSION Z.eqb negb].
  rewrite (proj2 (try_from_primitive_Some (as_u16 (minor v)) (minor v))) by done.
  by destruct v.
Qed.

(** ** Concrete inputs *)

Definition example_version : ProtocolSemanticVersion := {| minor := latest; patch := 10 |}.

Lemma packed_version_exact_witness :
  try_from_packed (2 ^ 60 + 24 * 2 ^ 32 + 10) = Some example_version /\
  pack example_version <= pack {| minor := next; patch := 0 |}.
Proof.
  destruct (packed_version_exact (2 ^ 60 + 24 * 2 ^ 32 + 10) example_version
              {| minor := next; patch := 0 |}) as (H1 & _ & _ & H2).
  - vm_compute. discriminate.
  - split; vm_compute; [discriminate|reflexivity].
  - split; vm_compute; [discriminate|reflexivity].
  - split; [apply H1; vm_compute; reflexivity|apply H2; left; reflexivity].
Defined.

Lemma version_text_roundtrip_witness :
  from_str (show_version example_version) = Ok example_version.
Proof. apply version_text_roundtrip. split; vm_compute; [discriminate|reflexivity]. Defined.
