(* ===== verification/Transactions.v ===== *)
(** * Transactions

    Model of the transaction types of [src/core/lib/types/src]: [lib.rs] (the common
    transaction type), [l1/mod.rs] (priority operations), [l2/mod.rs] (user transactions),
    [protocol_upgrade.rs] (upgrade transactions and the upgrade of the protocol parameters),
    [tx/execute.rs] and [fee.rs], with the conversions between them. *)

From S2P Require Import Prelude Bytes Utils ProtocolVersion.
Open Scope Z_scope.

(** ** Transaction types *)

Definition EIP_712_TX_TYPE : Z := 0x71.
Definition EIP_1559_TX_TYPE : Z := 0x02.
Definition EIP_2930_TX_TYPE : Z := 0x01.
Definition LEGACY_TX_TYPE : Z := 0x0.
Definition PRIORITY_OPERATION_L2_TX_TYPE : Z := 0xff.
Definition PROTOCOL_UPGRADE_TX_TYPE : Z := 0xfe.

Inductive TransactionType : Type :=
| LegacyTransaction | EIP2930Transaction | EIP1559Transaction | EIP712Transaction
| PriorityOpTransaction | ProtocolUpgradeTransaction.

#[export] Instance TransactionType_eq_dec : EqDecision TransactionType.
Proof. solve_decision. Defined.

(** [self as u32] *)
Definition tx_type_as_u32 (t : TransactionType) : Z :=
  match t with
  | LegacyTransaction => 0
  | EIP2930Transaction => 1
  | EIP1559Transaction => 2
  | EIP712Transaction => EIP_712_TX_TYPE
  | PriorityOpTransaction => PRIORITY_OPERATION_L2_TX_TYPE
  | ProtocolUpgradeTransaction => PROTOCOL_UPGRADE_TX_TYPE
  end.

Definition is_ethereum_type (t : TransactionType) : bool :=
  match t with
  | LegacyTransaction | EIP2930Transaction | EIP1559Transaction => true
  | _ => false
  end.

Definition is_l1_tx_type (tx_type : Z) : bool :=
  (tx_type =? PRIORITY_OPERATION_L2_TX_TYPE) || (tx_type =? PROTOCOL_UPGRADE_TX_TYPE).

(** ** Fees *)

Record Fee := {
  fee_gas_limit : Z;
  fee_max_fee_per_gas : Z;
  fee_max_priority_fee_per_gas : Z;
  fee_gas_per_pubdata_limit : Z;
}.

#[export] Instance Fee_eq_dec : EqDecision Fee.
Proof. solve_decision. Defined.

(** [U256] multiplication panics when it overflows. *)
Definition max_total_fee (f : Fee) : outcome Z :=
  let fee := fee_max_fee_per_gas f * fee_gas_limit f in
  if fee <? 2 ^ 256 then Ret fee else Panics "arithmetic operation overflow".

Definition get_effective_gas_price (f : Fee) (block_base_fee_per_gas : Z) : outcome Z :=
  _ ← rust_assert (block_base_fee_per_gas <=? fee_max_fee_per_gas f)
        "assertion failed: block_base_fee_per_gas <= self.max_fee_per_gas";
  _ ← rust_assert (fee_max_priority_fee_per_gas f <=? fee_max_fee_per_gas f)
        "assertion failed: self.max_priority_fee_per_gas <= self.max_fee_per_gas";
  Ret block_base_fee_per_gas.

(** Slots of the ABI encoding; lengths are 64-bit, and so is the sum. *)
Definition encoding_len (data_len signature_len factory_deps_len paymaster_input_len
    reserved_dynamic_len : Z) : Z :=
  let BASE_LEN := 1 + 19 + 5 in
  let dynamic_len :=
    wrap 64 (ceil_div data_len 32 + ceil_div signature_len 32
             + ceil_div paymaster_input_len 32 + ceil_div reserved_dynamic_len 32
             + factory_deps_len) in
  wrap 64 (BASE_LEN + dynamic_len).

(** ** Execution payload *)

Record Execute := {
  contract_address : Z;
  calldata : list Z;
  execute_value : Z;
  factory_deps : list (list Z);
}.

Record ExecuteSerde := {
  serde_contract_address : Z;
  serde_calldata : list Z;
  serde_value : Z;
  serde_factory_deps : option (list (list Z));
}.

Definition execute_serialize (e : Execute) : ExecuteSerde :=
  {| serde_contract_address := contract_address e;
     serde_calldata := calldata e;
     serde_value := execute_value e;
     serde_factory_deps := Some (factory_deps e) |}.

Definition execute_deserialize (x : ExecuteSerde) : Execute :=
  {| contract_address := serde_contract_address x;
     calldata := serde_calldata x;
     execute_value := serde_value x;
     factory_deps := default [] (serde_factory_deps x) |}.

(** ** Priority operations *)

Inductive OpProcessingType : Type := Common | OnlyRollup.

Inductive PriorityQueueType : Type := Deque | HeapBuffer | Heap.

Definition op_processing_type_try_from (v : Z) : option OpProcessingType :=
  if v =? 0 then Some Common else if v =? 1 then Some OnlyRollup else None.

Definition priority_queue_type_try_from (v : Z) : option PriorityQueueType :=
  if v =? 0 then Some Deque else if v =? 1 then Some HeapBuffer
  else if v =? 2 then Some Heap else None.

Record L1TxCommonData := {
  l1_sender : Z;
  l1_serial_id : Z;
  l1_layer_2_tip_fee : Z;
  l1_full_fee : Z;
  l1_max_fee_per_gas : Z;
  l1_gas_limit : Z;
  l1_gas_per_pubdata_limit : Z;
  l1_op_processing_type : OpProcessingType;
  l1_priority_queue_type : PriorityQueueType;
  l1_canonical_tx_hash : Z;
  l1_to_mint : Z;
  l1_refund_recipient : Z;
  l1_eth_block : Z;
}.

(** The serialized form keeps deprecated fields. *)
Record L1TxCommonDataSerde := {
  l1_serde_sender : Z;
  l1_serde_serial_id : Z;
  l1_serde_layer_2_tip_fee : Z;
  l1_serde_full_fee : Z;
  l1_serde_max_fee_per_gas : Z;
  l1_serde_gas_limit : Z;
  l1_serde_gas_per_pubdata_limit : Z;
  l1_serde_op_processing_type : OpProcessingType;
  l1_serde_priority_queue_type : PriorityQueueType;
  l1_serde_canonical_tx_hash : Z;
  l1_serde_to_mint : Z;
  l1_serde_refund_recipient : Z;
  l1_serde_deadline_block : Z;
  l1_serde_eth_hash : Z;
  l1_serde_eth_block : Z;
}.

Definition l1_serialize (d : L1TxCommonData) : L1TxCommonDataSerde :=
  {| l1_serde_sender := l1_sender d;
     l1_serde_serial_id := l1_serial_id d;
     l1_serde_layer_2_tip_fee := l1_layer_2_tip_fee d;
     l1_serde_full_fee := l1_full_fee d;
     l1_serde_max_fee_per_gas := l1_max_fee_per_gas d;
     l1_serde_gas_limit := l1_gas_limit d;
     l1_serde_gas_per_pubdata_limit := l1_gas_per_pubdata_limit d;
     l1_serde_op_processing_type := l1_op_processing_type d;
     l1_serde_priority_queue_type := l1_priority_queue_type d;
     l1_serde_canonical_tx_hash := l1_canonical_tx_hash d;
     l1_serde_to_mint := l1_to_mint d;
     l1_serde_refund_recipient := l1_refund_recipient d;
     l1_serde_deadline_block := 0;
     l1_serde_eth_hash := 0;
     l1_serde_eth_block := l1_eth_block d |}.

Definition l1_deserialize (x : L1TxCommonDataSerde) : L1TxCommonData :=
  {| l1_sender := l1_serde_sender x;
     l1_serial_id := l1_serde_serial_id x;
     l1_layer_2_tip_fee := l1_serde_layer_2_tip_fee x;
     l1_full_fee := l1_serde_full_fee x;
     l1_max_fee_per_gas := l1_serde_max_fee_per_gas x;
     l1_gas_limit := l1_serde_gas_limit x;
     l1_gas_per_pubdata_limit := l1_serde_gas_per_pubdata_limit x;
     l1_op_processing_type := l1_serde_op_processing_type x;
     l1_priority_queue_type := l1_serde_priority_queue_type x;
     l1_canonical_tx_hash := l1_serde_canonical_tx_hash x;
     l1_to_mint := l1_serde_to_mint x;
     l1_refund_recipient := l1_serde_refund_recipient x;
     l1_eth_block := l1_serde_eth_block x |}.

(** ** User transactions *)

Record PaymasterParams := {
  paymaster : Z;
  paymaster_input : list Z;
}.

Record InputData := {
  input_hash : Z;
  input_bytes : list Z;
}.

Record L2TxCommonData := {
  l2_nonce : Z;
  l2_fee : Fee;
  l2_initiator_address : Z;
  l2_signature : list Z;
  l2_transaction_type : TransactionType;
  l2_input : option InputData;
  l2_paymaster_params : PaymasterParams;
}.

Definition L2TxCommonData_new (nonce : Z) (fee : Fee) (initiator_address : Z)
    (signature : list Z) (transaction_type : TransactionType) (input : list Z) (hash : Z)
    (paymaster_params : PaymasterParams) : L2TxCommonData :=
  {| l2_nonce := nonce; l2_fee := fee; l2_initiator_address := initiator_address;
     l2_signature := signature; l2_transaction_type := transaction_type;
     l2_input := Some {| input_hash := hash; input_bytes := input |};
     l2_paymaster_params := paymaster_params |}.

Definition input_data (d : L2TxCommonData) : option (list Z) := input_bytes <$> l2_input d.

Definition l2_hash (d : L2TxCommonData) : outcome Z :=
  input ← expect (l2_input d) "Transaction must have input data"; Ret (input_hash input).

Definition set_input (d : L2TxCommonData) (input : list Z) (hash : Z) : L2TxCommonData :=
  {| l2_nonce := l2_nonce d; l2_fee := l2_fee d;
     l2_initiator_address := l2_initiator_address d; l2_signature := l2_signature d;
     l2_transaction_type := l2_transaction_type d;
     l2_input := Some {| input_hash := hash; input_bytes := input |};
     l2_paymaster_params := l2_paymaster_params d |}.

(** ** Upgrade transactions *)

Record ProtocolUpgradeTxCommonData := {
  pu_sender : Z;
  pu_upgrade_id : ProtocolVersionId;
  pu_max_fee_per_gas : Z;
  pu_gas_limit : Z;
  pu_gas_per_pubdata_limit : Z;
  pu_eth_block : Z;
  pu_canonical_tx_hash : Z;
  pu_to_mint : Z;
  pu_refund_recipient : Z;
}.

Record ProtocolUpgradeTxCommonDataSerde := {
  pu_serde_sender : Z;
  pu_serde_upgrade_id : ProtocolVersionId;
  pu_serde_max_fee_per_gas : Z;
  pu_serde_gas_limit : Z;
  pu_serde_gas_per_pubdata_limit : Z;
  pu_serde_canonical_tx_hash : Z;
  pu_serde_to_mint : Z;
  pu_serde_refund_recipient : Z;
  pu_serde_eth_hash : Z;
  pu_serde_eth_block : Z;
}.

Definition pu_serialize (d : ProtocolUpgradeTxCommonData) : ProtocolUpgradeTxCommonDataSerde :=
  {| pu_serde_sender := pu_sender d;
     pu_serde_upgrade_id := pu_upgrade_id d;
     pu_serde_max_fee_per_gas := pu_max_fee_per_gas d;
     pu_serde_gas_limit := pu_gas_limit d;
     pu_serde_gas_per_pubdata_limit := pu_gas_per_pubdata_limit d;
     pu_serde_canonical_tx_hash := pu_canonical_tx_hash d;
     pu_serde_to_mint := pu_to_mint d;
     pu_serde_refund_recipient := pu_refund_recipient d;
     pu_serde_eth_hash := 0;
     pu_serde_eth_block := pu_eth_block d |}.

Definition pu_deserialize (x : ProtocolUpgradeTxCommonDataSerde) : ProtocolUpgradeTxCommonData :=
  {| pu_sender := pu_serde_sender x;
     pu_upgrade_id := pu_serde_upgrade_id x;
     pu_max_fee_per_gas := pu_serde_max_fee_per_gas x;
     pu_gas_limit := pu_serde_gas_limit x;
     pu_gas_per_pubdata_limit := pu_serde_gas_per_pubdata_limit x;
     pu_canonical_tx_hash := pu_serde_canonical_tx_hash x;
     pu_to_mint := pu_serde_to_mint x;
     pu_refund_recipient := pu_serde_refund_recipient x;
     pu_eth_block := pu_serde_eth_block x |}.

(** ** The common transaction type *)

Inductive ExecuteTransactionCommon : Type :=
| L1 (data : L1TxCommonData)
| L2 (data : L2TxCommonData)
| ProtocolUpgrade (data : ProtocolUpgradeTxCommonData).

Record Transaction := {
  common_data : ExecuteTransactionCommon;
  execute : Execute;
  received_timestamp_ms : Z;
  raw_bytes : option (list Z);
}.

Record L1Tx := {
  l1_execute : Execute;
  l1_common_data : L1TxCommonData;
  l1_received_timestamp_ms : Z;
}.

Record L2Tx := {
  l2_execute : Execute;
  l2_common_data : L2TxCommonData;
  l2_received_timestamp_ms : Z;
  l2_raw_bytes : option (list Z);
}.

Record ProtocolUpgradeTx := {
  pu_execute : Execute;
  pu_common_data : ProtocolUpgradeTxCommonData;
  pu_received_timestamp_ms : Z;
}.

Definition recipient_account (t : Transaction) : Z := contract_address (execute t).

Definition nonce (t : Transaction) : option Z :=
  match common_data t with
  | L1 _ => None
  | L2 tx => Some (l2_nonce tx)
  | ProtocolUpgrade _ => None
  end.

Definition is_l1 (t : Transaction) : bool :=
  match common_data t with L1 _ => true | _ => false end.

Definition tx_format (t : Transaction) : TransactionType :=
  match common_data t with
  | L1 _ => PriorityOpTransaction
  | L2 tx => l2_transaction_type tx
  | ProtocolUpgrade _ => ProtocolUpgradeTransaction
  end.

Definition hash (t : Transaction) : outcome Z :=
  match common_data t with
  | L1 data => Ret (l1_canonical_tx_hash data)
  | L2 data => l2_hash data
  | ProtocolUpgrade data => Ret (pu_canonical_tx_hash data)
  end.

Definition initiator_account (t : Transaction) : Z :=
  match common_data t with
  | L1 data => l1_sender data
  | L2 data => l2_initiator_address data
  | ProtocolUpgrade data => pu_sender data
  end.

Definition payer (t : Transaction) : Z :=
  match common_data t with
  | L1 data => l1_sender data
  | L2 data =>
      let paymaster := paymaster (l2_paymaster_params data) in
      if paymaster =? 0 then l2_initiator_address data else paymaster
  | ProtocolUpgrade data => pu_sender data
  end.

Definition gas_limit (t : Transaction) : Z :=
  match common_data t with
  | L1 data => l1_gas_limit data
  | L2 data => fee_gas_limit (l2_fee data)
  | ProtocolUpgrade data => pu_gas_limit data
  end.

Definition max_fee_per_gas (t : Transaction) : Z :=
  match common_data t with
  | L1 data => l1_max_fee_per_gas data
  | L2 data => fee_max_fee_per_gas (l2_fee data)
  | ProtocolUpgrade data => pu_max_fee_per_gas data
  end.

Definition gas_per_pubdata_byte_limit (t : Transaction) : Z :=
  match common_data t with
  | L1 data => l1_gas_per_pubdata_limit data
  | L2 data => fee_gas_per_pubdata_limit (l2_fee data)
  | ProtocolUpgrade data => pu_gas_per_pubdata_limit data
  end.

(** [Vec::len] as a 64-bit integer. *)
Definition len {A} (l : list A) : Z := Z.of_nat (length l).

Definition transaction_encoding_len (t : Transaction) : Z :=
  let data_len := len (calldata (execute t)) in
  let factory_deps_len := len (factory_deps (execute t)) in
  let '(signature_len, paymaster_input_len) :=
    match common_data t with
    | L1 _ => (0, 0)
    | L2 d => (len (l2_signature d), len (paymaster_input (l2_paymaster_params d)))
    | ProtocolUpgrade _ => (0, 0)
    end in
  encoding_len data_len signature_len factory_deps_len paymaster_input_len 0.

(** ** Conversions *)

Definition transaction_of_l1 (tx : L1Tx) : Transaction :=
  {| common_data := L1 (l1_common_data tx); execute := l1_execute tx;
     received_timestamp_ms := l1_received_timestamp_ms tx; raw_bytes := None |}.

Definition l1_of_transaction (t : Transaction) : result L1Tx string :=
  match common_data t with
  | L1 data => Ok {| l1_execute := execute t; l1_common_data := data;
                     l1_received_timestamp_ms := received_timestamp_ms t |}
  | L2 _ => Err "Cannot convert L2Tx to L1Tx"
  | ProtocolUpgrade _ => Err "Cannot convert ProtocolUpgradeTx to L1Tx"
  end.

Definition transaction_of_l2 (tx : L2Tx) : Transaction :=
  {| common_data := L2 (l2_common_data tx); execute := l2_execute tx;
     received_timestamp_ms := l2_received_timestamp_ms tx; raw_bytes := l2_raw_bytes tx |}.

Definition l2_of_transaction (t : Transaction) : result L2Tx string :=
  match common_data t with
  | L1 _ => Err "Cannot convert L1Tx to L2Tx"
  | L2 data => Ok {| l2_execute := execute t; l2_common_data := data;
                     l2_received_timestamp_ms := received_timestamp_ms t;
                     l2_raw_bytes := raw_bytes t |}
  | ProtocolUpgrade _ => Err "Cannot convert ProtocolUpgradeTx to L2Tx"
  end.

Definition transaction_of_upgrade (tx : ProtocolUpgradeTx) : Transaction :=
  {| common_data := ProtocolUpgrade (pu_common_data tx); execute := pu_execute tx;
     received_timestamp_ms := pu_received_timestamp_ms tx; raw_bytes := None |}.

Definition upgrade_of_transaction (t : Transaction) : result ProtocolUpgradeTx string :=
  match common_data t with
  | L1 _ => Err "Cannot convert L1Tx to ProtocolUpgradeTx"
  | L2 _ => Err "Cannot convert L2Tx to ProtocolUpgradeTx"
  | ProtocolUpgrade data => Ok {| pu_execute := execute t; pu_common_data := data;
                                  pu_received_timestamp_ms := received_timestamp_ms t |}
  end.

(** ** Methods of [L1Tx] and [L2Tx] *)

Definition l1tx_serial_id (tx : L1Tx) : Z := l1_serial_id (l1_common_data tx).

(** [L1BlockNumber(self.common_data.eth_block as u32)] *)
Definition l1tx_eth_block (tx : L1Tx) : Z := wrap 32 (l1_eth_block (l1_common_data tx)).

Definition l1tx_hash (tx : L1Tx) : Z := l1_canonical_tx_hash (l1_common_data tx).

(** [L2Tx::new]; the time of reception is an argument. *)
Definition L2Tx_new (contract_address : Z) (calldata : list Z) (nonce : Z) (fee : Fee)
    (initiator_address value : Z) (factory_deps : list (list Z))
    (paymaster_params : PaymasterParams) (now_ms : Z) : L2Tx :=
  {| l2_execute := {| contract_address := contract_address; calldata := calldata;
                      execute_value := value; factory_deps := factory_deps |};
     l2_common_data := {| l2_nonce := nonce; l2_fee := fee;
                          l2_initiator_address := initiator_address; l2_signature := [];
                          l2_transaction_type := EIP712Transaction; l2_input := None;
                          l2_paymaster_params := paymaster_params |};
     l2_received_timestamp_ms := now_ms;
     l2_raw_bytes := None |}.

Definition l2tx_hash (tx : L2Tx) : outcome Z := l2_hash (l2_common_data tx).

Definition l2tx_initiator_account (tx : L2Tx) : Z := l2_initiator_address (l2_common_data tx).

Definition l2tx_recipient_account (tx : L2Tx) : Z := contract_address (l2_execute tx).

Definition l2tx_nonce (tx : L2Tx) : Z := l2_nonce (l2_common_data tx).

Definition abi_encoding_len (tx : L2Tx) : Z :=
  let data_len := len (calldata (l2_execute tx)) in
  let signature_len := len (l2_signature (l2_common_data tx)) in
  let factory_deps_len := len (factory_deps (l2_execute tx)) in
  let paymaster_input_len := len (paymaster_input (l2_paymaster_params (l2_common_data tx))) in
  encoding_len data_len signature_len factory_deps_len paymaster_input_len 0.

Definition l2tx_payer (tx : L2Tx) : Z :=
  let paymaster := paymaster (l2_paymaster_params (l2_common_data tx)) in
  if negb (paymaster =? 0) then paymaster else l2tx_initiator_account tx.

(** A 32-bit sum of the lengths, each cast to 32 bits. *)
Definition factory_deps_len (tx : L2Tx) : Z :=
  foldl (fun l item => wrap 32 (l + wrap 32 (len item))) 0 (factory_deps (l2_execute tx)).

(** ** On-chain data of priority operations *)

Record PriorityOpOnchainData := {
  layer_2_tip_fee : Z;
  onchain_data_hash : Z;
}.

Definition onchain_data (d : L1TxCommonData) : PriorityOpOnchainData :=
  {| layer_2_tip_fee := l1_layer_2_tip_fee d; onchain_data_hash := l1_canonical_tx_hash d |}.

Definition onchain_data_to_vec (d : PriorityOpOnchainData) : list Z :=
  be_bytes 32 (layer_2_tip_fee d) ++ be_bytes 32 (onchain_data_hash d).

(** [H256::from_slice] panics unless it is given 32 bytes. *)
Definition onchain_data_from_vec (data : list Z) : outcome PriorityOpOnchainData :=
  _ ← rust_assert (32 <=? length data)%nat "range end index out of range for slice";
  _ ← rust_assert (length (drop 32 data) =? 32)%nat "source slice length does not match";
  Ret {| layer_2_tip_fee := be_value (take 32 data);
         onchain_data_hash := be_value (drop 32 data) |}.

Lemma onchain_data_roundtrip d :
  unsigned 256 (layer_2_tip_fee d) -> unsigned 256 (onchain_data_hash d) ->
  onchain_data_from_vec (onchain_data_to_vec d) = Ret d.
Proof.
  intros Hf Hh. unfold onchain_data_from_vec, onchain_data_to_vec. destruct d as [f h].
  cbn [layer_2_tip_fee onchain_data_hash] in *.
  rewrite take_app_length', drop_app_length' by (by rewrite be_bytes_length).
  rewrite length_app, !be_bytes_length. cbn [Nat.leb Nat.add Nat.eqb rust_assert].
  rewrite !outcome_Ret_bind. by rewrite !(be_value_be_bytes_unsigned 32 256).
Qed.

(** ** Correctness *)

(** Transactions change representation without loss.  Every transaction is a priority
    operation, a user transaction or an upgrade: exactly the conversion for its kind
    succeeds; specific transactions survive the trip through the common type, and common
    ones the trip through the specific type, except that the raw bytes of priority
    operations and upgrades are dropped; serialization through the compatibility structures
    is the identity. *)
Theorem transaction_conversions_lossless t l1 l2 pu d1 dpu e :
  l1_of_transaction (transaction_of_l1 l1) = Ok l1 /\
  l2_of_transaction (transaction_of_l2 l2) = Ok l2 /\
  upgrade_of_transaction (transaction_of_upgrade pu) = Ok pu /\
  match l1_of_transaction t, l2_of_transaction t, upgrade_of_transaction t with
  | Ok tx, Err _, Err _ =>
      is_l1 t = true /\
      transaction_of_l1 tx = {| common_data := common_data t; execute := execute t;
        received_timestamp_ms := received_timestamp_ms t; raw_bytes := None |}
  | Err _, Ok tx, Err _ => nonce t = Some (l2tx_nonce tx) /\ transaction_of_l2 tx = t
  | Err _, Err _, Ok tx =>
      tx_format t = ProtocolUpgradeTransaction /\
      transaction_of_upgrade tx = {| common_data := common_data t; execute := execute t;
        received_timestamp_ms := received_timestamp_ms t; raw_bytes := None |}
  | _, _, _ => False
  end /\
  l1_deserialize (l1_serialize d1) = d1 /\ pu_deserialize (pu_serialize dpu) = dpu /\
  execute_deserialize (execute_serialize e) = e.
Proof. destruct t as [[] ? ? ?], l1, l2, pu, d1, dpu, e; repeat split. Qed.

Lemma ceil_div_chunks {A} (l : list A) : ceil_div (len l) 32 = len (chunks 32 l).
Proof.
  unfold len, chunks.
  enough (forall fuel l, (length l <= fuel)%nat ->
    ceil_div (Z.of_nat (length l)) 32 = Z.of_nat (@length (list A) (chunks_fuel fuel 32 l)))
    as H by by apply H.
  clear l. intros fuel. induction fuel as [|fuel IH]; intros l Hl.
  { destruct l; [done|simpl in Hl; lia]. }
  destruct l as [|x l]; [done|]. cbn [chunks_fuel length].
  rewrite (Nat2Z.inj_succ (length (chunks_fuel _ _ _))). specialize (IH (drop 32 (x :: l))). rewrite length_drop in IH.
  rewrite <- IH by (simpl in *; lia). unfold ceil_div. cbn [length] in *.
  destruct (Z.eqb_spec (Z.of_nat (S (length l) - 32)) 0), (Z.eqb_spec (Z.of_nat (S (length l))) 0);
    try lia; div_lia.
Qed.

(** The encoding length counts the words of the ABI encoding: 25 words for the head, one
    per 32-byte chunk (the last one padded) of the calldata, the signature and the paymaster
    input, and one per factory dependency; the L2 transaction and its common form agree on
    it, on the payer (the paymaster if there is one), the initiator, the recipient and the
    hash. *)
Theorem l2_views_agree tx :
  len (calldata (l2_execute tx)) < 2 ^ 61 ->
  len (l2_signature (l2_common_data tx)) < 2 ^ 61 ->
  len (paymaster_input (l2_paymaster_params (l2_common_data tx))) < 2 ^ 61 ->
  len (factory_deps (l2_execute tx)) < 2 ^ 61 ->
  let t := transaction_of_l2 tx in
  abi_encoding_len tx =
    25 + len (chunks 32 (calldata (l2_execute tx)))
    + len (chunks 32 (l2_signature (l2_common_data tx)))
    + len (chunks 32 (paymaster_input (l2_paymaster_params (l2_common_data tx))))
    + len (factory_deps (l2_execute tx)) /\
  transaction_encoding_len t = abi_encoding_len tx /\
  payer t = l2tx_payer tx /\ initiator_account t = l2tx_initiator_account tx /\
  recipient_account t = l2tx_recipient_account tx /\ hash t = l2tx_hash tx.
Proof.
  intros Hd Hs Hp Hf t. split.
  - unfold abi_encoding_len, encoding_len. rewrite !ceil_div_chunks.
    pose proof (ceil_div_chunks (calldata (l2_execute tx))).
    pose proof (ceil_div_chunks (l2_signature (l2_common_data tx))).
    pose proof (ceil_div_chunks (paymaster_input (l2_paymaster_params (l2_common_data tx)))).
    assert (forall z, 0 <= z < 2 ^ 61 -> 0 <= ceil_div z 32 < 2 ^ 61) as Hc.
    { intros z Hz. unfold ceil_div. destruct (Z.eqb_spec z 0); div_lia. }
    unfold len in *.
    pose proof (Hc _ (conj (Zle_0_nat _) Hd)). pose proof (Hc _ (conj (Zle_0_nat _) Hs)).
    pose proof (Hc _ (conj (Zle_0_nat _) Hp)). change (ceil_div 0 32) with 0.
    rewrite !wrap_small; unfold unsigned; rewrite ?wrap_small; unfold unsigned; lia.
  - split; [done|]. split; [|done]. unfold payer, l2tx_payer, t. cbn.
    by destruct (paymaster _ =? 0).
Qed.

Definition example_l2_tx : L2Tx :=
  L2Tx_new 17 (replicate 40 1) 3
    {| fee_gas_limit := 1000; fee_max_fee_per_gas := 10; fee_max_priority_fee_per_gas := 0;
       fee_gas_per_pubdata_limit := 50 |}
    99 0 [[1; 2]] {| paymaster := 5; paymaster_input := [1] |} 0.

Lemma l2_views_agree_witness :
  abi_encoding_len example_l2_tx = 29 /\ payer (transaction_of_l2 example_l2_tx) = 5.
Proof.
  destruct (l2_views_agree example_l2_tx) as (H1 & _ & H2 & _); try (vm_compute; reflexivity).
  split; [etransitivity; [exact H1|vm_compute; reflexivity]|].
  etransitivity; [exact H2|vm_compute; reflexivity].
Defined.
