(* ===== verification/Float.v ===== *)
(** * Double-precision floating point

    The source scales prices and limits by [f64] factors.  Values are the binary64 numbers
    of the standard library's executable IEEE-754 specification ([SpecFloat]); conversions
    follow Rust: integers round to nearest even, and casts back to integers truncate and
    saturate. *)

From Stdlib Require Import SpecFloat.
From S2P Require Import Prelude.
Open Scope Z_scope.

Definition f64 : Type := spec_float.

(** [x as f64] for an unsigned integer. *)
Definition f64_of_uint (z : Z) : f64 := binary_normalize 53 1024 z 0 false.

Definition f64_mul (x y : f64) : f64 := SFmul 53 1024 x y.

Definition f64_gt (x y : f64) : bool := SFltb y x.

Definition f64_one : f64 := f64_of_uint 1.

(** [x as uN]: truncation towards zero, saturating; NaN becomes 0. *)
Definition f64_to_uint (w : Z) (x : f64) : Z :=
  match x with
  | S754_nan | S754_zero _ | S754_infinity true | S754_finite true _ _ => 0
  | S754_infinity false => 2 ^ w - 1
  | S754_finite false m e => Z.min (2 ^ w - 1) (Z.shiftl (Zpos m) e)
  end.

(** [f64::round] followed by a cast: halves are rounded away from zero. *)
Definition f64_round_to_uint (w : Z) (x : f64) : Z :=
  match x with
  | S754_finite false m e =>
      Z.min (2 ^ w - 1)
        (if 0 <=? e then Z.shiftl (Zpos m) e
         else Z.shiftr (Z.shiftl (Zpos m) 1 + Z.shiftl 1 (- e)) (1 - e))
  | _ => f64_to_uint w x
  end.

(** ** Casts stay in range *)

Lemma f64_to_uint_range w x : 0 <= w -> unsigned w (f64_to_uint w x).
Proof.
  intros Hw. pose proof (Z.pow_pos_nonneg 2 w ltac:(lia) Hw). unfold unsigned, f64_to_uint.
  destruct x as [|[]| |[] m e]; try lia.
  assert (0 <= Z.shiftl (Zpos m) e) by (apply Z.shiftl_nonneg; lia). lia.
Qed.

(** ** Exactness on small integers *)

Lemma digits2_log2 p : Zpos (digits2_pos p) = Z.log2 (Zpos p) + 1.
Proof.
  induction p as [p IH|p IH|]; cbn [digits2_pos]; rewrite ?Pos2Z.inj_succ, ?IH; [..|done].
  - rewrite Pos2Z.inj_xI, Z.log2_succ_double by lia. lia.
  - rewrite Pos2Z.inj_xO, Z.log2_double by lia. lia.
Qed.

Lemma iter_pos_nat {A} (f : A -> A) p x :
  SpecFloat.iter_pos f p x = Nat.iter (Pos.to_nat p) f x.
Proof.
  revert x. induction p as [p IH|p IH|]; intros x; cbn [SpecFloat.iter_pos]; [..|done].
  - rewrite !IH, Pos2Nat.inj_xI, <- !Nat.iter_add. cbn. rewrite <- Nat.iter_succ_r. cbn.
    by rewrite Nat.add_0_r.
  - rewrite !IH, Pos2Nat.inj_xO, <- Nat.iter_add. f_equal. lia.
Qed.

Lemma shr_1_even m s :
  shr_1 {| shr_m := 2 * m; shr_r := false; shr_s := s |} = {| shr_m := m; shr_r := false; shr_s := s |}.
Proof. by destruct m. Qed.

(** Shifting out zero bits loses nothing. *)
Lemma shr_exact m e k :
  0 <= k ->
  shr {| shr_m := m * 2 ^ k; shr_r := false; shr_s := false |} e k
  = ({| shr_m := m; shr_r := false; shr_s := false |}, e + k).
Proof.
  intros Hk. unfold shr. destruct k as [|p|p]; [|f_equal|lia].
  - by rewrite Z.mul_1_r, Z.add_0_r.
  - rewrite iter_pos_nat. rewrite <- (positive_nat_Z p). clear.
    induction (Pos.to_nat p) as [|n IH] in m |- *; [cbn; by rewrite Z.mul_1_r|].
    rewrite Nat.iter_succ_r, Nat2Z.inj_succ, Z.pow_succ_r by lia.
    replace (m * (2 * 2 ^ Z.of_nat n)) with (2 * (m * 2 ^ Z.of_nat n)) by lia.
    rewrite shr_1_even. apply IH.
Qed.

(** A 53-bit mantissa followed by zero bits is represented exactly. *)
Lemma binary_round_aux_exact s m k e :
  2 ^ 52 <= m < 2 ^ 53 -> 0 <= k -> -1074 <= e + k <= 971 ->
  binary_round_aux 53 1024 s (m * 2 ^ k) e loc_Exact
  = S754_finite s (Z.to_pos m) (e + k).
Proof.
  intros Hm Hk He.
  assert (forall j, 0 <= j -> Zdigits2 (m * 2 ^ j) = 53 + j) as Hdig.
  { intros j Hj. assert (0 < m * 2 ^ j) as Hpos by (apply Z.mul_pos_pos; lia).
    destruct (m * 2 ^ j) as [|p|p] eqn:Hp; [lia| |lia]. cbn [Zdigits2].
    rewrite digits2_log2, <- Hp, Z.log2_mul_pow2 by lia.
    rewrite (Z.log2_unique m 52) by lia. lia. }
  unfold binary_round_aux, shr_fexp, fexp, emin. rewrite Hdig by done. cbn [shr_record_of_loc].
  replace (Z.max (53 + k + e - 53) (3 - 1024 - 53) - e) with k by lia.
  rewrite shr_exact by done. cbn [shr_m loc_of_shr_record round_nearest_even].
  specialize (Hdig 0). rewrite Z.mul_1_r in Hdig. rewrite Hdig by lia.
  replace (Z.max (53 + 0 + (e + k) - 53) (3 - 1024 - 53) - (e + k)) with 0 by lia.
  cbn [shr shr_m]. destruct m as [|p|p]; [lia| |lia]. rewrite (proj2 (Z.leb_le _ _)) by lia. done.
Qed.

Lemma pos_iter_xO m d : Zpos (Pos.iter xO m d) = Zpos m * 2 ^ Zpos d.
Proof.
  revert m. induction d as [|d IH] using Pos.peano_ind; intros m; [cbn; lia|].
  rewrite Pos.iter_succ, Pos2Z.inj_xO, IH, Pos2Z.inj_succ, Z.pow_succ_r by lia. lia.
Qed.

Lemma f64_of_uint_exact z :
  0 < z < 2 ^ 53 ->
  let k := 52 - Z.log2 z in
  f64_of_uint z = S754_finite false (Z.to_pos (z * 2 ^ k)) (- k).
Proof.
  intros Hz k. destruct z as [|p|p]; [lia| |lia]. unfold f64_of_uint, binary_normalize, binary_round.
  assert (0 <= Z.log2 (Zpos p) < 53) as Hl.
  { split; [apply Z.log2_nonneg|]. apply Z.log2_lt_pow2; lia. }
  rewrite digits2_log2. unfold fexp, emin, shl_align.
  replace (Z.max _ _ - 0) with (- k) by (unfold k; lia).
  assert (2 ^ 52 <= Zpos p * 2 ^ k < 2 ^ 53) as Hm.
  { pose proof (Z.log2_spec (Zpos p) ltac:(lia)) as [H1 H2].
    replace 52 with (Z.log2 (Zpos p) + k) at 1 by (unfold k; lia).
    replace 53 with (Z.succ (Z.log2 (Zpos p)) + k) at 1 by (unfold k; lia).
    assert (0 < 2 ^ k) by (apply Z.pow_pos_nonneg; unfold k; lia).
    rewrite !Z.pow_add_r by (unfold k in *; lia). nia. }
  pose proof (binary_round_aux_exact false (Zpos p * 2 ^ k) 0 (- k) Hm) as Hr.
  rewrite Z.mul_1_r, Z.add_0_r in Hr.
  destruct (- k) as [|q|q] eqn:Hk; [|unfold k in *; lia|].
  - assert (k = 0) as Hk0 by lia. rewrite Hk0 in *. rewrite Z.mul_1_r in *. apply Hr; lia.
  - rewrite pos_iter_xO. replace (Zpos q) with k by lia.
    replace (Z.max _ _) with (Zneg q) by (unfold k in *; lia). apply Hr; unfold k in *; lia.
Qed.

(** A product by the factor 1.0 is exact below 2^53. *)
Lemma scale_by_one w z :
  53 <= w -> 0 <= z < 2 ^ 53 -> f64_to_uint w (f64_mul (f64_of_uint z) f64_one) = z.
Proof.
  intros Hw Hz. destruct (decide (z = 0)) as [->|Hz0]; [done|].
  rewrite f64_of_uint_exact by lia. set (k := 52 - Z.log2 z).
  assert (0 <= Z.log2 z < 53) as Hl.
  { split; [apply Z.log2_nonneg|]. apply Z.log2_lt_pow2; lia. }
  assert (2 ^ 52 <= z * 2 ^ k < 2 ^ 53) as Hm.
  { pose proof (Z.log2_spec z ltac:(lia)) as [H1 H2].
    replace 52 with (Z.log2 z + k) at 1 by (unfold k; lia).
    replace 53 with (Z.succ (Z.log2 z) + k) at 1 by (unfold k; lia).
    assert (0 < 2 ^ k) by (apply Z.pow_pos_nonneg; unfold k; lia).
    rewrite !Z.pow_add_r by (unfold k in *; lia). nia. }
  change f64_one with (S754_finite false (Z.to_pos (2 ^ 52)) (-52)).
  unfold f64_mul, SFmul. cbn [xorb].
  replace (Zpos (Z.to_pos (z * 2 ^ k) * Z.to_pos (2 ^ 52))) with ((z * 2 ^ k) * 2 ^ 52)
    by (rewrite Pos2Z.inj_mul, !Z2Pos.id by lia; done).
  rewrite binary_round_aux_exact by (unfold k in *; lia).
  cbn [f64_to_uint]. rewrite Z2Pos.id by lia.
  replace (- k + -52 + 52) with (- k) by lia.
  rewrite Z.shiftl_opp_r, Z.shiftr_div_pow2, Z.div_mul
    by (try apply Z.pow_nonzero; unfold k; lia).
  pose proof (Z.pow_le_mono_r 2 53 w ltac:(lia) Hw). lia.
Qed.
