(* ===== verification/FeeModel.v ===== *)
(** * Fee model

    Model of [src/core/lib/types/src/fee_model.rs] (batch fee inputs and parameters),
    [src/core/node/fee_model/src/lib.rs] (computation of the batch fee input) and
    [src/core/node/fee_model/src/l1_gas_price/gas_adjuster/mod.rs] (statistics of the fees of
    the settlement layer).  Prices are 64-bit integers, scale factors are [f64]. *)

From S2P Require Import Prelude Bytes Utils ProtocolVersion Float.
Open Scope Z_scope.

(** ** Batch fee inputs *)

Definition L1_GAS_PER_PUBDATA_BYTE : Z := 17.

Record L1PeggedBatchFeeModelInput := {
  pegged_fair_l2_gas_price : Z;
  pegged_l1_gas_price : Z;
}.

Record PubdataIndependentBatchFeeModelInput := {
  ind_fair_l2_gas_price : Z;
  ind_fair_pubdata_price : Z;
  ind_l1_gas_price : Z;
}.

Inductive BatchFeeInput : Type :=
| L1Pegged (input : L1PeggedBatchFeeModelInput)
| PubdataIndependent (input : PubdataIndependentBatchFeeModelInput).

Definition l1_pegged (l1_gas_price fair_l2_gas_price : Z) : BatchFeeInput :=
  L1Pegged {| pegged_l1_gas_price := l1_gas_price;
              pegged_fair_l2_gas_price := fair_l2_gas_price |}.

Definition pubdata_independent (l1_gas_price fair_l2_gas_price fair_pubdata_price : Z) :
    BatchFeeInput :=
  PubdataIndependent {| ind_l1_gas_price := l1_gas_price;
                        ind_fair_l2_gas_price := fair_l2_gas_price;
                        ind_fair_pubdata_price := fair_pubdata_price |}.

Definition sensible_l1_pegged_default : BatchFeeInput := l1_pegged 1000000000 100000000.

Definition into_l1_pegged (b : BatchFeeInput) : outcome L1PeggedBatchFeeModelInput :=
  match b with
  | L1Pegged input => Ret input
  | PubdataIndependent _ =>
      Panics "Can not convert PubdataIndependentBatchFeeModelInput into L1PeggedBatchFeeModelInput"
  end.

Definition fair_pubdata_price (b : BatchFeeInput) : Z :=
  match b with
  | L1Pegged input => wrap 64 (pegged_l1_gas_price input * L1_GAS_PER_PUBDATA_BYTE)
  | PubdataIndependent input => ind_fair_pubdata_price input
  end.

Definition fair_l2_gas_price (b : BatchFeeInput) : Z :=
  match b with
  | L1Pegged input => pegged_fair_l2_gas_price input
  | PubdataIndependent input => ind_fair_l2_gas_price input
  end.

Definition l1_gas_price (b : BatchFeeInput) : Z :=
  match b with
  | L1Pegged input => pegged_l1_gas_price input
  | PubdataIndependent input => ind_l1_gas_price input
  end.

Definition into_pubdata_independent (b : BatchFeeInput) : PubdataIndependentBatchFeeModelInput :=
  match b with
  | PubdataIndependent input => input
  | L1Pegged input =>
      {| ind_fair_l2_gas_price := pegged_fair_l2_gas_price input;
         ind_fair_pubdata_price := wrap 64 (pegged_l1_gas_price input * L1_GAS_PER_PUBDATA_BYTE);
         ind_l1_gas_price := pegged_l1_gas_price input |}
  end.

Definition for_protocol_version (protocol_version : ProtocolVersionId) (fair_l2_gas_price : Z)
    (fair_pubdata_price : option Z) (l1_gas_price : Z) : outcome BatchFeeInput :=
  if is_post_1_4_1 protocol_version then
    fair_pubdata_price ← expect fair_pubdata_price
                           "Pubdata price must be provided for protocol version 1.4.1";
    Ret (pubdata_independent l1_gas_price fair_l2_gas_price fair_pubdata_price)
  else Ret (l1_pegged l1_gas_price fair_l2_gas_price).

Definition stricter (self other : BatchFeeInput) : BatchFeeInput :=
  match self, other with
  | L1Pegged first, L1Pegged second =>
      l1_pegged (Z.max (pegged_l1_gas_price first) (pegged_l1_gas_price second))
        (Z.max (pegged_fair_l2_gas_price first) (pegged_fair_l2_gas_price second))
  | _, _ =>
      let first := into_pubdata_independent self in
      let second := into_pubdata_independent other in
      pubdata_independent (Z.max (ind_l1_gas_price first) (ind_l1_gas_price second))
        (Z.max (ind_fair_l2_gas_price first) (ind_fair_l2_gas_price second))
        (Z.max (ind_fair_pubdata_price first) (ind_fair_pubdata_price second))
  end.

(** ** Parameters *)

Record FeeModelConfigV1 := { v1_minimal_l2_gas_price : Z }.

Record FeeModelConfigV2 := {
  minimal_l2_gas_price : Z;
  compute_overhead_part : f64;
  pubdata_overhead_part : f64;
  batch_overhead_l1_gas : Z;
  max_gas_per_batch : Z;
  max_pubdata_per_batch : Z;
}.

Inductive FeeModelConfig : Type :=
| ConfigV1 (config : FeeModelConfigV1)
| ConfigV2 (config : FeeModelConfigV2).

(** Both parts are [NonZeroU64]. *)
Record BaseTokenConversionRatio := {
  numerator : Z;
  denominator : Z;
}.

Record FeeParamsV1 := {
  v1_config : FeeModelConfigV1;
  v1_l1_gas_price : Z;
}.

Record FeeParamsV2 := {
  v2_config : FeeModelConfigV2;
  v2_l1_gas_price : Z;
  v2_l1_pubdata_price : Z;
  conversion_ratio : BaseTokenConversionRatio;
}.

Inductive FeeParams : Type :=
| ParamsV1 (params : FeeParamsV1)
| ParamsV2 (params : FeeParamsV2).

(** [U256::as_u64] panics above [u64::MAX]. *)
Definition as_u64 (z : Z) : outcome Z :=
  if z <? 2 ^ 64 then Ret z else Panics "Integer overflow when casting to u64".

(** [bigdecimal] arithmetic: [price * (numerator / denominator)], its conversion to [u64] and
    the comparison with [u64::MAX]. *)
Class BigDecimalOps := {
  bigdecimal : Type;
  scaled_price : Z -> BaseTokenConversionRatio -> bigdecimal;
  bd_to_u64 : bigdecimal -> option Z;
  bd_exceeds_u64 : bigdecimal -> bool;
}.

Section Compute.
Context `{BigDecimalOps}.

Definition convert_to_base_token (params : FeeParamsV2) (price_in_wei : Z) : outcome Z :=
  let converted_price_bd := scaled_price price_in_wei (conversion_ratio params) in
  match bd_to_u64 converted_price_bd with
  | Some converted_price => Ret converted_price
  | None =>
      if bd_exceeds_u64 converted_price_bd then Ret (2 ^ 64 - 1)
      else Panics "Conversion to base token price failed: converted price is not a valid u64"
  end.

Definition params_config (params : FeeParamsV2) : outcome FeeModelConfigV2 :=
  price ← convert_to_base_token params (minimal_l2_gas_price (v2_config params));
  Ret {| minimal_l2_gas_price := price;
         compute_overhead_part := compute_overhead_part (v2_config params);
         pubdata_overhead_part := pubdata_overhead_part (v2_config params);
         batch_overhead_l1_gas := batch_overhead_l1_gas (v2_config params);
         max_gas_per_batch := max_gas_per_batch (v2_config params);
         max_pubdata_per_batch := max_pubdata_per_batch (v2_config params) |}.

Definition params_l1_gas_price (params : FeeParamsV2) : outcome Z :=
  convert_to_base_token params (v2_l1_gas_price params).

Definition params_l1_pubdata_price (params : FeeParamsV2) : outcome Z :=
  convert_to_base_token params (v2_l1_pubdata_price params).

Definition compute_batch_fee_model_input_v1 (params : FeeParamsV1)
    (l1_gas_price_scale_factor : f64) : L1PeggedBatchFeeModelInput :=
  let l1_gas_price :=
    f64_to_uint 64 (f64_mul (f64_of_uint (v1_l1_gas_price params)) l1_gas_price_scale_factor) in
  {| pegged_l1_gas_price := l1_gas_price;
     pegged_fair_l2_gas_price := v1_minimal_l2_gas_price (v1_config params) |}.

(** The share of the cost of closing a batch that one unit (of gas or pubdata) pays for:
    rounded up, scaled by the part the unit is responsible for. *)
Definition unit_overhead (l1_batch_overhead_wei units_per_batch : Z) (part : f64) : outcome Z :=
  per_unit ← ceil_div_u256 l1_batch_overhead_wei units_per_batch;
  per_unit ← as_u64 per_unit;
  Ret (f64_to_uint 64 (f64_mul (f64_of_uint per_unit) part)).

Definition compute_batch_fee_model_input_v2 (params : FeeParamsV2)
    (l1_gas_price_scale_factor l1_pubdata_price_scale_factor : f64) :
    outcome PubdataIndependentBatchFeeModelInput :=
  config ← params_config params;
  l1_gas_price ← params_l1_gas_price params;
  l1_pubdata_price ← params_l1_pubdata_price params;
  let l1_gas_price :=
    f64_to_uint 64 (f64_mul (f64_of_uint l1_gas_price) l1_gas_price_scale_factor) in
  let l1_pubdata_price :=
    f64_to_uint 64 (f64_mul (f64_of_uint l1_pubdata_price) l1_pubdata_price_scale_factor) in
  (* two 64-bit factors cannot overflow a U256 *)
  let l1_batch_overhead_wei := l1_gas_price * batch_overhead_l1_gas config in
  gas_overhead_wei ← unit_overhead l1_batch_overhead_wei (max_gas_per_batch config)
                       (compute_overhead_part config);
  let fair_l2_gas_price := wrap 64 (minimal_l2_gas_price config + gas_overhead_wei) in
  pubdata_overhead_wei ← unit_overhead l1_batch_overhead_wei (max_pubdata_per_batch config)
                           (pubdata_overhead_part config);
  let fair_pubdata_price := wrap 64 (l1_pubdata_price + pubdata_overhead_wei) in
  Ret {| ind_l1_gas_price := l1_gas_price;
         ind_fair_l2_gas_price := fair_l2_gas_price;
         ind_fair_pubdata_price := fair_pubdata_price |}.

Definition MAXIMUM_L2_GAS_PRICE : Z := 10000000000000.
Definition MAXIMUM_PUBDATA_PRICE : Z := 1000000000000000.

Definition clip_batch_fee_model_input_v2 (fee_model : PubdataIndependentBatchFeeModelInput) :
    PubdataIndependentBatchFeeModelInput :=
  {| ind_l1_gas_price := ind_l1_gas_price fee_model;
     ind_fair_l2_gas_price :=
       if ind_fair_l2_gas_price fee_model <? MAXIMUM_L2_GAS_PRICE
       then ind_fair_l2_gas_price fee_model else MAXIMUM_L2_GAS_PRICE;
     ind_fair_pubdata_price :=
       if ind_fair_pubdata_price fee_model <? MAXIMUM_PUBDATA_PRICE
       then ind_fair_pubdata_price fee_model else MAXIMUM_PUBDATA_PRICE |}.

(** The provided method of [BatchFeeModelInputProvider], for a provider with the given
    parameters. *)
Definition get_batch_fee_input_scaled (params : FeeParams)
    (l1_gas_price_scale_factor l1_pubdata_price_scale_factor : f64) : outcome BatchFeeInput :=
  match params with
  | ParamsV1 params =>
      Ret (L1Pegged (compute_batch_fee_model_input_v1 params l1_gas_price_scale_factor))
  | ParamsV2 params =>
      input ← compute_batch_fee_model_input_v2 params l1_gas_price_scale_factor
                l1_pubdata_price_scale_factor;
      Ret (PubdataIndependent (clip_batch_fee_model_input_v2 input))
  end.

Definition get_batch_fee_input (params : FeeParams) : outcome BatchFeeInput :=
  get_batch_fee_input_scaled params f64_one f64_one.

(** [ApiFeeInputProvider]: never below the fees of the last sealed L2 block. *)
Definition api_get_batch_fee_input_scaled (params : FeeParams)
    (last_l2_block_fee_input : option BatchFeeInput)
    (l1_gas_price_scale_factor l1_pubdata_price_scale_factor : f64) : outcome BatchFeeInput :=
  inner_input ← get_batch_fee_input_scaled params l1_gas_price_scale_factor
                  l1_pubdata_price_scale_factor;
  Ret (match last_l2_block_fee_input with
       | Some input => stricter inner_input input
       | None => inner_input
       end).
End Compute.

(** ** The stricter of two inputs *)

(** The input's prices are 64-bit integers, and deriving the pubdata price from the gas price
    does not overflow. *)
Definition no_overflow (b : BatchFeeInput) : Prop :=
  unsigned 64 (l1_gas_price b) /\ unsigned 64 (fair_l2_gas_price b) /\
  match b with
  | L1Pegged input => pegged_l1_gas_price input * L1_GAS_PER_PUBDATA_BYTE < 2 ^ 64
  | PubdataIndependent input => unsigned 64 (ind_fair_pubdata_price input)
  end.

Lemma fair_pubdata_price_pegged input :
  no_overflow (L1Pegged input) ->
  fair_pubdata_price (L1Pegged input) = pegged_l1_gas_price input * L1_GAS_PER_PUBDATA_BYTE.
Proof.
  intros (Hl & _ & Ho). cbn in *. apply wrap_small. unfold unsigned, L1_GAS_PER_PUBDATA_BYTE in *. lia.
Qed.

Lemma stricter_pubdata_price a b :
  no_overflow a -> no_overflow b ->
  fair_pubdata_price (stricter a b) = Z.max (fair_pubdata_price a) (fair_pubdata_price b) /\
  no_overflow (stricter a b).
Proof.
  intros Ha Hb. destruct a as [a|a], b as [b|b]; cbn [stricter into_pubdata_independent].
  1:{ pose proof (fair_pubdata_price_pegged a Ha) as Ea. pose proof (fair_pubdata_price_pegged b Hb) as Eb.
      assert (no_overflow (l1_pegged (Z.max (pegged_l1_gas_price a) (pegged_l1_gas_price b))
        (Z.max (pegged_fair_l2_gas_price a) (pegged_fair_l2_gas_price b)))) as Hs.
      { unfold no_overflow, unsigned, L1_GAS_PER_PUBDATA_BYTE in *. cbn in *. lia. }
      unfold l1_pegged in *. rewrite Ea, Eb, (fair_pubdata_price_pegged _ Hs). split; [|done].
      unfold L1_GAS_PER_PUBDATA_BYTE. cbn. lia. }
  1:{ pose proof (fair_pubdata_price_pegged a Ha) as Ea. cbn in Ea. rewrite Ea. cbn. rewrite Ea.
      unfold no_overflow, unsigned, L1_GAS_PER_PUBDATA_BYTE in *. cbn in *. lia. }
  1:{ pose proof (fair_pubdata_price_pegged b Hb) as Eb. cbn in Eb. rewrite Eb. cbn. rewrite Eb.
      unfold no_overflow, unsigned, L1_GAS_PER_PUBDATA_BYTE in *. cbn in *. lia. }
  unfold no_overflow, unsigned in *. cbn in *. lia.
Qed.

(** The stricter of two fee inputs is their least upper bound: whatever the kinds of the
    inputs, each of the three prices (L1 gas, L2 gas, pubdata) of the result is the maximum of
    the corresponding prices, as long as deriving a pubdata price does not overflow 64 bits. *)
Theorem stricter_is_join a b :
  no_overflow a -> no_overflow b ->
  l1_gas_price (stricter a b) = Z.max (l1_gas_price a) (l1_gas_price b) /\
  fair_l2_gas_price (stricter a b) = Z.max (fair_l2_gas_price a) (fair_l2_gas_price b) /\
  fair_pubdata_price (stricter a b) = Z.max (fair_pubdata_price a) (fair_pubdata_price b) /\
  no_overflow (stricter a b).
Proof.
  intros Ha Hb. destruct (stricter_pubdata_price a b Ha Hb) as [Hp Ho].
  split; [by destruct a, b|]. split; [by destruct a, b|]. done.
Qed.

(** ** Computed inputs *)

Section ComputeCorrect.
Context `{BigDecimalOps}.

(** Ceiling of a quotient. *)
Definition ceil (a b : Z) : Z := - (- a / b).

Lemma ceil_div_u256_ceil a b :
  0 <= a -> 0 < b -> a + b < 2 ^ 256 -> ceil_div_u256 a b = Ret (ceil a b).
Proof.
  intros Ha Hb Ho. unfold ceil_div_u256, u256_add. rewrite (proj2 (Z.ltb_lt _ _)) by done.
  rewrite outcome_Ret_bind. rewrite (proj2 (Z.leb_le _ _)) by lia. cbn [rust_assert].
  rewrite outcome_Ret_bind, (proj2 (Z.eqb_neq b 0)) by lia. cbn [negb rust_assert].
  rewrite outcome_Ret_bind. f_equal. unfold ceil.
  pose proof (Z.div_mod (a + b - 1) b ltac:(lia)). pose proof (Z.mod_pos_bound (a + b - 1) b Hb).
  pose proof (Z.div_mod (- a) b ltac:(lia)). pose proof (Z.mod_pos_bound (- a) b Hb). nia.
Qed.

Lemma ceil_nonneg a b : 0 <= a -> 0 < b -> 0 <= ceil a b.
Proof.
  intros Ha Hb. unfold ceil.
  pose proof (Z.div_mod (- a) b ltac:(lia)). pose proof (Z.mod_pos_bound (- a) b Hb). nia.
Qed.

Lemma unit_overhead_spec wei units part :
  0 <= wei < 2 ^ 128 -> 0 < units < 2 ^ 64 ->
  unit_overhead wei units part =
    if ceil wei units <? 2 ^ 64 then
      Ret (f64_to_uint 64 (f64_mul (f64_of_uint (ceil wei units)) part))
    else Panics "Integer overflow when casting to u64".
Proof.
  intros Hw Hu. unfold unit_overhead. rewrite ceil_div_u256_ceil by lia.
  rewrite outcome_Ret_bind. unfold as_u64. by destruct (ceil wei units <? 2 ^ 64).
Qed.

(** Valid parameters: 64-bit values, and batches with some capacity. *)
Record valid_params (params : FeeParamsV2) (config : FeeModelConfigV2) (gas pubdata : Z) : Prop := {
  vp_config : params_config params = Ret config;
  vp_gas : params_l1_gas_price params = Ret gas;
  vp_pubdata : params_l1_pubdata_price params = Ret pubdata;
  vp_minimal : unsigned 64 (minimal_l2_gas_price config);
  vp_overhead : unsigned 64 (batch_overhead_l1_gas config);
  vp_max_gas : 0 < max_gas_per_batch config < 2 ^ 64;
  vp_max_pubdata : 0 < max_pubdata_per_batch config < 2 ^ 64;
}.

Definition scaled (price : Z) (factor : f64) : Z :=
  f64_to_uint 64 (f64_mul (f64_of_uint price) factor).

Lemma compute_v2_spec params config gas pubdata f1 f2 :
  valid_params params config gas pubdata ->
  let overhead := scaled gas f1 * batch_overhead_l1_gas config in
  let per_gas := ceil overhead (max_gas_per_batch config) in
  let per_pubdata := ceil overhead (max_pubdata_per_batch config) in
  compute_batch_fee_model_input_v2 params f1 f2 =
    if (per_gas <? 2 ^ 64) && (per_pubdata <? 2 ^ 64) then
      Ret {| ind_l1_gas_price := scaled gas f1;
             ind_fair_l2_gas_price :=
               wrap 64 (minimal_l2_gas_price config
                        + scaled per_gas (compute_overhead_part config));
             ind_fair_pubdata_price :=
               wrap 64 (scaled pubdata f2 + scaled per_pubdata (pubdata_overhead_part config)) |}
    else Panics "Integer overflow when casting to u64".
Proof.
  intros [Hc Hg Hp _ Ho Hmg Hmp] overhead per_gas per_pubdata.
  unfold compute_batch_fee_model_input_v2. rewrite Hc, Hg, Hp, !outcome_Ret_bind. cbv zeta.
  fold (scaled gas f1) (scaled pubdata f2). fold overhead.
  pose proof (f64_to_uint_range 64 (f64_mul (f64_of_uint gas) f1) ltac:(lia)) as Hsg.
  fold (scaled gas f1) in Hsg. unfold unsigned in Ho, Hsg.
  assert (0 <= overhead < 2 ^ 128) as Hov by (unfold overhead; nia).
  rewrite !unit_overhead_spec by done. fold per_gas per_pubdata.
  destruct (per_gas <? 2 ^ 64); [|done]. cbn [andb]. rewrite outcome_Ret_bind.
  by destruct (per_pubdata <? 2 ^ 64).
Qed.

(** C34: Without scaling, and when batches are priced to cover their whole closing cost, the
    published fee input is exact: the L1 gas price is passed through, and the L2 gas and the
    pubdata price are the base prices plus the closing cost per unit, rounded up, clipped to
    the bootloader's maxima; amounts are assumed to be below 2^53, where [f64] is exact. *)
Theorem batch_fee_input_exact params config gas pubdata :
  valid_params params config gas pubdata ->
  compute_overhead_part config = f64_one -> pubdata_overhead_part config = f64_one ->
  0 <= gas < 2 ^ 53 -> 0 <= pubdata < 2 ^ 53 -> minimal_l2_gas_price config < 2 ^ 53 ->
  let overhead := gas * batch_overhead_l1_gas config in
  let per_gas := ceil overhead (max_gas_per_batch config) in
  let per_pubdata := ceil overhead (max_pubdata_per_batch config) in
  per_gas < 2 ^ 53 -> per_pubdata < 2 ^ 53 ->
  get_batch_fee_input (ParamsV2 params) =
    Ret (pubdata_independent gas
           (Z.min MAXIMUM_L2_GAS_PRICE (minimal_l2_gas_price config + per_gas))
           (Z.min MAXIMUM_PUBDATA_PRICE (pubdata + per_pubdata))).
Proof.
  intros Hv Hcp Hpp Hg Hp Hm overhead per_gas per_pubdata Hpg Hpd.
  unfold get_batch_fee_input, get_batch_fee_input_scaled.
  rewrite (compute_v2_spec params config gas pubdata) by done.
  assert (forall z, 0 <= z < 2 ^ 53 -> scaled z f64_one = z) as Hone.
  { intros z Hz. by apply scale_by_one. }
  rewrite (Hone gas), (Hone pubdata) by done. fold overhead per_gas per_pubdata.
  destruct Hv as [_ _ _ Hmin Ho Hmg Hmp]. unfold unsigned in Hmin, Ho.
  assert (0 <= overhead) as Hov by (unfold overhead; nia).
  pose proof (ceil_nonneg overhead _ Hov (proj1 Hmg)) as H1. fold per_gas in H1.
  pose proof (ceil_nonneg overhead _ Hov (proj1 Hmp)) as H2. fold per_pubdata in H2.
  rewrite !(proj2 (Z.ltb_lt _ _)) by lia. cbn [andb]. rewrite outcome_Ret_bind.
  rewrite Hcp, Hpp, !Hone by lia. rewrite !wrap_small by (unfold unsigned; lia).
  unfold clip_batch_fee_model_input_v2, pubdata_independent. cbn.
  do 3 f_equal; [destruct (Z.ltb_spec (minimal_l2_gas_price config + per_gas) MAXIMUM_L2_GAS_PRICE)
                |destruct (Z.ltb_spec (pubdata + per_pubdata) MAXIMUM_PUBDATA_PRICE)]; lia.
Qed.

(** For valid parameters, computing the scaled fee input panics exactly when the cost of
    closing a batch, per unit of gas or per byte of pubdata, exceeds 64 bits; otherwise every
    price of the result respects the bootloader's limits. *)
Theorem batch_fee_input_panics_iff params config gas pubdata f1 f2 :
  valid_params params config gas pubdata ->
  let overhead := scaled gas f1 * batch_overhead_l1_gas config in
  ((exists msg, get_batch_fee_input_scaled (ParamsV2 params) f1 f2 = Panics msg) <->
   2 ^ 64 <= ceil overhead (max_gas_per_batch config) \/
   2 ^ 64 <= ceil overhead (max_pubdata_per_batch config)) /\
  (forall input, get_batch_fee_input_scaled (ParamsV2 params) f1 f2 = Ret input ->
   l1_gas_price input = scaled gas f1 /\
   fair_l2_gas_price input <= MAXIMUM_L2_GAS_PRICE /\
   fair_pubdata_price input <= MAXIMUM_PUBDATA_PRICE).
Proof.
  intros Hv overhead. unfold get_batch_fee_input_scaled.
  rewrite (compute_v2_spec params config gas pubdata) by done. fold overhead.
  destruct (Z.ltb_spec (ceil overhead (max_gas_per_batch config)) (2 ^ 64)),
    (Z.ltb_spec (ceil overhead (max_pubdata_per_batch config)) (2 ^ 64)); cbn [andb];
    (split; [split; [intros [msg Hmsg]|intros Ho]|]); rewrite ?outcome_Ret_bind in *;
    try lia; try (by eexists); try done; try (intros input [= <-]).
  split; [done|]. unfold clip_batch_fee_model_input_v2. cbn. split; case_match; try lia;
    by apply Z.lt_le_incl, Z.ltb_lt.
Qed.
End ComputeCorrect.

(** ** Concrete inputs *)

(** Exact arithmetic on ratios of integers. *)
#[local] Instance exact_decimals : BigDecimalOps := {
  bigdecimal := Z * Z;
  scaled_price price ratio := (price * numerator ratio, denominator ratio);
  bd_to_u64 x := let '(a, b) := x in if a / b <? 2 ^ 64 then Some (a / b) else None;
  bd_exceeds_u64 x := let '(a, b) := x in (2 ^ 64 - 1) * b <? a;
}.

Definition example_params : FeeParamsV2 :=
  {| v2_config := {| minimal_l2_gas_price := 100000000; compute_overhead_part := f64_one;
                     pubdata_overhead_part := f64_one; batch_overhead_l1_gas := 800000;
                     max_gas_per_batch := 200000000; max_pubdata_per_batch := 110000 |};
     v2_l1_gas_price := 1000000000; v2_l1_pubdata_price := 17000000000;
     conversion_ratio := {| numerator := 1; denominator := 1 |} |}.

Lemma example_valid :
  valid_params example_params (v2_config example_params) 1000000000 17000000000.
Proof. split; try (vm_compute; reflexivity); split; vm_compute; (discriminate || reflexivity). Defined.

Lemma batch_fee_input_exact_witness :
  get_batch_fee_input (ParamsV2 example_params) =
    Ret (pubdata_independent 1000000000 104000000 24272727273).
Proof.
  etransitivity; [apply (batch_fee_input_exact _ _ _ _ example_valid)|vm_compute; reflexivity];
    try reflexivity; split; vm_compute; (discriminate || reflexivity).
Defined.

Lemma batch_fee_input_panics_iff_witness :
  ~ exists msg, get_batch_fee_input_scaled (ParamsV2 example_params) f64_one f64_one = Panics msg.
Proof.
  intros Hp. apply (batch_fee_input_panics_iff _ _ _ _ f64_one f64_one example_valid) in Hp.
  vm_compute in Hp. destruct Hp as [Hp|Hp]; apply Hp; reflexivity.
Defined.

Lemma stricter_is_join_witness :
  fair_pubdata_price (stricter (l1_pegged 100 5) (pubdata_independent 50 9 1000)) = 1700.
Proof.
  destruct (stricter_is_join (l1_pegged 100 5) (pubdata_independent 50 9 1000))
    as (_ & _ & Hp & _).
  - repeat split; vm_compute; discriminate.
  - repeat split; vm_compute; discriminate.
  - etransitivity; [exact Hp|vm_compute; reflexivity].
Defined.
