(* ===== verification/GasAdjuster.v ===== *)
(** * Gas adjuster

    Model of [src/core/node/fee_model/src/l1_gas_price/gas_adjuster/mod.rs]: the sliding
    window of fee samples with its cached median, and the prices derived from it. *)

From S2P Require Import Prelude Utils Float FeeModel.
Open Scope Z_scope.

(** ** Statistics *)

(** [GasStatisticsInner<T>]; fees of both instances ([u64] and [U256]) are integers. *)
Record GasStatisticsInner := {
  samples : list Z;
  median_cached : Z;
  max_samples : nat;
  last_processed_block : nat;
}.

(** [select_nth_unstable(n)]: the element at position [n] of the sorted samples. *)
Definition select_nth (l : list Z) (n : nat) : Z := nth n (stable_sort Z.leb l) 0.

Definition add_samples (s : GasStatisticsInner) (fees : list Z) : GasStatisticsInner :=
  let old_len := length (samples s) in
  let extended := samples s ++ fees in
  let processed_blocks := (length extended - old_len)%nat in
  let extra := (length extended - max_samples s)%nat in
  let window := drop extra extended in
  {| samples := window;
     median_cached := match window with
                      | [] => median_cached s
                      | _ => select_nth window (length window / 2)
                      end;
     max_samples := max_samples s;
     last_processed_block := (last_processed_block s + processed_blocks)%nat |}.

Definition statistics_new (max_samples block : nat) (fee_history : list Z) : GasStatisticsInner :=
  let statistics := add_samples {| samples := []; median_cached := 0; max_samples := max_samples;
                                   last_processed_block := 0 |} fee_history in
  {| samples := samples statistics; median_cached := median_cached statistics;
     max_samples := max_samples; last_processed_block := block |}.

Definition median (s : GasStatisticsInner) : Z := median_cached s.

Definition last_added_value (s : GasStatisticsInner) : Z :=
  default (median_cached s) (last (samples s)).

(** ** The adjuster *)

Inductive PubdataSendingMode : Type := Blobs | Calldata | Custom | RelayedL2Calldata.

Inductive L1BatchCommitmentMode : Type := Rollup | Validium.

Record GasAdjusterConfig := {
  default_priority_fee_per_gas : Z;
  max_base_fee_samples : nat;
  pricing_formula_parameter_a : f64;
  pricing_formula_parameter_b : f64;
  internal_l1_pricing_multiplier : f64;
  internal_enforced_l1_gas_price : option Z;
  internal_enforced_pubdata_price : option Z;
  cfg_max_l1_gas_price : option Z;
  num_samples_for_blob_base_fee_estimate : nat;
  internal_pubdata_pricing_multiplier : f64;
  cfg_max_blob_base_fee : option Z;
}.

Definition max_l1_gas_price (c : GasAdjusterConfig) : Z :=
  default (2 ^ 64 - 1) (cfg_max_l1_gas_price c).

Definition max_blob_base_fee (c : GasAdjusterConfig) : Z :=
  default (2 ^ 64 - 1) (cfg_max_blob_base_fee c).

Record GasAdjuster := {
  base_fee_statistics : GasStatisticsInner;
  blob_base_fee_statistics : GasStatisticsInner;
  l2_pubdata_price_statistics : GasStatisticsInner;
  config : GasAdjusterConfig;
  pubdata_sending_mode : PubdataSendingMode;
  commitment_mode : L1BatchCommitmentMode;
}.

(** One entry of the fee history of the settlement layer. *)
Record BaseFees := {
  base_fee_per_gas : Z;
  base_fee_per_blob_gas : Z;
  l2_pubdata_price : Z;
}.

(** The state change of [keep_updated]; [base_fee_history current n] is the node's answer for
    the last [n] blocks up to [current]. *)
Definition keep_updated (block_number : nat) (base_fee_history : nat -> nat -> list BaseFees)
    (g : GasAdjuster) : GasAdjuster :=
  let current_block := (block_number - 1)%nat in
  let last_processed := last_processed_block (base_fee_statistics g) in
  if (last_processed <? current_block)%nat then
    let n_blocks := (current_block - last_processed)%nat in
    let fee_data := base_fee_history current_block n_blocks in
    {| base_fee_statistics := add_samples (base_fee_statistics g) (base_fee_per_gas <$> fee_data);
       blob_base_fee_statistics :=
         add_samples (blob_base_fee_statistics g) (base_fee_per_blob_gas <$> fee_data);
       l2_pubdata_price_statistics :=
         add_samples (l2_pubdata_price_statistics g) (l2_pubdata_price <$> fee_data);
       config := config g;
       pubdata_sending_mode := pubdata_sending_mode g;
       commitment_mode := commitment_mode g |}
  else g.

Definition bound_gas_price (g : GasAdjuster) (gas_price : Z) : Z :=
  if max_l1_gas_price (config g) <? gas_price then max_l1_gas_price (config g) else gas_price.

Definition cap_pubdata_fee (g : GasAdjuster) (pubdata_fee : f64) : Z :=
  let max_blob_base_fee := max_blob_base_fee (config g) in
  match commitment_mode g with
  | Validium => 0
  | Rollup =>
      if f64_gt pubdata_fee (f64_of_uint max_blob_base_fee) then max_blob_base_fee
      else f64_to_uint 64 pubdata_fee
  end.

Section Prices.
(** [f64::powf] *)
Variable powf : f64 -> f64 -> f64.

Definition get_base_fee (g : GasAdjuster) (time_in_mempool : Z) : Z :=
  let a := pricing_formula_parameter_a (config g) in
  let b := pricing_formula_parameter_b (config g) in
  let scale_factor := f64_mul a (powf b (f64_of_uint time_in_mempool)) in
  let median := median (base_fee_statistics g) in
  f64_to_uint 64 (f64_mul (f64_of_uint median) scale_factor).

Definition get_priority_fee (g : GasAdjuster) : Z := default_priority_fee_per_gas (config g).

Definition get_next_block_minimal_base_fee (g : GasAdjuster) : Z :=
  wrap 64 (last_added_value (base_fee_statistics g) * 875) / 1000.

Definition get_blob_tx_base_fee (g : GasAdjuster) : Z :=
  wrap 64 (last_added_value (base_fee_statistics g) * 2).

Definition get_blob_tx_blob_base_fee (g : GasAdjuster) : outcome Z :=
  v ← as_u64 (last_added_value (blob_base_fee_statistics g)); Ret (wrap 64 (v * 2)).

Definition get_blob_tx_priority_fee (g : GasAdjuster) : Z := wrap 64 (get_priority_fee g * 2).

Definition estimate_effective_gas_price (g : GasAdjuster) : Z :=
  match internal_enforced_l1_gas_price (config g) with
  | Some price => price
  | None =>
      let effective_gas_price := wrap 64 (get_base_fee g 0 + get_priority_fee g) in
      let calculated_price :=
        f64_to_uint 64 (f64_mul (internal_l1_pricing_multiplier (config g))
                          (f64_of_uint effective_gas_price)) in
      bound_gas_price g calculated_price
  end.

Definition estimate_effective_pubdata_price (g : GasAdjuster) : outcome Z :=
  match internal_enforced_pubdata_price (config g) with
  | Some price => Ret price
  | None =>
      match pubdata_sending_mode g with
      | Blobs =>
          let blob_base_fee_median := median (blob_base_fee_statistics g) in
          if 2 ^ 64 - 1 <? blob_base_fee_median then Ret (max_blob_base_fee (config g))
          else
            Ret (cap_pubdata_fee g
                   (f64_mul (f64_mul (f64_of_uint blob_base_fee_median) (f64_of_uint 1))
                      (internal_pubdata_pricing_multiplier (config g))))
      | Calldata =>
          Ret (cap_pubdata_fee g
                 (f64_of_uint (wrap 64 (estimate_effective_gas_price g * L1_GAS_PER_PUBDATA_BYTE))))
      | Custom => Ret 0
      | RelayedL2Calldata =>
          median ← as_u64 (median (l2_pubdata_price_statistics g));
          Ret (cap_pubdata_fee g (f64_of_uint median))
      end
  end.
End Prices.

(** ** The window and its median *)

Definition last_n (n : nat) (l : list Z) : list Z := drop (length l - n) l.

Definition window_median (w : list Z) : Z :=
  match w with [] => 0 | _ => select_nth w (length w / 2) end.

Lemma last_n_app n l1 l2 : last_n n (last_n n l1 ++ l2) = last_n n (l1 ++ l2).
Proof.
  unfold last_n. rewrite !length_app, length_drop.
  destruct (decide (length l1 <= n)%nat) as [Hle|Hgt].
  { replace (length l1 - n)%nat with 0%nat by lia. rewrite drop_0. f_equal. lia. }
  rewrite !drop_app. rewrite drop_drop, length_drop. f_equal; f_equal; lia.
Qed.

Lemma last_n_nil n l : last_n n l = [] -> n = 0%nat \/ l = [].
Proof.
  intros H. apply (f_equal length) in H. unfold last_n in H. rewrite length_drop in H.
  destruct l; [by right|]. simpl in H. left. lia.
Qed.

(** The statistics after all the samples of a history. *)
Definition tracks_history (m block : nat) (h : list Z) (s : GasStatisticsInner) : Prop :=
  s = {| samples := last_n m h; median_cached := window_median (last_n m h); max_samples := m;
         last_processed_block := block |}.

Lemma add_samples_tracks m block h fees s :
  tracks_history m block h s ->
  tracks_history m (block + length fees) (h ++ fees) (add_samples s fees).
Proof.
  intros ->. unfold tracks_history, add_samples. cbn.
  change (drop (length (last_n m h ++ fees) - m) (last_n m h ++ fees))
    with (last_n m (last_n m h ++ fees)).
  rewrite last_n_app. rewrite length_app. f_equal; [|lia].
  unfold window_median. destruct (last_n m (h ++ fees)) eqn:Hw; [|done].
  apply last_n_nil in Hw as [->|[-> ->]%app_nil]; [|by destruct m].
  unfold last_n. by rewrite Nat.sub_0_r, drop_all.
Qed.

Lemma statistics_new_tracks m block h : tracks_history m block h (statistics_new m block h).
Proof.
  pose proof (add_samples_tracks m 0 [] h {| samples := []; median_cached := 0; max_samples := m;
                                             last_processed_block := 0 |}) as Ht.
  unfold statistics_new. unfold tracks_history in *. rewrite Ht; [done|]. unfold last_n. by destruct m.
Qed.

Lemma filter_length_app {A} (f : A -> bool) l1 l2 :
  length (List.filter f (l1 ++ l2)) = (length (List.filter f l1) + length (List.filter f l2))%nat.
Proof. by rewrite List.filter_app, length_app. Qed.

Lemma filter_length_Permutation {A} (f : A -> bool) l1 l2 :
  l1 ≡ₚ l2 -> length (List.filter f l1) = length (List.filter f l2).
Proof. induction 1; cbn; repeat case_match; cbn; lia. Qed.

(** The selected element has the rank it is selected for. *)
Lemma select_nth_rank l n :
  (n < length l)%nat ->
  let x := select_nth l n in
  x ∈ l /\ (length (List.filter (fun y => (y <? x)%Z) l) <= n)%nat /\
  (n < length (List.filter (fun y => (y <=? x)%Z) l))%nat.
Proof.
  intros Hn x. pose proof (stable_sort_Permutation Z.leb l) as Hperm.
  assert (StronglySorted (fun x y => Z.leb x y) (stable_sort Z.leb l)) as Hsort.
  { apply stable_sort_sorted; intros *; rewrite !Is_true_true, !Z.leb_le; lia. }
  set (s := stable_sort Z.leb l) in *.
  assert (s !! n = Some x) as Hx.
  { destruct (nth_lookup_or_length s n 0) as [Hs|Hs]; [exact Hs|].
    rewrite (Permutation_length Hperm) in Hs. lia. }
  split; [rewrite <- Hperm; by eapply list_elem_of_lookup_2|].
  rewrite <- !(filter_length_Permutation _ _ _ Hperm).
  rewrite <- (take_drop_middle _ _ _ Hx), !filter_length_app.
  assert (length (take n s) = n) as Ht by (rewrite length_take, (Permutation_length Hperm); lia).
  assert (forall i y, s !! i = Some y -> ((i < n)%nat -> y <= x) /\ ((n < i)%nat -> x <= y)) as Hord.
  { intros i y Hi. split; intros Hlt; apply Z.leb_le, Is_true_true;
      [apply (StronglySorted_lookup _ _ i n y x Hsort Hi Hx Hlt)
      |apply (StronglySorted_lookup _ _ n i x y Hsort Hx Hi Hlt)]. }
  split.
  - rewrite (filter_none _ (x :: drop (S n) s)).
    { pose proof (filter_length_le (fun y => (y <? x)%Z) (take n s)). cbn [length]. lia. }
    constructor; [apply Z.ltb_irrefl|]. apply Forall_lookup. intros i y Hi.
    rewrite lookup_drop in Hi. apply Z.ltb_ge. apply (Hord (S n + i)%nat y Hi). lia.
  - rewrite (filter_every _ (take n s)).
    { cbn [List.filter]. rewrite Z.leb_refl. cbn [length]. lia. }
    apply Forall_lookup. intros i y [Hi Hlt]%lookup_take_Some. apply Z.leb_le. by apply (Hord i y Hi).
Qed.

(** The gas statistics keep exactly the last [max_samples] fees, however the history is
    delivered: after an initial history and any batches of further samples, the window, the
    cached median and the last processed block are those of the whole history; and the median
    of a non-empty window is one of its fees, with at most half of the fees below it and more
    than half (rounded down) not above it. *)
Theorem gas_statistics_window m block h0 batches :
  let h := h0 ++ concat batches in
  let s := foldl add_samples (statistics_new m block h0) batches in
  let w := last_n m h in
  samples s = w /\ median s = window_median w /\
  last_processed_block s = (block + length (concat batches))%nat /\
  (w <> [] ->
   median s ∈ w /\
   (length (List.filter (fun y => (y <? median s)%Z) w) <= length w / 2)%nat /\
   (length w / 2 < length (List.filter (fun y => (y <=? median s)%Z) w))%nat).
Proof.
  assert (forall b h s, tracks_history m b h s ->
    tracks_history m (b + length (concat batches)) (h ++ concat batches) (foldl add_samples s batches))
    as Hfold.
  { induction batches as [|x batches IH]; intros b h s Hs; cbn [foldl concat].
    - rewrite app_nil_r, Nat.add_0_r. done.
    - rewrite length_app, app_assoc, Nat.add_assoc. by apply IH, add_samples_tracks. }
  intros h s w. pose proof (Hfold block h0 _ (statistics_new_tracks m block h0)) as Hs.
  fold h s in Hs. unfold tracks_history in Hs. fold w in Hs. rewrite Hs.
  split; [done|]. split; [done|]. split; [done|]. intros Hw. cbn [median median_cached].
  assert (length w <> 0%nat) as Hlen by (by intros ?%nil_length_inv).
  assert (window_median w = select_nth w (length w / 2)) as -> by (by destruct w).
  apply select_nth_rank, Nat.div_lt; lia.
Qed.

(** Unless it is enforced by the configuration, the gas price is within the configured limit. *)
Lemma estimate_effective_gas_price_bounded powf g :
  internal_enforced_l1_gas_price (config g) = None ->
  estimate_effective_gas_price powf g <= max_l1_gas_price (config g).
Proof.
  intros Hnone. unfold estimate_effective_gas_price. rewrite Hnone. unfold bound_gas_price.
  case_match eqn:Hlt; [lia|]. by apply Z.ltb_ge.
Qed.
