(* ===== verification/VmFees.v ===== *)
(** * Fees of the VMs

    Model of the fee part of [src/core/lib/multivm/src/utils/mod.rs] and of the per-version
    functions it dispatches to ([versions/*/utils/fee.rs], [vm_with_bootloader.rs] of the old
    VMs): base fee and gas per pubdata of a batch, their adjustment to the limits of a
    transaction, and the sizes of the bootloader memory. *)

From S2P Require Import Prelude Utils ProtocolVersion FeeModel.
Open Scope Z_scope.

(** ** Constants *)

Definition MAX_L2_TX_GAS_LIMIT : Z := 80000000.

(** The constants of the VMs, named by the modules that declare them. *)
Module vm_m5.
Definition USED_BOOTLOADER_MEMORY_BYTES : Z := Z.shiftl 1 24.
Definition USED_BOOTLOADER_MEMORY_WORDS : Z := USED_BOOTLOADER_MEMORY_BYTES / 32.
Definition GUARANTEED_PUBDATA_PER_L1_BATCH : Z := 4000.
Definition MAX_GAS_PER_PUBDATA_BYTE : Z := MAX_L2_TX_GAS_LIMIT / GUARANTEED_PUBDATA_PER_L1_BATCH.
End vm_m5.

Module vm_m6.
Definition USED_BOOTLOADER_MEMORY_BYTES : Z := Z.shiftl 1 24.
Definition USED_BOOTLOADER_MEMORY_WORDS : Z := USED_BOOTLOADER_MEMORY_BYTES / 32.
Definition GUARANTEED_PUBDATA_PER_L1_BATCH : Z := 4000.
Definition MAX_GAS_PER_PUBDATA_BYTE : Z := MAX_L2_TX_GAS_LIMIT / GUARANTEED_PUBDATA_PER_L1_BATCH.
End vm_m6.

Module vm_1_3_2.
Definition USED_BOOTLOADER_MEMORY_BYTES : Z := Z.shiftl 1 24.
Definition USED_BOOTLOADER_MEMORY_WORDS : Z := USED_BOOTLOADER_MEMORY_BYTES / 32.
Definition GUARANTEED_PUBDATA_PER_L1_BATCH : Z := 4000.
Definition MAX_GAS_PER_PUBDATA_BYTE : Z := MAX_L2_TX_GAS_LIMIT / GUARANTEED_PUBDATA_PER_L1_BATCH.
End vm_1_3_2.

Module vm_virtual_blocks.
Definition USED_BOOTLOADER_MEMORY_BYTES : Z := Z.shiftl 1 24.
Definition USED_BOOTLOADER_MEMORY_WORDS : Z := USED_BOOTLOADER_MEMORY_BYTES / 32.
Definition GUARANTEED_PUBDATA_PER_L1_BATCH : Z := 4000.
Definition MAX_GAS_PER_PUBDATA_BYTE : Z := MAX_L2_TX_GAS_LIMIT / GUARANTEED_PUBDATA_PER_L1_BATCH.
End vm_virtual_blocks.

Module vm_refunds_enhancement.
Definition USED_BOOTLOADER_MEMORY_BYTES : Z := Z.shiftl 1 24.
Definition USED_BOOTLOADER_MEMORY_WORDS : Z := USED_BOOTLOADER_MEMORY_BYTES / 32.
Definition GUARANTEED_PUBDATA_PER_L1_BATCH : Z := 4000.
Definition MAX_GAS_PER_PUBDATA_BYTE : Z := MAX_L2_TX_GAS_LIMIT / GUARANTEED_PUBDATA_PER_L1_BATCH.
End vm_refunds_enhancement.

Module vm_boojum_integration.
Definition USED_BOOTLOADER_MEMORY_BYTES : Z := Z.shiftl 1 24.
Definition USED_BOOTLOADER_MEMORY_WORDS : Z := USED_BOOTLOADER_MEMORY_BYTES / 32.
Definition GUARANTEED_PUBDATA_PER_L1_BATCH : Z := 4000.
Definition MAX_GAS_PER_PUBDATA_BYTE : Z := MAX_L2_TX_GAS_LIMIT / GUARANTEED_PUBDATA_PER_L1_BATCH.
End vm_boojum_integration.

Module vm_1_4_1.
Definition USED_BOOTLOADER_MEMORY_BYTES : Z := 24000000.
Definition USED_BOOTLOADER_MEMORY_WORDS : Z := USED_BOOTLOADER_MEMORY_BYTES / 32.
Definition GUARANTEED_PUBDATA_PER_L1_BATCH : Z := 2500.
Definition MAX_GAS_PER_PUBDATA_BYTE : Z := MAX_L2_TX_GAS_LIMIT / GUARANTEED_PUBDATA_PER_L1_BATCH.
End vm_1_4_1.

Module vm_1_4_2.
Definition USED_BOOTLOADER_MEMORY_BYTES : Z := 30000000.
Definition USED_BOOTLOADER_MEMORY_WORDS : Z := USED_BOOTLOADER_MEMORY_BYTES / 32.
Definition GUARANTEED_PUBDATA_PER_L1_BATCH : Z := 2500.
Definition MAX_GAS_PER_PUBDATA_BYTE : Z := MAX_L2_TX_GAS_LIMIT / GUARANTEED_PUBDATA_PER_L1_BATCH.
End vm_1_4_2.

Module vm_latest.
Inductive MultiVMSubversion : Type := SmallBootloaderMemory | IncreasedBootloaderMemory.

Definition get_used_bootloader_memory_bytes (subversion : MultiVMSubversion) : Z :=
  match subversion with
  | SmallBootloaderMemory => 59000000
  | IncreasedBootloaderMemory => 63800000
  end.

Definition get_used_bootloader_memory_words (subversion : MultiVMSubversion) : Z :=
  get_used_bootloader_memory_bytes subversion / 32.

Definition MAX_GAS_PER_PUBDATA_BYTE : Z := 50000.
End vm_latest.

(** ** Dispatch over the versions *)

Definition get_max_gas_per_pubdata_byte (version : VmVersion) : Z :=
  match version with
  | M5WithRefunds | M5WithoutRefunds => vm_m5.MAX_GAS_PER_PUBDATA_BYTE
  | M6Initial | M6BugWithCompressionFixed => vm_m6.MAX_GAS_PER_PUBDATA_BYTE
  | Vm1_3_2 => vm_1_3_2.MAX_GAS_PER_PUBDATA_BYTE
  | VmVirtualBlocks => vm_virtual_blocks.MAX_GAS_PER_PUBDATA_BYTE
  | VmVirtualBlocksRefundsEnhancement => vm_refunds_enhancement.MAX_GAS_PER_PUBDATA_BYTE
  | VmBoojumIntegration => vm_boojum_integration.MAX_GAS_PER_PUBDATA_BYTE
  | Vm1_4_1 => vm_1_4_1.MAX_GAS_PER_PUBDATA_BYTE
  | Vm1_4_2 => vm_1_4_2.MAX_GAS_PER_PUBDATA_BYTE
  | Vm1_5_0SmallBootloaderMemory | Vm1_5_0IncreasedBootloaderMemory =>
      vm_latest.MAX_GAS_PER_PUBDATA_BYTE
  end.

Definition get_used_bootloader_memory_bytes (version : VmVersion) : Z :=
  match version with
  | M5WithRefunds | M5WithoutRefunds => vm_m5.USED_BOOTLOADER_MEMORY_BYTES
  | M6Initial | M6BugWithCompressionFixed => vm_m6.USED_BOOTLOADER_MEMORY_BYTES
  | Vm1_3_2 => vm_1_3_2.USED_BOOTLOADER_MEMORY_BYTES
  | VmVirtualBlocks => vm_virtual_blocks.USED_BOOTLOADER_MEMORY_BYTES
  | VmVirtualBlocksRefundsEnhancement => vm_refunds_enhancement.USED_BOOTLOADER_MEMORY_BYTES
  | VmBoojumIntegration => vm_boojum_integration.USED_BOOTLOADER_MEMORY_BYTES
  | Vm1_4_1 => vm_1_4_1.USED_BOOTLOADER_MEMORY_BYTES
  | Vm1_4_2 => vm_1_4_2.USED_BOOTLOADER_MEMORY_BYTES
  | Vm1_5_0SmallBootloaderMemory =>
      vm_latest.get_used_bootloader_memory_bytes vm_latest.SmallBootloaderMemory
  | Vm1_5_0IncreasedBootloaderMemory =>
      vm_latest.get_used_bootloader_memory_bytes vm_latest.IncreasedBootloaderMemory
  end.

Definition get_used_bootloader_memory_words (version : VmVersion) : Z :=
  match version with
  | M5WithRefunds | M5WithoutRefunds => vm_m5.USED_BOOTLOADER_MEMORY_WORDS
  | M6Initial | M6BugWithCompressionFixed => vm_m6.USED_BOOTLOADER_MEMORY_WORDS
  | Vm1_3_2 => vm_1_3_2.USED_BOOTLOADER_MEMORY_WORDS
  | VmVirtualBlocks => vm_virtual_blocks.USED_BOOTLOADER_MEMORY_WORDS
  | VmVirtualBlocksRefundsEnhancement => vm_refunds_enhancement.USED_BOOTLOADER_MEMORY_WORDS
  | VmBoojumIntegration => vm_boojum_integration.USED_BOOTLOADER_MEMORY_WORDS
  | Vm1_4_1 => vm_1_4_1.USED_BOOTLOADER_MEMORY_WORDS
  | Vm1_4_2 => vm_1_4_2.USED_BOOTLOADER_MEMORY_WORDS
  | Vm1_5_0SmallBootloaderMemory =>
      vm_latest.get_used_bootloader_memory_bytes vm_latest.SmallBootloaderMemory
  | Vm1_5_0IncreasedBootloaderMemory =>
      vm_latest.get_used_bootloader_memory_bytes vm_latest.IncreasedBootloaderMemory
  end.

(** ** Base fee and gas per pubdata *)

(** The old VMs: prices follow the L1 gas price. *)
Definition eth_price_per_pubdata_byte (l1_gas_price : Z) : Z :=
  wrap 64 (l1_gas_price * L1_GAS_PER_PUBDATA_BYTE).

Definition base_fee_to_gas_per_pubdata (l1_gas_price base_fee : Z) : Z :=
  ceil_div (eth_price_per_pubdata_byte l1_gas_price) base_fee.

Definition pegged_base_fee_and_gas_per_pubdata (MAX_GAS_PER_PUBDATA_BYTE : Z)
    (fee_input : L1PeggedBatchFeeModelInput) : Z * Z :=
  let price := eth_price_per_pubdata_byte (pegged_l1_gas_price fee_input) in
  let base_fee := Z.max (pegged_fair_l2_gas_price fee_input)
                    (ceil_div price MAX_GAS_PER_PUBDATA_BYTE) in
  (base_fee, base_fee_to_gas_per_pubdata (pegged_l1_gas_price fee_input) base_fee).

(** VMs since 1.4.1: the price of pubdata is independent. *)
Definition independent_base_fee_and_gas_per_pubdata (MAX_GAS_PER_PUBDATA_BYTE : Z)
    (fee_input : PubdataIndependentBatchFeeModelInput) : Z * Z :=
  let fair_pubdata_price := ind_fair_pubdata_price fee_input in
  let base_fee := Z.max (ind_fair_l2_gas_price fee_input)
                    (ceil_div fair_pubdata_price MAX_GAS_PER_PUBDATA_BYTE) in
  (base_fee, ceil_div fair_pubdata_price base_fee).

Definition derive_base_fee_and_gas_per_pubdata (batch_fee_input : BatchFeeInput)
    (vm_version : VmVersion) : outcome (Z * Z) :=
  match vm_version with
  | M5WithRefunds | M5WithoutRefunds =>
      input ← into_l1_pegged batch_fee_input;
      Ret (pegged_base_fee_and_gas_per_pubdata vm_m5.MAX_GAS_PER_PUBDATA_BYTE input)
  | M6Initial | M6BugWithCompressionFixed =>
      input ← into_l1_pegged batch_fee_input;
      Ret (pegged_base_fee_and_gas_per_pubdata vm_m6.MAX_GAS_PER_PUBDATA_BYTE input)
  | Vm1_3_2 =>
      input ← into_l1_pegged batch_fee_input;
      Ret (pegged_base_fee_and_gas_per_pubdata vm_1_3_2.MAX_GAS_PER_PUBDATA_BYTE input)
  | VmVirtualBlocks =>
      input ← into_l1_pegged batch_fee_input;
      Ret (pegged_base_fee_and_gas_per_pubdata vm_virtual_blocks.MAX_GAS_PER_PUBDATA_BYTE input)
  | VmVirtualBlocksRefundsEnhancement =>
      input ← into_l1_pegged batch_fee_input;
      Ret (pegged_base_fee_and_gas_per_pubdata vm_refunds_enhancement.MAX_GAS_PER_PUBDATA_BYTE input)
  | VmBoojumIntegration =>
      input ← into_l1_pegged batch_fee_input;
      Ret (pegged_base_fee_and_gas_per_pubdata vm_boojum_integration.MAX_GAS_PER_PUBDATA_BYTE input)
  | Vm1_4_1 =>
      Ret (independent_base_fee_and_gas_per_pubdata vm_1_4_1.MAX_GAS_PER_PUBDATA_BYTE
             (into_pubdata_independent batch_fee_input))
  | Vm1_4_2 =>
      Ret (independent_base_fee_and_gas_per_pubdata vm_1_4_2.MAX_GAS_PER_PUBDATA_BYTE
             (into_pubdata_independent batch_fee_input))
  | Vm1_5_0SmallBootloaderMemory | Vm1_5_0IncreasedBootloaderMemory =>
      Ret (independent_base_fee_and_gas_per_pubdata vm_latest.MAX_GAS_PER_PUBDATA_BYTE
             (into_pubdata_independent batch_fee_input))
  end.

(** [get_batch_base_fee], of the fee input and the enforced base fee of the batch. *)
Definition get_batch_base_fee (fee_input : BatchFeeInput) (enforced_base_fee : option Z)
    (vm_version : VmVersion) : outcome Z :=
  match enforced_base_fee with
  | Some base_fee => Ret base_fee
  | None => '(base_fee, _) ← derive_base_fee_and_gas_per_pubdata fee_input vm_version; Ret base_fee
  end.

(** Subtraction and multiplication of [U256], which panic when they overflow. *)
Definition u256_sub (a b : Z) : outcome Z :=
  if b <=? a then Ret (a - b) else Panics "arithmetic operation overflow".

Definition u256_mul (a b : Z) : outcome Z :=
  if a * b <? 2 ^ 256 then Ret (a * b) else Panics "arithmetic operation overflow".

Definition adjust_pubdata_price_for_tx (batch_fee_input : BatchFeeInput)
    (tx_gas_per_pubdata_limit : Z) (max_base_fee : option Z) (vm_version : VmVersion) :
    outcome BatchFeeInput :=
  let max_base_fee := default (2 ^ 256 - 1) max_base_fee in
  let desired_gas_per_pubdata :=
    Z.min tx_gas_per_pubdata_limit (get_max_gas_per_pubdata_byte vm_version) in
  '(current_base_fee, current_gas_per_pubdata) ←
    derive_base_fee_and_gas_per_pubdata batch_fee_input vm_version;
  if (current_gas_per_pubdata <=? desired_gas_per_pubdata) && (current_base_fee <=? max_base_fee)
  then Ret batch_fee_input
  else
    match batch_fee_input with
    | L1Pegged fee_input =>
        let current := pegged_fair_l2_gas_price fee_input in
        let fair_l2_gas_price := if max_base_fee <? current then max_base_fee else current in
        d ← u256_sub desired_gas_per_pubdata 1;
        product ← u256_mul fair_l2_gas_price d;
        new_l1_gas_price ← as_u64 (product / 17);
        fair_l2_gas_price ← as_u64 fair_l2_gas_price;
        Ret (L1Pegged {| pegged_l1_gas_price := new_l1_gas_price;
                         pegged_fair_l2_gas_price := fair_l2_gas_price |})
    | PubdataIndependent fee_input =>
        let current := ind_fair_l2_gas_price fee_input in
        let fair_l2_gas_price := if max_base_fee <? current then max_base_fee else current in
        d ← u256_sub desired_gas_per_pubdata 1;
        product ← u256_mul fair_l2_gas_price d;
        new_fair_pubdata_price ← as_u64 product;
        fair_l2_gas_price ← as_u64 fair_l2_gas_price;
        Ret (PubdataIndependent {| ind_fair_pubdata_price := new_fair_pubdata_price;
                                   ind_fair_l2_gas_price := fair_l2_gas_price;
                                   ind_l1_gas_price := ind_l1_gas_price fee_input |})
    end.

(** ** Lemmas *)

Lemma ceil_div_le a b c : 0 <= a -> 0 < b -> ceil_div a b <= c <-> a <= b * c.
Proof. intros Ha Hb. destruct (ceil_div_spec a b Ha Hb) as [Hc|[-> ->]]; nia. Qed.

Lemma ceil_div_nonneg a b : 0 <= a -> 0 <= b -> 0 <= ceil_div a b.
Proof.
  intros Ha Hb. unfold ceil_div. destruct (Z.eqb_spec a 0); [lia|].
  pose proof (Z.div_pos (a - 1) b). destruct (Z.eq_dec b 0) as [->|]; [rewrite Z.div_0_r; lia|lia].
Qed.

(** The fees for a price of gas and of pubdata. *)
Definition fees (max_gas_per_pubdata gas_price pubdata_price : Z) : Z * Z :=
  let base_fee := Z.max gas_price (ceil_div pubdata_price max_gas_per_pubdata) in
  (base_fee, ceil_div pubdata_price base_fee).

(** VMs that only take fee inputs pegged to the L1 gas price. *)
Definition needs_l1_pegged (v : VmVersion) : bool :=
  match v with
  | Vm1_4_1 | Vm1_4_2 | Vm1_5_0SmallBootloaderMemory | Vm1_5_0IncreasedBootloaderMemory => false
  | _ => true
  end.

Definition is_pegged (b : BatchFeeInput) : bool :=
  match b with L1Pegged _ => true | PubdataIndependent _ => false end.

Lemma derive_fees b v :
  is_pegged b || negb (needs_l1_pegged v) = true ->
  derive_base_fee_and_gas_per_pubdata b v =
  Ret (fees (get_max_gas_per_pubdata_byte v) (fair_l2_gas_price b) (fair_pubdata_price b)).
Proof. by destruct b, v. Qed.

Lemma derive_panics b v :
  is_pegged b || negb (needs_l1_pegged v) = false ->
  exists msg, derive_base_fee_and_gas_per_pubdata b v = Panics msg.
Proof. destruct b, v; try done; by eexists. Qed.

Lemma max_gas_per_pubdata_pos v : 0 < get_max_gas_per_pubdata_byte v.
Proof. by destruct v. Qed.

Lemma fees_spec m g p base gpp :
  0 < m -> 0 <= g -> 0 <= p -> fees m g p = (base, gpp) ->
  g <= base /\ 0 <= gpp <= m /\ p <= gpp * base /\
  (forall k, 0 <= k -> p <= k * base -> gpp <= k) /\
  (forall b, g <= b -> p <= m * b -> base <= b).
Proof.
  intros Hm Hg Hp. unfold fees. intros [= <- <-].
  pose proof (proj1 (ceil_div_le p m (ceil_div p m) Hp Hm) ltac:(lia)) as Hc.
  set (c := ceil_div p m) in *. destruct (Z.eq_dec p 0) as [->|Hp0].
  - assert (c = 0) as -> by done. replace (ceil_div 0 (Z.max g 0)) with 0 by done.
    split_and!; intros; lia.
  - assert (0 < Z.max g c) as Hb by nia. pose proof (ceil_div_nonneg p (Z.max g c) Hp ltac:(lia)).
    split_and!; [lia|done| | | |].
    + apply ceil_div_le; nia.
    + pose proof (proj1 (ceil_div_le p (Z.max g c) _ Hp Hb) (Z.le_refl _)). nia.
    + intros k Hk Hle. apply ceil_div_le; nia.
    + intros b Hgb Hle. apply Z.max_lub; [done|]. by apply ceil_div_le.
Qed.

(** Prices of at most [g * (d - 1)] for pubdata give at most [d] gas per byte at base fee [g]. *)
Lemma fees_within m g d p :
  0 <= g -> 1 <= d <= m -> 0 <= p <= g * (d - 1) ->
  exists gpp, fees m g p = (g, gpp) /\ 0 <= gpp <= d - 1.
Proof.
  intros Hg Hd Hp. unfold fees. assert (ceil_div p m <= g) as Hc by (apply ceil_div_le; nia).
  rewrite Z.max_l by done. eexists. split; [done|].
  split; [apply ceil_div_nonneg; lia|]. destruct (Z.eq_dec g 0) as [->|Hg0].
  - replace p with 0 by lia. unfold ceil_div. cbn. lia.
  - apply ceil_div_le; nia.
Qed.

Definition wf_fee_input (b : BatchFeeInput) : Prop :=
  unsigned 64 (fair_l2_gas_price b) /\ unsigned 64 (fair_pubdata_price b) /\
  unsigned 64 (l1_gas_price b).

(** ** Correctness *)

(** The base fee is at least the fair gas price, a byte of pubdata costs at most the maximal
    gas per byte of the version, and the gas charged for it pays for its price.  Both numbers are
    minimal with these properties. *)
Theorem base_fee_compensates_pubdata b v base gpp :
  wf_fee_input b -> derive_base_fee_and_gas_per_pubdata b v = Ret (base, gpp) ->
  fair_l2_gas_price b <= base /\ 0 <= gpp <= get_max_gas_per_pubdata_byte v /\
  fair_pubdata_price b <= gpp * base /\
  (forall k, 0 <= k -> fair_pubdata_price b <= k * base -> gpp <= k) /\
  (forall base', fair_l2_gas_price b <= base' ->
     fair_pubdata_price b <= get_max_gas_per_pubdata_byte v * base' -> base <= base').
Proof.
  intros ([Hg _] & [Hp _] & _) Hd. pose proof (max_gas_per_pubdata_pos v) as Hm.
  destruct (is_pegged b || negb (needs_l1_pegged v)) eqn:Hk.
  - rewrite derive_fees in Hd by done. apply fees_spec; [done..|]. congruence.
  - destruct (derive_panics b v Hk) as [msg Hpan]. congruence.
Qed.

(** The limits of a transaction on a batch. *)
Definition within_limits (b : BatchFeeInput) (limit : Z) (max_base_fee : option Z) (v : VmVersion) :
    Prop :=
  exists base gpp, derive_base_fee_and_gas_per_pubdata b v = Ret (base, gpp) /\
    0 <= gpp <= limit /\ gpp <= get_max_gas_per_pubdata_byte v /\
    base <= default (2 ^ 256 - 1) max_base_fee.

(** The price that the adjustment computes (scaled down to the L1 gas price where pegged). *)
Definition adjusted_price (b : BatchFeeInput) (limit : Z) (max_base_fee : option Z) (v : VmVersion) : Z :=
  let g := Z.min (fair_l2_gas_price b) (default (2 ^ 256 - 1) max_base_fee) in
  let product := g * (Z.min limit (get_max_gas_per_pubdata_byte v) - 1) in
  if is_pegged b then product / 17 else product.

Definition adjusted (b : BatchFeeInput) (gas_price price : Z) : BatchFeeInput :=
  match b with
  | L1Pegged _ =>
      L1Pegged {| pegged_l1_gas_price := price; pegged_fair_l2_gas_price := gas_price |}
  | PubdataIndependent input =>
      PubdataIndependent {| ind_fair_pubdata_price := price; ind_fair_l2_gas_price := gas_price;
                            ind_l1_gas_price := ind_l1_gas_price input |}
  end.

Lemma within_limits_iff b limit max_base_fee v :
  wf_fee_input b -> is_pegged b || negb (needs_l1_pegged v) = true ->
  let '(base, gpp) := fees (get_max_gas_per_pubdata_byte v) (fair_l2_gas_price b) (fair_pubdata_price b) in
  within_limits b limit max_base_fee v <->
  (gpp <=? Z.min limit (get_max_gas_per_pubdata_byte v))
    && (base <=? default (2 ^ 256 - 1) max_base_fee) = true.
Proof.
  intros ([Hg _] & [Hp _] & _) Hk. destruct (fees _ _ _) as [base gpp] eqn:Hf.
  destruct (fees_spec _ _ _ _ _ (max_gas_per_pubdata_pos v) Hg Hp Hf) as (_ & Hgpp & _).
  unfold within_limits. rewrite derive_fees, Hf by done.
  rewrite andb_true_iff, !Z.leb_le. split.
  - intros (base' & gpp' & [= <- <-] & ? & ? & ?). lia.
  - intros [? ?]. exists base, gpp. split; [done|]. lia.
Qed.

Lemma adjust_eq b limit max_base_fee v :
  wf_fee_input b -> unsigned 256 limit -> unsigned 256 (default (2 ^ 256 - 1) max_base_fee) ->
  is_pegged b || negb (needs_l1_pegged v) = true ->
  adjust_pubdata_price_for_tx b limit max_base_fee v =
  let m := get_max_gas_per_pubdata_byte v in
  let f := fees m (fair_l2_gas_price b) (fair_pubdata_price b) in
  if (f.2 <=? Z.min limit m) && (f.1 <=? default (2 ^ 256 - 1) max_base_fee) then Ret b
  else if limit =? 0 then Panics "arithmetic operation overflow"
  else if 2 ^ 64 <=? adjusted_price b limit max_base_fee v
       then Panics "Integer overflow when casting to u64"
       else Ret (adjusted b (Z.min (fair_l2_gas_price b) (default (2 ^ 256 - 1) max_base_fee))
                   (adjusted_price b limit max_base_fee v)).
Proof.
  intros ([Hg Hg'] & _ & _) [Hl _] [Hmx _] Hk. unfold adjust_pubdata_price_for_tx.
  rewrite derive_fees by done. cbn [mbind outcome_bind]. cbn zeta.
  destruct (fees _ _ _) as [base gpp]. cbn [fst snd]. case_match; [done|].
  set (mx := default (2 ^ 256 - 1) max_base_fee) in *.
  pose proof (max_gas_per_pubdata_pos v) as Hm. assert (get_max_gas_per_pubdata_byte v <= 50000) by (by destruct v).
  assert (forall x y, (if mx <? x then mx else x) = y -> y = Z.min x mx) as Hmin
    by (intros x y <-; destruct (Z.ltb_spec mx x); lia).
  unfold adjusted_price, u256_sub, u256_mul, as_u64. fold mx.
  destruct (Z.eqb_spec limit 0) as [->|Hl0].
  { rewrite (Z.min_l 0) by lia. by destruct b. }
  set (d := Z.min limit (get_max_gas_per_pubdata_byte v)) in *.
  assert (1 <= d <= 50000) as Hd by lia. rewrite (proj2 (Z.leb_le 1 d)) by lia.
  assert (forall x, 0 <= x < 2 ^ 64 -> Z.min x mx * (d - 1) < 2 ^ 256) as Hprod.
  { intros x Hx. eapply Z.le_lt_trans; [apply (Z.mul_le_mono_nonneg _ (2 ^ 64) _ 50000)|]; lia. }
  destruct b as [input|input]; cbn [fair_l2_gas_price is_pegged mbind outcome_bind adjusted] in *;
    rewrite (Hmin _ _ eq_refl), (proj2 (Z.ltb_lt (Z.min _ mx * (d - 1)) _)) by (apply Hprod; lia);
    cbn [mbind outcome_bind]; [set (x := _ / 17)|set (x := _ * (d - 1))];
    rewrite (proj2 (Z.ltb_lt (Z.min _ mx) _)) by lia;
    destruct (Z.ltb_spec x (2 ^ 64)), (Z.leb_spec (2 ^ 64) x); try lia; done.
Qed.

Lemma adjusted_within b limit max_base_fee v :
  wf_fee_input b -> unsigned 256 limit -> unsigned 256 (default (2 ^ 256 - 1) max_base_fee) ->
  is_pegged b || negb (needs_l1_pegged v) = true -> 1 <= limit ->
  adjusted_price b limit max_base_fee v < 2 ^ 64 ->
  within_limits (adjusted b (Z.min (fair_l2_gas_price b) (default (2 ^ 256 - 1) max_base_fee))
                   (adjusted_price b limit max_base_fee v)) limit max_base_fee v.
Proof.
  intros ([Hg Hg'] & _ & _) [Hl _] [Hmx _] Hk Hl1 Hlt.
  pose proof (max_gas_per_pubdata_pos v) as Hm.
  set (mx := default (2 ^ 256 - 1) max_base_fee) in *. set (g := Z.min _ mx).
  set (d := Z.min limit (get_max_gas_per_pubdata_byte v)).
  assert (0 <= fair_pubdata_price (adjusted b g (adjusted_price b limit max_base_fee v)) <= g * (d - 1))
    as Hp.
  { unfold adjusted_price. fold mx g d. assert (0 <= g * (d - 1)) by nia.
    destruct b; cbn; [|lia]. unfold L1_GAS_PER_PUBDATA_BYTE, wrap. set (q := g * (d - 1)) in *.
    assert (0 <= q / 17 * 17 <= q) by div_lia.
    pose proof (Z.mod_pos_bound (q / 17 * 17) (2 ^ 64)).
    pose proof (Z.mod_le (q / 17 * 17) (2 ^ 64)). lia. }
  destruct (fees_within (get_max_gas_per_pubdata_byte v) g d _ ltac:(lia) ltac:(lia) Hp)
    as (gpp & Hf & Hgpp).
  exists g, gpp. rewrite derive_fees by (by destruct b).
  replace (fair_l2_gas_price (adjusted b g _)) with g by (by destruct b). rewrite Hf.
  split; [done|]. lia.
Qed.

(** C35: If the adjustment of the fees to a transaction returns, the adjusted fees stay within the
    transaction's limits on gas per pubdata and on the base fee, and the gas price is not raised;
    fees that are within the limits are not changed.  It panics exactly if the fee input does not
    fit the version, or if the limits are exceeded and the limit is zero or the adjusted price
    does not fit 64 bits. *)
Theorem adjusted_fees_within_limits b limit max_base_fee v :
  wf_fee_input b -> unsigned 256 limit -> unsigned 256 (default (2 ^ 256 - 1) max_base_fee) ->
  (forall b', adjust_pubdata_price_for_tx b limit max_base_fee v = Ret b' ->
     within_limits b' limit max_base_fee v /\ fair_l2_gas_price b' <= fair_l2_gas_price b /\
     (within_limits b limit max_base_fee v -> b' = b)) /\
  ((exists msg, adjust_pubdata_price_for_tx b limit max_base_fee v = Panics msg) <->
   is_pegged b || negb (needs_l1_pegged v) = false \/
   ~ within_limits b limit max_base_fee v /\
   (limit = 0 \/ 2 ^ 64 <= adjusted_price b limit max_base_fee v)).
Proof.
  intros Hb Hl Hm. destruct (is_pegged b || negb (needs_l1_pegged v)) eqn:Hk.
  2: { destruct (derive_panics b v Hk) as [msg Hd]. unfold adjust_pubdata_price_for_tx.
       rewrite Hd. cbn. split; [done|]. split; [by left|by eexists]. }
  pose proof (within_limits_iff b limit max_base_fee v Hb Hk) as Hw.
  rewrite (adjust_eq b limit max_base_fee v Hb Hl Hm Hk). cbn zeta in Hw |- *.
  destruct (fees _ _ _) as [base gpp] eqn:Hf. cbn [fst snd] in *.
  destruct ((gpp <=? _) && (base <=? _)) eqn:Hin.
  - split; [intros b' [= <-]; split_and!; [by apply Hw|done|done]|].
    split; [by intros [msg [=]]|]. intros [[=]|[Hn _]]. destruct Hn. by apply Hw.
  - assert (~ within_limits b limit max_base_fee v) as Hn by (rewrite Hw; congruence).
    destruct (Z.eqb_spec limit 0) as [->|Hl0]; [split; [done|]; split; [by right; auto|by eexists]|].
    destruct (Z.leb_spec (2 ^ 64) (adjusted_price b limit max_base_fee v)) as [Hov|Hok].
    + split; [done|]. split; [by right; auto|by eexists].
    + split; [|split; [by intros [msg [=]]|intros [[=]|[_ [?|?]]]; lia]].
      intros b' [= <-]. split; [|split; [|done]].
      * apply adjusted_within; [done..|unfold unsigned in Hl; lia|done].
      * destruct b; cbn; lia.
Qed.

(** C36: The number of words of the used bootloader memory is the number of its bytes divided by
    32 for every version before 1.5.0.  For both versions of 1.5.0 the function returns the
    number of bytes, which is 32 times the number of words of the VM itself. *)
Theorem bootloader_memory_words version :
  match version with
  | Vm1_5_0SmallBootloaderMemory | Vm1_5_0IncreasedBootloaderMemory =>
      exists subversion,
        get_used_bootloader_memory_bytes version = vm_latest.get_used_bootloader_memory_bytes subversion /\
        get_used_bootloader_memory_words version = get_used_bootloader_memory_bytes version /\
        get_used_bootloader_memory_words version = 32 * vm_latest.get_used_bootloader_memory_words subversion
  | _ => 32 * get_used_bootloader_memory_words version = get_used_bootloader_memory_bytes version
  end.
Proof.
  destruct version; try reflexivity.
  - by exists vm_latest.SmallBootloaderMemory.
  - by exists vm_latest.IncreasedBootloaderMemory.
Qed.

(** ** Instances *)

Definition sample_input : BatchFeeInput := pubdata_independent 20 100 1000000.

Lemma sample_input_wf : wf_fee_input sample_input.
Proof. split_and!; split; vm_compute; done. Qed.

Lemma base_fee_compensates_pubdata_witness :
  derive_base_fee_and_gas_per_pubdata sample_input Vm1_4_2 = Ret (100, 10000) /\
  fair_pubdata_price sample_input <= 10000 * 100.
Proof.
  assert (derive_base_fee_and_gas_per_pubdata sample_input Vm1_4_2 = Ret (100, 10000)) as Hd
    by (vm_compute; reflexivity).
  split; [exact Hd|]. apply (base_fee_compensates_pubdata _ _ _ _ sample_input_wf Hd).
Defined.

Lemma adjusted_fees_within_limits_witness :
  adjust_pubdata_price_for_tx sample_input 800 (Some 90) Vm1_4_2 =
    Ret (pubdata_independent 20 90 71910) /\
  within_limits (pubdata_independent 20 90 71910) 800 (Some 90) Vm1_4_2 /\
  exists msg, adjust_pubdata_price_for_tx sample_input 0 None Vm1_4_2 = Panics msg.
Proof.
  assert (adjust_pubdata_price_for_tx sample_input 800 (Some 90) Vm1_4_2 =
          Ret (pubdata_independent 20 90 71910)) as Ha by (vm_compute; reflexivity).
  split; [exact Ha|]. split.
  - refine (proj1 (proj1 (adjusted_fees_within_limits sample_input 800 (Some 90) Vm1_4_2
              sample_input_wf _ _) _ Ha)); split; vm_compute; done.
  - eexists. vm_compute. reflexivity.
Defined.
