(* ===== verification/Mempool.v ===== *)
(** * Mempool

    Model of [src/core/lib/mempool/src/types.rs] and [mempool_store.rs]: pending L1
    operations in the order of their ids, pending L2 transactions grouped by account and
    ordered by nonce, and the priority queue of the next transaction of every account. *)

From S2P Require Import Prelude Utils ProtocolVersion Transactions FeeModel.
Open Scope Z_scope.

(** ** types.rs *)

Record MempoolScore := {
  score_account : Z;
  received_at_ms : Z;
  fee_data : Fee;
}.

#[export] Instance MempoolScore_eq_dec : EqDecision MempoolScore.
Proof. solve_decision. Defined.

Record L2TxFilter := {
  fee_input : BatchFeeInput;
  fee_per_gas : Z;
  gas_per_pubdata : Z;
}.

Definition matches_filter (s : MempoolScore) (filter : L2TxFilter) : bool :=
  (fee_per_gas filter <=? fee_max_fee_per_gas (fee_data s))
  && (gas_per_pubdata filter <=? fee_gas_per_pubdata_limit (fee_data s)).

(** [Ord for MempoolScore]: earlier transactions are greater; fees are not compared. *)
Definition score_cmp (s1 s2 : MempoolScore) : comparison :=
  match CompOpp (received_at_ms s1 ?= received_at_ms s2) with
  | Eq => score_account s1 ?= score_account s2
  | ordering => ordering
  end.

Record InsertionMetadata := {
  new_score : option MempoolScore;
  previous_score : option MempoolScore;
  is_new : bool;
}.

Record AccountTransactions := {
  transactions : gmap Z L2Tx;
  account_nonce : Z;
}.

Definition account_new (nonce : Z) : AccountTransactions :=
  {| transactions := ∅; account_nonce := nonce |}.

Definition score_for_transaction (t : L2Tx) : MempoolScore :=
  {| score_account := l2tx_initiator_account t;
     received_at_ms := l2_received_timestamp_ms t;
     fee_data := l2_fee (l2_common_data t) |}.

Definition account_insert (a : AccountTransactions) (transaction : L2Tx) :
    AccountTransactions * InsertionMetadata :=
  let nonce := l2_nonce (l2_common_data transaction) in
  if nonce <? account_nonce a then
    (a, {| new_score := None; previous_score := None; is_new := false |})
  else
    let score := score_for_transaction transaction in
    let previous := score_for_transaction <$> transactions a !! nonce in
    ({| transactions := <[nonce := transaction]> (transactions a);
        account_nonce := account_nonce a |},
     {| new_score := if nonce =? account_nonce a then Some score else None;
        previous_score := if nonce =? account_nonce a then previous else None;
        is_new := bool_decide (previous = None) |}).

Definition account_next (a : AccountTransactions) :
    outcome (AccountTransactions * (L2Tx * option MempoolScore)) :=
  transaction ← expect (transactions a !! account_nonce a) "missing transaction in mempool";
  let txs := delete (account_nonce a) (transactions a) in
  let nonce := wrap 32 (account_nonce a + 1) in
  Ret ({| transactions := txs; account_nonce := nonce |},
       (transaction, score_for_transaction <$> txs !! nonce)).

Definition account_reset (a : AccountTransactions) (transaction : Transaction) :
    outcome (AccountTransactions * option MempoolScore) :=
  tx_nonce ← expect (nonce transaction) "nonce is not set for L2 transaction";
  Ret ({| transactions := transactions a; account_nonce := Z.min (account_nonce a) tx_nonce |},
       score_for_transaction <$> transactions a !! wrap 32 (tx_nonce + 1)).

Definition account_len (a : AccountTransactions) : Z := Z.of_nat (size (transactions a)).

(** ** [BTreeSet<MempoolScore>], as an ascending list *)

Fixpoint bt_insert (s : MempoolScore) (q : list MempoolScore) : list MempoolScore :=
  match q with
  | [] => [s]
  | x :: q' =>
      match score_cmp s x with
      | Lt => s :: q
      | Eq => q
      | Gt => x :: bt_insert s q'
      end
  end.

Definition bt_remove (s : MempoolScore) (q : list MempoolScore) : list MempoolScore :=
  List.filter (fun x => match score_cmp x s with Eq => false | _ => true end) q.

(** The elements below the key stay, the others are returned. *)
Definition bt_split_off (s : MempoolScore) (q : list MempoolScore) :
    list MempoolScore * list MempoolScore :=
  List.partition (fun x => match score_cmp x s with Lt => true | _ => false end) q.

(** [.iter().rfind(f)] *)
Definition rfind (f : MempoolScore -> bool) (q : list MempoolScore) : option MempoolScore :=
  List.find f (reverse q).

(** ** mempool_store.rs *)

Record MempoolInfo := {
  info_stashed_accounts : list Z;
  info_purged_accounts : list Z;
}.

Record MempoolStats := {
  l1_transaction_count : Z;
  l2_transaction_count : Z;
  l2_priority_queue_size : Z;
}.

Record MempoolStore := {
  l1_transactions : gmap Z L1Tx;
  l2_transactions_per_account : gmap Z AccountTransactions;
  l2_priority_queue : list MempoolScore;
  next_priority_id : Z;
  stashed_accounts : list Z;
  store_size : Z;
  capacity : Z;
}.

Definition store_new (next_priority_id capacity : Z) : MempoolStore :=
  {| l1_transactions := ∅; l2_transactions_per_account := ∅; l2_priority_queue := [];
     next_priority_id := next_priority_id; stashed_accounts := []; store_size := 0;
     capacity := capacity |}.

Definition insert_l2_transaction (s : MempoolStore) (transaction : L2Tx)
    (initial_nonces : gmap Z Z) : MempoolStore :=
  let account := l2tx_initiator_account transaction in
  let txs := match l2_transactions_per_account s !! account with
             | Some txs => txs
             | None => account_new (default 0 (initial_nonces !! account))
             end in
  let '(txs, metadata) := account_insert txs transaction in
  let queue := match previous_score metadata with
               | Some score => bt_remove score (l2_priority_queue s)
               | None => l2_priority_queue s
               end in
  let queue := match new_score metadata with
               | Some score => bt_insert score queue
               | None => queue
               end in
  {| l1_transactions := l1_transactions s;
     l2_transactions_per_account := <[account := txs]> (l2_transactions_per_account s);
     l2_priority_queue := queue;
     next_priority_id := next_priority_id s;
     stashed_accounts := stashed_accounts s;
     store_size := if is_new metadata then wrap 64 (store_size s + 1) else store_size s;
     capacity := capacity s |}.

Definition insert_l1_transaction (s : MempoolStore) (tx : L1Tx) : MempoolStore :=
  {| l1_transactions := <[l1tx_serial_id tx := tx]> (l1_transactions s);
     l2_transactions_per_account := l2_transactions_per_account s;
     l2_priority_queue := l2_priority_queue s;
     next_priority_id := next_priority_id s;
     stashed_accounts := stashed_accounts s;
     store_size := store_size s;
     capacity := capacity s |}.

(** The body of the loop of [insert]. *)
Definition insert_one (initial_nonces : gmap Z Z) (s : MempoolStore) (t : Transaction) :
    outcome MempoolStore :=
  match common_data t with
  | L1 data =>
      Ret (insert_l1_transaction s
             {| l1_execute := execute t; l1_common_data := data;
                l1_received_timestamp_ms := received_timestamp_ms t |})
  | L2 data =>
      Ret (insert_l2_transaction s
             {| l2_execute := execute t; l2_common_data := data;
                l2_received_timestamp_ms := received_timestamp_ms t;
                l2_raw_bytes := raw_bytes t |} initial_nonces)
  | ProtocolUpgrade _ =>
      Panics "Protocol upgrade tx is not supposed to be inserted into mempool"
  end.

Definition insert (s : MempoolStore) (transactions : list Transaction)
    (initial_nonces : gmap Z Z) : outcome MempoolStore :=
  foldM (insert_one initial_nonces) s transactions.

Definition has_next (s : MempoolStore) (filter : L2TxFilter) : bool :=
  bool_decide (is_Some (l1_transactions s !! next_priority_id s))
  || bool_decide (is_Some (rfind (fun el => matches_filter el filter) (l2_priority_queue s))).

(** The loop that stashes the accounts of the passed-over scores. *)
Definition stash (st : gmap Z AccountTransactions * Z * list Z) (pointer : MempoolScore) :
    outcome (gmap Z AccountTransactions * Z * list Z) :=
  let '(accounts, removed, stashed) := st in
  txs ← expect (accounts !! score_account pointer) "mempool: dangling pointer in priority queue";
  Ret (delete (score_account pointer) accounts, removed + account_len txs,
       stashed ++ [score_account pointer]).

Definition next_transaction (s : MempoolStore) (filter : L2TxFilter) :
    outcome (MempoolStore * option Transaction) :=
  match l1_transactions s !! next_priority_id s with
  | Some transaction =>
      Ret ({| l1_transactions := delete (next_priority_id s) (l1_transactions s);
              l2_transactions_per_account := l2_transactions_per_account s;
              l2_priority_queue := l2_priority_queue s;
              next_priority_id := wrap 64 (next_priority_id s + 1);
              stashed_accounts := stashed_accounts s;
              store_size := store_size s;
              capacity := capacity s |}, Some (transaction_of_l1 transaction))
  | None =>
      match rfind (fun el => matches_filter el filter) (l2_priority_queue s) with
      | None => Ret (s, None)
      | Some tx_pointer =>
          let '(queue, split) := bt_split_off tx_pointer (l2_priority_queue s) in
          '(accounts, removed, stashed) ←
            foldM stash (l2_transactions_per_account s, 0, stashed_accounts s) (drop 1 split);
          txs ← expect (accounts !! score_account tx_pointer)
                  "mempool: dangling pointer in priority queue";
          '(txs, (transaction, score)) ← account_next txs;
          let queue := match score with Some score => bt_insert score queue | None => queue end in
          size ← (if removed + 1 <=? store_size s then Ret (store_size s - (removed + 1))
                  else Panics "mempool size can't be negative");
          Ret ({| l1_transactions := l1_transactions s;
                  l2_transactions_per_account := <[score_account tx_pointer := txs]> accounts;
                  l2_priority_queue := queue;
                  next_priority_id := next_priority_id s;
                  stashed_accounts := stashed;
                  store_size := size;
                  capacity := capacity s |}, Some (transaction_of_l2 transaction))
      end
  end.

Definition rollback (s : MempoolStore) (tx : Transaction) : outcome MempoolStore :=
  match common_data tx with
  | L1 data =>
      Ret {| l1_transactions := l1_transactions s;
             l2_transactions_per_account := l2_transactions_per_account s;
             l2_priority_queue := l2_priority_queue s;
             next_priority_id := Z.min (next_priority_id s) (l1_serial_id data);
             stashed_accounts := stashed_accounts s;
             store_size := store_size s;
             capacity := capacity s |}
  | L2 _ =>
      txs ← expect (l2_transactions_per_account s !! initiator_account tx)
              "account is not available in mempool";
      '(txs, score) ← account_reset txs tx;
      Ret {| l1_transactions := l1_transactions s;
             l2_transactions_per_account :=
               <[initiator_account tx := txs]> (l2_transactions_per_account s);
             l2_priority_queue :=
               match score with
               | Some score => bt_remove score (l2_priority_queue s)
               | None => l2_priority_queue s
               end;
             next_priority_id := next_priority_id s;
             stashed_accounts := stashed_accounts s;
             store_size := store_size s;
             capacity := capacity s |}
  | ProtocolUpgrade _ => Panics "Protocol upgrade tx is not supposed to be in mempool"
  end.

Definition gc (s : MempoolStore) : MempoolStore * list Z :=
  if capacity s <=? store_size s then
    let index : gset Z := list_to_set (score_account <$> l2_priority_queue s) in
    let kept := filter (fun '(address, _) => address ∈ index) (l2_transactions_per_account s) in
    let drained := filter (fun '(address, _) => address ∉ index) (l2_transactions_per_account s) in
    ({| l1_transactions := l1_transactions s;
        l2_transactions_per_account := kept;
        l2_priority_queue := l2_priority_queue s;
        next_priority_id := next_priority_id s;
        stashed_accounts := stashed_accounts s;
        store_size := wrap 64 (map_sum (fun _ txs => account_len txs) kept);
        capacity := capacity s |}, (map_to_list drained).*1)
  else (s, []).

Definition get_mempool_info (s : MempoolStore) : MempoolStore * MempoolInfo :=
  let stashed := stashed_accounts s in
  let s := {| l1_transactions := l1_transactions s;
              l2_transactions_per_account := l2_transactions_per_account s;
              l2_priority_queue := l2_priority_queue s;
              next_priority_id := next_priority_id s;
              stashed_accounts := [];
              store_size := store_size s;
              capacity := capacity s |} in
  let '(s, purged) := gc s in
  (s, {| info_stashed_accounts := stashed; info_purged_accounts := purged |}).

Definition stats (s : MempoolStore) : MempoolStats :=
  {| l1_transaction_count := Z.of_nat (size (l1_transactions s));
     l2_transaction_count := store_size s;
     l2_priority_queue_size := Z.of_nat (length (l2_priority_queue s)) |}.

(** ** The order of scores *)

(** [s1] is strictly less urgent than [s2]. *)
Definition score_lt (s1 s2 : MempoolScore) : Prop :=
  received_at_ms s2 < received_at_ms s1 \/
  received_at_ms s1 = received_at_ms s2 /\ score_account s1 < score_account s2.

Definition same_key (s1 s2 : MempoolScore) : Prop :=
  received_at_ms s1 = received_at_ms s2 /\ score_account s1 = score_account s2.

Lemma score_cmp_spec s1 s2 :
  CompareSpec (same_key s1 s2) (score_lt s1 s2) (score_lt s2 s1) (score_cmp s1 s2).
Proof.
  unfold score_cmp, same_key, score_lt.
  destruct (Z.compare_spec (received_at_ms s1) (received_at_ms s2)); cbn;
    [destruct (Z.compare_spec (score_account s1) (score_account s2))|..]; constructor; lia.
Qed.

Lemma score_lt_trans s1 s2 s3 : score_lt s1 s2 -> score_lt s2 s3 -> score_lt s1 s3.
Proof. unfold score_lt. lia. Qed.

#[export] Instance score_lt_antisymm : AntiSymm (=) score_lt.
Proof. intros s1 s2. unfold score_lt. lia. Qed.

Lemma score_lt_irrefl s : ~ score_lt s s.
Proof. unfold score_lt. lia. Qed.

(** Sorted queues are determined by their elements. *)
Lemma queue_ext q1 q2 :
  StronglySorted score_lt q1 -> StronglySorted score_lt q2 ->
  (forall s, s ∈ q1 <-> s ∈ q2) -> q1 = q2.
Proof.
  intros H1 H2 Helem. apply (StronglySorted_unique score_lt); [done..|].
  assert (forall q, StronglySorted score_lt q -> NoDup q) as Hnd.
  { induction 1 as [|x q Hq IH Hx]; constructor; [|done]. rewrite Forall_forall in Hx.
    intros Hin. by apply (score_lt_irrefl x), Hx. }
  apply NoDup_Permutation; auto.
Qed.

Lemma bt_insert_elem s q x :
  (forall y, y ∈ q -> ~ same_key s y) -> x ∈ bt_insert s q <-> x = s \/ x ∈ q.
Proof.
  induction q as [|y q IH]; intros Hk; cbn [bt_insert]; [set_solver|].
  destruct (score_cmp_spec s y) as [He|Hl|Hg].
  - exfalso. apply (Hk y); [left|done].
  - set_solver.
  - rewrite !elem_of_cons, IH; [tauto|]. intros z Hz. apply Hk. by right.
Qed.

Lemma bt_insert_sorted s q : StronglySorted score_lt q -> StronglySorted score_lt (bt_insert s q).
Proof.
  induction 1 as [|y q Hq IH Hy]; cbn [bt_insert]; [repeat constructor|].
  destruct (score_cmp_spec s y) as [He|Hl|Hg].
  - by constructor.
  - constructor; [by constructor|]. constructor; [done|].
    eapply Forall_impl; [exact Hy|]. intros z. by apply score_lt_trans.
  - constructor; [done|]. apply Forall_forall. intros z Hz.
    assert (z = s \/ z ∈ q) as [->|Hin]; [|done|rewrite Forall_forall in Hy; by apply Hy].
    clear - Hz. induction q as [|w q IH]; cbn [bt_insert] in Hz; [set_solver|].
    destruct (score_cmp s w); set_solver.
Qed.

Lemma bt_remove_elem s q x : x ∈ bt_remove s q <-> x ∈ q /\ ~ same_key x s.
Proof.
  unfold bt_remove. rewrite !list_elem_of_In, filter_In.
  destruct (score_cmp_spec x s) as [He|Hl|Hg]; unfold same_key, score_lt in *;
    (split; [intros [? ?]|intros [? ?]]; split; try done; lia).
Qed.

Lemma filter_sorted {A} (R : relation A) f (l : list A) :
  StronglySorted R l -> StronglySorted R (List.filter f l).
Proof.
  induction 1 as [|x l Hl IH Hx]; cbn; [constructor|]. destruct (f x); [|done].
  constructor; [done|]. rewrite List.Forall_forall in *. intros y [Hy _]%filter_In. by apply Hx.
Qed.

Lemma bt_remove_sorted s q : StronglySorted score_lt q -> StronglySorted score_lt (bt_remove s q).
Proof. apply filter_sorted. Qed.

Lemma bt_split_off_middle low p high :
  StronglySorted score_lt (low ++ p :: high) ->
  bt_split_off p (low ++ p :: high) = (low, p :: high).
Proof.
  intros Hs. pose proof (StronglySorted_app_1_r _ _ _ Hs) as Hr.
  apply StronglySorted_cons in Hr as [Hp _]. rewrite Forall_forall in Hp.
  assert (Forall (fun x => match score_cmp x p with Lt => true | _ => false end = true) low) as Hlow.
  { apply Forall_forall. intros x Hx.
    assert (score_lt x p) as Hlt by (eapply StronglySorted_app_1_elem_of; [exact Hs|done|left]).
    destruct (score_cmp_spec x p); unfold same_key, score_lt in *; [lia|done|lia]. }
  assert (Forall (fun x => match score_cmp x p with Lt => true | _ => false end = false)
            (p :: high)) as Hhigh.
  { apply Forall_forall. intros x Hx. destruct (score_cmp_spec x p) as [| |]; [done| |done].
    apply elem_of_cons in Hx as [->|Hx]; [by apply score_lt_irrefl in H|].
    specialize (Hp x Hx). unfold score_lt in *. lia. }
  unfold bt_split_off. rewrite List.partition_as_filter, !List.filter_app.
  rewrite (filter_every _ low Hlow), (filter_none _ (p :: high) Hhigh), app_nil_r.
  rewrite (filter_none _ low), (filter_every _ (p :: high)).
  - done.
  - eapply Forall_impl; [exact Hhigh|]. intros x Hx. cbn in *. by rewrite Hx.
  - eapply Forall_impl; [exact Hlow|]. intros x Hx. cbn in *. by rewrite Hx.
Qed.

Lemma rfind_Some f q p :
  rfind f q = Some p ->
  exists low high, q = low ++ p :: high /\ f p = true /\ Forall (fun x => f x = false) high.
Proof.
  unfold rfind. induction q as [|x q IH] using rev_ind; [done|].
  rewrite reverse_snoc. cbn [List.find]. destruct (f x) eqn:Hx.
  - intros [= ->]. by exists q, [].
  - intros (low & high & -> & Hp & Hhigh)%IH. exists low, (high ++ [x]).
    rewrite <- app_assoc. split; [done|]. split; [done|]. apply Forall_app. auto.
Qed.

Lemma rfind_None f q : rfind f q = None <-> Forall (fun x => f x = false) q.
Proof.
  unfold rfind. split.
  - intros H. apply Forall_forall. intros x Hx. apply (List.find_none _ _ H).
    apply list_elem_of_In. by rewrite elem_of_reverse.
  - intros H. destruct (List.find f (reverse q)) as [x|] eqn:Hf; [|done].
    apply List.find_some in Hf as [Hin Hx]. rewrite <- list_elem_of_In, elem_of_reverse in Hin.
    rewrite Forall_forall in H. by rewrite (H x Hin) in Hx.
Qed.

(** ** The invariant *)

(** The transaction an account would execute next. *)
Definition head_tx (txs : AccountTransactions) : option L2Tx :=
  transactions txs !! account_nonce txs.

(** [sc] scores the next transaction of its account. *)
Definition pointer (accounts : gmap Z AccountTransactions) (sc : MempoolScore) : Prop :=
  exists txs tx, accounts !! score_account sc = Some txs /\ head_tx txs = Some tx /\
    sc = score_for_transaction tx.

Record queue_for (accounts : gmap Z AccountTransactions) (q : list MempoolScore) : Prop := {
  queue_sorted : StronglySorted score_lt q;
  queue_elem : forall sc, sc ∈ q <-> pointer accounts sc;
}.

(** Transactions are filed under their sender and nonce, not below the account's nonce. *)
Definition wf_txs (a : Z) (txs : AccountTransactions) : Prop :=
  0 <= account_nonce txs /\
  forall n tx, transactions txs !! n = Some tx ->
    l2_nonce (l2_common_data tx) = n /\ l2tx_initiator_account tx = a /\ account_nonce txs <= n.

Definition wf_accounts (accounts : gmap Z AccountTransactions) : Prop :=
  forall a txs, accounts !! a = Some txs -> wf_txs a txs.

Record wf (s : MempoolStore) : Prop := {
  wf_queue : queue_for (l2_transactions_per_account s) (l2_priority_queue s);
  wf_per_account : wf_accounts (l2_transactions_per_account s);
  wf_size : store_size s = map_sum (fun _ txs => account_len txs) (l2_transactions_per_account s);
  wf_bound : store_size s < 2 ^ 64;
  wf_l1 : forall id tx, l1_transactions s !! id = Some tx -> l1tx_serial_id tx = id;
}.

Lemma account_len_nonneg txs : 0 <= account_len txs.
Proof. unfold account_len. lia. Qed.

Lemma wf_accounts_insert accounts a txs :
  wf_accounts accounts -> wf_txs a txs -> wf_accounts (<[a := txs]> accounts).
Proof. intros Ha Ht b txs'. rewrite lookup_insert_Some. intros [[<- <-]|[_ Hb]]; auto. Qed.

Lemma head_tx_account accounts a txs tx :
  wf_accounts accounts -> accounts !! a = Some txs -> head_tx txs = Some tx ->
  score_account (score_for_transaction tx) = a.
Proof. intros Hwf Ha Htx. apply (proj2 (Hwf a txs Ha) _ _ Htx). Qed.

Lemma pointer_insert accounts a txs sc :
  pointer (<[a := txs]> accounts) sc <->
  (score_account sc <> a /\ pointer accounts sc) \/
  (score_account sc = a /\ exists tx, head_tx txs = Some tx /\ sc = score_for_transaction tx).
Proof.
  unfold pointer. destruct (decide (score_account sc = a)) as [<-|Hne].
  - rewrite lookup_insert_eq. naive_solver.
  - rewrite lookup_insert_ne by done. naive_solver.
Qed.

Lemma queue_for_same_head accounts q a txs :
  queue_for accounts q -> accounts !! a ≫= head_tx = head_tx txs ->
  queue_for (<[a := txs]> accounts) q.
Proof.
  intros [Hs He] Hhead. split; [done|]. intros sc. rewrite pointer_insert, He.
  destruct (decide (score_account sc = a)) as [<-|Hne]; [|naive_solver].
  unfold pointer. rewrite <- Hhead. destruct (accounts !! score_account sc); naive_solver.
Qed.

(** Queue without the entry of an account, given its next transaction. *)
Definition without_head (old : option L2Tx) (q : list MempoolScore) : list MempoolScore :=
  match old with Some tx => bt_remove (score_for_transaction tx) q | None => q end.

Definition with_head (new : option L2Tx) (q : list MempoolScore) : list MempoolScore :=
  match new with Some tx => bt_insert (score_for_transaction tx) q | None => q end.

Lemma without_head_spec accounts q a :
  wf_accounts accounts -> queue_for accounts q ->
  StronglySorted score_lt (without_head (accounts !! a ≫= head_tx) q) /\
  forall sc, sc ∈ without_head (accounts !! a ≫= head_tx) q <->
    score_account sc <> a /\ pointer accounts sc.
Proof.
  intros Hwf [Hs He]. destruct (accounts !! a ≫= head_tx) as [tx|] eqn:Hhead; cbn [without_head].
  - apply bind_Some in Hhead as (txs & Ha & Htx).
    pose proof (head_tx_account _ _ _ _ Hwf Ha Htx) as Hacc.
    split; [by apply bt_remove_sorted|]. intros sc. rewrite bt_remove_elem, He.
    split; [intros [Hp Hk]|intros [Hne Hp]].
    + split; [|done]. intros Heq. apply Hk.
      destruct Hp as (txs' & tx' & Ha' & Htx' & ->). rewrite Heq in Ha'. by simplify_eq.
    + split; [done|]. intros [_ Hk]. congruence.
  - split; [done|]. intros sc. rewrite He. split; [|naive_solver]. intros Hp. split; [|done].
    intros <-. destruct Hp as (txs & tx & Ha & Htx & _). rewrite Ha in Hhead. cbn in Hhead. congruence.
Qed.

(** Replacing an account updates the queue by removing its old entry and adding the new one. *)
Lemma queue_for_update accounts q a txs :
  wf_accounts accounts -> wf_txs a txs -> queue_for accounts q ->
  queue_for (<[a := txs]> accounts)
    (with_head (head_tx txs) (without_head (accounts !! a ≫= head_tx) q)).
Proof.
  intros Hwf Ht Hq. destruct (without_head_spec accounts q a Hwf Hq) as [Hs He].
  destruct (head_tx txs) as [tx|] eqn:Htx; cbn [with_head].
  - assert (score_account (score_for_transaction tx) = a) as Hacc by apply (proj2 Ht _ _ Htx).
    split; [by apply bt_insert_sorted|]. intros sc. rewrite bt_insert_elem, pointer_insert, He.
    + rewrite Htx. naive_solver.
    + intros y [Hne _]%He [_ Hk]. congruence.
  - split; [done|]. intros sc. rewrite He, pointer_insert, Htx. naive_solver.
Qed.

Lemma total_len_insert (accounts : gmap Z AccountTransactions) a txs :
  map_sum (fun _ txs => account_len txs) (<[a := txs]> accounts) =
  map_sum (fun _ txs => account_len txs) accounts
    - default 0 (account_len <$> accounts !! a) + account_len txs.
Proof.
  destruct (accounts !! a) as [txs0|] eqn:Ha; cbn [fmap option_fmap option_map default].
  - by rewrite (map_sum_insert_Some _ _ _ _ _ Ha).
  - rewrite (map_sum_insert_None _ _ _ _ Ha). cbn. lia.
Qed.

Lemma wf_new id cap : wf (store_new id cap).
Proof.
  split; cbn; [split; [constructor|]|done|by rewrite map_sum_empty|done..].
  intros sc. split; [by intros ?%not_elem_of_nil|]. intros (? & ? & [=] & _).
Qed.

(** *** Insertion *)

Lemma account_insert_wf a txs tx :
  wf_txs a txs -> l2tx_initiator_account tx = a -> wf_txs a (account_insert txs tx).1.
Proof.
  intros [Hn Hwf] Ha. unfold account_insert. case_match eqn:Hlt; [by split|].
  apply Z.ltb_ge in Hlt. split; [done|]. cbn.
  intros n tx'. rewrite lookup_insert_Some. intros [[<- <-]|[_ Htx]]; auto.
Qed.

Lemma account_insert_len txs tx :
  account_len (account_insert txs tx).1 =
  account_len txs + Z.b2z (is_new (account_insert txs tx).2).
Proof.
  unfold account_insert. case_match; cbn; [lia|]. unfold account_len. cbn.
  destruct (transactions txs !! _) as [old|] eqn:Hold; cbn.
  - rewrite map_size_insert_Some by (eexists; exact Hold). lia.
  - rewrite map_size_insert_None by done. lia.
Qed.

(** The scores an insertion reports are those that change the queue. *)
Lemma account_insert_queue txs tx q :
  let '(txs', metadata) := account_insert txs tx in
  let queue := match previous_score metadata with Some score => bt_remove score q | None => q end in
  match new_score metadata with Some score => bt_insert score queue | None => queue end =
  if l2_nonce (l2_common_data tx) =? account_nonce txs
  then with_head (head_tx txs') (without_head (head_tx txs) q) else q.
Proof.
  unfold account_insert.
  destruct (Z.ltb_spec (l2_nonce (l2_common_data tx)) (account_nonce txs)) as [Hlt|Hge]; cbn.
  - rewrite (proj2 (Z.eqb_neq _ _)) by lia. done.
  - destruct (Z.eqb_spec (l2_nonce (l2_common_data tx)) (account_nonce txs)) as [Heq|Hne]; [|done].
    unfold head_tx. cbn. rewrite <- Heq, lookup_insert_eq. cbn.
    by destruct (transactions txs !! _).
Qed.

Lemma account_insert_other_head txs tx :
  l2_nonce (l2_common_data tx) <> account_nonce txs ->
  head_tx (account_insert txs tx).1 = head_tx txs.
Proof.
  intros Hne. unfold account_insert. case_match; [done|]. unfold head_tx. cbn.
  by rewrite lookup_insert_ne.
Qed.

Definition nonces_ok (initial_nonces : gmap Z Z) : Prop :=
  forall a n, initial_nonces !! a = Some n -> 0 <= n.

Lemma insert_l2_transaction_wf s tx nonces :
  wf s -> nonces_ok nonces -> store_size s + 1 < 2 ^ 64 ->
  wf (insert_l2_transaction s tx nonces) /\
  store_size (insert_l2_transaction s tx nonces) <= store_size s + 1.
Proof.
  intros [Hq Hacc Hsize Hmax Hl1] Hnonces Hbound. set (a := l2tx_initiator_account tx).
  unfold insert_l2_transaction. fold a. set (txs := match _ !! a with Some _ => _ | None => _ end).
  assert (wf_txs a txs /\ l2_transactions_per_account s !! a ≫= head_tx = head_tx txs /\
          default 0 (account_len <$> l2_transactions_per_account s !! a) = account_len txs)
    as (Hwf & Hhead & Hlen).
  { unfold txs. destruct (l2_transactions_per_account s !! a) eqn:Ha; cbn.
    - split; [|done]. by apply Hacc.
    - split; [|done]. split; cbn; [|done]. destruct (nonces !! a) eqn:Hn; cbn; [eauto|done]. }
  pose proof (account_insert_wf a txs tx Hwf eq_refl) as Hwf'.
  pose proof (account_insert_len txs tx) as Hlen'.
  pose proof (account_insert_queue txs tx (l2_priority_queue s)) as Hqueue.
  pose proof (account_insert_other_head txs tx) as Hother.
  pose proof (map_sum_nonneg (fun _ txs => account_len txs) (l2_transactions_per_account s)
                (fun _ => account_len_nonneg)) as Hnn.
  destruct (account_insert txs tx) as [txs' md]. cbn in *. split; [split; cbn|].
  - rewrite Hqueue. destruct (Z.eqb_spec (l2_nonce (l2_common_data tx)) (account_nonce txs)).
    + rewrite <- Hhead. by apply queue_for_update.
    + apply queue_for_same_head; [done|]. rewrite Hhead. symmetry. auto.
  - by apply wf_accounts_insert.
  - rewrite total_len_insert, Hlen. destruct (is_new md); cbn in Hlen'; [|lia].
    rewrite wrap_small; [lia|]. split; lia.
  - destruct (is_new md); [rewrite wrap_small; [lia|split; lia]|lia].
  - exact Hl1.
  - destruct (is_new md); [|lia]. rewrite wrap_small; [lia|]. split; lia.
Qed.

Lemma insert_l1_transaction_wf s tx : wf s -> wf (insert_l1_transaction s tx).
Proof.
  intros [Hq Hacc Hsize Hmax Hl1]. split; cbn; [done..|].
  intros id tx'. rewrite lookup_insert_Some. intros [[<- <-]|[_ H]]; auto.
Qed.

Definition mempool_tx (t : Transaction) : bool :=
  match common_data t with ProtocolUpgrade _ => false | _ => true end.

Lemma insert_one_wf nonces s t :
  wf s -> nonces_ok nonces -> mempool_tx t = true -> store_size s + 1 < 2 ^ 64 ->
  exists s', insert_one nonces s t = Ret s' /\ wf s' /\ store_size s' <= store_size s + 1.
Proof.
  unfold insert_one, mempool_tx. destruct (common_data t); intros Hwf Hn [=] Hb.
  - eexists. split; [done|]. split; [by apply insert_l1_transaction_wf|]. cbn. lia.
  - eexists. split; [done|]. by apply insert_l2_transaction_wf.
Qed.

Lemma insert_wf nonces txs : forall s,
  wf s -> nonces_ok nonces -> forallb mempool_tx txs = true ->
  store_size s + Z.of_nat (length txs) < 2 ^ 64 ->
  exists s', insert s txs nonces = Ret s' /\ wf s'.
Proof.
  unfold insert. induction txs as [|t txs IH]; intros s Hwf Hn Hok Hb; [by exists s|].
  cbn [forallb] in Hok. apply andb_prop in Hok as [Ht Hok]. cbn [length] in Hb. cbn [foldM].
  destruct (insert_one_wf nonces s t Hwf Hn Ht) as (s1 & -> & Hwf1 & Hs1); [lia|].
  rewrite outcome_Ret_bind. apply IH; [done..|lia].
Qed.

(** *** Taking the next transaction *)

Lemma pointer_inj accounts sc sc' :
  pointer accounts sc -> pointer accounts sc' -> score_account sc = score_account sc' -> sc = sc'.
Proof. intros (? & ? & Ha & Ht & ->) (? & ? & Ha' & Ht' & ->) Heq. rewrite Heq in Ha. by simplify_eq. Qed.

Lemma score_sorted_NoDup q : StronglySorted score_lt q -> NoDup q.
Proof.
  induction 1 as [|x q Hq IH Hx]; constructor; [|done]. rewrite Forall_forall in Hx.
  intros Hin. by apply (score_lt_irrefl x), Hx.
Qed.

Lemma queue_accounts_NoDup accounts q : queue_for accounts q -> NoDup (score_account <$> q).
Proof.
  intros [Hs He]. apply NoDup_fmap_2_strong; [|by apply score_sorted_NoDup].
  intros sc sc' Hsc Hsc'. apply (pointer_inj accounts); by apply He.
Qed.

Lemma stash_fold high : forall accounts removed stashed,
  NoDup (score_account <$> high) ->
  Forall (fun sc => is_Some (accounts !! score_account sc)) high ->
  exists accounts' n,
    foldM stash (accounts, removed, stashed) high =
      Ret (accounts', removed + n, stashed ++ (score_account <$> high)) /\
    (forall a, accounts' !! a =
       if decide (a ∈ score_account <$> high) then None else accounts !! a) /\
    map_sum (fun _ txs => account_len txs) accounts' =
      map_sum (fun _ txs => account_len txs) accounts - n /\ 0 <= n.
Proof.
  induction high as [|sc high IH]; intros accounts removed stashed Hnd Hall.
  - exists accounts, 0. cbn. rewrite Z.add_0_r, app_nil_r. split_and!; [done..|lia|lia].
  - cbn in Hnd. apply NoDup_cons in Hnd as [Hsc Hnd]. apply Forall_cons in Hall as [[txs Htxs] Hall].
    destruct (IH (delete (score_account sc) accounts) (removed + account_len txs)
                 (stashed ++ [score_account sc]) Hnd) as (accounts' & n & Hf & Hl & Hm & Hn).
    { rewrite Forall_forall in *. intros x Hx. rewrite lookup_delete_ne; [auto|].
      intros Heq. apply Hsc. rewrite Heq. by apply list_elem_of_fmap_2. }
    exists accounts', (account_len txs + n). split_and!.
    + cbn [foldM stash]. rewrite Htxs. cbn [expect]. rewrite !outcome_Ret_bind, Hf.
      cbn. by rewrite <- app_assoc, Z.add_assoc.
    + intros a. rewrite Hl, fmap_cons. destruct (decide (a = score_account sc)) as [->|Hne].
      * rewrite lookup_delete_eq. repeat case_decide; set_solver.
      * rewrite lookup_delete_ne by done. repeat case_decide; set_solver.
    + rewrite Hm, (map_sum_delete _ _ _ _ Htxs). lia.
    + pose proof (account_len_nonneg txs). lia.
Qed.

Lemma account_next_wf a txs tx :
  wf_txs a txs -> head_tx txs = Some tx ->
  exists txs', account_next txs = Ret (txs', (tx, score_for_transaction <$> head_tx txs')) /\
    transactions txs' = delete (account_nonce txs) (transactions txs) /\
    account_nonce txs' = wrap 32 (account_nonce txs + 1) /\
    wf_txs a txs' /\ account_len txs' = account_len txs - 1.
Proof.
  intros [Hn Hwf] Htx. unfold account_next. unfold head_tx in *. rewrite Htx. cbn [expect].
  rewrite outcome_Ret_bind.
  exists {| transactions := delete (account_nonce txs) (transactions txs);
            account_nonce := wrap 32 (account_nonce txs + 1) |}.
  split_and!; [done..| |].
  - split; [apply wrap_unsigned; lia|]. cbn. intros n tx'.
    rewrite lookup_delete_Some. intros [Hne H]. destruct (Hwf n tx' H) as (? & ? & Hle).
    split_and!; [done..|]. unfold wrap.
    pose proof (Z.mod_le (account_nonce txs + 1) (2 ^ 32)). lia.
  - unfold account_len. cbn. rewrite map_size_delete, Htx.
    assert (size (transactions txs) <> 0%nat); [|cbn; lia].
    rewrite map_size_non_empty_iff. by intros Hempty; rewrite Hempty, lookup_empty in Htx.
Qed.

Lemma bt_remove_last low p :
  StronglySorted score_lt (low ++ [p]) -> bt_remove p (low ++ [p]) = low.
Proof.
  intros Hs. unfold bt_remove. rewrite List.filter_app. cbn [List.filter].
  destruct (score_cmp_spec p p) as [_|Hlt|Hlt]; [|by apply score_lt_irrefl in Hlt..].
  rewrite app_nil_r. apply filter_every, Forall_forall. intros x Hx.
  assert (score_lt x p) as Hlt by (eapply StronglySorted_app_1_elem_of; [exact Hs|done|left]).
  destruct (score_cmp_spec x p); unfold same_key, score_lt in *; [lia|done..].
Qed.

(** Dropping the accounts of the most urgent entries leaves the queue of the others. *)
Lemma queue_for_prefix accounts accounts' low high :
  queue_for accounts (low ++ high) ->
  (forall a, accounts' !! a = if decide (a ∈ score_account <$> high) then None else accounts !! a) ->
  queue_for accounts' low.
Proof.
  intros Hq Hl. pose proof (queue_accounts_NoDup _ _ Hq) as Hnd. destruct Hq as [Hs He].
  rewrite fmap_app in Hnd. apply NoDup_app in Hnd as (_ & Hdisj & _).
  split; [by apply StronglySorted_app_1_l in Hs|]. intros sc. split.
  - intros Hsc. assert (pointer accounts sc) as (txs & tx & Ha & Htx & Hsco).
    { apply He, elem_of_app. by left. }
    exists txs, tx. rewrite Hl. rewrite decide_False; [done|].
    by apply Hdisj, list_elem_of_fmap_2.
  - intros (txs & tx & Ha & Htx & Hsco). rewrite Hl in Ha. case_decide as Hin; [done|].
    assert (sc ∈ low ++ high) as [Hlow|Hhigh]%elem_of_app; [apply He; by exists txs, tx|done|].
    exfalso. by apply Hin, list_elem_of_fmap_2.
Qed.

Definition after_take (accounts : gmap Z AccountTransactions) (a : Z) (txs' : AccountTransactions)
    (stashed : list Z) (b : Z) : option AccountTransactions :=
  if decide (b = a) then Some txs'
  else if decide (b ∈ stashed) then None else accounts !! b.

Lemma next_l2_transaction s f low p high :
  wf s -> l1_transactions s !! next_priority_id s = None ->
  rfind (fun el => matches_filter el f) (l2_priority_queue s) = Some p ->
  l2_priority_queue s = low ++ p :: high ->
  exists txs tx txs' s',
    next_transaction s f = Ret (s', Some (transaction_of_l2 tx)) /\
    l2_transactions_per_account s !! score_account p = Some txs /\
    head_tx txs = Some tx /\ p = score_for_transaction tx /\
    transactions txs' = delete (account_nonce txs) (transactions txs) /\
    account_nonce txs' = wrap 32 (account_nonce txs + 1) /\
    (forall b, l2_transactions_per_account s' !! b =
       after_take (l2_transactions_per_account s) (score_account p) txs' (score_account <$> high) b) /\
    stashed_accounts s' = stashed_accounts s ++ (score_account <$> high) /\
    l1_transactions s' = l1_transactions s /\ next_priority_id s' = next_priority_id s /\
    capacity s' = capacity s /\ wf s' /\ store_size s' < store_size s.
Proof.
  intros [Hq Hacc Hsize Hmax Hl1] HL1 Hfind Hqueue. rewrite Hqueue in Hq.
  pose proof (queue_sorted _ _ Hq) as Hs. pose proof (queue_accounts_NoDup _ _ Hq) as Hnd.
  rewrite fmap_app, fmap_cons in Hnd. apply NoDup_app in Hnd as (_ & _ & [Hp Hnd]%NoDup_cons).
  assert (pointer (l2_transactions_per_account s) p) as (txs & tx & Ha & Htx & Hsc).
  { apply (queue_elem _ _ Hq). set_solver. }
  destruct (stash_fold high (l2_transactions_per_account s) 0 (stashed_accounts s) Hnd)
    as (accounts & n & Hfold & Hlook & Hsum & Hn).
  { apply Forall_forall. intros sc Hin.
    assert (pointer (l2_transactions_per_account s) sc) as (t & ? & Ht & _); [|by exists t].
    apply (queue_elem _ _ Hq). set_solver. }
  assert (accounts !! score_account p = Some txs) as Ha' by (by rewrite Hlook, decide_False).
  assert (wf_accounts accounts) as Hacc'.
  { intros b t. rewrite Hlook. case_decide; [done|]. apply Hacc. }
  destruct (account_next_wf _ _ _ (Hacc _ _ Ha) Htx) as (txs' & Hnext & Htr & Hno & Hwf' & Hlen).
  pose proof (map_sum_lookup_le (fun _ txs => account_len txs) accounts _ _
                (fun _ => account_len_nonneg) Ha') as Hle. cbn in Hle.
  pose proof (account_len_nonneg txs') as Hnn. rewrite Z.add_0_l in Hfold.
  exists txs, tx, txs'. unfold next_transaction.
  rewrite HL1, Hfind, Hqueue, (bt_split_off_middle _ _ _ Hs). cbn [drop].
  rewrite drop_0, Hfold. cbn [mbind outcome_bind]. rewrite Ha'. cbn [expect mbind outcome_bind].
  rewrite Hnext. cbn [mbind outcome_bind]. rewrite (proj2 (Z.leb_le _ _)) by lia.
  cbn [mbind outcome_bind]. eexists. split; [reflexivity|]. cbn.
  split_and!; [done..| |done|done|done|done| |lia].
  - intros b. unfold after_take. case_decide as Hb; [subst b; apply lookup_insert_eq|].
    rewrite lookup_insert_ne by congruence. apply Hlook.
  - split; cbn; [|by apply wf_accounts_insert| |lia|exact Hl1].
    + assert (queue_for accounts (low ++ [p])) as Hq'.
      { apply (queue_for_prefix (l2_transactions_per_account s) _ _ high); [|done].
        by rewrite <- app_assoc. }
      pose proof (queue_for_update _ _ _ _ Hacc' Hwf' Hq') as Hup.
      rewrite Ha' in Hup. cbn [mbind option_bind] in Hup. rewrite Htx in Hup. cbn in Hup.
      rewrite <- Hsc, bt_remove_last in Hup by apply (queue_sorted _ _ Hq').
      by destruct (head_tx txs').
    + rewrite total_len_insert, Ha', Hsum. cbn. lia.
Qed.

(** *** Rolling back *)

(** The transaction is the last one taken from its account. *)
Definition last_taken (s : MempoolStore) (t : Transaction) : Prop :=
  match common_data t with
  | L1 _ => True
  | L2 data => exists txs, l2_transactions_per_account s !! initiator_account t = Some txs /\
      0 <= l2_nonce data < 2 ^ 32 - 1 /\ account_nonce txs = l2_nonce data + 1
  | ProtocolUpgrade _ => False
  end.

Lemma rollback_wf s t :
  wf s -> last_taken s t ->
  exists s', rollback s t = Ret s' /\ wf s' /\ store_size s' = store_size s.
Proof.
  intros Hwf. unfold last_taken, rollback. destruct (common_data t) as [d|d|d] eqn:Ht; [| |done].
  - intros _. eexists. split; [done|]. split; [by destruct Hwf|done].
  - intros (txs & Ha & Hb & Hn). rewrite Ha. cbn [expect]. rewrite outcome_Ret_bind.
    unfold account_reset, nonce. rewrite Ht. cbn [expect]. rewrite outcome_Ret_bind. cbn [mbind outcome_bind].
    eexists. split; [done|]. split; [|done]. destruct Hwf as [Hq Hacc Hsize Hmax Hl1].
    rewrite Hn, Z.min_r, wrap_small by (unfold unsigned; lia).
    set (txs' := {| transactions := _ |}). destruct (Hacc _ _ Ha) as [Hpos Hwf].
    assert (wf_txs (initiator_account t) txs') as Hwf'.
    { split; cbn; [lia|]. intros n tx Htx. destruct (Hwf _ _ Htx) as (? & ? & ?). split_and!; [done..|lia]. }
    split; cbn; [|by apply wf_accounts_insert| |done|done].
    + pose proof (queue_for_update _ _ _ _ Hacc Hwf' Hq) as Hup.
      assert (head_tx txs' = None) as Hnone.
      { destruct (head_tx txs') as [tx|] eqn:Htx; [|done]. destruct (Hwf _ _ Htx) as (? & ? & ?).
        cbn in *. lia. }
      rewrite Hnone, Ha in Hup. cbn in Hup. unfold head_tx in Hup. rewrite Hn in Hup.
      by destruct (transactions txs !! (l2_nonce d + 1)).
    + rewrite total_len_insert, Ha, Hsize. cbn. unfold account_len. cbn. lia.
Qed.

(** *** Garbage collection *)

Lemma queue_index accounts q a :
  wf_accounts accounts -> queue_for accounts q ->
  a ∈ (list_to_set (score_account <$> q) : gset Z) <-> is_Some (accounts !! a ≫= head_tx).
Proof.
  intros Hacc [_ He]. rewrite elem_of_list_to_set, list_elem_of_fmap. split.
  - intros (sc & -> & (txs & tx & Ha & Htx & _)%He). exists tx. by rewrite Ha.
  - intros [tx (txs & Ha & Htx)%bind_Some]. exists (score_for_transaction tx).
    rewrite (head_tx_account _ _ _ _ Hacc Ha Htx). split; [done|]. apply He. exists txs, tx.
    by rewrite (head_tx_account _ _ _ _ Hacc Ha Htx).
Qed.

Lemma gc_accounts s a :
  wf s -> capacity s <= store_size s ->
  l2_transactions_per_account (gc s).1 !! a =
    (txs ← l2_transactions_per_account s !! a; if head_tx txs is Some _ then Some txs else None) /\
  (a ∈ (gc s).2 <->
     exists txs, l2_transactions_per_account s !! a = Some txs /\ head_tx txs = None).
Proof.
  intros [Hq Hacc _ _ _] Hcap. unfold gc. rewrite (proj2 (Z.leb_le _ _) Hcap). cbn.
  pose proof (queue_index _ _ a Hacc Hq) as Hidx. split.
  - rewrite map_lookup_filter. destruct (l2_transactions_per_account s !! a) as [txs|]; [|done].
    cbn in *. case_guard as Hg; cbn; rewrite Hidx in Hg; destruct (head_tx txs); try done.
    all: by destruct Hg.
  - rewrite list_elem_of_fmap. split.
    + intros ([b txs] & -> & Hin). cbn in *. apply elem_of_map_to_list in Hin.
      apply map_lookup_filter_Some in Hin as [Ha Hn]. exists txs. split; [done|].
      rewrite Hidx, Ha in Hn. cbn in Hn. destruct (head_tx txs); [|done]. by destruct Hn.
    + intros (txs & Ha & Hn). exists (a, txs). split; [done|]. apply elem_of_map_to_list.
      apply map_lookup_filter_Some. split; [done|]. rewrite Hidx, Ha. cbn. rewrite Hn. by intros [? [=]].
Qed.

Lemma gc_wf s : wf s -> wf (gc s).1 /\ l2_priority_queue (gc s).1 = l2_priority_queue s.
Proof.
  intros Hwf. destruct (Z.leb_spec (capacity s) (store_size s)) as [Hle|Hgt].
  2: { unfold gc. rewrite (proj2 (Z.leb_gt _ _) Hgt). done. }
  pose proof (fun a => proj1 (gc_accounts s a Hwf Hle)) as Hgc. destruct Hwf as [Hq Hacc Hsize Hmax Hl1].
  unfold gc in *. rewrite (proj2 (Z.leb_le _ _) Hle) in *. cbn in *. split; [|done].
  match goal with |- context [map_sum _ (filter ?P _)] =>
    pose proof (map_sum_filter_le (fun _ txs => account_len txs) P (l2_transactions_per_account s)
                  (fun _ => account_len_nonneg)) as Hless;
    pose proof (map_sum_nonneg (fun _ txs => account_len txs)
                  (filter P (l2_transactions_per_account s)) (fun _ => account_len_nonneg)) as Hnn
  end.
  cbn in Hless, Hnn. destruct Hq as [Hs He]. split; cbn.
  - split; [done|]. intros sc. rewrite He. unfold pointer. setoid_rewrite Hgc. split.
    + intros (txs & tx & Ha & Htx & Hsc). exists txs, tx. rewrite Ha. cbn. by rewrite Htx.
    + intros (txs & tx & Ha & Htx & Hsc). exists txs, tx.
      apply bind_Some in Ha as (txs0 & Ha & Hc). destruct (head_tx txs0); by simplify_eq.
  - intros a txs. rewrite map_lookup_filter_Some. intros [Ha _]. by apply Hacc.
  - apply wrap_small. split; lia.
  - rewrite wrap_small; [lia|]. split; lia.
  - exact Hl1.
Qed.

(** ** Reachable stores *)

(** The stores that the mempool's callers produce. *)
Inductive reachable : MempoolStore -> Prop :=
| reach_new id cap : reachable (store_new id cap)
| reach_insert s s' txs nonces :
    reachable s -> nonces_ok nonces -> store_size s + Z.of_nat (length txs) < 2 ^ 64 ->
    insert s txs nonces = Ret s' -> reachable s'
| reach_next s s' f tx : reachable s -> next_transaction s f = Ret (s', tx) -> reachable s'
| reach_rollback s s' t : reachable s -> last_taken s t -> rollback s t = Ret s' -> reachable s'
| reach_info s : reachable s -> reachable (get_mempool_info s).1.

Lemma insert_Ret_mempool_tx nonces txs : forall s s',
  insert s txs nonces = Ret s' -> forallb mempool_tx txs = true.
Proof.
  unfold insert. induction txs as [|t txs IH]; intros s s'; [done|]. cbn [foldM forallb].
  destruct (insert_one nonces s t) as [s1|msg] eqn:H1; [|done]. rewrite outcome_Ret_bind.
  intros H%IH. rewrite H. unfold insert_one, mempool_tx in *. by destruct (common_data t).
Qed.

Lemma next_transaction_wf s f :
  wf s -> exists s' tx, next_transaction s f = Ret (s', tx) /\ wf s'.
Proof.
  intros Hwf. destruct (l1_transactions s !! next_priority_id s) as [tx|] eqn:HL1.
  - unfold next_transaction. rewrite HL1. eexists _, _. split; [done|].
    destruct Hwf as [Hq Hacc Hsize Hmax Hl1]. split; cbn; [done..|].
    intros id tx'. rewrite lookup_delete_Some. intros [_ H]. auto.
  - destruct (rfind (fun el => matches_filter el f) (l2_priority_queue s)) as [p|] eqn:Hf.
    + destruct (rfind_Some _ _ _ Hf) as (low & high & Hq & _).
      destruct (next_l2_transaction s f low p high Hwf HL1 Hf Hq) as (? & ? & ? & ? & Hr).
      naive_solver.
    + unfold next_transaction. rewrite HL1, Hf. by eexists _, _.
Qed.

Lemma has_next_spec s f :
  wf s -> has_next s f = true <-> exists s' t, next_transaction s f = Ret (s', Some t).
Proof.
  intros Hwf. unfold has_next. rewrite orb_true_iff, !bool_decide_eq_true.
  destruct (l1_transactions s !! next_priority_id s) as [tx|] eqn:HL1.
  { unfold next_transaction. rewrite HL1. naive_solver. }
  destruct (rfind (fun el => matches_filter el f) (l2_priority_queue s)) as [p|] eqn:Hf.
  - destruct (rfind_Some _ _ _ Hf) as (low & high & Hq & _).
    destruct (next_l2_transaction s f low p high Hwf HL1 Hf Hq) as (? & tx & ? & s' & Hn & _).
    split; [intros _; by exists s', (transaction_of_l2 tx)|]. intros _. right. by exists p.
  - unfold next_transaction. rewrite HL1, Hf.
    split; [intros [[? [=]]|[? [=]]]|intros (? & ? & [=])].
Qed.

Lemma get_mempool_info_wf s : wf s -> wf (get_mempool_info s).1.
Proof.
  intros [Hq Hacc Hsize Hmax Hl1]. unfold get_mempool_info. set (s0 := {| l1_transactions := _ |}).
  destruct (gc_wf s0) as [Hwf _]; [done|]. by destruct (gc s0).
Qed.

Lemma reachable_is_wf s : reachable s -> wf s.
Proof.
  induction 1 as [id cap|s s' txs nonces _ IH Hn Hb H|s s' f tx _ IH H|s s' t _ IH Hl H|s _ IH].
  - apply wf_new.
  - destruct (insert_wf nonces txs s IH Hn) as (? & ? & ?);
      [by eapply insert_Ret_mempool_tx|done|congruence].
  - destruct (next_transaction_wf s f IH) as (? & ? & ? & ?). congruence.
  - destruct (rollback_wf s t IH Hl) as (? & ? & ? & ?). congruence.
  - by apply get_mempool_info_wf.
Qed.


(** C38: The next transaction is the pending L1 transaction with the next priority id if there is
    one, and the next id moves on with nothing else changed; otherwise it is the executable L2
    transaction that arrived first among those the filter admits, and none if the filter admits no account's executable transaction. Taking an L2
    transaction advances its account's nonce, stashes exactly the accounts whose executable
    transaction arrived earlier but was not admitted, and leaves the other accounts alone.
    [has_next] tells in advance whether there is a next transaction. *)
Theorem next_transaction_selects s f :
  reachable s ->
  (has_next s f = true <-> exists s' t, next_transaction s f = Ret (s', Some t)) /\
  match l1_transactions s !! next_priority_id s with
  | Some l1 =>
      l1tx_serial_id l1 = next_priority_id s /\
      exists s', next_transaction s f = Ret (s', Some (transaction_of_l1 l1)) /\
        l1_transactions s' = delete (next_priority_id s) (l1_transactions s) /\
        next_priority_id s' = wrap 64 (next_priority_id s + 1) /\
        l2_transactions_per_account s' = l2_transactions_per_account s /\
        l2_priority_queue s' = l2_priority_queue s /\
        stashed_accounts s' = stashed_accounts s /\ store_size s' = store_size s
  | None =>
      (next_transaction s f = Ret (s, None) /\
       forall sc, pointer (l2_transactions_per_account s) sc -> matches_filter sc f = false) \/
      exists txs tx txs' stashed s',
        let a := l2tx_initiator_account tx in
        let sc := score_for_transaction tx in
        next_transaction s f = Ret (s', Some (transaction_of_l2 tx)) /\
        l2_transactions_per_account s !! a = Some txs /\ head_tx txs = Some tx /\
        matches_filter sc f = true /\
        (forall sc', pointer (l2_transactions_per_account s) sc' -> matches_filter sc' f = true ->
           sc' = sc \/ score_lt sc' sc) /\
        (forall b, b ∈ stashed <-> exists sc', score_account sc' = b /\
           pointer (l2_transactions_per_account s) sc' /\ score_lt sc sc') /\
        stashed_accounts s' = stashed_accounts s ++ stashed /\
        l1_transactions s' = l1_transactions s /\ next_priority_id s' = next_priority_id s /\
        transactions txs' = delete (account_nonce txs) (transactions txs) /\
        account_nonce txs' = wrap 32 (account_nonce txs + 1) /\
        (forall b, l2_transactions_per_account s' !! b =
           after_take (l2_transactions_per_account s) a txs' stashed b)
  end.
Proof.
  intros Hwf%reachable_is_wf. split; [by apply has_next_spec|].
  destruct (l1_transactions s !! next_priority_id s) as [l1|] eqn:HL1.
  { split; [by apply (wf_l1 _ Hwf)|]. unfold next_transaction. rewrite HL1. by eexists. }
  pose proof (queue_elem _ _ (wf_queue _ Hwf)) as He.
  pose proof (queue_sorted _ _ (wf_queue _ Hwf)) as Hs.
  destruct (rfind (fun el => matches_filter el f) (l2_priority_queue s)) as [p|] eqn:Hf.
  2: { left. unfold next_transaction. rewrite HL1, Hf. split; [done|].
       apply rfind_None in Hf. rewrite Forall_forall in Hf. intros sc Hsc%He. by apply Hf. }
  right. destruct (rfind_Some _ _ _ Hf) as (low & high & Hq & Hp & Hhigh).
  destruct (next_l2_transaction s f low p high Hwf HL1 Hf Hq)
    as (txs & tx & txs' & s' & Hn & Ha & Htx & -> & Htr & Hno & Hacc & Hst & Hl1 & Hid & _).
  rewrite Forall_forall in Hhigh. rewrite Hq in He, Hs.
  exists txs, tx, txs', (score_account <$> high), s'. split_and!; try done.
  - intros sc' [Hin|[->|Hin]%elem_of_cons]%He%elem_of_app Hm.
    + right. eapply StronglySorted_app_1_elem_of; [exact Hs|done|left].
    + by left.
    + rewrite (Hhigh _ Hin) in Hm. done.
  - apply StronglySorted_app_1_r in Hs as Hr. apply StronglySorted_cons in Hr as [Hr _].
    rewrite Forall_forall in Hr. intros b. rewrite list_elem_of_fmap. split.
    + intros (sc' & -> & Hin). exists sc'. split; [done|]. split; [apply He; set_solver|by apply Hr].
    + intros (sc' & <- & [Hin|[->|Hin]%elem_of_cons]%He%elem_of_app & Hlt).
      * assert (score_lt sc' (score_for_transaction tx)).
        { eapply StronglySorted_app_1_elem_of; [exact Hs|done|left]. }
        unfold score_lt in *. lia.
      * by apply score_lt_irrefl in Hlt.
      * by exists sc'.
Qed.

Lemma queue_for_unique accounts q1 q2 : queue_for accounts q1 -> queue_for accounts q2 -> q1 = q2.
Proof. intros [Hs1 He1] [Hs2 He2]. apply queue_ext; [done..|]. intros sc. by rewrite He1, He2. Qed.

(** Well-formed stores are determined by their transactions and counters. *)
Lemma wf_store_ext s1 s2 :
  wf s1 -> wf s2 -> l1_transactions s1 = l1_transactions s2 ->
  l2_transactions_per_account s1 = l2_transactions_per_account s2 ->
  next_priority_id s1 = next_priority_id s2 -> stashed_accounts s1 = stashed_accounts s2 ->
  capacity s1 = capacity s2 -> s1 = s2.
Proof.
  intros H1 H2. pose proof (wf_queue _ H1) as Hq1. pose proof (wf_queue _ H2) as Hq2.
  pose proof (wf_size _ H1) as Hs1. pose proof (wf_size _ H2) as Hs2. clear H1 H2.
  destruct s1, s2. cbn in *. intros -> Heq -> -> ->. subst.
  by rewrite (queue_for_unique _ _ _ Hq1 Hq2).
Qed.

(** Rolling back and re-inserting on the level of one account. *)
Lemma account_take_reset_insert txs txs' tx :
  wf_txs (l2tx_initiator_account tx) txs -> head_tx txs = Some tx ->
  transactions txs' = delete (account_nonce txs) (transactions txs) ->
  account_nonce txs' = account_nonce txs + 1 ->
  (account_insert {| transactions := transactions txs';
                     account_nonce := Z.min (account_nonce txs') (account_nonce txs) |} tx).1 = txs.
Proof.
  intros [_ Hwf] Htx Htr Hno. unfold account_insert. cbn.
  destruct (Hwf _ _ Htx) as (Hn & _ & _). rewrite Hno, Hn, Z.min_r, Z.ltb_irrefl by lia. cbn.
  rewrite Htr, insert_delete_id by done. by destruct txs.
Qed.

Lemma insert_one_l2 nonces s tx :
  insert_one nonces s (transaction_of_l2 tx) = Ret (insert_l2_transaction s tx nonces).
Proof. by destruct tx. Qed.

Lemma insert_l2_accounts s tx nonces txs :
  l2_transactions_per_account s !! l2tx_initiator_account tx = Some txs ->
  l2_transactions_per_account (insert_l2_transaction s tx nonces) =
  <[l2tx_initiator_account tx := (account_insert txs tx).1]> (l2_transactions_per_account s).
Proof. intros Ha. unfold insert_l2_transaction. rewrite Ha. by destruct (account_insert txs tx). Qed.

Lemma insert_l2_frame s tx nonces :
  l1_transactions (insert_l2_transaction s tx nonces) = l1_transactions s /\
  next_priority_id (insert_l2_transaction s tx nonces) = next_priority_id s /\
  stashed_accounts (insert_l2_transaction s tx nonces) = stashed_accounts s /\
  capacity (insert_l2_transaction s tx nonces) = capacity s.
Proof. unfold insert_l2_transaction. by destruct (account_insert _ tx). Qed.

Lemma take_rollback_insert_l2 s s' s'' txs tx txs' nonces :
  wf s -> wf s'' -> nonces_ok nonces -> store_size s'' + 1 < 2 ^ 64 ->
  l2_transactions_per_account s !! l2tx_initiator_account tx = Some txs -> head_tx txs = Some tx ->
  transactions txs' = delete (account_nonce txs) (transactions txs) ->
  account_nonce txs' = account_nonce txs + 1 -> account_nonce txs < 2 ^ 32 - 1 ->
  l2_transactions_per_account s' =
    <[l2tx_initiator_account tx := txs']> (l2_transactions_per_account s) ->
  l1_transactions s' = l1_transactions s -> next_priority_id s' = next_priority_id s ->
  stashed_accounts s' = stashed_accounts s -> capacity s' = capacity s ->
  rollback s' (transaction_of_l2 tx) = Ret s'' ->
  insert_l2_transaction s'' tx nonces = s.
Proof.
  intros Hwf Hwf'' Hn Hb Ha Htx Htr Hno Hmax Hacc E1 E2 E3 E4. unfold rollback.
  change (common_data (transaction_of_l2 tx)) with (L2 (l2_common_data tx)).
  change (initiator_account (transaction_of_l2 tx)) with (l2tx_initiator_account tx). cbn iota.
  rewrite Hacc, lookup_insert_eq. cbn [expect mbind outcome_bind].
  unfold account_reset. cbn [nonce common_data transaction_of_l2 expect mbind outcome_bind].
  rewrite insert_insert_eq. pose proof (wf_per_account _ Hwf _ _ Ha) as Hwt.
  pose proof (account_take_reset_insert _ _ _ Hwt Htx Htr Hno) as Hback.
  destruct (proj2 Hwt _ _ Htx) as (Hnonce & _ & _). rewrite Hnonce.
  intros [= <-]. destruct (insert_l2_transaction_wf _ tx nonces Hwf'' Hn Hb) as [Hwf3 _].
  match type of Hwf3 with wf (insert_l2_transaction ?x _ _) =>
    destruct (insert_l2_frame x tx nonces) as (F1 & F2 & F3 & F4);
    pose proof (insert_l2_accounts x tx nonces _ (lookup_insert_eq _ _ _)) as Hins
  end.
  apply wf_store_ext; [assumption|assumption|exact (eq_trans F1 E1)| |exact (eq_trans F2 E2)
    |exact (eq_trans F3 E3)|exact (eq_trans F4 E4)].
  rewrite Hins. cbn. rewrite insert_insert_eq, Hback. by apply insert_id.
Qed.

(** Rolling back a transaction right after taking it and inserting it again restores the
    store, provided taking it stashed no account (and no counter is at its maximal value). *)
Theorem take_rollback_insert_restores s s' f t nonces :
  reachable s -> nonces_ok nonces -> next_transaction s f = Ret (s', Some t) ->
  stashed_accounts s' = stashed_accounts s ->
  0 <= next_priority_id s < 2 ^ 64 - 1 -> default 0 (nonce t) < 2 ^ 32 - 1 ->
  exists s'', rollback s' t = Ret s'' /\ insert s'' [t] nonces = Ret s.
Proof.
  intros Hwf%reachable_is_wf Hn Hnext Hst Hid Hnonce.
  destruct (l1_transactions s !! next_priority_id s) as [l1|] eqn:HL1.
  { unfold next_transaction in Hnext. rewrite HL1 in Hnext. injection Hnext as <- <-.
    pose proof (wf_l1 _ Hwf _ _ HL1) as Hser. unfold l1tx_serial_id in Hser.
    eexists. split; [reflexivity|]. unfold insert. cbn. rewrite Hser, wrap_small by (split; lia).
    unfold insert_l1_transaction, l1tx_serial_id. cbn. rewrite Hser, Z.min_r by lia.
    destruct l1. cbn. rewrite insert_delete_id by done. by destruct s. }
  destruct (rfind (fun el => matches_filter el f) (l2_priority_queue s)) as [p|] eqn:Hf.
  2: { unfold next_transaction in Hnext. by rewrite HL1, Hf in Hnext. }
  destruct (rfind_Some _ _ _ Hf) as (low & high & Hq & _).
  destruct (next_l2_transaction s f low p high Hwf HL1 Hf Hq)
    as (txs & tx & txs' & s1 & Hn1 & Ha & Htx & -> & Htr & Hno & Hacc & Hst1 & E1 & E2 & E4 & Hwf1 & Hlt).
  rewrite Hn1 in Hnext. injection Hnext as -> <-. rewrite Hst in Hst1.
  assert (high = []) as -> by (apply (fmap_nil_inv score_account); symmetry;
    apply (app_inv_head (stashed_accounts s)); by rewrite app_nil_r).
  change (score_account (score_for_transaction tx)) with (l2tx_initiator_account tx) in *.
  pose proof (wf_per_account _ Hwf _ _ Ha) as [Hpos Hwt]. destruct (Hwt _ _ Htx) as (Hnn & _ & _).
  cbn in Hnonce. rewrite wrap_small in Hno by (split; lia).
  assert (l2_transactions_per_account s' =
    <[l2tx_initiator_account tx := txs']> (l2_transactions_per_account s)) as Hacc'.
  { apply map_eq. intros b. rewrite Hacc. unfold after_take. case_decide as Hb.
    - by rewrite Hb, lookup_insert_eq.
    - rewrite lookup_insert_ne by congruence. by rewrite decide_False by apply not_elem_of_nil. }
  destruct (rollback_wf s' (transaction_of_l2 tx) Hwf1) as (s'' & Hr & Hwf'' & Hs'').
  { exists txs'. rewrite Hacc'. split; [apply lookup_insert_eq|]. lia. }
  exists s''. split; [done|]. unfold insert. cbn [foldM]. rewrite insert_one_l2, outcome_Ret_bind.
  f_equal. pose proof (wf_bound _ Hwf).
  apply (take_rollback_insert_l2 s s' s'' txs tx txs' nonces); try done; lia.
Qed.

(** Garbage collection runs only when the store is full; it purges exactly the accounts
    without an executable transaction, keeps every other account and the queue as they are, and
    the mempool afterwards hands out the same transaction as before. *)
Theorem gc_purges_only_idle_accounts s f :
  reachable s ->
  (store_size s < capacity s -> gc s = (s, [])) /\
  (capacity s <= store_size s -> forall a,
     l2_transactions_per_account (gc s).1 !! a =
       (txs ← l2_transactions_per_account s !! a; if head_tx txs is Some _ then Some txs else None) /\
     (a ∈ (gc s).2 <->
        exists txs, l2_transactions_per_account s !! a = Some txs /\ head_tx txs = None)) /\
  has_next (gc s).1 f = has_next s f /\
  (forall s1 s2 t1 t2, next_transaction s f = Ret (s1, t1) ->
     next_transaction (gc s).1 f = Ret (s2, t2) -> t1 = t2).
Proof.
  intros Hwf%reachable_is_wf. destruct (gc_wf s Hwf) as [Hwf' Hq].
  assert (l1_transactions (gc s).1 = l1_transactions s /\
          next_priority_id (gc s).1 = next_priority_id s) as [E1 E2].
  { unfold gc. by case_match. }
  split_and!.
  - intros Hlt. unfold gc. by rewrite (proj2 (Z.leb_gt _ _) Hlt).
  - intros Hle a. by apply gc_accounts.
  - unfold has_next. by rewrite E1, E2, Hq.
  - intros s1 s2 t1 t2.
    destruct (l1_transactions s !! next_priority_id s) as [l1|] eqn:HL1.
    { unfold next_transaction. rewrite E1, E2, HL1. congruence. }
    destruct (rfind (fun el => matches_filter el f) (l2_priority_queue s)) as [p|] eqn:Hf.
    2: { unfold next_transaction. rewrite E1, E2, HL1, Hq, Hf. congruence. }
    destruct (rfind_Some _ _ _ Hf) as (low & high & Hlh & _).
    destruct (next_l2_transaction s f low p high Hwf HL1 Hf Hlh) as (x1 & y1 & ? & ? & H1 & A1 & T1 & _).
    destruct (next_l2_transaction (gc s).1 f low p high Hwf') as (x2 & y2 & ? & ? & H2 & A2 & T2 & _);
      [congruence..|].
    rewrite H1, H2. intros [= _ <-] [= _ <-].
    destruct (Z.leb_spec (capacity s) (store_size s)) as [Hle|Hgt].
    + rewrite (proj1 (gc_accounts s _ Hwf Hle)), A1 in A2. cbn in A2. rewrite T1 in A2. congruence.
    + unfold gc in A2. rewrite (proj2 (Z.leb_gt _ _) Hgt) in A2. cbn in A2. congruence.
Qed.

(** ** Instances *)

(** Account 7 has two executable transactions, account 8 one that arrived earlier at a lower fee
    and account 9 one behind a nonce gap. *)
Definition sample_tx (account nonce received fee : Z) : Transaction :=
  transaction_of_l2
    {| l2_execute := {| contract_address := 1; calldata := []; execute_value := 0; factory_deps := [] |};
       l2_common_data :=
         {| l2_nonce := nonce;
            l2_fee := {| fee_gas_limit := 100; fee_max_fee_per_gas := fee;
                         fee_max_priority_fee_per_gas := 0; fee_gas_per_pubdata_limit := 50 |};
            l2_initiator_address := account; l2_signature := [];
            l2_transaction_type := EIP1559Transaction; l2_input := None;
            l2_paymaster_params := {| paymaster := 0; paymaster_input := [] |} |};
       l2_received_timestamp_ms := received; l2_raw_bytes := None |}.

Definition sample_store : MempoolStore :=
  match insert (store_new 0 3) [sample_tx 7 0 20 9; sample_tx 7 1 30 9; sample_tx 8 0 10 3;
                                sample_tx 9 1 5 9] ∅ with
  | Ret s => s
  | Panics _ => store_new 0 0
  end.

Definition sample_filter (fee : Z) : L2TxFilter :=
  {| fee_input := l1_pegged 1 1; fee_per_gas := fee; gas_per_pubdata := 1 |}.

Definition sample_taken (fee : Z) : MempoolStore * option Transaction :=
  match next_transaction sample_store (sample_filter fee) with
  | Ret r => r
  | Panics _ => (sample_store, None)
  end.

Lemma sample_store_reachable : reachable sample_store.
Proof.
  apply (reach_insert (store_new 0 3) _
    [sample_tx 7 0 20 9; sample_tx 7 1 30 9; sample_tx 8 0 10 3; sample_tx 9 1 5 9] ∅).
  - apply reach_new.
  - intros a n [=].
  - vm_compute. reflexivity.
  - vm_compute. reflexivity.
Qed.


Lemma next_transaction_selects_witness :
  (has_next sample_store (sample_filter 5) = true <->
   exists s' t, next_transaction sample_store (sample_filter 5) = Ret (s', Some t)) /\
  stashed_accounts (sample_taken 5).1 = [8] /\ (sample_taken 5).2 = Some (sample_tx 7 0 20 9).
Proof.
  split; [apply (next_transaction_selects sample_store (sample_filter 5) sample_store_reachable)|].
  vm_compute. split; reflexivity.
Defined.

Lemma take_rollback_insert_restores_witness :
  exists s'', rollback (sample_taken 2).1 (sample_tx 8 0 10 3) = Ret s'' /\
    insert s'' [sample_tx 8 0 10 3] ∅ = Ret sample_store.
Proof.
  apply (take_rollback_insert_restores sample_store (sample_taken 2).1 (sample_filter 2)).
  - exact sample_store_reachable.
  - intros a n [=].
  - vm_compute. reflexivity.
  - vm_compute. reflexivity.
  - vm_compute. split; [discriminate|reflexivity].
  - vm_compute. reflexivity.
Defined.

Lemma gc_purges_only_idle_accounts_witness :
  capacity sample_store <= store_size sample_store /\ (gc sample_store).2 = [9] /\
  has_next (gc sample_store).1 (sample_filter 5) = has_next sample_store (sample_filter 5).
Proof.
  split; [vm_compute; discriminate|]. split; [vm_compute; reflexivity|].
  apply (gc_purges_only_idle_accounts sample_store (sample_filter 5) sample_store_reachable).
Defined.
