(* ===== verification/Abi.v ===== *)
(** * ABI structures

    Model of [src/core/lib/types/src/abi.rs]: the Solidity structures that describe priority
    requests and protocol upgrades, and their conversion to and from ABI tokens.

    The [ethabi] crate is an interface: its tokens and the functions on them that the code
    calls, with the documented behaviour as laws.  Hashes are parameters. *)

From S2P Require Import Prelude Bytes Utils.
Open Scope Z_scope.

(** ** The interface of [ethabi] *)

(** [ethabi::ParamType], the variants that occur in schemas. *)
Inductive ParamType : Type :=
| PAddress
| PBytes
| PUint (bits : Z)
| PFixedBytes (size : nat)
| PArray (t : ParamType)
| PFixedArray (t : ParamType) (size : nat)
| PTuple (ts : list ParamType).

Class EthAbi := {
  Token : Type;
  TokenAddress : Z -> Token;
  TokenUint : Z -> Token;
  TokenBytes : list Z -> Token;
  TokenFixedBytes : list Z -> Token;
  TokenArray : list Token -> Token;
  TokenFixedArray : list Token -> Token;
  TokenTuple : list Token -> Token;
  into_address : Token -> option Z;
  into_uint : Token -> option Z;
  into_bytes : Token -> option (list Z);
  into_fixed_bytes : Token -> option (list Z);
  into_array : Token -> option (list Token);
  into_fixed_array : Token -> option (list Token);
  into_tuple : Token -> option (list Token);
  abi_encode : list Token -> list Z;
  abi_decode : list ParamType -> list Z -> result (list Token) string;
}.

(** The token is a value of the parameter type. *)
Inductive has_type `{EthAbi} : Token -> ParamType -> Prop :=
| address_type z : unsigned 160 z -> has_type (TokenAddress z) PAddress
| uint_type w z : w <= 256 -> unsigned w z -> has_type (TokenUint z) (PUint w)
| bytes_type b : bytes b -> has_type (TokenBytes b) PBytes
| fixed_bytes_type n b : bytes b -> length b = n -> has_type (TokenFixedBytes b) (PFixedBytes n)
| array_type t ts : Forall (fun x => has_type x t) ts -> has_type (TokenArray ts) (PArray t)
| fixed_array_type t n ts :
    Forall (fun x => has_type x t) ts -> length ts = n ->
    has_type (TokenFixedArray ts) (PFixedArray t n)
| tuple_type ts tys : Forall2 has_type ts tys -> has_type (TokenTuple ts) (PTuple tys).

Class EthAbiLaws `{EthAbi} := {
  into_address_law z : into_address (TokenAddress z) = Some z;
  into_uint_law z : into_uint (TokenUint z) = Some z;
  into_bytes_law b : into_bytes (TokenBytes b) = Some b;
  into_fixed_bytes_law b : into_fixed_bytes (TokenFixedBytes b) = Some b;
  into_array_law ts : into_array (TokenArray ts) = Some ts;
  into_fixed_array_law ts : into_fixed_array (TokenFixedArray ts) = Some ts;
  into_tuple_law ts : into_tuple (TokenTuple ts) = Some ts;
  (** decoding validates the input against the types *)
  decode_typed tys data ts : abi_decode tys data = Ok ts -> Forall2 has_type ts tys;
  (** decoding inverts encoding *)
  decode_encode tys ts : Forall2 has_type ts tys -> abi_decode tys (abi_encode ts) = Ok ts;
}.

#[export] Hint Rewrite @into_address_law @into_uint_law @into_bytes_law @into_fixed_bytes_law
  @into_array_law @into_fixed_array_law @into_tuple_law using typeclasses eauto : zk.

(** ** The structures *)

Record L2CanonicalTransaction := {
  canonical_tx_type : Z;
  canonical_from : Z;
  canonical_to : Z;
  canonical_gas_limit : Z;
  canonical_gas_per_pubdata_byte_limit : Z;
  canonical_max_fee_per_gas : Z;
  canonical_max_priority_fee_per_gas : Z;
  canonical_paymaster : Z;
  canonical_nonce : Z;
  canonical_value : Z;
  canonical_reserved : list Z;
  canonical_data : list Z;
  canonical_signature : list Z;
  canonical_factory_deps : list Z;
  canonical_paymaster_input : list Z;
  canonical_reserved_dynamic : list Z;
}.

Record NewPriorityRequest := {
  tx_id : Z;
  tx_hash : list Z;
  expiration_timestamp : Z;
  request_transaction : L2CanonicalTransaction;
  request_factory_deps : list (list Z);
}.

Record AbiVerifierParams := {
  abi_recursion_node_level_vk_hash : list Z;
  abi_recursion_leaf_level_vk_hash : list Z;
  abi_recursion_circuits_set_vks_hash : list Z;
}.

Definition abi_verifier_params_default : AbiVerifierParams :=
  {| abi_recursion_node_level_vk_hash := replicate 32 0;
     abi_recursion_leaf_level_vk_hash := replicate 32 0;
     abi_recursion_circuits_set_vks_hash := replicate 32 0 |}.

#[export] Instance AbiVerifierParams_eq_dec : EqDecision AbiVerifierParams.
Proof. solve_decision. Defined.

Record ProposedUpgrade := {
  l2_protocol_upgrade_tx : L2CanonicalTransaction;
  upgrade_factory_deps : list (list Z);
  bootloader_hash : list Z;
  default_account_hash : list Z;
  verifier : Z;
  verifier_params : AbiVerifierParams;
  l1_contracts_upgrade_calldata : list Z;
  post_upgrade_calldata : list Z;
  upgrade_timestamp : Z;
  new_protocol_version : Z;
}.

(** [abi::Transaction] *)
Inductive AbiTransaction : Type :=
| AbiL1 (tx : L2CanonicalTransaction) (factory_deps : list (list Z)) (eth_block : Z)
| AbiL2 (raw : list Z).

(** ** Schemas *)

Definition canonical_schema : ParamType :=
  PTuple
    [PUint 256; PUint 256; PUint 256; PUint 256; PUint 256; PUint 256; PUint 256; PUint 256;
     PUint 256; PUint 256; PFixedArray (PUint 256) 4; PBytes; PBytes; PArray (PUint 256);
     PBytes; PBytes].

Definition request_schema : list ParamType :=
  [PUint 256; PFixedBytes 32; PUint 64; canonical_schema; PArray PBytes].

Definition verifier_params_schema : ParamType :=
  PTuple [PFixedBytes 32; PFixedBytes 32; PFixedBytes 32].

Definition upgrade_schema : ParamType :=
  PTuple
    [canonical_schema; PArray PBytes; PFixedBytes 32; PFixedBytes 32; PAddress;
     verifier_params_schema; PBytes; PBytes; PUint 256; PUint 256].

(** [<[u8; N]>::try_from(Vec<u8>).ok()] *)
Definition try_into_array {A} (n : nat) (l : list A) : option (list A) :=
  if decide (length l = n) then Some l else None.

(** ** Conversion to tokens and back *)

Section Tokens.
Context `{EthAbi}.

Definition canonical_encode (t : L2CanonicalTransaction) : Token :=
  TokenTuple
    [TokenUint (canonical_tx_type t);
     TokenUint (canonical_from t);
     TokenUint (canonical_to t);
     TokenUint (canonical_gas_limit t);
     TokenUint (canonical_gas_per_pubdata_byte_limit t);
     TokenUint (canonical_max_fee_per_gas t);
     TokenUint (canonical_max_priority_fee_per_gas t);
     TokenUint (canonical_paymaster t);
     TokenUint (canonical_nonce t);
     TokenUint (canonical_value t);
     TokenFixedArray (TokenUint <$> canonical_reserved t);
     TokenBytes (canonical_data t);
     TokenBytes (canonical_signature t);
     TokenArray (TokenUint <$> canonical_factory_deps t);
     TokenBytes (canonical_paymaster_input t);
     TokenBytes (canonical_reserved_dynamic t)].

Definition canonical_decode (token : Token) : result L2CanonicalTransaction string :=
  tokens <-! context (into_tuple token) "not a tuple";;
  match tokens with
  | [t0; t1; t2; t3; t4; t5; t6; t7; t8; t9; t10; t11; t12; t13; t14; t15] =>
      tx_type <-! context (into_uint t0) "tx_type";;
      from <-! context (into_uint t1) "from";;
      to <-! context (into_uint t2) "to";;
      gas_limit <-! context (into_uint t3) "gas_limit";;
      gas_per_pubdata_byte_limit <-! context (into_uint t4) "gas_per_pubdata_byte_limit";;
      max_fee_per_gas <-! context (into_uint t5) "max_fee_per_gas";;
      max_priority_fee_per_gas <-! context (into_uint t6) "max_priority_fee_per_gas";;
      paymaster <-! context (into_uint t7) "paymaster";;
      nonce <-! context (into_uint t8) "nonce";;
      value <-! context (into_uint t9) "value";;
      reserved <-! context (into_fixed_array t10) "reserved";;
      reserved <-! context (mapM into_uint reserved) "reserved";;
      reserved <-! context (try_into_array 4 reserved) "reserved";;
      data <-! context (into_bytes t11) "data";;
      signature <-! context (into_bytes t12) "signature";;
      factory_deps <-! context (into_array t13) "factory_deps";;
      factory_deps <-! context (mapM into_uint factory_deps) "factory_deps";;
      paymaster_input <-! context (into_bytes t14) "paymaster_input";;
      reserved_dynamic <-! context (into_bytes t15) "reserved_dynamic";;
      Ok {| canonical_tx_type := tx_type; canonical_from := from; canonical_to := to;
            canonical_gas_limit := gas_limit;
            canonical_gas_per_pubdata_byte_limit := gas_per_pubdata_byte_limit;
            canonical_max_fee_per_gas := max_fee_per_gas;
            canonical_max_priority_fee_per_gas := max_priority_fee_per_gas;
            canonical_paymaster := paymaster; canonical_nonce := nonce;
            canonical_value := value; canonical_reserved := reserved; canonical_data := data;
            canonical_signature := signature; canonical_factory_deps := factory_deps;
            canonical_paymaster_input := paymaster_input;
            canonical_reserved_dynamic := reserved_dynamic |}
  | _ => Err "tokens.len() == 16"
  end.

Definition request_encode (r : NewPriorityRequest) : list Token :=
  [TokenUint (tx_id r);
   TokenFixedBytes (tx_hash r);
   TokenUint (expiration_timestamp r);
   canonical_encode (request_transaction r);
   TokenArray (TokenBytes <$> request_factory_deps r)].

(** [o.unwrap()] *)
Definition unwrap {A} (o : option A) : outcome A := expect o "called unwrap on a None value".

(** [r.unwrap()] *)
Definition unwrap_result {A E} (r : result A E) : outcome A :=
  match r with
  | Ok a => Ret a
  | Err _ => Panics "called unwrap on an Err value"
  end.

(** [u64::try_from(U256).ok()] *)
Definition try_into_u64 (z : Z) : option Z := if z <? 2 ^ 64 then Some z else None.

Definition request_decode (data : list Z) : outcome (result NewPriorityRequest string) :=
  tokens <-? Ret (abi_decode request_schema data);;
  t0 ← unwrap (tokens !! 0%nat);
  tx_id ← unwrap (into_uint t0);
  t1 ← unwrap (tokens !! 1%nat);
  tx_hash ← unwrap (into_fixed_bytes t1);
  tx_hash ← unwrap (try_into_array 32 tx_hash);
  t2 ← unwrap (tokens !! 2%nat);
  expiration_timestamp ← unwrap (into_uint t2);
  expiration_timestamp ← unwrap (try_into_u64 expiration_timestamp);
  t3 ← unwrap (tokens !! 3%nat);
  transaction ← unwrap_result (canonical_decode t3);
  t4 ← unwrap (tokens !! 4%nat);
  factory_deps ← unwrap (into_array t4);
  factory_deps ← unwrap (mapM into_bytes factory_deps);
  Ret (Ok {| tx_id := tx_id; tx_hash := tx_hash; expiration_timestamp := expiration_timestamp;
             request_transaction := transaction; request_factory_deps := factory_deps |}).

Definition verifier_params_encode (v : AbiVerifierParams) : Token :=
  TokenTuple
    [TokenFixedBytes (abi_recursion_node_level_vk_hash v);
     TokenFixedBytes (abi_recursion_leaf_level_vk_hash v);
     TokenFixedBytes (abi_recursion_circuits_set_vks_hash v)].

(** [token.into_fixed_bytes().and_then(|x| x.try_into().ok())] *)
Definition into_bytes32 (t : Token) : option (list Z) := into_fixed_bytes t ≫= try_into_array 32.

Definition verifier_params_decode (token : Token) : result AbiVerifierParams string :=
  tokens <-! context (into_tuple token) "not a tuple";;
  match tokens with
  | [t0; t1; t2] =>
      node <-! context (into_bytes32 t0) "recursion_node_level_vk_hash";;
      leaf <-! context (into_bytes32 t1) "recursion_leaf_level_vk_hash";;
      circuits <-! context (into_bytes32 t2) "recursion_circuits_set_vks_hash";;
      Ok {| abi_recursion_node_level_vk_hash := node;
            abi_recursion_leaf_level_vk_hash := leaf;
            abi_recursion_circuits_set_vks_hash := circuits |}
  | _ => Err "tokens.len() == 3"
  end.

Definition upgrade_encode (u : ProposedUpgrade) : Token :=
  TokenTuple
    [canonical_encode (l2_protocol_upgrade_tx u);
     TokenArray (TokenBytes <$> upgrade_factory_deps u);
     TokenFixedBytes (bootloader_hash u);
     TokenFixedBytes (default_account_hash u);
     TokenAddress (verifier u);
     verifier_params_encode (verifier_params u);
     TokenBytes (l1_contracts_upgrade_calldata u);
     TokenBytes (post_upgrade_calldata u);
     TokenUint (upgrade_timestamp u);
     TokenUint (new_protocol_version u)].

(** [r.context(msg)?] *)
Definition result_context {A} (r : result A string) (msg : string) : result A string :=
  match r with
  | Ok a => Ok a
  | Err e => Err msg
  end.

Definition upgrade_decode (token : Token) : result ProposedUpgrade string :=
  tokens <-! context (into_tuple token) "not a tuple";;
  match tokens with
  | [t0; t1; t2; t3; t4; t5; t6; t7; t8; t9] =>
      tx <-! result_context (canonical_decode t0) "l2_protocol_upgrade_tx";;
      factory_deps <-! context (into_array t1) "factory_deps";;
      factory_deps <-! context (mapM into_bytes factory_deps) "factory_deps";;
      bootloader_hash <-! context (into_bytes32 t2) "bootloader_hash";;
      default_account_hash <-! context (into_bytes32 t3) "default_account_hash";;
      verifier <-! context (into_address t4) "verifier";;
      verifier_params <-! result_context (verifier_params_decode t5) "verifier_params";;
      l1_calldata <-! context (into_bytes t6) "l1_contracts_upgrade_calldata";;
      post_calldata <-! context (into_bytes t7) "post_upgrade_calldata";;
      timestamp <-! context (into_uint t8) "upgrade_timestamp";;
      version <-! context (into_uint t9) "new_protocol_version";;
      Ok {| l2_protocol_upgrade_tx := tx; upgrade_factory_deps := factory_deps;
            bootloader_hash := bootloader_hash; default_account_hash := default_account_hash;
            verifier := verifier; verifier_params := verifier_params;
            l1_contracts_upgrade_calldata := l1_calldata;
            post_upgrade_calldata := post_calldata; upgrade_timestamp := timestamp;
            new_protocol_version := version |}
  | _ => Err "tokens.len() == 10"
  end.
End Tokens.

(** ** Hashes *)

Section Hashes.
Context `{EthAbi}.
(** [web3::keccak256] *)
Variable keccak256 : list Z -> list Z.
(** [zk_evm::zkevm_opcode_defs::utils::bytecode_to_code_hash] *)
Variable bytecode_to_code_hash : list (list Z) -> option Z.

Definition canonical_hash (t : L2CanonicalTransaction) : Z :=
  be_value (keccak256 (abi_encode [canonical_encode t])).

(** [factory_deps.iter().map(|b| h256_to_u256(hash_bytecode(b))).collect()] *)
Fixpoint factory_deps_hashes (factory_deps : list (list Z)) : outcome (list Z) :=
  match factory_deps with
  | [] => Ret []
  | b :: deps =>
      h ← hash_bytecode bytecode_to_code_hash b;
      hs ← factory_deps_hashes deps;
      Ret (h256_to_u256 h :: hs)
  end.

(** The [L1] arm of [abi::Transaction::hash]. *)
Definition abi_l1_hash (tx : L2CanonicalTransaction) (factory_deps : list (list Z)) :
    outcome (result Z string) :=
  hashes ← factory_deps_hashes factory_deps;
  _ <-? ensure (bool_decide (canonical_factory_deps tx = hashes)) "tx.factory_deps";;
  Ret (Ok (canonical_hash tx)).
End Hashes.

(** ** Well-formed structures: the values of the fields' types *)

Record wf_canonical (t : L2CanonicalTransaction) : Prop := {
  wf_words : Forall (unsigned 256)
    [canonical_tx_type t; canonical_from t; canonical_to t; canonical_gas_limit t;
     canonical_gas_per_pubdata_byte_limit t; canonical_max_fee_per_gas t;
     canonical_max_priority_fee_per_gas t; canonical_paymaster t; canonical_nonce t;
     canonical_value t];
  wf_reserved : Forall (unsigned 256) (canonical_reserved t);
  wf_reserved_length : length (canonical_reserved t) = 4%nat;
  wf_strings : Forall bytes
    [canonical_data t; canonical_signature t; canonical_paymaster_input t;
     canonical_reserved_dynamic t];
  wf_deps : Forall (unsigned 256) (canonical_factory_deps t);
}.

Definition bytes32 (l : list Z) : Prop := bytes l /\ length l = 32%nat.

Record wf_request (r : NewPriorityRequest) : Prop := {
  wf_tx_id : unsigned 256 (tx_id r);
  wf_tx_hash : bytes32 (tx_hash r);
  wf_expiration : unsigned 64 (expiration_timestamp r);
  wf_request_transaction : wf_canonical (request_transaction r);
  wf_request_deps : Forall bytes (request_factory_deps r);
}.

Definition wf_verifier_params (v : AbiVerifierParams) : Prop :=
  bytes32 (abi_recursion_node_level_vk_hash v) /\ bytes32 (abi_recursion_leaf_level_vk_hash v) /\
  bytes32 (abi_recursion_circuits_set_vks_hash v).

Record wf_upgrade (u : ProposedUpgrade) : Prop := {
  wf_upgrade_tx : wf_canonical (l2_protocol_upgrade_tx u);
  wf_upgrade_deps : Forall bytes (upgrade_factory_deps u);
  wf_hashes : bytes32 (bootloader_hash u) /\ bytes32 (default_account_hash u);
  wf_verifier : unsigned 160 (verifier u);
  wf_params : wf_verifier_params (verifier_params u);
  wf_calldata : bytes (l1_contracts_upgrade_calldata u) /\ bytes (post_upgrade_calldata u);
  wf_version : unsigned 256 (upgrade_timestamp u) /\ unsigned 256 (new_protocol_version u);
}.

(** Steps through a sequence of token conversions. *)
Ltac read_tokens :=
  repeat (first [progress (autorewrite with zk)
                |progress (cbn [try_result context result_context mbind option_bind])]).

Section TokenLemmas.
Context `{EthAbiLaws}.

Lemma mapM_left_inverse {A B} (f : B -> option A) (g : A -> B) l :
  (forall x, f (g x) = Some x) -> mapM f (g <$> l) = Some l.
Proof. intros Hfg. induction l as [|x l IH]; [done|]. cbn. rewrite Hfg. cbn. by rewrite IH. Qed.

Lemma try_into_array_length {A} n (l : list A) : length l = n -> try_into_array n l = Some l.
Proof. intros Hl. unfold try_into_array. by rewrite decide_True. Qed.

Lemma into_bytes32_law b : length b = 32%nat -> into_bytes32 (TokenFixedBytes b) = Some b.
Proof. intros Hb. unfold into_bytes32. autorewrite with zk. by apply try_into_array_length. Qed.

Lemma canonical_decode_encode t :
  length (canonical_reserved t) = 4%nat -> canonical_decode (canonical_encode t) = Ok t.
Proof.
  intros Hr. unfold canonical_decode, canonical_encode. read_tokens.
  rewrite (mapM_left_inverse into_uint TokenUint) by apply into_uint_law. read_tokens.
  rewrite try_into_array_length by done. read_tokens.
  rewrite (mapM_left_inverse into_uint TokenUint) by apply into_uint_law. read_tokens.
  by destruct t.
Qed.

Lemma verifier_params_decode_encode v :
  wf_verifier_params v -> verifier_params_decode (verifier_params_encode v) = Ok v.
Proof.
  intros ([_ H1] & [_ H2] & [_ H3]). unfold verifier_params_decode, verifier_params_encode.
  read_tokens. rewrite !into_bytes32_law by done. read_tokens. by destruct v.
Qed.

Lemma upgrade_decode_encode u : wf_upgrade u -> upgrade_decode (upgrade_encode u) = Ok u.
Proof.
  intros [[_ _ Hr _ _] _ [[_ Hb] [_ Hd]] _ Hv _ _]. unfold upgrade_decode, upgrade_encode.
  read_tokens. rewrite canonical_decode_encode by done. read_tokens.
  rewrite (mapM_left_inverse into_bytes TokenBytes) by apply into_bytes_law. read_tokens.
  rewrite !into_bytes32_law by done. read_tokens.
  rewrite verifier_params_decode_encode by done. read_tokens. by destruct u.
Qed.

(** *** Tokens of the schemas' types *)

Lemma Forall_has_type {A} (P : A -> Prop) (f : A -> Token) t l :
  (forall x, P x -> has_type (f x) t) -> Forall P l -> Forall (fun x => has_type x t) (f <$> l).
Proof. intros Hf Hl. apply Forall_fmap. eapply Forall_impl; [exact Hl|exact Hf]. Qed.

Lemma has_type_Forall {A} (P : A -> Prop) (f : A -> Token) t ts :
  (forall x, has_type x t -> exists a, x = f a /\ P a) ->
  Forall (fun x => has_type x t) ts -> exists l, ts = f <$> l /\ Forall P l.
Proof.
  intros Hf. induction 1 as [|x ts (a & -> & Ha)%Hf _ (l & -> & Hl)]; [by exists []|].
  exists (a :: l). split; [done|]. by constructor.
Qed.

Lemma canonical_typed t : wf_canonical t -> has_type (canonical_encode t) canonical_schema.
Proof.
  intros [Hw Hr Hl Hs Hd]. decompose_Forall_hyps. apply tuple_type.
  repeat (apply Forall2_cons_2; [try (constructor; first [assumption|lia])|]); try apply Forall2_nil_2.
  - apply fixed_array_type; [|by rewrite length_fmap].
    apply (Forall_has_type (unsigned 256)); [by constructor|done].
  - apply array_type, (Forall_has_type (unsigned 256)); [by constructor|done].
Qed.

Lemma uint_inv w t : has_type t (PUint w) -> exists z, t = TokenUint z /\ unsigned w z.
Proof. inversion 1; subst. by eexists. Qed.

Lemma bytes_inv t : has_type t PBytes -> exists b, t = TokenBytes b /\ bytes b.
Proof. inversion 1; subst. by eexists. Qed.

Lemma fixed_bytes_inv t : has_type t (PFixedBytes 32) -> exists b, t = TokenFixedBytes b /\ bytes32 b.
Proof. inversion 1; subst. by eexists. Qed.

Lemma address_inv t : has_type t PAddress -> exists z, t = TokenAddress z /\ unsigned 160 z.
Proof. inversion 1; subst. by eexists. Qed.

Lemma array_inv t ty : has_type t (PArray ty) ->
  exists ts, t = TokenArray ts /\ Forall (fun x => has_type x ty) ts.
Proof. inversion 1; subst. by eexists. Qed.

Lemma fixed_array_inv t ty n : has_type t (PFixedArray ty n) ->
  exists ts, t = TokenFixedArray ts /\ Forall (fun x => has_type x ty) ts /\ length ts = n.
Proof. inversion 1; subst. by eexists. Qed.

Lemma tuple_inv t tys : has_type t (PTuple tys) -> exists ts, t = TokenTuple ts /\ Forall2 has_type ts tys.
Proof. inversion 1; subst. by eexists. Qed.

Lemma uints_inv w ts : Forall (fun x => has_type x (PUint w)) ts ->
  exists l, ts = TokenUint <$> l /\ Forall (unsigned w) l.
Proof. apply has_type_Forall, uint_inv. Qed.

Lemma bytess_inv ts : Forall (fun x => has_type x PBytes) ts ->
  exists l, ts = TokenBytes <$> l /\ Forall bytes l.
Proof. apply has_type_Forall, bytes_inv. Qed.
End TokenLemmas.

(** Inverts typing hypotheses down to the values of the tokens. *)
Ltac invert_types :=
  repeat match goal with
    | H : Forall2 has_type _ (_ :: _) |- _ =>
        apply Forall2_cons_inv_r in H as (? & ? & ? & ? & ->)
    | H : Forall2 has_type _ [] |- _ => apply Forall2_nil_inv_r in H as ->
    | H : has_type _ (PUint _) |- _ => apply uint_inv in H as (? & -> & ?)
    | H : has_type _ PBytes |- _ => apply bytes_inv in H as (? & -> & ?)
    | H : has_type _ (PFixedBytes 32) |- _ => apply fixed_bytes_inv in H as (? & -> & ?)
    | H : has_type _ PAddress |- _ => apply address_inv in H as (? & -> & ?)
    | H : has_type _ (PTuple _) |- _ => apply tuple_inv in H as (? & -> & ?)
    | H : has_type _ (PArray _) |- _ => apply array_inv in H as (? & -> & ?)
    | H : has_type _ (PFixedArray _ _) |- _ => apply fixed_array_inv in H as (? & -> & ? & ?)
    | H : Forall (fun x => has_type x (PUint _)) _ |- _ => apply uints_inv in H as (? & -> & ?)
    | H : Forall (fun x => has_type x PBytes) _ |- _ => apply bytess_inv in H as (? & -> & ?)
    end.

Section TypedTokens.
Context `{EthAbiLaws}.

Lemma canonical_of_typed token :
  has_type token canonical_schema -> exists t, token = canonical_encode t /\ wf_canonical t.
Proof.
  unfold canonical_schema. intros Ht. invert_types.
  match goal with Hl : length (TokenUint <$> _) = _ |- _ => rewrite length_fmap in Hl end.
  eexists {| canonical_tx_type := _; canonical_reserved := _ |}.
  split; [unfold canonical_encode; reflexivity|]. split; cbn; try assumption.
  all: repeat (apply Forall_cons_2; [assumption|]); apply Forall_nil_2.
Qed.

Lemma request_typed r : wf_request r -> Forall2 has_type (request_encode r) request_schema.
Proof.
  intros [Hid [Hh Hl] He Ht Hd]. repeat (apply Forall2_cons_2; [try (by constructor)|]);
    try apply Forall2_nil_2.
  - by apply canonical_typed.
  - apply array_type, (Forall_has_type bytes); [by constructor|done].
Qed.

Lemma request_of_typed ts :
  Forall2 has_type ts request_schema -> exists r, ts = request_encode r /\ wf_request r.
Proof.
  unfold request_schema. intros Ht.
  repeat (apply Forall2_cons_inv_r in Ht as (? & ? & ? & Ht & ->)).
  match goal with H : has_type _ canonical_schema |- _ =>
    apply canonical_of_typed in H as (? & -> & ?) end.
  invert_types. eexists {| tx_id := _ |}.
  split; [unfold request_encode; reflexivity|]. by split.
Qed.

Lemma request_decode_tokens data r :
  wf_request r -> abi_decode request_schema data = Ok (request_encode r) ->
  request_decode data = Ret (Ok r).
Proof.
  intros [Hid [Hh Hl] He [_ _ Hr _ _] Hd] Hdec. unfold request_decode, unwrap. rewrite Hdec.
  cbn -[into_uint]. autorewrite with zk. cbn. autorewrite with zk. cbn.
  rewrite try_into_array_length by done. cbn. autorewrite with zk. cbn.
  unfold try_into_u64. rewrite (proj2 (Z.ltb_lt _ _)) by apply He. cbn.
  rewrite canonical_decode_encode by done. cbn. autorewrite with zk. cbn.
  rewrite (mapM_left_inverse into_bytes TokenBytes) by apply into_bytes_law. cbn. by destruct r.
Qed.

Lemma verifier_params_typed v :
  wf_verifier_params v -> has_type (verifier_params_encode v) verifier_params_schema.
Proof. intros ([] & [] & []). apply tuple_type. by repeat constructor. Qed.

Lemma verifier_params_of_typed token :
  has_type token verifier_params_schema ->
  exists v, token = verifier_params_encode v /\ wf_verifier_params v.
Proof.
  unfold verifier_params_schema. intros Ht. invert_types.
  eexists {| abi_recursion_node_level_vk_hash := _ |}.
  split; [unfold verifier_params_encode; reflexivity|]. by split.
Qed.

Lemma upgrade_typed u : wf_upgrade u -> has_type (upgrade_encode u) upgrade_schema.
Proof.
  intros [Ht Hd [[] []] Hv Hp [] []]. apply tuple_type.
  repeat (apply Forall2_cons_2; [try (by constructor)|]); try apply Forall2_nil_2.
  - by apply canonical_typed.
  - apply array_type, (Forall_has_type bytes); [by constructor|done].
  - by apply verifier_params_typed.
Qed.

Lemma upgrade_of_typed token :
  has_type token upgrade_schema -> exists u, token = upgrade_encode u /\ wf_upgrade u.
Proof.
  unfold upgrade_schema. intros (ts & -> & Ht)%tuple_inv.
  repeat (apply Forall2_cons_inv_r in Ht as (? & ? & ? & Ht & ->)).
  repeat match goal with
    | H : has_type _ canonical_schema |- _ => apply canonical_of_typed in H as (? & -> & ?)
    | H : has_type _ verifier_params_schema |- _ =>
        apply verifier_params_of_typed in H as (? & -> & ?)
    end.
  invert_types. eexists {| l2_protocol_upgrade_tx := _ |}.
  split; [unfold upgrade_encode; reflexivity|]. repeat first [assumption|split].
Qed.
End TypedTokens.

(** ** A concrete codec

    An instance of the interface, which shows that its laws can be satisfied: tokens are a data
    type; words (32 bytes), lengths (in unary) and bytes are written one after the other. *)

Module StreamCodec.

Inductive token : Type :=
| KAddress (z : Z)
| KUint (z : Z)
| KBytes (b : list Z)
| KFixedBytes (b : list Z)
| KArray (ts : list token)
| KFixedArray (ts : list token)
| KTuple (ts : list token).

Definition write_length (n : nat) : list Z := replicate n 1 ++ [0].

Fixpoint write (t : token) : list Z :=
  match t with
  | KAddress z | KUint z => be_bytes 32 z
  | KBytes b => write_length (length b) ++ b
  | KFixedBytes b => b
  | KArray ts => write_length (length ts) ++ flat_map write ts
  | KFixedArray ts | KTuple ts => flat_map write ts
  end.

Fixpoint read_length (l : list Z) : option (nat * list Z) :=
  match l with
  | [] => None
  | b :: l' => if b =? 0 then Some (O, l') else '(n, l'') ← read_length l'; Some (S n, l'')
  end.

Definition read_bytes (n : nat) (l : list Z) : option (list Z * list Z) :=
  if decide (length (take n l) = n /\ Forall (unsigned 8) (take n l))
  then Some (take n l, drop n l) else None.

Definition read_word (w : Z) (l : list Z) : option (Z * list Z) :=
  '(b, l') ← read_bytes 32 l;
  if decide (w <= 256 /\ unsigned w (be_value b)) then Some (be_value b, l') else None.

Fixpoint read_times {A} (f : list Z -> option (A * list Z)) (n : nat) (l : list Z) :
    option (list A * list Z) :=
  match n with
  | O => Some ([], l)
  | S n' => '(x, l') ← f l; '(xs, l'') ← read_times f n' l'; Some (x :: xs, l'')
  end.

Fixpoint read (ty : ParamType) (l : list Z) : option (token * list Z) :=
  match ty with
  | PAddress => '(z, l') ← read_word 160 l; Some (KAddress z, l')
  | PUint w => '(z, l') ← read_word w l; Some (KUint z, l')
  | PBytes => '(n, l') ← read_length l; '(b, l'') ← read_bytes n l'; Some (KBytes b, l'')
  | PFixedBytes n => '(b, l') ← read_bytes n l; Some (KFixedBytes b, l')
  | PArray t =>
      '(n, l') ← read_length l; '(ts, l'') ← read_times (read t) n l'; Some (KArray ts, l'')
  | PFixedArray t n => '(ts, l') ← read_times (read t) n l; Some (KFixedArray ts, l')
  | PTuple tys =>
      '(ts, l') ←
        (fix read_all tys l :=
           match tys with
           | [] => Some ([], l)
           | t :: tys' => '(x, l') ← read t l; '(xs, l'') ← read_all tys' l'; Some (x :: xs, l'')
           end) tys l;
      Some (KTuple ts, l')
  end.

#[export] Instance codec : EthAbi := {
  Token := token;
  TokenAddress := KAddress; TokenUint := KUint; TokenBytes := KBytes;
  TokenFixedBytes := KFixedBytes; TokenArray := KArray; TokenFixedArray := KFixedArray;
  TokenTuple := KTuple;
  into_address t := match t with KAddress z => Some z | _ => None end;
  into_uint t := match t with KUint z => Some z | _ => None end;
  into_bytes t := match t with KBytes b => Some b | _ => None end;
  into_fixed_bytes t := match t with KFixedBytes b => Some b | _ => None end;
  into_array t := match t with KArray ts => Some ts | _ => None end;
  into_fixed_array t := match t with KFixedArray ts => Some ts | _ => None end;
  into_tuple t := match t with KTuple ts => Some ts | _ => None end;
  abi_encode ts := write (KTuple ts);
  abi_decode tys data :=
    match read (PTuple tys) data with
    | Some (KTuple ts, []) => Ok ts
    | _ => Err "Invalid data"
    end;
}.

(** Reading a value gives one of the type, and reads back what was written. *)
Definition reads (ty : ParamType) : Prop :=
  (forall l t l', read ty l = Some (t, l') -> has_type t ty) /\
  (forall t l, has_type t ty -> read ty (write t ++ l) = Some (t, l)).

Lemma read_bytes_app b l : bytes b -> read_bytes (length b) (b ++ l) = Some (b, l).
Proof.
  intros Hb. unfold read_bytes. rewrite take_app_length, drop_app_length.
  rewrite decide_True; [done|]. split; [done|exact Hb].
Qed.

Lemma read_bytes_Some n l b l' : read_bytes n l = Some (b, l') -> bytes b /\ length b = n.
Proof. unfold read_bytes. case_decide as Hd; [|done]. intros [= <- <-]. by destruct Hd. Qed.

Lemma read_word_Some w l z l' : read_word w l = Some (z, l') -> w <= 256 /\ unsigned w z.
Proof.
  unfold read_word. intros ([b l1] & _ & Hz)%bind_Some. case_decide; [|done]. by simplify_eq.
Qed.

Lemma read_word_app w z l :
  w <= 256 -> unsigned w z -> read_word w (be_bytes 32 z ++ l) = Some (z, l).
Proof.
  intros Hw Hz. unfold read_word.
  pose proof (read_bytes_app (be_bytes 32 z) l (be_bytes_bytes 32 z)) as Hr.
  rewrite be_bytes_length in Hr. rewrite Hr. cbn [mbind option_bind].
  assert (be_value (be_bytes 32 z) = z) as ->; [|by rewrite decide_True].
  apply (be_value_be_bytes_unsigned 32 256); [|done].
  split; [apply Hz|]. eapply Z.lt_le_trans; [apply Hz|]. apply Z.pow_le_mono_r; lia.
Qed.

Lemma read_length_app n l : read_length (write_length n ++ l) = Some (n, l).
Proof.
  unfold write_length. rewrite <- app_assoc.
  induction n as [|n IH]; [done|].
  change (read_length (replicate (S n) 1 ++ [0] ++ l))
    with ('(n, l') ← read_length (replicate n 1 ++ [0] ++ l); Some (S n, l')).
  by rewrite IH.
Qed.

Lemma read_times_typed ty : reads ty -> forall n l ts l',
  read_times (read ty) n l = Some (ts, l') -> Forall (fun x => has_type x ty) ts /\ length ts = n.
Proof.
  intros [Hr _] n. induction n as [|n IH]; intros l ts l'; cbn [read_times].
  - intros [= <- <-]. by split.
  - intros ([x l1] & Hx & ([xs l2] & Hxs & [= <- <-])%bind_Some)%bind_Some.
    destruct (IH _ _ _ Hxs) as [Hall Hlen]. split; [|cbn; lia]. constructor; [eauto|done].
Qed.

Lemma read_times_app ty : reads ty -> forall ts l,
  Forall (fun x => has_type x ty) ts ->
  read_times (read ty) (length ts) (flat_map write ts ++ l) = Some (ts, l).
Proof.
  intros [_ Hw] ts l. induction 1 as [|t ts Ht _ IH]; [done|].
  cbn [length flat_map read_times]. rewrite <- app_assoc, (Hw t) by done.
  cbn [mbind option_bind]. by rewrite IH.
Qed.

Lemma reads_word (w : Z) (K : Z -> token) ty :
  (forall l, read ty l = '(z, l') ← read_word w l; Some (K z, l')) ->
  (forall t, has_type t ty <-> exists z, t = K z /\ w <= 256 /\ unsigned w z) ->
  (forall z, write (K z) = be_bytes 32 z) -> reads ty.
Proof.
  intros Hread Htype Hwrite. split.
  - intros l t l'. rewrite Hread. intros ([z l1] & Hz & [= <- <-])%bind_Some.
    apply Htype. exists z. split; [done|]. by eapply read_word_Some.
  - intros t l (z & -> & Hw & Hz)%Htype. rewrite Hread, Hwrite, read_word_app by done. done.
Qed.

Lemma reads_bytes : reads PBytes.
Proof.
  split.
  - intros l t l'. cbn [read]. intros ([n l1] & _ & Hb)%bind_Some.
    apply bind_Some in Hb as ([b l2] & [Hb _]%read_bytes_Some & [= <- <-]).
    by apply (bytes_type (H := codec)).
  - intros t l. inversion 1; subst. cbn [read write TokenBytes codec].
    rewrite <- app_assoc, read_length_app. cbn [mbind option_bind]. by rewrite read_bytes_app.
Qed.

Lemma reads_fixed_bytes n : reads (PFixedBytes n).
Proof.
  split.
  - intros l t l'. cbn. intros ([b l1] & [Hb Hl]%read_bytes_Some & [= <- <-])%bind_Some.
    by apply (fixed_bytes_type (H := codec)).
  - intros t l. inversion 1; subst. cbn. by rewrite read_bytes_app.
Qed.

Lemma reads_array ty : reads ty -> reads (PArray ty).
Proof.
  intros Hty. split.
  - intros l t l'. cbn [read]. intros ([n l1] & _ & Ht)%bind_Some.
    apply bind_Some in Ht as ([ts l2] & [Hts _]%(read_times_typed _ Hty) & [= <- <-]).
    by apply (array_type (H := codec)).
  - intros t l (ts & -> & Hts)%(array_inv (H := codec)).
    change (write (TokenArray ts)) with (write_length (length ts) ++ flat_map write ts).
    cbn [read]. rewrite <- app_assoc, read_length_app. cbn [mbind option_bind].
    by rewrite (read_times_app _ Hty).
Qed.

Lemma reads_fixed_array ty n : reads ty -> reads (PFixedArray ty n).
Proof.
  intros Hty. split.
  - intros l t l'. cbn.
    intros ([ts l1] & [Hts Hl]%(read_times_typed _ Hty) & [= <- <-])%bind_Some.
    by apply (fixed_array_type (H := codec)).
  - intros t l (ts & -> & Hts & <-)%(fixed_array_inv (H := codec)).
    change (write (TokenFixedArray ts)) with (flat_map write ts).
    cbn [read]. by rewrite (read_times_app _ Hty).
Qed.

Lemma reads_tuple tys : Forall reads tys -> reads (PTuple tys).
Proof.
  intros Hall. split.
  - intros l t l'. cbn [read]. intros ([ts l1] & Hts & [= <- <-])%bind_Some.
    apply (tuple_type (H := codec)). revert l ts l1 Hts.
    induction Hall as [|ty tys [Hty _] _ IH]; intros l ts l1; [by intros [= <- <-]|].
    intros ([x l2] & Hx & ([xs l3] & Hxs & [= <- <-])%bind_Some)%bind_Some.
    constructor; eauto.
  - intros t l (ts & -> & Hts)%(tuple_inv (H := codec)). cbn [read write TokenTuple codec].
    assert (forall l, (fix read_all tys l :=
           match tys with
           | [] => Some ([], l)
           | t :: tys' => '(x, l') ← read t l; '(xs, l'') ← read_all tys' l'; Some (x :: xs, l'')
           end) tys (flat_map write ts ++ l) = Some (ts, l)) as Hread; [|by rewrite Hread].
    clear l. revert ts Hts. induction Hall as [|ty tys [_ Hty] _ IH]; intros ts Hts l.
    + by apply Forall2_nil_inv_r in Hts as ->.
    + apply Forall2_cons_inv_r in Hts as (x & xs & Hx & Hxs & ->). cbn.
      rewrite <- app_assoc, (Hty x) by done. cbn. by rewrite (IH xs Hxs).
Qed.

Lemma reads_all : forall ty, reads ty.
Proof.
  fix IH 1. intros [| |w|n|t|t n|tys].
  - apply (reads_word 160 KAddress); [done| |done]. intros t. split.
    + intros (z & -> & Hz)%(address_inv (H := codec)). by exists z.
    + intros (z & -> & _ & Hz). by apply (address_type (H := codec)).
  - apply reads_bytes.
  - apply (reads_word w KUint); [done| |done]. intros t. split.
    + inversion 1; subst. by eexists.
    + intros (z & -> & Hw & Hz). by apply (uint_type (H := codec)).
  - apply reads_fixed_bytes.
  - apply reads_array, IH.
  - apply reads_fixed_array, IH.
  - apply reads_tuple.
    exact ((fix all tys : Forall reads tys :=
              match tys with
              | [] => Forall_nil_2 _
              | t :: tys' => Forall_cons_2 _ _ _ (IH t) (all tys')
              end) tys).
Qed.

#[export] Instance codec_laws : EthAbiLaws.
Proof.
  split; try done.
  - intros tys data ts. cbn [abi_decode codec].
    destruct (read (PTuple tys) data) as [[t l]|] eqn:Hr; [|done].
    destruct (reads_all (PTuple tys)) as [Htyped _]. specialize (Htyped _ _ _ Hr).
    apply (tuple_inv (H := codec)) in Htyped as (ts' & -> & Hts'). cbn.
    destruct l; [|done]. by intros [= <-].
  - intros tys ts Hts. cbn [abi_decode abi_encode codec].
    destruct (reads_all (PTuple tys)) as [_ Hwrite].
    specialize (Hwrite (KTuple ts) [] (tuple_type (H := codec) _ _ Hts)).
    by rewrite app_nil_r in Hwrite; rewrite Hwrite.
Qed.
End StreamCodec.

(** ** Correctness *)

Section Claims.
Context `{EthAbiLaws}.


(** Proposed upgrades survive the conversion to tokens and back, and every token of the
    upgrade schema is the encoding of the well-formed upgrade that decoding returns. *)
Theorem upgrade_tokens_bijective :
  (forall u, wf_upgrade u ->
     has_type (upgrade_encode u) upgrade_schema /\ upgrade_decode (upgrade_encode u) = Ok u) /\
  (forall token, has_type token upgrade_schema ->
     exists u, upgrade_decode token = Ok u /\ wf_upgrade u /\ upgrade_encode u = token).
Proof.
  split.
  - intros u Hu. split; [by apply upgrade_typed|by apply upgrade_decode_encode].
  - intros token (u & -> & Hu)%upgrade_of_typed. exists u.
    split; [by apply upgrade_decode_encode|done].
Qed.
End Claims.

(** ** Instances *)

#[local] Existing Instances StreamCodec.codec StreamCodec.codec_laws.

Definition sample_canonical : L2CanonicalTransaction :=
  {| canonical_tx_type := 255; canonical_from := 1; canonical_to := 2; canonical_gas_limit := 3;
     canonical_gas_per_pubdata_byte_limit := 4; canonical_max_fee_per_gas := 5;
     canonical_max_priority_fee_per_gas := 0; canonical_paymaster := 0; canonical_nonce := 6;
     canonical_value := 7; canonical_reserved := [8; 9; 0; 0]; canonical_data := [10; 11];
     canonical_signature := []; canonical_factory_deps := [12]; canonical_paymaster_input := [];
     canonical_reserved_dynamic := [] |}.

Lemma sample_canonical_wf : wf_canonical sample_canonical.
Proof.
  split; [| |reflexivity| |].
  - repeat (apply Forall_cons_2; [split; vm_compute; done|]). constructor.
  - repeat (apply Forall_cons_2; [split; vm_compute; done|]). constructor.
  - repeat (apply Forall_cons_2; [repeat constructor; done|]). constructor.
  - repeat (apply Forall_cons_2; [split; vm_compute; done|]). constructor.
Qed.

Lemma bytes32_replicate b : byte b -> bytes32 (replicate 32 b).
Proof. intros Hb. split; [by apply Forall_replicate|apply length_replicate]. Qed.


Definition sample_proposal : ProposedUpgrade :=
  {| l2_protocol_upgrade_tx := sample_canonical; upgrade_factory_deps := [[3]];
     bootloader_hash := replicate 32 9; default_account_hash := replicate 32 0; verifier := 5;
     verifier_params := abi_verifier_params_default; l1_contracts_upgrade_calldata := [1];
     post_upgrade_calldata := []; upgrade_timestamp := 100; new_protocol_version := 24 |}.

Lemma upgrade_tokens_bijective_witness :
  upgrade_decode (upgrade_encode sample_proposal) = Ok sample_proposal.
Proof.
  apply (proj1 (upgrade_tokens_bijective) sample_proposal).
  split.
  - apply sample_canonical_wf.
  - repeat constructor; done.
  - split; by apply bytes32_replicate.
  - split; vm_compute; done.
  - split_and!; by apply bytes32_replicate.
  - split; repeat constructor; done.
  - split; split; vm_compute; done.
Defined.
