(* ===== verification/Upgrades.v ===== *)
(** * Priority requests and protocol upgrades

    Model of the conversions between the node's transactions and the ABI structures
    ([src/core/lib/types/src/lib.rs], [l1/mod.rs]) and of protocol upgrades
    ([src/core/lib/types/src/protocol_upgrade.rs]). *)

From S2P Require Import Prelude Bytes Utils ProtocolVersion Transactions Abi.
Open Scope Z_scope.

(** ** Data *)

(** [VerifierParams] of [protocol_version.rs]: hashes instead of byte arrays. *)
Record VerifierParams := {
  recursion_node_level_vk_hash : Z;
  recursion_leaf_level_vk_hash : Z;
  recursion_circuits_set_vks_hash : Z;
}.

Record Call := {
  call_target : Z;
  call_value : Z;
  call_data : list Z;
}.

Record GovernanceOperation := {
  calls : list Call;
  predecessor : Z;
  salt : Z;
}.

(** [ProtocolUpgrade] *)
Record UpgradeProposal := {
  up_version : ProtocolSemanticVersion;
  up_bootloader_code_hash : option Z;
  up_default_account_code_hash : option Z;
  up_verifier_params : option VerifierParams;
  up_verifier_address : option Z;
  up_timestamp : Z;
  up_tx : option ProtocolUpgradeTx;
}.

Record BaseSystemContractsHashes := {
  bootloader : Z;
  default_aa : Z;
}.

(** [ProtocolVersion]; the verifier configuration is its only field. *)
Record ProtocolVersion := {
  pv_version : ProtocolSemanticVersion;
  pv_timestamp : Z;
  pv_recursion_scheduler_level_vk_hash : Z;
  pv_base_system_contracts_hashes : BaseSystemContractsHashes;
  pv_tx : option ProtocolUpgradeTx;
}.

Definition apply_upgrade (self : ProtocolVersion) (upgrade : UpgradeProposal)
    (new_scheduler_vk_hash : option Z) : ProtocolVersion :=
  {| pv_version := up_version upgrade;
     pv_timestamp := up_timestamp upgrade;
     pv_recursion_scheduler_level_vk_hash :=
       default (pv_recursion_scheduler_level_vk_hash self) new_scheduler_vk_hash;
     pv_base_system_contracts_hashes :=
       {| bootloader := default (bootloader (pv_base_system_contracts_hashes self))
                          (up_bootloader_code_hash upgrade);
          default_aa := default (default_aa (pv_base_system_contracts_hashes self))
                          (up_default_account_code_hash upgrade) |};
     pv_tx := up_tx upgrade |}.

(** [From<VerifierParams> for abi::VerifierParams] *)
Definition verifier_params_to_abi (x : VerifierParams) : AbiVerifierParams :=
  {| abi_recursion_node_level_vk_hash := be_bytes 32 (recursion_node_level_vk_hash x);
     abi_recursion_leaf_level_vk_hash := be_bytes 32 (recursion_node_level_vk_hash x);
     abi_recursion_circuits_set_vks_hash := be_bytes 32 (recursion_circuits_set_vks_hash x) |}.

(** [From<abi::VerifierParams> for VerifierParams] *)
Definition verifier_params_from_abi (x : AbiVerifierParams) : VerifierParams :=
  {| recursion_node_level_vk_hash := be_value (abi_recursion_node_level_vk_hash x);
     recursion_leaf_level_vk_hash := be_value (abi_recursion_node_level_vk_hash x);
     recursion_circuits_set_vks_hash := be_value (abi_recursion_circuits_set_vks_hash x) |}.

(** ** Conversions *)

Section Conversions.
Context `{EthAbi}.
Variable keccak256 : list Z -> list Z.
Variable bytecode_to_code_hash : list (list Z) -> option Z.

Abbreviation canonical_hash := (canonical_hash keccak256).
Abbreviation factory_deps_hashes := (factory_deps_hashes bytecode_to_code_hash).

(** [H256::from_slice]: panics unless there are 32 bytes. *)
Definition h256_from_slice (b : list Z) : outcome Z :=
  _ ← rust_assert (bool_decide (length b = 32%nat)) "assertion failed";
  Ret (be_value b).

Definition verifier_params_from_tokens (tokens : list Token) :
    outcome (result VerifierParams string) :=
  match tokens with
  | [token] =>
      match into_tuple token with
      | Some tokens =>
          vks_vec ← foldM (fun acc t => b ← unwrap (into_fixed_bytes t);
                                        h ← h256_from_slice b; Ret (acc ++ [h])) [] tokens;
          node ← index_vec vks_vec 0;
          leaf ← index_vec vks_vec 1;
          circuits ← index_vec vks_vec 2;
          Ret (Ok {| recursion_node_level_vk_hash := node;
                     recursion_leaf_level_vk_hash := leaf;
                     recursion_circuits_set_vks_hash := circuits |})
      | None => Ret (Err "expected a tuple")
      end
  | _ => Ret (Err "expected single token")
  end.

(** The canonical transaction of a priority operation with the given hashes of its
    dependencies. *)
Definition canonical_of_l1 (data : L1TxCommonData) (e : Execute) (hashes : list Z) :
    L2CanonicalTransaction :=
  {| canonical_tx_type := PRIORITY_OPERATION_L2_TX_TYPE;
     canonical_from := address_to_u256 (l1_sender data);
     canonical_to := address_to_u256 (contract_address e);
     canonical_gas_limit := l1_gas_limit data;
     canonical_gas_per_pubdata_byte_limit := l1_gas_per_pubdata_limit data;
     canonical_max_fee_per_gas := l1_max_fee_per_gas data;
     canonical_max_priority_fee_per_gas := 0;
     canonical_paymaster := 0;
     canonical_nonce := l1_serial_id data;
     canonical_value := execute_value e;
     canonical_reserved := [l1_to_mint data; address_to_u256 (l1_refund_recipient data); 0; 0];
     canonical_data := calldata e;
     canonical_signature := [];
     canonical_factory_deps := hashes;
     canonical_paymaster_input := [];
     canonical_reserved_dynamic := [] |}.

Definition canonical_of_upgrade (data : ProtocolUpgradeTxCommonData) (e : Execute)
    (hashes : list Z) : L2CanonicalTransaction :=
  {| canonical_tx_type := PROTOCOL_UPGRADE_TX_TYPE;
     canonical_from := address_to_u256 (pu_sender data);
     canonical_to := address_to_u256 (contract_address e);
     canonical_gas_limit := pu_gas_limit data;
     canonical_gas_per_pubdata_byte_limit := pu_gas_per_pubdata_limit data;
     canonical_max_fee_per_gas := pu_max_fee_per_gas data;
     canonical_max_priority_fee_per_gas := 0;
     canonical_paymaster := 0;
     canonical_nonce := as_u16 (pu_upgrade_id data);
     canonical_value := execute_value e;
     canonical_reserved := [pu_to_mint data; address_to_u256 (pu_refund_recipient data); 0; 0];
     canonical_data := calldata e;
     canonical_signature := [];
     canonical_factory_deps := hashes;
     canonical_paymaster_input := [];
     canonical_reserved_dynamic := [] |}.

(** [TryFrom<Transaction> for abi::Transaction] *)
Definition abi_of_transaction (tx : Transaction) : outcome (result AbiTransaction string) :=
  let deps := factory_deps (execute tx) in
  match common_data tx with
  | L2 data =>
      match l2_input data with
      | Some input => Ret (Ok (AbiL2 (input_bytes input)))
      | None => Ret (Err "input is required for L2 transactions")
      end
  | L1 data =>
      hashes ← factory_deps_hashes deps;
      Ret (Ok (AbiL1 (canonical_of_l1 data (execute tx) hashes) deps (l1_eth_block data)))
  | ProtocolUpgrade data =>
      hashes ← factory_deps_hashes deps;
      Ret (Ok (AbiL1 (canonical_of_upgrade data (execute tx) hashes) deps (pu_eth_block data)))
  end.

(** The [L1] arm of [TryFrom<abi::Transaction> for Transaction]. *)
Definition transaction_of_abi_l1 (tx : L2CanonicalTransaction) (deps : list (list Z))
    (eth_block now_ms : Z) : outcome (result Transaction string) :=
  hashes ← factory_deps_hashes deps;
  _ <-? ensure (bool_decide (canonical_factory_deps tx = hashes)) "tx.factory_deps";;
  _ <-? ensure (forallb (Z.eqb 0) (drop 2 (canonical_reserved tx))) "tx.reserved";;
  _ ← rust_assert (canonical_max_priority_fee_per_gas tx =? 0) "max_priority_fee_per_gas";
  _ ← rust_assert (canonical_paymaster tx =? 0) "paymaster";
  _ ← rust_assert (bool_decide (canonical_signature tx = [])) "signature";
  _ ← rust_assert (bool_decide (canonical_paymaster_input tx = [])) "paymaster_input";
  _ ← rust_assert (bool_decide (canonical_reserved_dynamic tx = [])) "reserved_dynamic";
  let hash := canonical_hash tx in
  common_data <-?
    (if canonical_tx_type tx =? PRIORITY_OPERATION_L2_TX_TYPE then
       serial_id <-? Ret (context (try_into_u64 (canonical_nonce tx)) "integer overflow");;
       to_mint ← index_vec (canonical_reserved tx) 0;
       refund_recipient ← index_vec (canonical_reserved tx) 1;
       Ret (Ok (L1
         {| l1_sender := u256_to_account_address (canonical_from tx);
            l1_serial_id := serial_id;
            l1_layer_2_tip_fee := 0;
            l1_full_fee := 0;
            l1_max_fee_per_gas := canonical_max_fee_per_gas tx;
            l1_gas_limit := canonical_gas_limit tx;
            l1_gas_per_pubdata_limit := canonical_gas_per_pubdata_byte_limit tx;
            l1_op_processing_type := Common;
            l1_priority_queue_type := Deque;
            l1_canonical_tx_hash := hash;
            l1_to_mint := to_mint;
            l1_refund_recipient := u256_to_account_address refund_recipient;
            l1_eth_block := eth_block |}))
     else if canonical_tx_type tx =? PROTOCOL_UPGRADE_TX_TYPE then
       upgrade_id ← unwrap (try_from_u256 (canonical_nonce tx));
       to_mint ← index_vec (canonical_reserved tx) 0;
       refund_recipient ← index_vec (canonical_reserved tx) 1;
       Ret (Ok (ProtocolUpgrade
         {| pu_sender := u256_to_account_address (canonical_from tx);
            pu_upgrade_id := upgrade_id;
            pu_max_fee_per_gas := canonical_max_fee_per_gas tx;
            pu_gas_limit := canonical_gas_limit tx;
            pu_gas_per_pubdata_limit := canonical_gas_per_pubdata_byte_limit tx;
            pu_eth_block := eth_block;
            pu_canonical_tx_hash := hash;
            pu_to_mint := to_mint;
            pu_refund_recipient := u256_to_account_address refund_recipient |}))
     else Ret (Err "unknown tx type"));;
  Ret (Ok {| common_data := common_data;
             execute := {| contract_address := u256_to_account_address (canonical_to tx);
                           calldata := canonical_data tx;
                           execute_value := canonical_value tx;
                           factory_deps := deps |};
             received_timestamp_ms := now_ms;
             raw_bytes := None |}).

(** [From<L1Tx> for abi::NewPriorityRequest] *)
Definition request_of_l1tx (t : L1Tx) : outcome NewPriorityRequest :=
  let deps := factory_deps (l1_execute t) in
  hashes ← factory_deps_hashes deps;
  Ret {| tx_id := l1_serial_id (l1_common_data t);
         tx_hash := be_bytes 32 (l1_canonical_tx_hash (l1_common_data t));
         expiration_timestamp := 0;
         request_transaction := canonical_of_l1 (l1_common_data t) (l1_execute t) hashes;
         request_factory_deps := deps |}.

(** [TryFrom<abi::NewPriorityRequest> for L1Tx] *)
Definition l1tx_of_request (req : NewPriorityRequest) : outcome (result L1Tx string) :=
  let tx := request_transaction req in
  _ <-? ensure (canonical_tx_type tx =? PRIORITY_OPERATION_L2_TX_TYPE) "tx_type";;
  _ <-? ensure (canonical_nonce tx =? tx_id req) "nonce";;
  _ <-? ensure (canonical_max_priority_fee_per_gas tx =? 0) "max_priority_fee_per_gas";;
  _ <-? ensure (canonical_paymaster tx =? 0) "paymaster";;
  _ <-? ensure (canonical_hash tx =? be_value (tx_hash req)) "hash";;
  hashes ← factory_deps_hashes (request_factory_deps req);
  _ <-? ensure (bool_decide (canonical_factory_deps tx = hashes)) "factory_deps";;
  _ <-? ensure (forallb (Z.eqb 0) (drop 2 (canonical_reserved tx))) "reserved";;
  _ <-? ensure (bool_decide (canonical_signature tx = [])) "signature";;
  _ <-? ensure (bool_decide (canonical_paymaster_input tx = [])) "paymaster_input";;
  _ <-? ensure (bool_decide (canonical_reserved_dynamic tx = [])) "reserved_dynamic";;
  serial_id ← unwrap (try_into_u64 (canonical_nonce tx));
  to_mint ← index_vec (canonical_reserved tx) 0;
  refund_recipient ← index_vec (canonical_reserved tx) 1;
  Ret (Ok {| l1_execute := {| contract_address := u256_to_account_address (canonical_to tx);
                              calldata := canonical_data tx;
                              execute_value := canonical_value tx;
                              factory_deps := request_factory_deps req |};
             l1_common_data :=
               {| l1_sender := u256_to_account_address (canonical_from tx);
                  l1_serial_id := serial_id;
                  l1_layer_2_tip_fee := 0;
                  l1_full_fee := 0;
                  l1_max_fee_per_gas := canonical_max_fee_per_gas tx;
                  l1_gas_limit := canonical_gas_limit tx;
                  l1_gas_per_pubdata_limit := canonical_gas_per_pubdata_byte_limit tx;
                  l1_op_processing_type := Common;
                  l1_priority_queue_type := Deque;
                  l1_canonical_tx_hash := be_value (tx_hash req);
                  l1_to_mint := to_mint;
                  l1_refund_recipient := u256_to_account_address refund_recipient;
                  l1_eth_block := 0 |};
             l1_received_timestamp_ms := 0 |}).

(** Sets the block and the time of reception of a transaction. *)
Definition l1tx_received (tx : L1Tx) (eth_block now_ms : Z) : L1Tx :=
  let d := l1_common_data tx in
  {| l1_execute := l1_execute tx;
     l1_common_data :=
       {| l1_sender := l1_sender d; l1_serial_id := l1_serial_id d;
          l1_layer_2_tip_fee := l1_layer_2_tip_fee d; l1_full_fee := l1_full_fee d;
          l1_max_fee_per_gas := l1_max_fee_per_gas d; l1_gas_limit := l1_gas_limit d;
          l1_gas_per_pubdata_limit := l1_gas_per_pubdata_limit d;
          l1_op_processing_type := l1_op_processing_type d;
          l1_priority_queue_type := l1_priority_queue_type d;
          l1_canonical_tx_hash := l1_canonical_tx_hash d; l1_to_mint := l1_to_mint d;
          l1_refund_recipient := l1_refund_recipient d; l1_eth_block := eth_block |};
     l1_received_timestamp_ms := now_ms |}.

(** [TryFrom<Log> for L1Tx], of the data and the block number of the event. *)
Definition l1tx_of_event (data : list Z) (block_number : option Z) (now_ms : Z) :
    outcome (result L1Tx string) :=
  request <-? request_decode data;;
  tx <-? l1tx_of_request request;;
  n ← expect block_number "Event block number is missing";
  eth_block ← unwrap (try_into_u64 n);
  Ret (Ok (l1tx_received tx eth_block now_ms)).

(** ** Upgrades *)

(** [(x != 0).then_some(x)] *)
Definition nonzero (x : Z) : option Z := if x =? 0 then None else Some x.

Definition try_from_init_calldata (init_calldata : list Z) (now_ms : Z) :
    outcome (result UpgradeProposal string) :=
  data <-? Ret (if (4 <=? length init_calldata)%nat then Ok (drop 4 init_calldata)
                else Err "need >= 4 bytes");;
  tokens <-? Ret (result_context (abi_decode [upgrade_schema] data) "ethabi::decode()");;
  token ← unwrap (head tokens);
  upgrade ← unwrap_result (upgrade_decode token);
  bootloader_hash ← h256_from_slice (bootloader_hash upgrade);
  default_account_hash ← h256_from_slice (default_account_hash upgrade);
  version <-? Ret (context (try_from_packed (new_protocol_version upgrade))
                     "Version is not supported");;
  timestamp ← unwrap (try_into_u64 (upgrade_timestamp upgrade));
  tx <-?
    (if canonical_tx_type (l2_protocol_upgrade_tx upgrade) =? 0 then Ret (Ok None)
     else
       tx <-? transaction_of_abi_l1 (l2_protocol_upgrade_tx upgrade)
                (upgrade_factory_deps upgrade) 0 now_ms;;
       tx <-? Ret (upgrade_of_transaction tx);;
       Ret (Ok (Some tx)));;
  Ret (Ok {| up_version := version;
             up_bootloader_code_hash := nonzero bootloader_hash;
             up_default_account_code_hash := nonzero default_account_hash;
             up_verifier_params :=
               if decide (verifier_params upgrade = abi_verifier_params_default) then None
               else Some (verifier_params_from_abi (verifier_params upgrade));
             up_verifier_address := nonzero (verifier upgrade);
             up_timestamp := timestamp;
             up_tx := tx |}).

(** [decode_set_chain_id_event], of the data and the topics of the event. *)
Definition decode_set_chain_id_event (data topics : list Z) (now_ms : Z) :
    outcome (result (ProtocolVersionId * ProtocolUpgradeTx) string) :=
  tokens <-? Ret (abi_decode [canonical_schema] data);;
  token ← unwrap (head tokens);
  tx ← unwrap_result (canonical_decode token);
  topic ← index_vec topics 2;
  protocol_version ← expect (try_from_packed_semver (h256_to_u256 topic)) "Version is not supported";
  transaction ← transaction_of_abi_l1 tx [] 0 now_ms;
  transaction ← unwrap_result transaction;
  transaction ← unwrap_result (upgrade_of_transaction transaction);
  Ret (Ok (protocol_version, transaction)).

(** An [ethabi::Function]: its selector and the decoder of its arguments. *)
Record EthFunction := {
  short_signature : list Z;
  decode_input : list Z -> result (list Token) string;
}.

(** [ProtocolUpgrade::try_from_diamond_cut] *)
Definition try_from_diamond_cut (DIAMOND_CUT : EthFunction) (diamond_cut_data : list Z)
    (now_ms : Z) : outcome (result UpgradeProposal string) :=
  tokens <-? Ret (decode_input DIAMOND_CUT diamond_cut_data);;
  token ← index_vec tokens 0;
  diamond_cut_tokens ← unwrap (into_tuple token);
  init ← index_vec diamond_cut_tokens 2;
  init_calldata ← unwrap (into_bytes init);
  try_from_init_calldata init_calldata now_ms.

(** [TryFrom<Call> for ProtocolUpgrade] *)
Definition upgrade_of_call (EXECUTE_UPGRADE UPGRADE_CHAIN_FROM_VERSION : EthFunction)
    (call : Call) (now_ms : Z) : outcome (result UpgradeProposal string) :=
  _ <-? ensure (4 <=? length (call_data call))%nat "call.data.len() >= 4";;
  let signature := take 4 (call_data call) in
  let data := drop 4 (call_data call) in
  diamond_cut_tokens <-?
    (if decide (signature = short_signature EXECUTE_UPGRADE) then
       tokens <-? Ret (decode_input EXECUTE_UPGRADE data);;
       token ← unwrap (last tokens);
       tuple ← unwrap (into_tuple token);
       Ret (Ok tuple)
     else if decide (signature = short_signature UPGRADE_CHAIN_FROM_VERSION) then
       tokens <-? Ret (decode_input UPGRADE_CHAIN_FROM_VERSION data);;
       _ ← rust_assert (bool_decide (length tokens = 2%nat))
             "The second method is expected to accept exactly 2 arguments";
       token ← unwrap (last tokens);
       tuple ← unwrap (into_tuple token);
       Ret (Ok tuple)
     else Ret (Err "unknown function"));;
  init ← index_vec diamond_cut_tokens 2;
  init_calldata ← unwrap (into_bytes init);
  upgrade ← try_from_init_calldata init_calldata now_ms;
  Ret (result_context upgrade "ProtocolUpgrade::try_from_init_calldata()").

(** ** Governance operations *)

Definition call_param_type : ParamType := PTuple [PAddress; PUint 256; PBytes].

Definition operation_param_type : ParamType :=
  PTuple [PArray call_param_type; PFixedBytes 32; PFixedBytes 32].

(** [v.remove(0)] *)
Definition remove_first {A} (l : list A) : outcome (A * list A) :=
  match l with
  | x :: l' => Ret (x, l')
  | [] => Panics "removal index (is 0) should be < len (is 0)"
  end.

Definition decode_call (call : Token) : outcome Call :=
  tokens ← unwrap (into_tuple call);
  '(t, tokens) ← remove_first tokens;
  target ← unwrap (into_address t);
  '(t, tokens) ← remove_first tokens;
  value ← unwrap (into_uint t);
  '(t, tokens) ← remove_first tokens;
  data ← unwrap (into_bytes t);
  Ret {| call_target := target; call_value := value; call_data := data |}.

(** [TryFrom<Log> for GovernanceOperation], of the data of the event. *)
Definition governance_operation_of_event (data : list Z) :
    outcome (result GovernanceOperation string) :=
  decoded <-? Ret (abi_decode [PUint 256; operation_param_type] data);;
  token ← index_vec decoded 1;
  tokens ← unwrap (into_tuple token);
  '(t, tokens) ← remove_first tokens;
  calls ← unwrap (into_array t);
  '(t, tokens) ← remove_first tokens;
  predecessor ← unwrap (into_fixed_bytes t);
  predecessor ← h256_from_slice predecessor;
  '(t, tokens) ← remove_first tokens;
  salt ← unwrap (into_fixed_bytes t);
  salt ← h256_from_slice salt;
  calls ← foldM (fun acc call => c ← decode_call call; Ret (acc ++ [c])) [] calls;
  Ret (Ok {| calls := calls; predecessor := predecessor; salt := salt |}).
End Conversions.

#[global] Arguments h256_from_slice : simpl never.

(** ** Well-formed transactions: the values of the fields' types *)

Record wf_execute (e : Execute) : Prop := {
  wf_contract : unsigned 160 (contract_address e);
  wf_value : unsigned 256 (execute_value e);
  wf_execute_data : bytes (calldata e);
  wf_execute_deps : Forall bytes (factory_deps e);
}.

Record wf_l1_data (d : L1TxCommonData) : Prop := {
  wf_l1_sender : unsigned 160 (l1_sender d);
  wf_l1_refund : unsigned 160 (l1_refund_recipient d);
  wf_l1_serial : unsigned 64 (l1_serial_id d);
  wf_l1_words : Forall (unsigned 256)
    [l1_max_fee_per_gas d; l1_gas_limit d; l1_gas_per_pubdata_limit d; l1_to_mint d];
  (** the deprecated fields have their default values *)
  wf_l1_default : l1_layer_2_tip_fee d = 0 /\ l1_full_fee d = 0 /\
    l1_op_processing_type d = Common /\ l1_priority_queue_type d = Deque;
}.

Record wf_upgrade_data (d : ProtocolUpgradeTxCommonData) : Prop := {
  wf_pu_sender : unsigned 160 (pu_sender d);
  wf_pu_refund : unsigned 160 (pu_refund_recipient d);
}.

(** ** Lemmas *)

Lemma ensure_true {A} b msg (k : outcome (result A string)) :
  b = true -> (_ <-? ensure b msg;; k) = k.
Proof. by intros ->. Qed.

Lemma ensure_Ok {A} b msg (k : outcome (result A string)) a :
  (_ <-? ensure b msg;; k) = Ret (Ok a) -> b = true /\ k = Ret (Ok a).
Proof. by destruct b. Qed.

Lemma try_outcome_Ret {A B E} (r : result A E) (k : A -> outcome (result B E)) b :
  (x <-? Ret r;; k x) = Ret (Ok b) <-> exists a, r = Ok a /\ k a = Ret (Ok b).
Proof. destruct r; cbn; naive_solver. Qed.

Lemma unsigned_le w w' z : 0 <= w <= w' -> unsigned w z -> unsigned w' z.
Proof. unfold unsigned. intros Hw [? ?]. pose proof (Z.pow_le_mono_r 2 w w'). lia. Qed.

Lemma try_into_u64_small z : unsigned 64 z -> try_into_u64 z = Some z.
Proof. intros [_ Hz]. unfold try_into_u64. by rewrite (proj2 (Z.ltb_lt _ _) Hz). Qed.

Lemma try_into_u64_Some z n : try_into_u64 z = Some n -> n = z /\ z < 2 ^ 64.
Proof. unfold try_into_u64. destruct (Z.ltb_spec z (2 ^ 64)); naive_solver. Qed.

Lemma h256_from_slice_32 b : length b = 32%nat -> h256_from_slice b = Ret (be_value b).
Proof. intros Hb. unfold h256_from_slice. by rewrite rust_assert_true by (by apply bool_decide_eq_true). Qed.

Lemma bytes32_value b : bytes32 b -> unsigned 256 (be_value b) /\ be_bytes 32 (be_value b) = b.
Proof.
  intros [Hb Hl]. split.
  - unfold unsigned. pose proof (be_value_bound b Hb) as Hbd. rewrite Hl, pow256 in Hbd. exact Hbd.
  - rewrite <- Hl. by apply be_bytes_be_value.
Qed.

Lemma try_from_u256_as_u16 v : try_from_u256 (as_u16 v) = Some v.
Proof. by destruct v. Qed.

Section Hashes.
Variable bytecode_to_code_hash : list (list Z) -> option Z.

Lemma factory_deps_hashes_unsigned deps hashes :
  factory_deps_hashes bytecode_to_code_hash deps = Ret hashes -> Forall (unsigned 256) hashes.
Proof.
  revert hashes. induction deps as [|b deps IH]; intros hashes; cbn [factory_deps_hashes].
  - intros [= <-]. constructor.
  - intros (h & _ & (hs & Hhs & [= <-])%outcome_bind_Ret)%outcome_bind_Ret.
    constructor; [|by apply IH]. unfold h256_to_u256.
    apply bytes32_value. split; [apply be_bytes_bytes|apply be_bytes_length].
Qed.
End Hashes.

Section ConversionLemmas.
Context `{EthAbiLaws}.
Variable keccak256 : list Z -> list Z.
Variable bytecode_to_code_hash : list (list Z) -> option Z.

Abbreviation canonical_hash := (canonical_hash keccak256).
Abbreviation factory_deps_hashes := (factory_deps_hashes bytecode_to_code_hash).

Lemma canonical_of_l1_wf d e hashes :
  wf_l1_data d -> wf_execute e -> Forall (unsigned 256) hashes ->
  wf_canonical (canonical_of_l1 d e hashes).
Proof.
  intros [Hs Hr Hn Hw _] [Hc Hv Hd _] Hh. decompose_Forall_hyps.
  assert (unsigned 256 0) by (split; [done|by apply Z.pow_pos_nonneg]).
  split; cbn; rewrite ?address_to_u256_id by done; [| |done| |done].
  - repeat (apply Forall_cons_2; [try assumption; try by apply unsigned_160_256|]); [|constructor].
    by apply (unsigned_le 64).
  - repeat (apply Forall_cons_2; [try assumption; try by apply unsigned_160_256|]). constructor.
  - repeat (apply Forall_cons_2; [try assumption; try constructor|]). constructor.
Qed.

Lemma l1tx_of_request_of_l1tx t hashes :
  wf_l1_data (l1_common_data t) -> wf_execute (l1_execute t) ->
  factory_deps_hashes (factory_deps (l1_execute t)) = Ret hashes ->
  unsigned 256 (l1tx_hash t) ->
  l1tx_hash t = canonical_hash (canonical_of_l1 (l1_common_data t) (l1_execute t) hashes) ->
  exists r, request_of_l1tx bytecode_to_code_hash t = Ret r /\ wf_request r /\
    l1tx_of_request keccak256 bytecode_to_code_hash r = Ret (Ok (l1tx_received t 0 0)).
Proof.
  intros Hd He Hdeps Hrange Hhash. unfold request_of_l1tx. rewrite Hdeps. cbn [mbind outcome_bind].
  eexists. split; [done|]. pose proof (factory_deps_hashes_unsigned _ _ _ Hdeps) as Hhs. split.
  - split; cbn.
    + apply (unsigned_le 64); [lia|]. by apply wf_l1_serial.
    + split; [apply be_bytes_bytes|apply be_bytes_length].
    + split; [done|]. by apply Z.pow_pos_nonneg.
    + by apply canonical_of_l1_wf.
    + by apply wf_execute_deps.
  - unfold l1tx_of_request. cbn [request_transaction tx_id tx_hash request_factory_deps].
    rewrite Hdeps. rewrite (be_value_be_bytes_unsigned 32 256) by done. unfold l1tx_hash in Hhash.
    rewrite <- Hhash.
    destruct Hd as [Hs Hr Hn _ (H1 & H2 & H3 & H4)], He as [Hc _ _ _]. cbn.
    rewrite !Z.eqb_refl. cbn. rewrite try_into_u64_small by done. cbn.
    rewrite bool_decide_eq_true_2 by done. cbn. rewrite !address_roundtrip by done.
    unfold l1tx_received. destruct t as [e d ts], d, e. cbn in *. by subst.
Qed.

Lemma account_address_roundtrip z :
  unsigned 160 z -> address_to_u256 (u256_to_account_address z) = z.
Proof.
  intros Hz. rewrite u256_to_account_address_wrap, wrap_small by done. by apply address_to_u256_id.
Qed.

Lemma reserved_shape l r0 r1 :
  length l = 4%nat -> forallb (Z.eqb 0) (drop 2 l) = true -> l !! 0%nat = Some r0 ->
  l !! 1%nat = Some r1 -> l = [r0; r1; 0; 0].
Proof.
  destruct l as [|a [|b [|c [|d [|]]]]]; cbn -[Z.eqb]; try done. intros _ Hz [= ->] [= ->].
  rewrite !andb_true_iff, !Z.eqb_eq in Hz. by destruct Hz as (<- & <- & _).
Qed.

(** A transaction that the ABI representation describes completely. *)
Definition wf_abi_tx (t : Transaction) (hashes : list Z) : Prop :=
  wf_execute (execute t) /\ raw_bytes t = None /\
  match common_data t with
  | L1 d =>
      wf_l1_data d /\ l1_canonical_tx_hash d = canonical_hash (canonical_of_l1 d (execute t) hashes)
  | ProtocolUpgrade d =>
      wf_upgrade_data d /\
      pu_canonical_tx_hash d = canonical_hash (canonical_of_upgrade d (execute t) hashes)
  | L2 _ => False
  end.

Definition with_received (t : Transaction) (now_ms : Z) : Transaction :=
  {| common_data := common_data t; execute := execute t; received_timestamp_ms := now_ms;
     raw_bytes := raw_bytes t |}.

Lemma transaction_of_abi_of_transaction t hashes now_ms :
  factory_deps_hashes (factory_deps (execute t)) = Ret hashes -> wf_abi_tx t hashes ->
  exists tx deps eth_block,
    abi_of_transaction bytecode_to_code_hash t = Ret (Ok (AbiL1 tx deps eth_block)) /\
    transaction_of_abi_l1 keccak256 bytecode_to_code_hash tx deps eth_block now_ms =
      Ret (Ok (with_received t now_ms)).
Proof.
  intros Hdeps ([Hc _ _ _] & Hraw & Hd). unfold abi_of_transaction, transaction_of_abi_l1.
  destruct t as [[d|d|d] e ts raw]; cbn in *; [| |]; [|done|]; rewrite Hdeps; cbn.
  - destruct Hd as [[Hs Hr Hn _ (H1 & H2 & H3 & H4)] Hh].
    eexists _, _, _. split; [done|]. rewrite Hdeps. cbn.
    rewrite bool_decide_eq_true_2 by done. cbn. rewrite try_into_u64_small by done. cbn.
    rewrite !address_roundtrip, <- Hh by done. unfold with_received. cbn.
    destruct d, e. cbn in *. by subst.
  - destruct Hd as [[Hs Hr] Hh].
    eexists _, _, _. split; [done|]. rewrite Hdeps. cbn.
    rewrite bool_decide_eq_true_2 by done. cbn. rewrite try_from_u256_as_u16. cbn.
    rewrite !address_roundtrip, <- Hh by done. unfold with_received. cbn.
    destruct d, e. cbn in *. by subst.
Qed.

(** The upgrade proposal carries the given upgrade transaction, or none. *)
Definition carries_tx (u : ProposedUpgrade) (tx : option ProtocolUpgradeTx) (now_ms : Z) : Prop :=
  match tx with
  | None => canonical_tx_type (l2_protocol_upgrade_tx u) = 0
  | Some tx =>
      exists hashes,
        upgrade_factory_deps u = factory_deps (pu_execute tx) /\
        factory_deps_hashes (factory_deps (pu_execute tx)) = Ret hashes /\
        l2_protocol_upgrade_tx u = canonical_of_upgrade (pu_common_data tx) (pu_execute tx) hashes /\
        wf_abi_tx (transaction_of_upgrade tx) hashes /\ pu_eth_block (pu_common_data tx) = 0 /\
        pu_received_timestamp_ms tx = now_ms
  end.

Definition proposal_of (u : ProposedUpgrade) (version : ProtocolSemanticVersion)
    (tx : option ProtocolUpgradeTx) : UpgradeProposal :=
  {| up_version := version;
     up_bootloader_code_hash := nonzero (be_value (bootloader_hash u));
     up_default_account_code_hash := nonzero (be_value (default_account_hash u));
     up_verifier_params :=
       if decide (verifier_params u = abi_verifier_params_default) then None
       else Some (verifier_params_from_abi (verifier_params u));
     up_verifier_address := nonzero (verifier u);
     up_timestamp := upgrade_timestamp u;
     up_tx := tx |}.

Lemma try_from_init_calldata_encode u selector version tx now_ms :
  wf_upgrade u -> length selector = 4%nat ->
  try_from_packed (new_protocol_version u) = Some version ->
  unsigned 64 (upgrade_timestamp u) -> carries_tx u tx now_ms ->
  try_from_init_calldata keccak256 bytecode_to_code_hash
    (selector ++ abi_encode [upgrade_encode u]) now_ms = Ret (Ok (proposal_of u version tx)).
Proof.
  intros Hu Hsel Hver Hts Htx. unfold try_from_init_calldata.
  rewrite length_app, (proj2 (Nat.leb_le 4 _)) by lia. rewrite drop_app_length' by done.
  cbn [try_outcome]. rewrite decode_encode by (constructor; [by apply upgrade_typed|constructor]).
  cbn [result_context try_outcome head unwrap expect mbind outcome_bind].
  rewrite upgrade_decode_encode by done. cbn [unwrap_result mbind outcome_bind].
  destruct Hu as [_ _ [[_ Hb] [_ Hd]] _ _ _ _]. rewrite !h256_from_slice_32 by done.
  cbn [mbind outcome_bind]. rewrite Hver. cbn [context try_outcome].
  rewrite try_into_u64_small by done. cbn [mbind outcome_bind unwrap expect].
  destruct tx as [tx|]; cbn in Htx; [|by rewrite Htx].
  destruct Htx as (hashes & -> & Hh & -> & Hwf & Hblk & Hnow).
  destruct (transaction_of_abi_of_transaction (transaction_of_upgrade tx) hashes now_ms Hh Hwf)
    as (ctx & deps & blk & Habi & Hback).
  unfold abi_of_transaction in Habi. cbn in Habi. rewrite Hh in Habi. cbn in Habi.
  injection Habi as <- <- <-. rewrite Hblk in Hback. rewrite Hback. cbn.
  destruct tx as [? ? ?]. cbn in *. by subst.
Qed.

Lemma decode_call_typed t : has_type t call_param_type -> exists c, decode_call t = Ret c.
Proof.
  unfold call_param_type. intros Ht. invert_types. unfold decode_call, unwrap.
  repeat (progress (autorewrite with zk; cbn)). by eexists.
Qed.

Lemma decode_calls_typed ts : forall acc,
  Forall (fun t => has_type t call_param_type) ts ->
  exists cs, foldM (fun acc call => c ← decode_call call; Ret (acc ++ [c])) acc ts = Ret (acc ++ cs) /\
    Forall2 (fun t c => decode_call t = Ret c) ts cs.
Proof.
  induction ts as [|t ts IH]; intros acc Hts.
  - exists []. by rewrite app_nil_r.
  - apply Forall_cons in Hts as [[c Hc]%decode_call_typed Hts]. cbn [foldM]. rewrite Hc. cbn.
    destruct (IH (acc ++ [c]) Hts) as (cs & -> & Hcs). exists (c :: cs). rewrite <- app_assoc.
    split; [done|]. by constructor.
Qed.
End ConversionLemmas.

(** ** Correctness *)

Section Claims.
Context `{EthAbiLaws}.
Variable keccak256 : list Z -> list Z.
Variable bytecode_to_code_hash : list (list Z) -> option Z.

(** A priority operation that is emitted as an event (as the ABI encoding of its request) is
    read back as the same operation, with the block and the time of its reception. *)
Theorem priority_operation_event_roundtrip t hashes n now_ms :
  wf_l1_data (l1_common_data t) -> wf_execute (l1_execute t) ->
  factory_deps_hashes bytecode_to_code_hash (factory_deps (l1_execute t)) = Ret hashes ->
  unsigned 256 (l1tx_hash t) ->
  l1tx_hash t =
    canonical_hash keccak256 (canonical_of_l1 (l1_common_data t) (l1_execute t) hashes) ->
  unsigned 64 n ->
  exists r, request_of_l1tx bytecode_to_code_hash t = Ret r /\
    l1tx_of_event keccak256 bytecode_to_code_hash (abi_encode (request_encode r)) (Some n) now_ms =
      Ret (Ok (l1tx_received t n now_ms)).
Proof.
  intros Hd He Hdeps Hrange Hhash Hn.
  destruct (l1tx_of_request_of_l1tx keccak256 bytecode_to_code_hash t hashes Hd He Hdeps Hrange Hhash)
    as (r & Hr & Hwf & Hback).
  exists r. split; [done|]. unfold l1tx_of_event.
  rewrite (request_decode_tokens _ r Hwf (decode_encode _ _ (request_typed r Hwf))).
  cbn [try_outcome]. rewrite Hback. cbn. by rewrite try_into_u64_small.
Qed.

(** What an accepted request looks like. *)
Lemma l1tx_of_request_inv r t :
  wf_request r -> l1tx_of_request keccak256 bytecode_to_code_hash r = Ret (Ok t) ->
  canonical_hash keccak256 (request_transaction r) = be_value (tx_hash r) /\
  l1tx_hash t = be_value (tx_hash r) /\ l1tx_serial_id t = tx_id r /\
  factory_deps (l1_execute t) = request_factory_deps r /\
  unsigned 160 (l1_sender (l1_common_data t)) /\ unsigned 160 (contract_address (l1_execute t)) /\
  exists hashes, factory_deps_hashes bytecode_to_code_hash (request_factory_deps r) = Ret hashes /\
    (unsigned 160 (canonical_from (request_transaction r)) ->
     unsigned 160 (canonical_to (request_transaction r)) ->
     Forall (unsigned 160) (drop 1 (canonical_reserved (request_transaction r))) ->
     request_transaction r = canonical_of_l1 (l1_common_data t) (l1_execute t) hashes).
Proof.
  intros [_ Hth _ [_ _ Hlen _ _] _]. unfold l1tx_of_request. intros Ht.
  repeat match goal with
    | H : (_ <-? ensure _ _;; _) = Ret (Ok _) |- _ => apply ensure_Ok in H as [? H]
    | H : (_ ≫= _) = Ret (Ok _) |- _ => apply outcome_bind_Ret in H as (? & ? & H)
    end.
  match goal with H : index_vec _ 0 = Ret ?x, H' : index_vec _ 1 = Ret ?y |- _ =>
    apply index_vec_Ret in H; apply index_vec_Ret in H'; rename x into r0; rename y into r1 end.
  match goal with H : unwrap _ = Ret ?x |- _ =>
    apply expect_Ret, try_into_u64_Some in H as [-> _] end.
  injection Ht as <-. cbn. rewrite !Z.eqb_eq, !bool_decide_eq_true in *.
  do 4 (split; [done|]). rewrite !u256_to_account_address_wrap.
  do 2 (split; [by apply wrap_unsigned|]). rewrite <- !u256_to_account_address_wrap.
  eexists. split; [eassumption|]. intros Hfrom Hto Hres.
  pose proof (reserved_shape _ _ _ Hlen ltac:(eassumption) ltac:(eassumption) ltac:(eassumption)) as Hshape.
  rewrite Hshape in Hres. cbn in Hres. decompose_Forall_hyps.
  destruct (request_transaction r). unfold canonical_of_l1. cbn in *.
  rewrite !account_address_roundtrip by done. by subst.
Qed.

(** An accepted priority request has the hash and the id of its canonical transaction, and
    the accepted operation stands for exactly that request: unless the request has address words
    out of range, converting the operation back gives the request (up to the expiration time). *)
Theorem accepted_request_faithful r t :
  wf_request r -> l1tx_of_request keccak256 bytecode_to_code_hash r = Ret (Ok t) ->
  (canonical_hash keccak256 (request_transaction r) = be_value (tx_hash r) /\
   l1tx_hash t = be_value (tx_hash r) /\ l1tx_serial_id t = tx_id r) /\
  (unsigned 160 (canonical_from (request_transaction r)) ->
   unsigned 160 (canonical_to (request_transaction r)) ->
   Forall (unsigned 160) (drop 1 (canonical_reserved (request_transaction r))) ->
   request_of_l1tx bytecode_to_code_hash t =
     Ret {| tx_id := tx_id r; tx_hash := tx_hash r; expiration_timestamp := 0;
            request_transaction := request_transaction r;
            request_factory_deps := request_factory_deps r |}).
Proof.
  intros Hr Ht. destruct (l1tx_of_request_inv r t Hr Ht) as (Hh & Hth & Hid & Hdeps & _ & _ & hashes & Hhs & Hc).
  split; [done|]. intros Hfrom Hto Hres. unfold request_of_l1tx. rewrite Hdeps, Hhs. cbn [mbind outcome_bind].
  rewrite <- Hc by done. unfold l1tx_hash, l1tx_serial_id in *. rewrite Hth, Hid.
  do 2 f_equal. by apply bytes32_value, Hr.
Qed.

(** Priority operations and upgrade transactions survive the conversion to the ABI
    representation and back, apart from the time of reception. *)
Theorem transaction_abi_roundtrip t hashes now_ms :
  factory_deps_hashes bytecode_to_code_hash (factory_deps (execute t)) = Ret hashes ->
  wf_abi_tx keccak256 t hashes ->
  exists tx deps eth_block,
    abi_of_transaction bytecode_to_code_hash t = Ret (Ok (AbiL1 tx deps eth_block)) /\
    abi_l1_hash keccak256 bytecode_to_code_hash tx deps = (h ← hash t; Ret (Ok h)) /\
    transaction_of_abi_l1 keccak256 bytecode_to_code_hash tx deps eth_block now_ms =
      Ret (Ok (with_received t now_ms)).
Proof.
  intros Hdeps Hwf.
  destruct (transaction_of_abi_of_transaction keccak256 bytecode_to_code_hash t hashes now_ms Hdeps Hwf)
    as (tx & deps & blk & Habi & Hback).
  exists tx, deps, blk. split; [done|]. split; [|done]. revert Habi.
  destruct Hwf as (_ & _ & Hd). unfold abi_of_transaction, abi_l1_hash.
  destruct t as [[d|d|d] e ts raw]; cbn in *; [|done|]; rewrite Hdeps; intros [= <- <- <-];
    rewrite Hdeps; cbn; rewrite bool_decide_eq_true_2 by done; cbn; by destruct Hd as [_ ->].
Qed.

(** The upgrade that a governance call proposes (through either of the two entry points) is
    the one encoded in its calldata; applying it replaces the version, the timestamp and the
    upgrade transaction, and replaces the hash of the bootloader or of the default account
    exactly if the proposed one is not zero. *)
Theorem governance_call_upgrades EXECUTE_UPGRADE UPGRADE_CHAIN_FROM_VERSION F call input args
    facets init_address selector u version tx now_ms (pv : ProtocolVersion) vk :
  short_signature EXECUTE_UPGRADE <> short_signature UPGRADE_CHAIN_FROM_VERSION ->
  F = EXECUTE_UPGRADE \/ F = UPGRADE_CHAIN_FROM_VERSION /\ length args = 1%nat ->
  length (short_signature F) = 4%nat -> call_data call = short_signature F ++ input ->
  decode_input F input =
    Ok (args ++ [TokenTuple [facets; init_address;
                             TokenBytes (selector ++ abi_encode [upgrade_encode u])]]) ->
  wf_upgrade u -> length selector = 4%nat ->
  try_from_packed (new_protocol_version u) = Some version ->
  unsigned 64 (upgrade_timestamp u) -> carries_tx keccak256 bytecode_to_code_hash u tx now_ms ->
  exists up,
    upgrade_of_call keccak256 bytecode_to_code_hash EXECUTE_UPGRADE UPGRADE_CHAIN_FROM_VERSION
      call now_ms = Ret (Ok up) /\
    apply_upgrade pv up vk =
      {| pv_version := version;
         pv_timestamp := upgrade_timestamp u;
         pv_recursion_scheduler_level_vk_hash :=
           default (pv_recursion_scheduler_level_vk_hash pv) vk;
         pv_base_system_contracts_hashes :=
           {| bootloader :=
                if be_value (bootloader_hash u) =? 0
                then bootloader (pv_base_system_contracts_hashes pv)
                else be_value (bootloader_hash u);
              default_aa :=
                if be_value (default_account_hash u) =? 0
                then default_aa (pv_base_system_contracts_hashes pv)
                else be_value (default_account_hash u) |};
         pv_tx := tx |}.
Proof.
  intros Hne HF Hsig Hdata Hin Hu Hsel Hver Hts Htx.
  pose proof (try_from_init_calldata_encode keccak256 bytecode_to_code_hash u selector version tx
                now_ms Hu Hsel Hver Hts Htx) as Hinit.
  exists (proposal_of u version tx). split.
  - unfold upgrade_of_call. rewrite Hdata, length_app, (proj2 (Nat.leb_le 4 _)) by lia.
    rewrite take_app_length', drop_app_length' by done. cbn [ensure try_outcome].
    destruct HF as [->|[-> Hargs]].
    + rewrite decide_True, Hin, last_snoc by done. unfold unwrap, index_vec.
      repeat (progress (autorewrite with zk; cbn -[upgrade_encode try_from_init_calldata app])).
      by rewrite Hinit.
    + rewrite decide_False, decide_True, Hin, last_snoc by done. unfold unwrap, index_vec.
      cbn [try_outcome]. rewrite rust_assert_true
        by (apply bool_decide_eq_true; rewrite length_app, Hargs; done).
      repeat (progress (autorewrite with zk; cbn -[upgrade_encode try_from_init_calldata app])).
      by rewrite Hinit.
  - unfold apply_upgrade, proposal_of, nonzero. cbn. by repeat case_match.
Qed.

(** Reading a governance operation from event data never panics; a decoded operation has the
    calls of the event in their order. *)
Theorem governance_operation_decode_total data :
  exists res, governance_operation_of_event data = Ret res /\
    forall op, res = Ok op ->
      exists id ts, abi_decode [PUint 256; operation_param_type] data =
        Ok [TokenUint id; TokenTuple [TokenArray ts; TokenFixedBytes (be_bytes 32 (predecessor op));
                                      TokenFixedBytes (be_bytes 32 (salt op))]] /\
        Forall2 (fun t c => decode_call t = Ret c) ts (calls op).
Proof.
  unfold governance_operation_of_event.
  destruct (abi_decode [PUint 256; operation_param_type] data) as [ts|e] eqn:Hdec; [|by exists (Err e)].
  pose proof (decode_typed _ _ _ Hdec) as Hty. unfold operation_param_type in Hty.
  invert_types. cbn [try_outcome]. unfold index_vec, unwrap. cbn.
  repeat (progress (autorewrite with zk; cbn)).
  repeat match goal with Hb : bytes32 _ |- _ => pose proof (bytes32_value _ Hb) as [_ ?]; destruct Hb as [_ Hb] end.
  rewrite !h256_from_slice_32 by done. cbn. autorewrite with zk. cbn.
  match goal with Hc : Forall _ _ |- _ => destruct (decode_calls_typed _ [] Hc) as (cs & -> & Hcs) end.
  eexists. split; [done|]. intros op [= <-]. cbn. eexists _, _. split; [|done].
  by repeat match goal with Hb : be_bytes 32 _ = _ |- _ => rewrite Hb; clear Hb end.
Qed.

(** C40: Converting verifier parameters from (or to) the ABI structure replaces the leaf-level
    key hash by the node-level one: the conversions are inverse to each other exactly on
    parameters where both agree, and they differ from the direct reading of the same token
    whenever the two hashes differ. *)
Theorem verifier_params_conversion_drops_leaf v p :
  wf_verifier_params v ->
  recursion_leaf_level_vk_hash (verifier_params_from_abi v) =
    be_value (abi_recursion_node_level_vk_hash v) /\
  (verifier_params_to_abi (verifier_params_from_abi v) = v <->
   abi_recursion_leaf_level_vk_hash v = abi_recursion_node_level_vk_hash v) /\
  (verifier_params_from_tokens [verifier_params_encode v] = Ret (Ok (verifier_params_from_abi v)) <->
   abi_recursion_leaf_level_vk_hash v = abi_recursion_node_level_vk_hash v) /\
  (Forall (unsigned 256) [recursion_node_level_vk_hash p; recursion_circuits_set_vks_hash p] ->
   verifier_params_from_abi (verifier_params_to_abi p) = p <->
   recursion_leaf_level_vk_hash p = recursion_node_level_vk_hash p).
Proof.
  destruct v as [node leaf circuits]. intros ([Hbn Hln] & [Hbl Hll] & [Hbc Hlc]). cbn in *.
  destruct (bytes32_value node) as [_ Hn]; [done|]. destruct (bytes32_value leaf) as [_ Hl]; [done|].
  destruct (bytes32_value circuits) as [_ Hc]; [done|]. split_and!; [done|..].
  - unfold verifier_params_to_abi. cbn. rewrite Hn, Hc. split; [by intros [= ->]|by intros ->].
  - unfold verifier_params_from_tokens, verifier_params_encode, unwrap, index_vec. cbn.
    repeat (progress (autorewrite with zk; cbn)). rewrite !h256_from_slice_32 by done. cbn.
    unfold verifier_params_from_abi. cbn. split.
    + intros [= Heq]. rewrite <- Hl, <- Hn. by rewrite Heq.
    + by intros ->.
  - destruct p as [n l c]. cbn. intros HF. decompose_Forall_hyps.
    unfold verifier_params_from_abi, verifier_params_to_abi. cbn.
    rewrite !(be_value_be_bytes_unsigned 32 256) by done. split; [by intros [= ->]|by intros ->].
Qed.
End Claims.

(** ** Instances *)

#[local] Existing Instances StreamCodec.codec StreamCodec.codec_laws.

Definition sample_keccak (l : list Z) : list Z := be_bytes 32 (2 ^ 200 + Z.of_nat (length l)).
Definition sample_code_hash (chunks : list (list Z)) : option Z := Some (Z.of_nat (length chunks)).

Definition sample_execute : Execute :=
  {| contract_address := 17; calldata := [1; 2; 3]; execute_value := 5;
     factory_deps := [replicate 32 1; replicate 64 2] |}.

Definition sample_l1_data (hash : Z) : L1TxCommonData :=
  {| l1_sender := 2 ^ 159; l1_serial_id := 3; l1_layer_2_tip_fee := 0; l1_full_fee := 0;
     l1_max_fee_per_gas := 9; l1_gas_limit := 1000; l1_gas_per_pubdata_limit := 800;
     l1_op_processing_type := Common; l1_priority_queue_type := Deque;
     l1_canonical_tx_hash := hash; l1_to_mint := 77; l1_refund_recipient := 4;
     l1_eth_block := 12 |}.

Definition sample_l1tx : L1Tx :=
  {| l1_execute := sample_execute;
     l1_common_data :=
       sample_l1_data (canonical_hash sample_keccak
                         (canonical_of_l1 (sample_l1_data 0) sample_execute [1; 2]));
     l1_received_timestamp_ms := 44 |}.

Lemma sample_execute_wf : wf_execute sample_execute.
Proof.
  split; [split; vm_compute; done|split; vm_compute; done| |].
  - apply (bool_decide_unpack _). vm_compute. exact I.
  - apply (bool_decide_unpack _). vm_compute. exact I.
Qed.

Lemma sample_l1_data_wf hash : wf_l1_data (sample_l1_data hash).
Proof.
  split; [split; vm_compute; done..| |done].
  repeat (apply Forall_cons_2; [split; vm_compute; done|]). constructor.
Qed.

Lemma priority_operation_event_roundtrip_witness :
  exists r, request_of_l1tx sample_code_hash sample_l1tx = Ret r /\
    l1tx_of_event sample_keccak sample_code_hash
      (abi_encode (request_encode r)) (Some 20) 50 = Ret (Ok (l1tx_received sample_l1tx 20 50)).
Proof.
  apply (priority_operation_event_roundtrip sample_keccak sample_code_hash sample_l1tx [1; 2]).
  - apply sample_l1_data_wf.
  - apply sample_execute_wf.
  - vm_compute. reflexivity.
  - split; vm_compute; done.
  - vm_compute. reflexivity.
  - split; vm_compute; done.
Defined.

Definition sample_request : NewPriorityRequest :=
  {| tx_id := 3;
     tx_hash := be_bytes 32 (l1tx_hash sample_l1tx);
     expiration_timestamp := 6;
     request_transaction := canonical_of_l1 (sample_l1_data 0) sample_execute [1; 2];
     request_factory_deps := factory_deps sample_execute |}.

Lemma sample_request_wf : wf_request sample_request.
Proof.
  split.
  - split; vm_compute; done.
  - split; [apply be_bytes_bytes|apply be_bytes_length].
  - split; vm_compute; done.
  - apply canonical_of_l1_wf; [apply sample_l1_data_wf|apply sample_execute_wf|].
    repeat (apply Forall_cons_2; [split; vm_compute; done|]). constructor.
  - apply sample_execute_wf.
Qed.

Lemma accepted_request_faithful_witness :
  exists t, l1tx_of_request sample_keccak sample_code_hash sample_request = Ret (Ok t) /\
    l1tx_serial_id t = 3.
Proof.
  exists (l1tx_received sample_l1tx 0 0).
  assert (l1tx_of_request sample_keccak sample_code_hash sample_request =
          Ret (Ok (l1tx_received sample_l1tx 0 0))) as Hr by (vm_compute; reflexivity).
  split; [exact Hr|].
  apply (accepted_request_faithful sample_keccak sample_code_hash sample_request _
           sample_request_wf Hr).
Defined.

Lemma transaction_abi_roundtrip_witness :
  exists tx deps eth_block,
    abi_of_transaction sample_code_hash (transaction_of_l1 sample_l1tx) =
      Ret (Ok (AbiL1 tx deps eth_block)) /\
    abi_l1_hash sample_keccak sample_code_hash tx deps =
      (h ← hash (transaction_of_l1 sample_l1tx); Ret (Ok h)) /\
    transaction_of_abi_l1 sample_keccak sample_code_hash tx deps eth_block 60 =
      Ret (Ok (with_received (transaction_of_l1 sample_l1tx) 60)).
Proof.
  apply (transaction_abi_roundtrip sample_keccak sample_code_hash (transaction_of_l1 sample_l1tx)
           [1; 2]).
  - vm_compute. reflexivity.
  - split; [apply sample_execute_wf|]. split; [reflexivity|]. split; [apply sample_l1_data_wf|].
    vm_compute. reflexivity.
Defined.

Definition zero_canonical : L2CanonicalTransaction :=
  {| canonical_tx_type := 0; canonical_from := 0; canonical_to := 0; canonical_gas_limit := 0;
     canonical_gas_per_pubdata_byte_limit := 0; canonical_max_fee_per_gas := 0;
     canonical_max_priority_fee_per_gas := 0; canonical_paymaster := 0; canonical_nonce := 0;
     canonical_value := 0; canonical_reserved := [0; 0; 0; 0]; canonical_data := [];
     canonical_signature := []; canonical_factory_deps := []; canonical_paymaster_input := [];
     canonical_reserved_dynamic := [] |}.

Definition sample_params : AbiVerifierParams :=
  {| abi_recursion_node_level_vk_hash := replicate 32 1;
     abi_recursion_leaf_level_vk_hash := replicate 32 2;
     abi_recursion_circuits_set_vks_hash := replicate 32 3 |}.

Definition sample_upgrade : ProposedUpgrade :=
  {| l2_protocol_upgrade_tx := zero_canonical; upgrade_factory_deps := [];
     bootloader_hash := replicate 32 9; default_account_hash := replicate 32 0; verifier := 5;
     verifier_params := sample_params; l1_contracts_upgrade_calldata := [];
     post_upgrade_calldata := []; upgrade_timestamp := 100;
     new_protocol_version := 24 * 2 ^ 32 + 1 |}.

Lemma sample_params_wf : wf_verifier_params sample_params.
Proof.
  repeat split; try (vm_compute; reflexivity);
    (apply (bool_decide_unpack (Forall (fun b => 0 <= b < 256) _)); vm_compute; exact I).
Qed.

Lemma sample_upgrade_wf : wf_upgrade sample_upgrade.
Proof.
  split; [|constructor|split; (split; [|reflexivity])|split; vm_compute; done
          |apply sample_params_wf|split; constructor|split; split; vm_compute; done].
  - split; [| |reflexivity| |constructor].
    + repeat (apply Forall_cons_2; [split; vm_compute; done|]). constructor.
    + repeat (apply Forall_cons_2; [split; vm_compute; done|]). constructor.
    + repeat (apply Forall_cons_2; [constructor|]). constructor.
  - apply (bool_decide_unpack (Forall (fun b => 0 <= b < 256) _)). vm_compute. exact I.
  - apply (bool_decide_unpack (Forall (fun b => 0 <= b < 256) _)). vm_compute. exact I.
Qed.

Definition sample_cut_type : ParamType := PTuple [PArray PAddress; PAddress; PBytes].

Definition sample_function (signature : list Z) (args : list ParamType) : EthFunction :=
  {| short_signature := signature; decode_input := abi_decode (args ++ [sample_cut_type]) |}.

Definition execute_upgrade : EthFunction := sample_function [1; 2; 3; 4] [].
Definition upgrade_from_version : EthFunction := sample_function [5; 6; 7; 8] [PUint 256].

Definition sample_cut : Token :=
  TokenTuple [TokenArray []; TokenAddress 1;
              TokenBytes ([11; 12; 13; 14] ++ abi_encode [upgrade_encode sample_upgrade])].

Definition sample_call : Call :=
  {| call_target := 1; call_value := 0;
     call_data := [5; 6; 7; 8] ++ abi_encode [TokenUint 23; sample_cut] |}.

Definition sample_version : ProtocolVersion :=
  {| pv_version := {| minor := Version23; patch := 0 |}; pv_timestamp := 0;
     pv_recursion_scheduler_level_vk_hash := 8;
     pv_base_system_contracts_hashes := {| bootloader := 1; default_aa := 2 |}; pv_tx := None |}.

Lemma governance_call_upgrades_witness :
  exists up,
    upgrade_of_call sample_keccak sample_code_hash execute_upgrade upgrade_from_version
      sample_call 1 = Ret (Ok up) /\
    pv_version (apply_upgrade sample_version up None) = {| minor := Version24; patch := 1 |} /\
    default_aa (pv_base_system_contracts_hashes (apply_upgrade sample_version up None)) = 2.
Proof.
  destruct (governance_call_upgrades sample_keccak sample_code_hash execute_upgrade
              upgrade_from_version upgrade_from_version sample_call
              (abi_encode [TokenUint 23; sample_cut]) [TokenUint 23] (TokenArray []) (TokenAddress 1)
              [11; 12; 13; 14] sample_upgrade {| minor := Version24; patch := 1 |} None 1
              sample_version None) as (up & Hup & Happly).
  - discriminate.
  - right. split; reflexivity.
  - reflexivity.
  - reflexivity.
  - vm_compute. reflexivity.
  - exact sample_upgrade_wf.
  - reflexivity.
  - vm_compute. reflexivity.
  - split; vm_compute; done.
  - reflexivity.
  - exists up. split; [exact Hup|]. rewrite Happly. split; vm_compute; reflexivity.
Defined.

Definition sample_operation : list Token :=
  [TokenUint 1;
   TokenTuple [TokenArray [TokenTuple [TokenAddress 7; TokenUint 0; TokenBytes [1]]];
               TokenFixedBytes (replicate 32 0); TokenFixedBytes (replicate 32 1)]].

Lemma governance_operation_decode_total_witness :
  (exists res, governance_operation_of_event (abi_encode sample_operation) = Ret res) /\
  governance_operation_of_event (abi_encode sample_operation) =
    Ret (Ok {| calls := [{| call_target := 7; call_value := 0; call_data := [1] |}];
               predecessor := 0; salt := be_value (replicate 32 1) |}).
Proof.
  split; [|vm_compute; reflexivity].
  destruct (governance_operation_decode_total (abi_encode sample_operation)) as (res & Hres & _).
  exists res. exact Hres.
Defined.

Lemma verifier_params_conversion_drops_leaf_witness :
  recursion_leaf_level_vk_hash (verifier_params_from_abi sample_params) =
    be_value (replicate 32 1) /\
  verifier_params_from_tokens [verifier_params_encode sample_params] <>
    Ret (Ok (verifier_params_from_abi sample_params)).
Proof.
  destruct (verifier_params_conversion_drops_leaf sample_params
              {| recursion_node_level_vk_hash := 0; recursion_leaf_level_vk_hash := 0;
                 recursion_circuits_set_vks_hash := 0 |} sample_params_wf) as (Hleaf & _ & Hdirect & _).
  split; [exact Hleaf|]. rewrite Hdirect. discriminate.
Defined.
