(* ===== verification/VmTransaction.v ===== *)
(** * Transactions for the bootloader

    Model of [src/core/lib/multivm/src/versions/vm_latest/types/internals/transaction_data.rs]: the
    structure that describes a transaction to the bootloader, its ABI encoding, its hash and the
    conversions from and to the transaction types of the node.

    The hash of a user transaction is computed by [transaction_request.rs] and is a parameter. *)

From S2P Require Import Prelude Bytes Utils ProtocolVersion Transactions Abi Upgrades.
Open Scope Z_scope.

(** ** Constants *)

Definition MAX_GAS_PER_PUBDATA_BYTE : Z := 50000.
Definition TX_MAX_COMPUTE_GAS_LIMIT : Z := 80000000.
Definition TX_SLOT_OVERHEAD_GAS : Z := 10000.
Definition TX_MEMORY_OVERHEAD_GAS : Z := 10.

Definition derive_overhead (encoded_len : Z) : Z :=
  Z.max TX_SLOT_OVERHEAD_GAS (wrap 32 (TX_MEMORY_OVERHEAD_GAS * wrap 32 encoded_len)).

(** [TryFromPrimitive] *)
Definition transaction_type_try_from (v : Z) : option TransactionType :=
  List.find (fun t => tx_type_as_u32 t =? v)
    [LegacyTransaction; EIP2930Transaction; EIP1559Transaction; EIP712Transaction;
     PriorityOpTransaction; ProtocolUpgradeTransaction].

(** [PackedEthSignature::unpack_v] *)
Definition unpack_v (v : Z) : option (Z * option Z) :=
  if v =? 27 then Some (0, None)
  else if v =? 28 then Some (1, None)
  else if 35 <=? v then
    let chain_id := Z.shiftr (v - 35) 1 in
    let v := v - 35 - chain_id * 2 in
    if v =? 0 then Some (0, Some chain_id) else if v =? 1 then Some (1, Some chain_id) else None
  else None.

Record TransactionData := {
  td_tx_type : Z;
  td_from : Z;
  td_to : Z;
  td_gas_limit : Z;
  td_pubdata_price_limit : Z;
  td_max_fee_per_gas : Z;
  td_max_priority_fee_per_gas : Z;
  td_paymaster : Z;
  td_nonce : Z;
  td_value : Z;
  td_reserved : list Z;
  td_data : list Z;
  td_signature : list Z;
  td_factory_deps : list (list Z);
  td_paymaster_input : list Z;
  td_reserved_dynamic : list Z;
  td_raw_bytes : option (list Z);
}.

Inductive TxHashCalculationError := CannotCalculateL1HashForL2Tx | CannotCalculateL2HashForL1Tx.

Section TransactionData.
Context `{EthAbi}.
(** [rlp::Rlp::val_at], for 64-bit integers *)
Variable rlp_val_at : list Z -> nat -> option Z.
(** [web3::keccak256] *)
Variable keccak256 : list Z -> list Z.
(** [zk_evm::zkevm_opcode_defs::utils::bytecode_to_code_hash] *)
Variable bytecode_to_code_hash : list (list Z) -> option Z.

(** [L2TxCommonData::extract_chain_id] *)
Definition extract_chain_id (d : L2TxCommonData) : option Z :=
  bs ← input_data d;
  match bs with
  | x :: rest =>
      if 0x80 <=? x then v ← rlp_val_at bs 6; '(_, chain_id) ← unpack_v v; chain_id
      else if x =? EIP_1559_TX_TYPE then rlp_val_at rest 0
      else if x =? EIP_712_TX_TYPE then rlp_val_at rest 10
      else None
  | [] => None
  end.

Definition is_legacy (t : TransactionType) : bool :=
  match t with LegacyTransaction => true | _ => false end.

Definition data_of_l2 (d : L2TxCommonData) (tx : Transaction) : TransactionData :=
  let should_check_chain_id :=
    if is_legacy (l2_transaction_type d) && bool_decide (is_Some (extract_chain_id d)) then 1 else 0 in
  let gas_per_pubdata_limit :=
    if is_ethereum_type (l2_transaction_type d) then MAX_GAS_PER_PUBDATA_BYTE
    else fee_gas_per_pubdata_limit (l2_fee d) in
  {| td_tx_type := wrap 8 (tx_type_as_u32 (l2_transaction_type d));
     td_from := l2_initiator_address d;
     td_to := contract_address (execute tx);
     td_gas_limit := fee_gas_limit (l2_fee d);
     td_pubdata_price_limit := gas_per_pubdata_limit;
     td_max_fee_per_gas := fee_max_fee_per_gas (l2_fee d);
     td_max_priority_fee_per_gas := fee_max_priority_fee_per_gas (l2_fee d);
     td_paymaster := paymaster (l2_paymaster_params d);
     td_nonce := be_value (be_bytes 4 (l2_nonce d));
     td_value := execute_value (execute tx);
     td_reserved := [should_check_chain_id; 0; 0; 0];
     td_data := calldata (execute tx);
     td_signature := l2_signature d;
     td_factory_deps := factory_deps (execute tx);
     td_paymaster_input := paymaster_input (l2_paymaster_params d);
     td_reserved_dynamic := [];
     td_raw_bytes := raw_bytes tx |}.

Definition data_of_l1 (d : L1TxCommonData) (tx : Transaction) : TransactionData :=
  let refund_recipient := h256_to_u256 (address_to_h256 (l1_refund_recipient d)) in
  {| td_tx_type := wrap 8 (tx_type_as_u32 PriorityOpTransaction);
     td_from := l1_sender d;
     td_to := contract_address (execute tx);
     td_gas_limit := l1_gas_limit d;
     td_pubdata_price_limit := l1_gas_per_pubdata_limit d;
     td_max_fee_per_gas := l1_max_fee_per_gas d;
     td_max_priority_fee_per_gas := 0;
     td_paymaster := 0;
     td_nonce := l1_serial_id d;
     td_value := execute_value (execute tx);
     td_reserved := [l1_to_mint d; refund_recipient; 0; 0];
     td_data := calldata (execute tx);
     td_signature := [];
     td_factory_deps := factory_deps (execute tx);
     td_paymaster_input := [];
     td_reserved_dynamic := [];
     td_raw_bytes := None |}.

Definition data_of_upgrade (d : ProtocolUpgradeTxCommonData) (tx : Transaction) : TransactionData :=
  let refund_recipient := h256_to_u256 (address_to_h256 (pu_refund_recipient d)) in
  {| td_tx_type := wrap 8 (tx_type_as_u32 ProtocolUpgradeTransaction);
     td_from := pu_sender d;
     td_to := contract_address (execute tx);
     td_gas_limit := pu_gas_limit d;
     td_pubdata_price_limit := pu_gas_per_pubdata_limit d;
     td_max_fee_per_gas := pu_max_fee_per_gas d;
     td_max_priority_fee_per_gas := 0;
     td_paymaster := 0;
     td_nonce := as_u16 (pu_upgrade_id d);
     td_value := execute_value (execute tx);
     td_reserved := [pu_to_mint d; refund_recipient; 0; 0];
     td_data := calldata (execute tx);
     td_signature := [];
     td_factory_deps := factory_deps (execute tx);
     td_paymaster_input := [];
     td_reserved_dynamic := [];
     td_raw_bytes := None |}.

(** [From<Transaction> for TransactionData] *)
Definition data_of_transaction (tx : Transaction) : TransactionData :=
  match common_data tx with
  | L2 d => data_of_l2 d tx
  | L1 d => data_of_l1 d tx
  | ProtocolUpgrade d => data_of_upgrade d tx
  end.

Implicit Types d : TransactionData.

Definition data_token d (factory_deps_hashes : list Z) : Token :=
  TokenTuple
    [TokenUint (be_value (be_bytes 1 (td_tx_type d)));
     TokenAddress (td_from d);
     TokenAddress (td_to d);
     TokenUint (td_gas_limit d);
     TokenUint (td_pubdata_price_limit d);
     TokenUint (td_max_fee_per_gas d);
     TokenUint (td_max_priority_fee_per_gas d);
     TokenAddress (td_paymaster d);
     TokenUint (td_nonce d);
     TokenUint (td_value d);
     TokenFixedArray (TokenUint <$> td_reserved d);
     TokenBytes (td_data d);
     TokenBytes (td_signature d);
     TokenArray (TokenUint <$> factory_deps_hashes);
     TokenBytes (td_paymaster_input d);
     TokenBytes (td_reserved_dynamic d)].

Definition abi_encode_with_custom_factory_deps d (factory_deps_hashes : list Z) : list Z :=
  abi_encode [data_token d factory_deps_hashes].

Definition data_abi_encode d : outcome (list Z) :=
  hashes ← factory_deps_hashes bytecode_to_code_hash (td_factory_deps d);
  Ret (abi_encode_with_custom_factory_deps d hashes).

Definition into_tokens d : outcome (list Z) :=
  bs ← data_abi_encode d;
  _ ← rust_assert (length bs mod 32 =? 0)%nat "assertion failed: bytes.len() % 32 == 0";
  bytes_to_be_words bs.

Definition overhead_gas d : Z :=
  derive_overhead
    (encoding_len (len (td_data d)) (len (td_signature d)) (len (td_factory_deps d))
       (len (td_paymaster_input d)) (len (td_reserved_dynamic d))).

Definition trusted_ergs_limit d : Z := Z.min TX_MAX_COMPUTE_GAS_LIMIT (td_gas_limit d).

Definition canonical_l1_tx_hash d : outcome (result Z TxHashCalculationError) :=
  if negb (is_l1_tx_type (td_tx_type d)) then Ret (Err CannotCalculateL1HashForL2Tx)
  else bs ← data_abi_encode d; Ret (Ok (be_value (keccak256 bs))).

(** [TryInto<L2Tx>]; [as_u32] panics on a larger nonce. *)
Definition l2tx_of_data d : outcome (result L2Tx TxHashCalculationError) :=
  if is_l1_tx_type (td_tx_type d) then Ret (Err CannotCalculateL2HashForL1Tx)
  else
    transaction_type ← unwrap (transaction_type_try_from (td_tx_type d));
    _ ← rust_assert (td_nonce d <? 2 ^ 32) "Integer overflow when casting to u32";
    Ret (Ok
      {| l2_execute := {| contract_address := td_to d; calldata := td_data d;
                          execute_value := td_value d; factory_deps := td_factory_deps d |};
         l2_common_data :=
           {| l2_nonce := td_nonce d;
              l2_fee := {| fee_gas_limit := td_gas_limit d;
                           fee_max_fee_per_gas := td_max_fee_per_gas d;
                           fee_max_priority_fee_per_gas := td_max_priority_fee_per_gas d;
                           fee_gas_per_pubdata_limit := td_pubdata_price_limit d |};
              l2_initiator_address := td_from d;
              l2_signature := td_signature d;
              l2_transaction_type := transaction_type;
              l2_input := None;
              l2_paymaster_params := {| paymaster := td_paymaster d;
                                        paymaster_input := td_paymaster_input d |} |};
         l2_received_timestamp_ms := 0;
         l2_raw_bytes := td_raw_bytes d |}).

(** The hash of a request for the transaction on the chain, [TransactionRequest::get_tx_hash]. *)
Variable request_tx_hash : L2Tx -> Z -> option Z.

(** [TransactionData::tx_hash] *)
Definition data_tx_hash d (chain_id : Z) : outcome Z :=
  if is_l1_tx_type (td_tx_type d) then h ← canonical_l1_tx_hash d; unwrap_result h
  else
    r ← l2tx_of_data d;
    l2_tx ← unwrap_result r;
    expect (request_tx_hash l2_tx chain_id) "Could not recover L2 transaction hash".
End TransactionData.

(** ** Bytes of the ABI encoding *)

(** An address is encoded like the number. *)
Class EthAbiAddress `{EthAbi} : Prop := address_as_uint pre a post :
  unsigned 160 a ->
  abi_encode [TokenTuple (pre ++ TokenAddress a :: post)] = abi_encode [TokenTuple (pre ++ TokenUint a :: post)].

(** The words that a list of values takes: dynamic values are referred to by an offset. *)
Definition members {T} (dynamic : T -> bool) (size : T -> nat) (ts : list T) : nat :=
  list_sum ((fun t => if dynamic t then S (size t) else size t) <$> ts).

(** Sizes in words, from the specification of the contract ABI. *)
Class EthAbiSizes `{EthAbi} := {
  dynamic : Token -> bool;
  token_size : Token -> nat;
  uint_size z : dynamic (TokenUint z) = false /\ token_size (TokenUint z) = 1%nat;
  address_size z : dynamic (TokenAddress z) = false /\ token_size (TokenAddress z) = 1%nat;
  bytes_size b : dynamic (TokenBytes b) = true /\
    token_size (TokenBytes b) = (1 + (length b + 31) / 32)%nat;
  array_size ts : dynamic (TokenArray ts) = true /\
    token_size (TokenArray ts) = (1 + members dynamic token_size ts)%nat;
  fixed_array_size ts : dynamic (TokenFixedArray ts) = existsb dynamic ts /\
    token_size (TokenFixedArray ts) = members dynamic token_size ts;
  tuple_size ts : dynamic (TokenTuple ts) = existsb dynamic ts /\
    token_size (TokenTuple ts) = members dynamic token_size ts;
  encode_size ts : length (abi_encode ts) = (32 * members dynamic token_size ts)%nat;
}.

Section Lemmas.
Context {abi : EthAbi}.

Lemma data_token_l1 {addresses : EthAbiAddress} d tx hashes :
  unsigned 160 (l1_sender d) -> unsigned 160 (contract_address (execute tx)) ->
  abi_encode_with_custom_factory_deps (data_of_l1 d tx) hashes =
  abi_encode [canonical_encode (canonical_of_l1 d (execute tx) hashes)].
Proof.
  intros Hs Hc. unfold abi_encode_with_custom_factory_deps, data_token, canonical_encode.
  cbn [data_of_l1 td_tx_type td_from td_to td_gas_limit td_pubdata_price_limit td_max_fee_per_gas
    td_max_priority_fee_per_gas td_paymaster td_nonce td_value td_reserved td_data td_signature
    td_paymaster_input td_reserved_dynamic].
  etrans; [apply (address_as_uint [_] (l1_sender d) _ Hs)|]. cbn [app].
  etrans; [apply (address_as_uint [_; _] (contract_address (execute tx)) _ Hc)|]. cbn [app].
  etrans; [apply (address_as_uint [_; _; _; _; _; _; _] 0); by split; [|apply Z.pow_pos_nonneg]|]. cbn [app].
  unfold canonical_of_l1. cbn [canonical_tx_type canonical_from canonical_to canonical_gas_limit
    canonical_gas_per_pubdata_byte_limit canonical_max_fee_per_gas canonical_max_priority_fee_per_gas
    canonical_paymaster canonical_nonce canonical_value canonical_reserved canonical_data
    canonical_signature canonical_factory_deps canonical_paymaster_input canonical_reserved_dynamic].
  by rewrite (address_to_u256_id (l1_sender d)), (address_to_u256_id (contract_address (execute tx))) by done.
Qed.

Lemma members_uints {sizes : EthAbiSizes} l : members dynamic token_size (TokenUint <$> l) = length l.
Proof.
  induction l as [|z l IH]; [done|]. unfold members in *. rewrite !fmap_cons. cbn [list_sum foldr length].
  rewrite (proj1 (uint_size z)), (proj2 (uint_size z)). unfold list_sum in IH. by rewrite IH.
Qed.

Lemma existsb_uints {sizes : EthAbiSizes} l : existsb dynamic (TokenUint <$> l) = false.
Proof. induction l as [|z l IH]; [done|]. cbn. by destruct (uint_size z) as [-> _]. Qed.

Lemma data_token_size {sizes : EthAbiSizes} d hashes :
  length (td_reserved d) = 4%nat ->
  length (abi_encode_with_custom_factory_deps d hashes) =
    (32 * (25 + (length (td_data d) + 31) / 32 + (length (td_signature d) + 31) / 32 + length hashes
           + (length (td_paymaster_input d) + 31) / 32 + (length (td_reserved_dynamic d) + 31) / 32))%nat.
Proof.
  intros Hr. unfold abi_encode_with_custom_factory_deps. rewrite encode_size. f_equal.
  unfold data_token, members at 1. cbn [fmap list_fmap list_sum foldr].
  destruct (tuple_size [TokenUint (be_value (be_bytes 1 (td_tx_type d)));
     TokenAddress (td_from d); TokenAddress (td_to d); TokenUint (td_gas_limit d);
     TokenUint (td_pubdata_price_limit d); TokenUint (td_max_fee_per_gas d);
     TokenUint (td_max_priority_fee_per_gas d); TokenAddress (td_paymaster d); TokenUint (td_nonce d);
     TokenUint (td_value d); TokenFixedArray (TokenUint <$> td_reserved d); TokenBytes (td_data d);
     TokenBytes (td_signature d); TokenArray (TokenUint <$> hashes); TokenBytes (td_paymaster_input d);
     TokenBytes (td_reserved_dynamic d)]) as [-> ->].
  unfold members. cbn [fmap list_fmap list_sum foldr existsb].
  rewrite !(proj1 (uint_size _)), !(proj1 (address_size _)), !(proj1 (bytes_size _)), !(proj1 (array_size _)),
    !(proj1 (fixed_array_size _)), existsb_uints. cbn [orb].
  rewrite !(proj2 (uint_size _)), !(proj2 (address_size _)), !(proj2 (bytes_size _)), !(proj2 (array_size _)),
    !(proj2 (fixed_array_size _)), !members_uints, Hr. lia.
Qed.
End Lemmas.

(** ** Correctness *)

Lemma factory_deps_hashes_length f deps hashes :
  factory_deps_hashes f deps = Ret hashes -> length hashes = length deps.
Proof.
  revert hashes. induction deps as [|b deps IH]; intros hashes; cbn [factory_deps_hashes].
  - by intros [= <-].
  - intros (h & _ & (hs & Hhs & [= <-])%outcome_bind_Ret)%outcome_bind_Ret. cbn. by rewrite (IH hs).
Qed.

Lemma words_of_len (n : nat) : Z.of_nat ((n + 31) / 32)%nat = ceil_div (Z.of_nat n) 32.
Proof. unfold ceil_div. destruct (Z.eqb_spec (Z.of_nat n) 0); [by replace n with 0%nat by lia|]. div_lia. Qed.

Lemma data_tx_hash_l1 {abi : EthAbi} {addresses : EthAbiAddress}
    rlp_val_at keccak256 bytecode_to_code_hash request_tx_hash chain_id d tx hashes :
  common_data tx = L1 d -> unsigned 160 (l1_sender d) -> unsigned 160 (contract_address (execute tx)) ->
  factory_deps_hashes bytecode_to_code_hash (factory_deps (execute tx)) = Ret hashes ->
  data_tx_hash keccak256 bytecode_to_code_hash request_tx_hash (data_of_transaction rlp_val_at tx) chain_id =
  Ret (canonical_hash keccak256 (canonical_of_l1 d (execute tx) hashes)).
Proof.
  intros Hd Hs Hc Hhs. unfold data_of_transaction. rewrite Hd. unfold data_tx_hash, canonical_l1_tx_hash.
  replace (is_l1_tx_type (td_tx_type (data_of_l1 d tx))) with true by done. cbn [negb].
  unfold data_abi_encode. change (td_factory_deps (data_of_l1 d tx)) with (factory_deps (execute tx)).
  rewrite Hhs, !outcome_Ret_bind. cbn [unwrap_result]. unfold canonical_hash. by rewrite data_token_l1.
Qed.

(** C16: The hash under which the VM executes an accepted priority operation is the hash that the L1
    contract announced in the request: the encoding for the bootloader is that of the canonical
    transaction, byte by byte. *)
Theorem priority_operation_vm_hash {abi : EthAbi} {laws : EthAbiLaws} {addresses : EthAbiAddress}
    rlp_val_at keccak256 bytecode_to_code_hash request_tx_hash chain_id (r : NewPriorityRequest) (t : L1Tx) :
  wf_request r -> l1tx_of_request keccak256 bytecode_to_code_hash r = Ret (Ok t) ->
  unsigned 160 (canonical_from (request_transaction r)) ->
  unsigned 160 (canonical_to (request_transaction r)) ->
  Forall (unsigned 160) (drop 1 (canonical_reserved (request_transaction r))) ->
  data_tx_hash keccak256 bytecode_to_code_hash request_tx_hash
    (data_of_transaction rlp_val_at (transaction_of_l1 t)) chain_id = Ret (be_value (tx_hash r)).
Proof.
  intros Hr Ht Hfrom Hto Hres.
  destruct (l1tx_of_request_inv _ _ r t Hr Ht) as (Hh & _ & _ & Hdeps & Hs & Hc & hashes & Hhs & Heq).
  rewrite <- Hh, Heq by done. apply (data_tx_hash_l1 _ _ _ _ _ _ (transaction_of_l1 t)); [done..|].
  unfold transaction_of_l1. cbn [execute]. by rewrite Hdeps.
Qed.

(** C18: [encoding_len], by which transactions are charged and batches are filled, is exactly the number of
    words that the transaction takes in the memory of the bootloader. *)
Theorem encoding_len_exact {abi : EthAbi} {sizes : EthAbiSizes} bytecode_to_code_hash
    (d : TransactionData) (hashes : list Z) :
  length (td_reserved d) = 4%nat ->
  factory_deps_hashes bytecode_to_code_hash (td_factory_deps d) = Ret hashes ->
  len (td_data d) + len (td_signature d) + len (td_factory_deps d) + len (td_paymaster_input d)
    + len (td_reserved_dynamic d) < 2 ^ 63 ->
  exists words, into_tokens bytecode_to_code_hash d = Ret words /\
    len words = encoding_len (len (td_data d)) (len (td_signature d)) (len (td_factory_deps d))
                  (len (td_paymaster_input d)) (len (td_reserved_dynamic d)).
Proof.
  intros Hr Hhs Hlen. unfold into_tokens, data_abi_encode. rewrite Hhs, !outcome_Ret_bind.
  pose proof (data_token_size d hashes Hr) as Hsize. rewrite (factory_deps_hashes_length _ _ _ Hhs) in Hsize.
  match type of Hsize with _ = (32 * ?k)%nat => set (n := k) in Hsize end.
  set (bs := abi_encode_with_custom_factory_deps d hashes) in *.
  assert (Hmod : (length bs mod 32 =? 0)%nat = true).
  { apply Nat.eqb_eq. rewrite Hsize, Nat.mul_comm. by apply Nat.Div0.mod_mul. }
  unfold bytes_to_be_words, ensure_chunkable. rewrite !rust_assert_true, !outcome_Ret_bind by done.
  eexists. split; [done|]. unfold len at 1. rewrite length_fmap.
  destruct (chunks_length 32 n bs) as [_ ->]; [lia|by rewrite Hsize, Nat.mul_comm|].
  unfold encoding_len, len in *. rewrite <- !words_of_len. unfold wrap.
  change (2 ^ 63) with 9223372036854775808 in Hlen. change (2 ^ 64) with 18446744073709551616.
  assert (Hle : forall k : nat, (Z.of_nat ((k + 31) / 32) <= Z.of_nat k)) by (intros k; div_lia).
  pose proof (Hle (length (td_data d))). pose proof (Hle (length (td_signature d))).
  pose proof (Hle (length (td_paymaster_input d))). pose proof (Hle (length (td_reserved_dynamic d))).
  rewrite (Z.mod_small (_ + _ + _ + _ + _)) by lia. rewrite Z.mod_small by lia. unfold n. lia.
Qed.

(** What the structure keeps of a user transaction: not the input data and the time of reception, and for
    types of Ethereum not the limit of the gas per pubdata, which they do not sign. *)
Definition without_unsigned (tx : L2Tx) : L2Tx :=
  let d := l2_common_data tx in
  {| l2_execute := l2_execute tx;
     l2_common_data :=
       {| l2_nonce := l2_nonce d;
          l2_fee := {| fee_gas_limit := fee_gas_limit (l2_fee d);
                       fee_max_fee_per_gas := fee_max_fee_per_gas (l2_fee d);
                       fee_max_priority_fee_per_gas := fee_max_priority_fee_per_gas (l2_fee d);
                       fee_gas_per_pubdata_limit :=
                         if is_ethereum_type (l2_transaction_type d) then MAX_GAS_PER_PUBDATA_BYTE
                         else fee_gas_per_pubdata_limit (l2_fee d) |};
          l2_initiator_address := l2_initiator_address d;
          l2_signature := l2_signature d;
          l2_transaction_type := l2_transaction_type d;
          l2_input := None;
          l2_paymaster_params := l2_paymaster_params d |};
     l2_received_timestamp_ms := 0;
     l2_raw_bytes := l2_raw_bytes tx |}.


(** *** Instances *)

(** The contract ABI: a value is given by whether it is dynamic and by its words. *)
Module SolidityCodec.

Definition token : Type := bool * list Z.

Definition heads (ts : list token) : nat :=
  list_sum ((fun t : token => if t.1 then 1%nat else length t.2) <$> ts).

(** The head, with offsets in bytes to the dynamic values that follow it. *)
Fixpoint head (offset : nat) (ts : list token) : list Z :=
  match ts with
  | [] => []
  | (true, ws) :: ts => Z.of_nat (32 * offset) :: head (offset + length ws) ts
  | (false, ws) :: ts => ws ++ head offset ts
  end.

Definition pack (ts : list token) : list Z :=
  head (heads ts) ts ++ concat ((fun t : token => if t.1 then t.2 else []) <$> ts).

#[export] Instance codec : EthAbi := {
  Token := token;
  TokenAddress z := (false, [z]); TokenUint z := (false, [z]);
  TokenBytes b := (true, Z.of_nat (length b) ::
                     ((fun c => be_value (c ++ replicate (32 - length c) 0)) <$> chunks 32 b));
  TokenFixedBytes b := (false, [be_value (b ++ replicate (32 - length b) 0)]);
  TokenArray ts := (true, Z.of_nat (length ts) :: pack ts);
  TokenFixedArray ts := (existsb fst ts, pack ts);
  TokenTuple ts := (existsb fst ts, pack ts);
  into_address _ := None; into_uint _ := None; into_bytes _ := None; into_fixed_bytes _ := None;
  into_array _ := None; into_fixed_array _ := None; into_tuple _ := None;
  abi_encode ts := concat (be_bytes 32 <$> pack ts);
  abi_decode _ _ := Err "not needed";
}.

Lemma pack_length ts : length (pack ts) = members fst (fun t : token => length t.2) ts.
Proof.
  unfold pack. rewrite length_app. generalize (heads ts) as o. intros o. revert o. unfold members.
  induction ts as [|[[] ws] ts IH]; intros o; [done|..]; cbn -[Nat.mul]; rewrite ?length_app.
  - specialize (IH (o + length ws)%nat). unfold list_sum, fmap in *. lia.
  - specialize (IH o). unfold list_sum, fmap in *. lia.
Qed.

#[export] Instance sizes : EthAbiSizes.
Proof.
  refine {| dynamic := fst; token_size t := length t.2 |}; try done.
  - intros b. split; [done|]. cbn. by rewrite length_fmap, chunks_count.
  - intros ts. split; [done|]. cbn. by rewrite pack_length.
  - intros ts. split; [done|]. cbn. by rewrite pack_length.
  - intros ts. split; [done|]. cbn. by rewrite pack_length.
  - intros ts. cbn. rewrite <- pack_length. generalize (pack ts) as ws. intros ws.
    induction ws as [|w ws IH]; [done|]. cbn -[be_bytes Nat.mul].
    rewrite length_app, be_bytes_length, IH. lia.
Defined.

#[export] Instance addresses : EthAbiAddress.
Proof. by intros pre a post _. Qed.
End SolidityCodec.

#[local] Instance stream_addresses : EthAbiAddress (H := StreamCodec.codec).
Proof. intros pre a post _. cbn. by rewrite !flat_map_app. Qed.

Definition no_rlp (_ : list Z) (_ : nat) : option Z := None.
Definition no_request_hash (_ : L2Tx) (_ : Z) : option Z := None.

Lemma priority_operation_vm_hash_witness :
  exists t, l1tx_of_request (H := StreamCodec.codec) sample_keccak sample_code_hash sample_request = Ret (Ok t) /\
    data_tx_hash (H := StreamCodec.codec) sample_keccak sample_code_hash no_request_hash
      (data_of_transaction no_rlp (transaction_of_l1 t)) 270 = Ret (be_value (tx_hash sample_request)).
Proof.
  exists (l1tx_received sample_l1tx 0 0).
  assert (l1tx_of_request (H := StreamCodec.codec) sample_keccak sample_code_hash sample_request =
          Ret (Ok (l1tx_received sample_l1tx 0 0))) as Hr by (vm_compute; reflexivity).
  split; [exact Hr|].
  apply (priority_operation_vm_hash (abi := StreamCodec.codec) (laws := StreamCodec.codec_laws)
           no_rlp sample_keccak sample_code_hash no_request_hash 270 sample_request _ sample_request_wf Hr).
  - split; vm_compute; done.
  - split; vm_compute; done.
  - repeat (apply Forall_cons_2; [split; vm_compute; done|]). constructor.
Defined.

Definition sample_data : TransactionData :=
  {| td_tx_type := 113; td_from := 1; td_to := 2; td_gas_limit := 1; td_pubdata_price_limit := 1;
     td_max_fee_per_gas := 1; td_max_priority_fee_per_gas := 1; td_paymaster := 3; td_nonce := 0;
     td_value := 0; td_reserved := [0; 0; 0; 0]; td_data := replicate 65 0; td_signature := replicate 75 0;
     td_factory_deps := [replicate 32 0; replicate 32 1]; td_paymaster_input := replicate 85 0;
     td_reserved_dynamic := replicate 32 0; td_raw_bytes := None |}.

Lemma encoding_len_exact_witness :
  exists words, into_tokens (H := SolidityCodec.codec) sample_code_hash sample_data = Ret words /\
    len words = 37.
Proof.
  apply (encoding_len_exact (sizes := SolidityCodec.sizes) sample_code_hash sample_data [1; 1]);
    vm_compute; reflexivity.
Defined.

