(* ===== verification/VmBootloader.v ===== *)
(** * State of the bootloader

    Model of [src/core/lib/multivm/src/versions/vm_latest/bootloader_state] ([state.rs], [l2_block.rs],
    [tx.rs], [snapshot.rs], [utils.rs]), of the layout of the bootloader memory ([constants.rs]), of
    [types/internals/pubdata.rs] and of the checks of [utils/l2_blocks.rs]: the L2 blocks and transactions of
    a batch, the memory that describes them to the bootloader, and snapshots. *)

From S2P Require Import Prelude Bytes Utils StateDiffs BytecodeCompression Transactions Abi Upgrades VmTransaction.
Open Scope Z_scope.

(** ** Layout of the memory, in words *)

Definition MAX_NEW_FACTORY_DEPS : Z := 32.
Definition MAX_TXS_IN_BATCH : Z := 10000.
Definition DEBUG_SLOTS_OFFSET : Z := 8.
Definition DEBUG_FIRST_SLOTS : Z := 32.
Definition PAYMASTER_CONTEXT_SLOTS : Z := 32 + 1.
Definition MAX_POSTOP_SLOTS : Z := PAYMASTER_CONTEXT_SLOTS + 7.
Definition CURRENT_L2_TX_HASHES_SLOTS : Z := 2.
Definition NEW_FACTORY_DEPS_RESERVED_SLOTS : Z := MAX_NEW_FACTORY_DEPS + 4.
Definition OPERATOR_REFUNDS_SLOTS : Z := MAX_TXS_IN_BATCH.
Definition OPERATOR_REFUNDS_OFFSET : Z :=
  DEBUG_SLOTS_OFFSET + DEBUG_FIRST_SLOTS + PAYMASTER_CONTEXT_SLOTS + CURRENT_L2_TX_HASHES_SLOTS
  + NEW_FACTORY_DEPS_RESERVED_SLOTS.
Definition TX_OVERHEAD_OFFSET : Z := OPERATOR_REFUNDS_OFFSET + OPERATOR_REFUNDS_SLOTS.
Definition TX_OVERHEAD_SLOTS : Z := MAX_TXS_IN_BATCH.
Definition TX_TRUSTED_GAS_LIMIT_OFFSET : Z := TX_OVERHEAD_OFFSET + TX_OVERHEAD_SLOTS.
Definition TX_TRUSTED_GAS_LIMIT_SLOTS : Z := MAX_TXS_IN_BATCH.
Definition TX_OPERATOR_L2_BLOCK_INFO_OFFSET : Z := TX_TRUSTED_GAS_LIMIT_OFFSET + TX_TRUSTED_GAS_LIMIT_SLOTS.
Definition TX_OPERATOR_SLOTS_PER_L2_BLOCK_INFO : Z := 4.
Definition TX_OPERATOR_L2_BLOCK_INFO_SLOTS : Z := (MAX_TXS_IN_BATCH + 1) * TX_OPERATOR_SLOTS_PER_L2_BLOCK_INFO.
Definition COMPRESSED_BYTECODES_OFFSET : Z := TX_OPERATOR_L2_BLOCK_INFO_OFFSET + TX_OPERATOR_L2_BLOCK_INFO_SLOTS.
Definition COMPRESSED_BYTECODES_SLOTS : Z := 196608.
Definition PRIORITY_TXS_L1_DATA_OFFSET : Z := COMPRESSED_BYTECODES_OFFSET + COMPRESSED_BYTECODES_SLOTS.
Definition PRIORITY_TXS_L1_DATA_SLOTS : Z := 2.
Definition OPERATOR_PROVIDED_L1_MESSENGER_PUBDATA_OFFSET : Z :=
  PRIORITY_TXS_L1_DATA_OFFSET + PRIORITY_TXS_L1_DATA_SLOTS.
Definition OPERATOR_PROVIDED_L1_MESSENGER_PUBDATA_SLOTS : Z := 1360000.
Definition BOOTLOADER_TX_DESCRIPTION_OFFSET : Z :=
  OPERATOR_PROVIDED_L1_MESSENGER_PUBDATA_OFFSET + OPERATOR_PROVIDED_L1_MESSENGER_PUBDATA_SLOTS.
Definition BOOTLOADER_TX_DESCRIPTION_SIZE : Z := 2.
Definition TX_DESCRIPTION_OFFSET : Z :=
  BOOTLOADER_TX_DESCRIPTION_OFFSET + BOOTLOADER_TX_DESCRIPTION_SIZE * MAX_TXS_IN_BATCH + MAX_POSTOP_SLOTS.

(** ** Data *)

Inductive TxExecutionMode := VerifyExecute | EstimateFee | EthCall.

Record L2BlockEnv := {
  env_number : Z;
  env_timestamp : Z;
  env_prev_block_hash : Z;
  env_max_virtual_blocks_to_create : Z;
}.

Record L2Block := { l2b_number : Z; l2b_timestamp : Z; l2b_hash : Z }.

Record BootloaderTx := {
  bt_hash : Z;
  encoded : list Z;
  bt_compressed_bytecodes : list CompressedBytecodeInfo;
  refund : Z;
  gas_overhead : Z;
  trusted_gas_limit : Z;
  bt_offset : Z;
}.

Record BootloaderL2Block := {
  blk_number : Z;
  blk_timestamp : Z;
  txs_rolling_hash : Z;
  prev_block_hash : Z;
  first_tx_index : Z;
  max_virtual_blocks_to_create : Z;
  txs : list BootloaderTx;
}.

Record L2BlockSnapshot := { snap_txs_rolling_hash : Z; snap_txs_len : nat }.

Record BootloaderStateSnapshot := {
  snap_tx_to_execute : Z;
  snap_l2_blocks_len : nat;
  snap_last_l2_block : L2BlockSnapshot;
  snap_compressed_bytecodes_encoding : Z;
  snap_free_tx_offset : Z;
  is_pubdata_information_provided : bool;
}.

Record L1MessengerL2ToL1Log := {
  log_l2_shard_id : Z;
  log_is_service : bool;
  log_tx_number_in_block : Z;
  log_sender : Z;
  log_key : Z;
  log_value : Z;
}.

Record PubdataInput := {
  user_logs : list L1MessengerL2ToL1Log;
  l2_to_l1_messages : list (list Z);
  published_bytecodes : list (list Z);
  state_diffs : list StateDiffs.StateDiffRecord;
}.

(** [BootloaderMemory]: values of slots, later ones replace earlier ones. *)
Definition BootloaderMemory : Type := list (Z * Z).

Record BootloaderState := {
  tx_to_execute : Z;
  l2_blocks : list BootloaderL2Block;
  compressed_bytecodes_encoding : Z;
  initial_memory : BootloaderMemory;
  execution_mode : TxExecutionMode;
  free_tx_offset : Z;
  pubdata_information : option PubdataInput;
}.

(** Third-party code: [ethabi], [keccak256] and code hashes; and the hash of a user transaction. *)
Class BootloaderEnv := {
  env_abi :: EthAbi;
  env_keccak256 : list Z -> list Z;
  env_code_hash : list (list Z) -> option Z;
  env_request_tx_hash : L2Tx -> Z -> option Z;
}.

(** [(a..).zip(l)] *)
Fixpoint from_slot (a : Z) (l : list Z) : BootloaderMemory :=
  match l with
  | [] => []
  | x :: l => (a, x) :: from_slot (a + 1) l
  end.

(** ** L2 blocks *)

Definition EMPTY_TXS_ROLLING_HASH : Z := 0.

Definition new_l2_block (l2_block : L2BlockEnv) (first_tx_place : Z) : BootloaderL2Block :=
  {| blk_number := env_number l2_block; blk_timestamp := env_timestamp l2_block;
     txs_rolling_hash := EMPTY_TXS_ROLLING_HASH; prev_block_hash := env_prev_block_hash l2_block;
     first_tx_index := first_tx_place;
     max_virtual_blocks_to_create := env_max_virtual_blocks_to_create l2_block; txs := [] |}.

Definition with_txs (b : BootloaderL2Block) (hash : Z) (l : list BootloaderTx) : BootloaderL2Block :=
  {| blk_number := blk_number b; blk_timestamp := blk_timestamp b; txs_rolling_hash := hash;
     prev_block_hash := prev_block_hash b; first_tx_index := first_tx_index b;
     max_virtual_blocks_to_create := max_virtual_blocks_to_create b; txs := l |}.

Definition block_make_snapshot (b : BootloaderL2Block) : L2BlockSnapshot :=
  {| snap_txs_rolling_hash := txs_rolling_hash b; snap_txs_len := length (txs b) |}.

Definition block_apply_snapshot (b : BootloaderL2Block) (s : L2BlockSnapshot) : outcome BootloaderL2Block :=
  match Nat.compare (length (txs b)) (snap_txs_len s) with
  | Gt => Ret (with_txs b (snap_txs_rolling_hash s) (take (snap_txs_len s) (txs b)))
  | Lt => Panics "Applying snapshot from future is not supported"
  | Eq => Ret (with_txs b (snap_txs_rolling_hash s) (txs b))
  end.

Definition assert_next_block (prev_block : L2Block) (next_block : L2BlockEnv) : outcome unit :=
  _ ← (if l2b_number prev_block =? 0 then
         rust_assert (l2b_timestamp prev_block <=? env_timestamp next_block) "assertion failed: timestamp"
       else
         _ ← rust_assert (wrap 32 (l2b_number prev_block + 1) =? env_number next_block) "assertion failed: number";
         rust_assert (l2b_timestamp prev_block <? env_timestamp next_block) "assertion failed: timestamp");
  rust_assert (l2b_hash prev_block =? env_prev_block_hash next_block) "assertion failed: hash".

(** ** Pubdata *)

Definition packed_encoding (l : L1MessengerL2ToL1Log) : list Z :=
  [log_l2_shard_id l; Z.b2z (log_is_service l)] ++ be_bytes 2 (log_tx_number_in_block l)
  ++ be_bytes 20 (log_sender l) ++ be_bytes 32 (log_key l) ++ be_bytes 32 (log_value l).

(** [(l.len() as u32).to_be_bytes()] *)
Definition len_u32 {A} (l : list A) : list Z := be_bytes 4 (wrap 32 (len l)).

Definition with_len (b : list Z) : list Z := len_u32 b ++ b.

Definition build_pubdata (p : PubdataInput) (with_uncompressed_state_diffs : bool) : outcome (list Z) :=
  state_diffs_compressed ← StateDiffs.compress_state_diffs (state_diffs p);
  Ret (len_u32 (user_logs p) ++ concat (packed_encoding <$> user_logs p)
       ++ len_u32 (l2_to_l1_messages p) ++ concat (with_len <$> l2_to_l1_messages p)
       ++ len_u32 (published_bytecodes p) ++ concat (with_len <$> published_bytecodes p)
       ++ state_diffs_compressed
       ++ (if with_uncompressed_state_diffs
           then len_u32 (state_diffs p) ++ concat (StateDiffs.encode_padded <$> state_diffs p) else [])).

(** ** Memory of the bootloader *)

Definition assemble_tx_meta (mode : TxExecutionMode) (execute_tx : bool) : Z :=
  let mode_byte := match mode with VerifyExecute | EstimateFee => 0 | EthCall => 2 end in
  be_value ([mode_byte] ++ replicate 30 0 ++ [Z.b2z execute_tx]).

Definition apply_l2_block_inner (memory : BootloaderMemory) (b : BootloaderL2Block) (txs_index : Z)
    (start_new_l2_block : bool) : BootloaderMemory :=
  let block_position := TX_OPERATOR_L2_BLOCK_INFO_OFFSET + txs_index * TX_OPERATOR_SLOTS_PER_L2_BLOCK_INFO in
  memory ++
  [(block_position, blk_number b);
   (block_position + 1, blk_timestamp b);
   (block_position + 2, h256_to_u256 (prev_block_hash b));
   (block_position + 3, if start_new_l2_block then max_virtual_blocks_to_create b else 0)].

Definition apply_l2_block (memory : BootloaderMemory) (b : BootloaderL2Block) (txs_index : Z) : BootloaderMemory :=
  apply_l2_block_inner memory b txs_index true.

Definition encoded_len (tx : BootloaderTx) : Z := len (encoded tx).

Section Bootloader.
Context {env : BootloaderEnv}.

Definition l2_block_hash (number timestamp prev_l2_block_hash rolling_hash : Z) : Z :=
  be_value (env_keccak256 (be_bytes 32 number ++ be_bytes 32 timestamp
                           ++ be_bytes 32 prev_l2_block_hash ++ be_bytes 32 rolling_hash)).

Definition concat_and_hash (hash1 hash2 : Z) : Z :=
  be_value (env_keccak256 (be_bytes 32 hash1 ++ be_bytes 32 hash2)).

Definition block_push_tx (b : BootloaderL2Block) (tx : BootloaderTx) : BootloaderL2Block :=
  with_txs b (concat_and_hash (txs_rolling_hash b) (bt_hash tx)) (txs b ++ [tx]).

Definition get_hash (b : BootloaderL2Block) : Z :=
  l2_block_hash (blk_number b) (blk_timestamp b) (prev_block_hash b) (txs_rolling_hash b).

Definition block_l2_block (b : BootloaderL2Block) : L2Block :=
  {| l2b_number := blk_number b; l2b_timestamp := blk_timestamp b; l2b_hash := get_hash b |}.

Definition get_memory_for_compressed_bytecodes (l : list CompressedBytecodeInfo) : outcome (list Z) :=
  memory_addition ← map_outcome
    (encode_call env_code_hash (fun a b => abi_encode [TokenBytes a; TokenBytes b])) l;
  bytes_to_be_words (concat memory_addition).

(** The words of a transaction, and the number of words of its compressed bytecodes. *)
Definition apply_tx_to_memory (memory : BootloaderMemory) (tx : BootloaderTx) (b : BootloaderL2Block)
    (tx_index tx_offset compressed_bytecodes_size : Z) (mode : TxExecutionMode) (start_new_l2_block : bool) :
    outcome (BootloaderMemory * Z) :=
  let bootloader_description_offset :=
    BOOTLOADER_TX_DESCRIPTION_OFFSET + BOOTLOADER_TX_DESCRIPTION_SIZE * tx_index in
  let tx_description_offset := TX_DESCRIPTION_OFFSET + tx_offset in
  let memory := memory ++
    [(bootloader_description_offset, assemble_tx_meta mode true);
     (bootloader_description_offset + 1, be_value (be_bytes 8 (32 * tx_description_offset)));
     (OPERATOR_REFUNDS_OFFSET + tx_index, refund tx);
     (TX_OVERHEAD_OFFSET + tx_index, gas_overhead tx);
     (TX_TRUSTED_GAS_LIMIT_OFFSET + tx_index, trusted_gas_limit tx)] in
  let memory := memory ++ from_slot tx_description_offset (encoded tx) in
  let memory := apply_l2_block_inner memory b tx_index start_new_l2_block in
  let compressed_bytecodes_offset := COMPRESSED_BYTECODES_OFFSET + 1 + compressed_bytecodes_size in
  encoded_compressed_bytecodes ← get_memory_for_compressed_bytecodes (bt_compressed_bytecodes tx);
  Ret (memory ++ from_slot compressed_bytecodes_offset encoded_compressed_bytecodes,
       len encoded_compressed_bytecodes).

Definition apply_pubdata_to_memory (memory : BootloaderMemory) (p : PubdataInput) : outcome BootloaderMemory :=
  let l1_messenger_pubdata_start_slot := OPERATOR_PROVIDED_L1_MESSENGER_PUBDATA_OFFSET + 2 in
  built ← build_pubdata p true;
  let encoding := abi_encode [TokenBytes built] in
  _ ← rust_assert (32 <=? length encoding)%nat "range start index out of range";
  let pubdata := drop 32 encoding in
  _ ← rust_assert (len pubdata / 32 <=? OPERATOR_PROVIDED_L1_MESSENGER_PUBDATA_SLOTS - 2)
        "The encoded pubdata is too big";
  Ret (memory ++ from_slot l1_messenger_pubdata_start_slot (be_value <$> chunks 32 pubdata)).

Definition new_bootloader_tx (tx : TransactionData) (predefined_refund predefined_overhead trusted_gas_limit : Z)
    (compressed_bytecodes : list CompressedBytecodeInfo) (offset chain_id : Z) : outcome BootloaderTx :=
  hash ← data_tx_hash env_keccak256 env_code_hash env_request_tx_hash tx chain_id;
  encoded ← into_tokens env_code_hash tx;
  Ret {| bt_hash := hash; encoded := encoded; bt_compressed_bytecodes := compressed_bytecodes;
         refund := predefined_refund; gas_overhead := predefined_overhead;
         trusted_gas_limit := trusted_gas_limit; bt_offset := offset |}.

(** ** State *)

Implicit Types s : BootloaderState.

Definition new_bootloader_state (mode : TxExecutionMode) (memory : BootloaderMemory) (first_l2_block : L2BlockEnv) :
    BootloaderState :=
  {| tx_to_execute := 0; l2_blocks := [new_l2_block first_l2_block 0]; compressed_bytecodes_encoding := 0;
     initial_memory := memory; execution_mode := mode; free_tx_offset := 0; pubdata_information := None |}.

Definition with_blocks s (blocks : list BootloaderL2Block) : BootloaderState :=
  {| tx_to_execute := tx_to_execute s; l2_blocks := blocks;
     compressed_bytecodes_encoding := compressed_bytecodes_encoding s; initial_memory := initial_memory s;
     execution_mode := execution_mode s; free_tx_offset := free_tx_offset s;
     pubdata_information := pubdata_information s |}.

Definition last_l2_block s : outcome BootloaderL2Block :=
  expect (last (l2_blocks s)) "called `Option::unwrap()` on a `None` value".

(** [*self.last_mut_l2_block() = b] *)
Definition set_last_l2_block s (b : BootloaderL2Block) : BootloaderState :=
  with_blocks s (take (length (l2_blocks s) - 1) (l2_blocks s) ++ [b]).

Definition free_tx_index s : outcome Z :=
  b ← last_l2_block s; Ret (first_tx_index b + len (txs b)).

Definition current_tx s : outcome Z :=
  if 1 <=? tx_to_execute s then Ret (tx_to_execute s - 1) else Panics "There are no current tx to execute".

(** The block of a transaction and the position in the block. *)
Fixpoint find_block (blocks : list BootloaderL2Block) (tx_index : Z) : option (nat * Z) :=
  match blocks with
  | [] => None
  | b :: blocks =>
      match find_block blocks tx_index with
      | Some (i, j) => Some (S i, j)
      | None => if first_tx_index b <=? tx_index then Some (O, tx_index - first_tx_index b) else None
      end
  end.

Definition find_tx s (tx_index : Z) : outcome BootloaderTx :=
  match find_block (l2_blocks s) tx_index with
  | Some (i, j) => b ← index_vec (l2_blocks s) i; index_vec (txs b) (Z.to_nat j)
  | None => Panics "The tx with the index must exist"
  end.

Definition with_refund (tx : BootloaderTx) (r : Z) : BootloaderTx :=
  {| bt_hash := bt_hash tx; encoded := encoded tx; bt_compressed_bytecodes := bt_compressed_bytecodes tx;
     refund := r; gas_overhead := gas_overhead tx; trusted_gas_limit := trusted_gas_limit tx;
     bt_offset := bt_offset tx |}.

Definition set_refund_for_current_tx s (r : Z) : outcome BootloaderState :=
  current_tx ← current_tx s;
  match find_block (l2_blocks s) current_tx with
  | Some (i, j) =>
      b ← index_vec (l2_blocks s) i;
      tx ← index_vec (txs b) (Z.to_nat j);
      let b := with_txs b (txs_rolling_hash b) (<[Z.to_nat j := with_refund tx r]> (txs b)) in
      Ret (with_blocks s (<[i := b]> (l2_blocks s)))
  | None => Panics "The tx with the index must exist"
  end.

Definition set_pubdata_input s (info : PubdataInput) : outcome BootloaderState :=
  match pubdata_information s with
  | Some _ => Panics "Pubdata information is already set"
  | None =>
      Ret {| tx_to_execute := tx_to_execute s; l2_blocks := l2_blocks s;
             compressed_bytecodes_encoding := compressed_bytecodes_encoding s;
             initial_memory := initial_memory s; execution_mode := execution_mode s;
             free_tx_offset := free_tx_offset s; pubdata_information := Some info |}
  end.

Definition push_l2_block s (l2_block : L2BlockEnv) : outcome BootloaderState :=
  index ← free_tx_index s; Ret (with_blocks s (l2_blocks s ++ [new_l2_block l2_block index])).

Definition start_new_l2_block s (l2_block : L2BlockEnv) : outcome BootloaderState :=
  last_block ← last_l2_block s;
  _ ← rust_assert (negb (bool_decide (txs last_block = []))) "Can not create new miniblocks on top of empty ones";
  _ ← assert_next_block (block_l2_block last_block) l2_block;
  push_l2_block s l2_block.

Definition push_tx s (tx : TransactionData) (predefined_overhead predefined_refund : Z)
    (compressed_bytecodes : list CompressedBytecodeInfo) (trusted_ergs_limit chain_id : Z) :
    outcome (BootloaderState * BootloaderMemory) :=
  let tx_offset := free_tx_offset s in
  bootloader_tx ← new_bootloader_tx tx predefined_refund predefined_overhead trusted_ergs_limit
                    compressed_bytecodes tx_offset chain_id;
  last_block ← last_l2_block s;
  index ← free_tx_index s;
  '(memory, compressed_bytecode_size) ←
    apply_tx_to_memory [] bootloader_tx last_block index (free_tx_offset s)
      (compressed_bytecodes_encoding s) (execution_mode s) (bool_decide (txs last_block = []));
  let s := {| tx_to_execute := tx_to_execute s; l2_blocks := l2_blocks s;
              compressed_bytecodes_encoding := compressed_bytecodes_encoding s + compressed_bytecode_size;
              initial_memory := initial_memory s; execution_mode := execution_mode s;
              free_tx_offset := tx_offset + encoded_len bootloader_tx;
              pubdata_information := pubdata_information s |} in
  Ret (set_last_l2_block s (block_push_tx last_block bootloader_tx), memory).

Definition get_pubdata_information s : outcome PubdataInput :=
  expect (pubdata_information s) "Pubdata information is not set".

(** The position in memory: offset, words of compressed bytecodes and index of the next transaction. *)
Definition MemoryPosition : Type := BootloaderMemory * Z * Z * Z.

Definition apply_block_txs (mode : TxExecutionMode) (b : BootloaderL2Block) (acc : MemoryPosition)
    (l : list (nat * BootloaderTx)) : outcome MemoryPosition :=
  foldM (fun '(memory, offset, compressed_bytecodes_offset, tx_index) '(num, tx) =>
    '(memory, compressed_bytecodes_size) ←
      apply_tx_to_memory memory tx b tx_index offset compressed_bytecodes_offset mode (num =? 0)%nat;
    Ret (memory, offset + encoded_len tx, compressed_bytecodes_offset + compressed_bytecodes_size, tx_index + 1))
    acc l.

Definition apply_block (mode : TxExecutionMode) (acc : MemoryPosition) (b : BootloaderL2Block) :
    outcome MemoryPosition :=
  '(memory, offset, compressed_bytecodes_offset, tx_index) ← apply_block_txs mode b acc (imap pair (txs b));
  let memory := if bool_decide (txs b = []) then apply_l2_block memory b tx_index else memory in
  Ret (memory, offset, compressed_bytecodes_offset, tx_index).

Definition bootloader_memory s : outcome BootloaderMemory :=
  '(memory, _, _, _) ← foldM (apply_block (execution_mode s)) (initial_memory s, 0, 0, 0) (l2_blocks s);
  pubdata_information ← expect (pubdata_information s) "Empty pubdata information";
  apply_pubdata_to_memory memory pubdata_information.

Definition get_last_tx_compressed_bytecodes s : outcome (list CompressedBytecodeInfo) :=
  b ← last_l2_block s; Ret (default [] (bt_compressed_bytecodes <$> last (txs b))).

Definition move_tx_to_execute_pointer s : outcome (BootloaderState * Z) :=
  index ← free_tx_index s;
  _ ← rust_assert (tx_to_execute s <? index) "Attempt to execute tx that was not pushed to memory";
  let old := tx_to_execute s in
  Ret ({| tx_to_execute := old + 1; l2_blocks := l2_blocks s;
          compressed_bytecodes_encoding := compressed_bytecodes_encoding s;
          initial_memory := initial_memory s; execution_mode := execution_mode s;
          free_tx_offset := free_tx_offset s; pubdata_information := pubdata_information s |}, old).

Definition get_tx_description_offset s (tx_index : Z) : outcome Z :=
  tx ← find_tx s tx_index; Ret (TX_DESCRIPTION_OFFSET + bt_offset tx).

Definition insert_fictive_l2_block s : outcome (BootloaderState * BootloaderL2Block) :=
  block ← last_l2_block s;
  s ← (if negb (bool_decide (txs block = [])) then
         start_new_l2_block s
           {| env_number := wrap 32 (blk_number block + 1); env_timestamp := wrap 64 (blk_timestamp block + 1);
              env_prev_block_hash := get_hash block; env_max_virtual_blocks_to_create := 1 |}
       else Ret s);
  block ← last_l2_block s;
  Ret (s, block).

Definition get_snapshot s : outcome BootloaderStateSnapshot :=
  b ← last_l2_block s;
  Ret {| snap_tx_to_execute := tx_to_execute s; snap_l2_blocks_len := length (l2_blocks s);
         snap_last_l2_block := block_make_snapshot b;
         snap_compressed_bytecodes_encoding := compressed_bytecodes_encoding s;
         snap_free_tx_offset := free_tx_offset s;
         is_pubdata_information_provided := bool_decide (is_Some (pubdata_information s)) |}.

Definition apply_snapshot s (snapshot : BootloaderStateSnapshot) : outcome BootloaderState :=
  blocks ← match Nat.compare (length (l2_blocks s)) (snap_l2_blocks_len snapshot) with
           | Gt => Ret (take (snap_l2_blocks_len snapshot) (l2_blocks s))
           | Lt => Panics "Applying snapshot from future is not supported"
           | Eq => Ret (l2_blocks s)
           end;
  let s := {| tx_to_execute := snap_tx_to_execute snapshot; l2_blocks := blocks;
              compressed_bytecodes_encoding := snap_compressed_bytecodes_encoding snapshot;
              initial_memory := initial_memory s; execution_mode := execution_mode s;
              free_tx_offset := snap_free_tx_offset snapshot; pubdata_information := pubdata_information s |} in
  b ← last_l2_block s;
  b ← block_apply_snapshot b (snap_last_l2_block snapshot);
  let s := set_last_l2_block s b in
  if negb (is_pubdata_information_provided snapshot) then
    Ret {| tx_to_execute := tx_to_execute s; l2_blocks := l2_blocks s;
           compressed_bytecodes_encoding := compressed_bytecodes_encoding s;
           initial_memory := initial_memory s; execution_mode := execution_mode s;
           free_tx_offset := free_tx_offset s; pubdata_information := None |}
  else
    _ ← rust_assert (bool_decide (is_Some (pubdata_information s)))
          "Snapshot with no pubdata can not rollback to snapshot with one";
    Ret s.
End Bootloader.
