(* ===== verification/VmBootloaderProofs.v ===== *)
(** * Correctness of the bootloader state

    The state is well formed: positions of blocks, transactions and bytecodes are the sums of what comes
    before them.  A snapshot restores everything but refunds. *)

From S2P Require Import Prelude Bytes Utils BytecodeCompression Transactions Abi Upgrades VmTransaction VmBootloader.
Open Scope Z_scope.

(** ** Lists with a last element *)

Lemma last_app_singleton {A} (l : list A) x : last l = Some x -> l = take (length l - 1) l ++ [x].
Proof.
  intros Hl. destruct l as [|y l'] using rev_ind; [done|]. rewrite last_snoc in Hl. injection Hl as ->.
  rewrite length_app. cbn [length]. by rewrite Nat.add_sub, take_app_length.
Qed.

Definition sum_of {A} (f : A -> Z) (l : list A) : Z := foldr Z.add 0 (f <$> l).

Lemma sum_of_app {A} (f : A -> Z) l1 l2 : sum_of f (l1 ++ l2) = sum_of f l1 + sum_of f l2.
Proof. unfold sum_of. induction l1 as [|x l1 IH]; cbn in *; [done|]. rewrite IH. lia. Qed.

Lemma sum_of_nonneg {A} (f : A -> Z) l : (forall x, 0 <= f x) -> 0 <= sum_of f l.
Proof. intros Hf. unfold sum_of. induction l as [|x l IH]; cbn in *; [done|]. specialize (Hf x). lia. Qed.

Section Proofs.
Context {env : BootloaderEnv}.
Implicit Types (s : BootloaderState) (b : BootloaderL2Block) (tx : BootloaderTx).

(** ** Invariant *)

Definition block_txs (blocks : list BootloaderL2Block) : list BootloaderTx := concat (txs <$> blocks).
Definition all_txs s : list BootloaderTx := block_txs (l2_blocks s).

Definition published tx : Prop := exists words, get_memory_for_compressed_bytecodes (bt_compressed_bytecodes tx) = Ret words.

(** The words of the compressed bytecodes of a transaction. *)
Definition bytecode_words tx : list Z :=
  match get_memory_for_compressed_bytecodes (bt_compressed_bytecodes tx) with Ret words => words | Panics _ => [] end.

Definition rolling_hash (l : list BootloaderTx) : Z :=
  foldl concat_and_hash EMPTY_TXS_ROLLING_HASH (bt_hash <$> l).

(** Blocks that start at the transaction with index [i] and the offset [o]. *)
Fixpoint txs_placed (o : Z) (l : list BootloaderTx) : Prop :=
  match l with
  | [] => True
  | tx :: l => bt_offset tx = o /\ published tx /\ txs_placed (o + encoded_len tx) l
  end.

Fixpoint blocks_placed (i : Z) (blocks : list BootloaderL2Block) : Prop :=
  match blocks with
  | [] => True
  | b :: blocks => first_tx_index b = i /\ txs_rolling_hash b = rolling_hash (txs b) /\
                   blocks_placed (i + len (txs b)) blocks
  end.

Record bootloader_wf s : Prop := {
  wf_blocks : l2_blocks s <> [];
  wf_indices : blocks_placed 0 (l2_blocks s);
  wf_offsets : txs_placed 0 (all_txs s);
  wf_free_offset : free_tx_offset s = sum_of encoded_len (all_txs s);
  wf_bytecodes : compressed_bytecodes_encoding s = sum_of (fun tx => len (bytecode_words tx)) (all_txs s);
  wf_pointer : 0 <= tx_to_execute s <= len (all_txs s);
}.

Lemma block_txs_app l1 l2 : block_txs (l1 ++ l2) = block_txs l1 ++ block_txs l2.
Proof. unfold block_txs. by rewrite fmap_app, concat_app. Qed.

Lemma block_txs_snoc l b : block_txs (l ++ [b]) = block_txs l ++ txs b.
Proof. rewrite block_txs_app. unfold block_txs. cbn. by rewrite app_nil_r. Qed.

Lemma txs_placed_app o l1 l2 :
  txs_placed o (l1 ++ l2) <-> txs_placed o l1 /\ txs_placed (o + sum_of encoded_len l1) l2.
Proof.
  revert o. induction l1 as [|tx l1 IH]; intros o; cbn [txs_placed app].
  - change (sum_of encoded_len []) with 0. rewrite Z.add_0_r. naive_solver.
  - rewrite IH. change (sum_of encoded_len (tx :: l1)) with (encoded_len tx + sum_of encoded_len l1).
    rewrite Z.add_assoc. naive_solver.
Qed.

Lemma len_app {A} (l1 l2 : list A) : len (l1 ++ l2) = len l1 + len l2.
Proof. unfold len. rewrite length_app. lia. Qed.

Lemma blocks_placed_app i l1 l2 :
  blocks_placed i (l1 ++ l2) <-> blocks_placed i l1 /\ blocks_placed (i + len (block_txs l1)) l2.
Proof.
  revert i. induction l1 as [|b l1 IH]; intros i; cbn [blocks_placed app].
  - change (len (block_txs [])) with 0. rewrite Z.add_0_r. naive_solver.
  - rewrite IH. change (block_txs (b :: l1)) with (txs b ++ block_txs l1). rewrite len_app, Z.add_assoc.
    naive_solver.
Qed.

Lemma rolling_hash_snoc l tx : rolling_hash (l ++ [tx]) = concat_and_hash (rolling_hash l) (bt_hash tx).
Proof. unfold rolling_hash. rewrite fmap_app, foldl_app. done. Qed.

(** The last block. *)
Lemma last_block_split s b :
  last_l2_block s = Ret b -> exists pre, l2_blocks s = pre ++ [b] /\ set_last_l2_block s = fun b' => with_blocks s (pre ++ [b']).
Proof.
  intros Hb. apply expect_Ret in Hb. exists (take (length (l2_blocks s) - 1) (l2_blocks s)).
  split; [by apply last_app_singleton|done].
Qed.

Lemma free_tx_index_wf s i : bootloader_wf s -> free_tx_index s = Ret i -> i = len (all_txs s).
Proof.
  intros [_ Hi _ _ _ _] (b & Hb & [= <-])%outcome_bind_Ret.
  destruct (last_block_split s b Hb) as (pre & Hs & _). unfold all_txs. rewrite Hs in *.
  apply blocks_placed_app in Hi as [_ [-> _]]. by rewrite block_txs_snoc, len_app.
Qed.

Lemma new_state_wf mode memory first : bootloader_wf (new_bootloader_state mode memory first).
Proof. by split. Qed.

Lemma push_l2_block_wf s l2_block s' : bootloader_wf s -> push_l2_block s l2_block = Ret s' -> bootloader_wf s'.
Proof.
  intros Hs (i & Hi & [= <-])%outcome_bind_Ret. pose proof (free_tx_index_wf s i Hs Hi) as ->.
  destruct Hs as [Hb Hi' Ho Hf Hc Hp].
  assert (all_txs (with_blocks s (l2_blocks s ++ [new_l2_block l2_block (len (all_txs s))])) = all_txs s) as Htxs.
  { unfold all_txs at 1. cbn [with_blocks l2_blocks]. rewrite block_txs_snoc. by rewrite app_nil_r. }
  split; rewrite ?Htxs; try done.
  - cbn. by destruct (l2_blocks s).
  - cbn [with_blocks l2_blocks]. apply blocks_placed_app. by split.
Qed.

Lemma start_new_l2_block_inv s l2_block s' :
  start_new_l2_block s l2_block = Ret s' -> push_l2_block s l2_block = Ret s'.
Proof.
  intros (b & _ & (? & _ & (? & _ & Hp)%outcome_bind_Ret)%outcome_bind_Ret)%outcome_bind_Ret. done.
Qed.

Lemma apply_tx_to_memory_published memory tx b i o c mode start memory' n :
  apply_tx_to_memory memory tx b i o c mode start = Ret (memory', n) ->
  published tx /\ n = len (bytecode_words tx).
Proof.
  intros (words & Hw & [= _ <-])%outcome_bind_Ret. unfold published, bytecode_words. rewrite Hw. eauto.
Qed.

(** What a pushed transaction looks like. *)
Lemma push_tx_inv s data overhead predefined_refund bytecodes limit chain_id s' memory :
  push_tx s data overhead predefined_refund bytecodes limit chain_id = Ret (s', memory) ->
  exists pre b tx, l2_blocks s = pre ++ [b] /\ bt_offset tx = free_tx_offset s /\ published tx /\
    s' = {| tx_to_execute := tx_to_execute s; l2_blocks := pre ++ [block_push_tx b tx];
            compressed_bytecodes_encoding := compressed_bytecodes_encoding s + len (bytecode_words tx);
            initial_memory := initial_memory s; execution_mode := execution_mode s;
            free_tx_offset := free_tx_offset s + encoded_len tx;
            pubdata_information := pubdata_information s |} /\
    apply_tx_to_memory [] tx b (first_tx_index b + len (txs b)) (free_tx_offset s)
      (compressed_bytecodes_encoding s) (execution_mode s) (bool_decide (txs b = [])) =
      Ret (memory, len (bytecode_words tx)).
Proof.
  unfold push_tx. intros (tx & Htx & H1)%outcome_bind_Ret. apply outcome_bind_Ret in H1 as (b & Hb & H2).
  apply outcome_bind_Ret in H2 as (i & Hi & H3). apply outcome_bind_Ret in H3 as ([m n] & Hm & [= <- <-]).
  destruct (last_block_split s b Hb) as (pre & Hs & _). exists pre, b, tx.
  destruct (apply_tx_to_memory_published _ _ _ _ _ _ _ _ _ _ Hm) as [Hp ->].
  unfold free_tx_index in Hi. rewrite Hb, outcome_Ret_bind in Hi. injection Hi as <-.
  apply outcome_bind_Ret in Htx as (h & _ & (w & _ & [= <-])%outcome_bind_Ret).
  split; [done|]. split; [done|]. split; [done|]. split; [|done].
  unfold set_last_l2_block, with_blocks. cbn [l2_blocks tx_to_execute compressed_bytecodes_encoding initial_memory
    execution_mode free_tx_offset pubdata_information].
  by rewrite Hs, length_app, Nat.add_sub, take_app_length.
Qed.

Lemma push_tx_wf s data overhead predefined_refund bytecodes limit chain_id s' memory :
  bootloader_wf s -> push_tx s data overhead predefined_refund bytecodes limit chain_id = Ret (s', memory) ->
  bootloader_wf s'.
Proof.
  intros [Hb Hi Ho Hf Hc Hp] Hpush.
  destruct (push_tx_inv _ _ _ _ _ _ _ _ _ Hpush) as (pre & b & tx & Hs & Hoff & Hpub & -> & _).
  unfold all_txs in *. cbn [l2_blocks]. rewrite Hs in *. rewrite block_txs_snoc in *.
  split; cbn [l2_blocks free_tx_offset compressed_bytecodes_encoding tx_to_execute];
    unfold all_txs; cbn [l2_blocks]; rewrite ?block_txs_snoc; cbn [block_push_tx with_txs txs];
    rewrite ?(assoc_L (++)).
  - by destruct pre.
  - apply blocks_placed_app in Hi as (Hpre & Hi & Hh & _). apply blocks_placed_app. split; [done|].
    split_and!; [done| |done]. cbn [block_push_tx with_txs txs_rolling_hash txs]. by rewrite rolling_hash_snoc, Hh.
  - apply txs_placed_app. split; [done|]. cbn [txs_placed]. split_and!; [|done|done]. rewrite Hoff, Hf. lia.
  - rewrite sum_of_app, Hf. unfold sum_of. cbn. lia.
  - rewrite sum_of_app, Hc. unfold sum_of. cbn. lia.
  - rewrite len_app. unfold len in *. cbn. lia.
Qed.

(** ** Up to refunds *)

Definition no_refund tx : BootloaderTx := with_refund tx 0.
Definition block_no_refunds b : BootloaderL2Block := with_txs b (txs_rolling_hash b) (no_refund <$> txs b).
Definition no_refunds s : BootloaderState := with_blocks s (block_no_refunds <$> l2_blocks s).

Lemma block_txs_no_refunds blocks : block_txs (block_no_refunds <$> blocks) = no_refund <$> block_txs blocks.
Proof.
  unfold block_txs. induction blocks as [|b blocks IH]; [done|]. cbn in *. by rewrite fmap_app, IH.
Qed.

Lemma sum_of_no_refund (f : BootloaderTx -> Z) l :
  (forall tx, f (no_refund tx) = f tx) -> sum_of f (no_refund <$> l) = sum_of f l.
Proof. intros Hf. unfold sum_of. induction l as [|tx l IH]; [done|]. cbn in *. by rewrite Hf, IH. Qed.

Lemma txs_placed_no_refund o l : txs_placed o (no_refund <$> l) <-> txs_placed o l.
Proof. revert o. induction l as [|tx l IH]; intros o; [done|]. cbn. by rewrite IH. Qed.

Lemma rolling_hash_no_refund l : rolling_hash (no_refund <$> l) = rolling_hash l.
Proof. unfold rolling_hash. f_equal. rewrite <- list_fmap_compose. by apply list_fmap_ext. Qed.

Lemma blocks_placed_no_refunds i blocks : blocks_placed i (block_no_refunds <$> blocks) <-> blocks_placed i blocks.
Proof.
  revert i. induction blocks as [|b blocks IH]; intros i; [done|]. rewrite fmap_cons.
  cbn [blocks_placed block_no_refunds with_txs first_tx_index txs_rolling_hash txs].
  unfold len. by rewrite IH, rolling_hash_no_refund, length_fmap.
Qed.

Lemma no_refunds_wf s : bootloader_wf (no_refunds s) <-> bootloader_wf s.
Proof.
  assert (Htxs : all_txs (no_refunds s) = no_refund <$> all_txs s) by apply block_txs_no_refunds.
  split; intros [Hb Hi Ho Hf Hc Hp]; split; rewrite ?Htxs in *;
    rewrite ?txs_placed_no_refund, ?sum_of_no_refund in * by done; try done.
  - intros Hnil. apply Hb. cbn. by rewrite Hnil.
  - exact (proj1 (blocks_placed_no_refunds 0 (l2_blocks s)) Hi).
  - unfold len in *. by rewrite length_fmap in Hp.
  - intros Hnil. by apply fmap_nil_inv in Hnil.
  - exact (proj2 (blocks_placed_no_refunds 0 (l2_blocks s)) Hi).
  - unfold len. by rewrite length_fmap.
Qed.

Lemma insert_same {A B} (f : A -> B) (l : list A) i x y :
  l !! i = Some x -> f y = f x -> f <$> <[i := y]> l = f <$> l.
Proof. intros Hi Hf. rewrite list_fmap_insert, Hf, <- list_fmap_insert. by rewrite list_insert_id. Qed.

Lemma set_refund_no_refunds s r s' : set_refund_for_current_tx s r = Ret s' -> no_refunds s' = no_refunds s.
Proof.
  intros (cur & _ & Hs)%outcome_bind_Ret. destruct (find_block _ _) as [[i j]|]; [|done].
  apply outcome_bind_Ret in Hs as (b & Hb & (tx & Htx & [= <-])%outcome_bind_Ret).
  apply index_vec_Ret in Hb, Htx. unfold no_refunds, with_blocks. cbn [l2_blocks tx_to_execute
    compressed_bytecodes_encoding initial_memory execution_mode free_tx_offset pubdata_information].
  f_equal. apply (insert_same _ _ _ b); [done|]. unfold block_no_refunds, with_txs. cbn [txs txs_rolling_hash
    blk_number blk_timestamp prev_block_hash first_tx_index max_virtual_blocks_to_create].
  f_equal. by apply (insert_same _ _ _ tx).
Qed.

(** *** Operations *)

Inductive BootloaderOp :=
  | BopTx (data : TransactionData) (overhead predefined_refund : Z) (bytecodes : list CompressedBytecodeInfo)
          (limit chain_id : Z)
  | BopStartBlock (l2_block : L2BlockEnv)
  | BopPushBlock (l2_block : L2BlockEnv)
  | BopFictiveBlock
  | BopExecute
  | BopRefund (r : Z)
  | BopPubdata (info : PubdataInput).

Definition bootloader_op s (op : BootloaderOp) : outcome BootloaderState :=
  match op with
  | BopTx data overhead predefined_refund bytecodes limit chain_id =>
      '(s, _) ← push_tx s data overhead predefined_refund bytecodes limit chain_id; Ret s
  | BopStartBlock l2_block => start_new_l2_block s l2_block
  | BopPushBlock l2_block => push_l2_block s l2_block
  | BopFictiveBlock => '(s, _) ← insert_fictive_l2_block s; Ret s
  | BopExecute => '(s, _) ← move_tx_to_execute_pointer s; Ret s
  | BopRefund r => set_refund_for_current_tx s r
  | BopPubdata info => set_pubdata_input s info
  end.

Lemma insert_fictive_inv s s' b :
  insert_fictive_l2_block s = Ret (s', b) -> s' = s \/ exists l2_block, push_l2_block s l2_block = Ret s'.
Proof.
  intros (b0 & _ & (s1 & Hs1 & (b1 & _ & [= <- <-])%outcome_bind_Ret)%outcome_bind_Ret)%outcome_bind_Ret.
  destruct (negb _); [|left; by injection Hs1]. right. eexists. by apply start_new_l2_block_inv.
Qed.

Lemma move_pointer_wf s s' i : bootloader_wf s -> move_tx_to_execute_pointer s = Ret (s', i) -> bootloader_wf s'.
Proof.
  intros Hs (n & Hn & Hm)%outcome_bind_Ret. pose proof (free_tx_index_wf s n Hs Hn) as ->.
  apply outcome_bind_Ret in Hm as (? & Ha & [= <- <-]).
  destruct (Z.ltb_spec (tx_to_execute s) (len (all_txs s))); [|done].
  destruct Hs as [Hb Hi Ho Hf Hc Hp]. split; try done.
  change (0 <= tx_to_execute s + 1 <= len (all_txs s)). lia.
Qed.

Lemma bootloader_op_wf s op s' : bootloader_wf s -> bootloader_op s op = Ret s' -> bootloader_wf s'.
Proof.
  intros Hs. destruct op as [data overhead rf bytecodes limit chain|env'|env'| | |r|info]; cbn [bootloader_op].
  - intros ([s1 m] & Hp & [= <-])%outcome_bind_Ret. by eapply push_tx_wf.
  - intros Hp%start_new_l2_block_inv. by eapply push_l2_block_wf.
  - intros Hp. by eapply push_l2_block_wf.
  - intros ([s1 b] & Hf & [= <-])%outcome_bind_Ret.
    apply insert_fictive_inv in Hf as [->|(l2_block & Hp)]; [done|]. by eapply push_l2_block_wf.
  - intros ([s1 i] & Hm & [= <-])%outcome_bind_Ret. by eapply move_pointer_wf.
  - intros Hr%set_refund_no_refunds. apply no_refunds_wf. rewrite Hr. by apply no_refunds_wf.
  - unfold set_pubdata_input. case_match; [done|]. intros [= <-]. by destruct Hs.
Qed.

(** *** Finding transactions *)

Lemma find_block_None blocks : forall start i,
  blocks_placed start blocks -> i < start -> find_block blocks i = None.
Proof.
  induction blocks as [|b blocks IH]; intros start i; cbn [blocks_placed find_block]; [done|].
  intros (Hb & _ & Hp) Hi. rewrite (IH (start + len (txs b))); [|done|unfold len; lia].
  by rewrite Hb, (proj2 (Z.leb_gt _ _)).
Qed.

Lemma find_block_spec blocks : forall start (n : nat) tx,
  blocks_placed start blocks -> block_txs blocks !! n = Some tx ->
  exists k j b, find_block blocks (start + Z.of_nat n) = Some (k, Z.of_nat j) /\
    blocks !! k = Some b /\ txs b !! j = Some tx.
Proof.
  induction blocks as [|b blocks IH]; intros start n tx; cbn [blocks_placed find_block]; [done|].
  intros (Hb & _ & Hp) Hn. change (block_txs (b :: blocks)) with (txs b ++ block_txs blocks) in Hn.
  apply lookup_app_Some in Hn as [Hn|[Hge Hn]].
  - apply lookup_lt_Some in Hn as Hlt. rewrite (find_block_None _ (start + len (txs b))) by (unfold len; lia || done).
    rewrite Hb, (proj2 (Z.leb_le _ _)) by lia. exists O, n, b. split; [|done]. do 2 f_equal. lia.
  - destruct (IH _ _ _ Hp Hn) as (k & j & b' & Hf & Hk & Hj).
    replace (start + Z.of_nat n) with (start + len (txs b) + Z.of_nat (n - length (txs b))) by (unfold len; lia).
    rewrite Hf. by exists (S k), j, b'.
Qed.

Lemma find_tx_spec s (n : nat) tx :
  bootloader_wf s -> all_txs s !! n = Some tx -> find_tx s (Z.of_nat n) = Ret tx.
Proof.
  intros Hs Hn. destruct (find_block_spec _ 0 n tx (wf_indices s Hs) Hn) as (k & j & b & Hf & Hk & Hj).
  unfold find_tx. rewrite Z.add_0_l in Hf. rewrite Hf, (proj2 (index_vec_Ret _ _ b) Hk), outcome_Ret_bind.
  rewrite Nat2Z.id. by apply index_vec_Ret.
Qed.

Lemma txs_placed_offset l : forall o (n : nat) tx,
  txs_placed o l -> l !! n = Some tx -> bt_offset tx = o + sum_of encoded_len (take n l).
Proof.
  induction l as [|x l IH]; intros o n tx; cbn [txs_placed]; [done|]. intros (Ho & _ & Hp) Hn.
  destruct n as [|n]; cbn in Hn.
  - injection Hn as ->. unfold sum_of. cbn. lia.
  - rewrite (IH _ _ _ Hp Hn). unfold sum_of. cbn. lia.
Qed.

(** ** Snapshots *)

(** The state was extended by transactions and blocks, and refunds may have changed. *)
Definition grows s s' : Prop :=
  (exists pre b post h extra, l2_blocks (no_refunds s) = pre ++ [b] /\
     l2_blocks (no_refunds s') = pre ++ with_txs b h (txs b ++ extra) :: post) /\
  initial_memory s' = initial_memory s /\ execution_mode s' = execution_mode s /\
  (forall p, pubdata_information s = Some p -> pubdata_information s' = Some p).

Lemma with_txs_id b : with_txs b (txs_rolling_hash b) (txs b) = b.
Proof. by destruct b. Qed.

Lemma grows_same s s' : l2_blocks s <> [] -> no_refunds s' = no_refunds s -> grows s s'.
Proof.
  intros Hs Heq. split_and!.
  - destruct (exists_last (l := l2_blocks (no_refunds s))) as (pre & b & Hb).
    { intros Hnil. by apply fmap_nil_inv in Hnil. }
    exists pre, b, [], (txs_rolling_hash b), []. rewrite Heq, Hb, app_nil_r, with_txs_id. done.
  - exact (f_equal initial_memory Heq).
  - exact (f_equal execution_mode Heq).
  - intros p Hp. by rewrite <- Hp, (f_equal pubdata_information Heq : pubdata_information s' = pubdata_information s).
Qed.

Lemma grows_trans s1 s2 s3 : grows s1 s2 -> grows s2 s3 -> grows s1 s3.
Proof.
  intros ((pre & b & post & h & extra & H1 & H2) & Hm & He & Hp).
  intros ((pre' & b' & post' & h' & extra' & H3 & H4) & Hm' & He' & Hp').
  split; [|split_and!; [by rewrite Hm'|by rewrite He'|eauto]].
  rewrite H2 in H3. destruct post as [|c post _] using rev_ind.
  - apply app_inj_tail in H3 as [<- <-]. exists pre, b, post', h', (extra ++ extra').
    split; [done|]. rewrite H4. cbn. by rewrite (assoc_L (++)).
  - rewrite (app_comm_cons post), (assoc_L (++)) in H3. apply app_inj_tail in H3 as [<- <-].
    exists pre, b, (post ++ with_txs c h' (txs c ++ extra') :: post'), h, extra.
    split; [done|]. by rewrite H4, <- (assoc_L (++)).
Qed.

Lemma push_l2_block_grows s l2_block s' : l2_blocks s <> [] -> push_l2_block s l2_block = Ret s' -> grows s s'.
Proof.
  intros Hs (i & _ & [= <-])%outcome_bind_Ret.
  destruct (grows_same s s Hs eq_refl) as ((pre & b & post & h & extra & H1 & H2) & _).
  split; [|by split_and!]. exists pre, b, (post ++ [block_no_refunds (new_l2_block l2_block i)]), h, extra.
  split; [done|]. cbn [no_refunds with_blocks l2_blocks] in *. rewrite fmap_app, H2.
  by rewrite <- (assoc_L (++)), app_comm_cons.
Qed.

Lemma push_tx_grows s data overhead rf bytecodes limit chain_id s' memory :
  push_tx s data overhead rf bytecodes limit chain_id = Ret (s', memory) -> grows s s'.
Proof.
  intros Hp. destruct (push_tx_inv _ _ _ _ _ _ _ _ _ Hp) as (pre & b & tx & Hs & _ & _ & -> & _).
  split; [|by split_and!].
  exists (block_no_refunds <$> pre), (block_no_refunds b), [],
    (concat_and_hash (txs_rolling_hash b) (bt_hash tx)), [no_refund tx].
  cbn [no_refunds with_blocks l2_blocks]. rewrite Hs, !fmap_app. split; [done|].
  unfold block_no_refunds, block_push_tx, with_txs.
  cbn [fmap list_fmap txs txs_rolling_hash blk_number blk_timestamp prev_block_hash first_tx_index
    max_virtual_blocks_to_create]. by rewrite fmap_app.
Qed.

Lemma bootloader_op_grows s op s' : bootloader_wf s -> bootloader_op s op = Ret s' -> grows s s'.
Proof.
  intros [Hs _ _ _ _ _]. destruct op as [data overhead rf bytecodes limit chain|env'|env'| | |r|info]; cbn [bootloader_op].
  - intros ([s1 m] & Hp & [= <-])%outcome_bind_Ret. by eapply push_tx_grows.
  - intros Hp%start_new_l2_block_inv. by eapply push_l2_block_grows.
  - intros Hp. by eapply push_l2_block_grows.
  - intros ([s1 b] & Hf & [= <-])%outcome_bind_Ret.
    apply insert_fictive_inv in Hf as [->|(l2_block & Hp)]; [by apply grows_same|]. by eapply push_l2_block_grows.
  - intros ([s1 i] & (n & _ & (? & _ & [= <- <-])%outcome_bind_Ret)%outcome_bind_Ret & [= <-])%outcome_bind_Ret.
    by destruct (grows_same s s Hs eq_refl) as (Hb & _).
  - intros Hr%set_refund_no_refunds. by apply grows_same.
  - unfold set_pubdata_input. destruct (pubdata_information s) eqn:Hpub; [done|]. intros [= <-].
    destruct (grows_same s s Hs eq_refl) as (Hb & _). split; [done|]. split_and!; [done..|]. by rewrite Hpub.
Qed.

Lemma fmap_snoc_inv {A B} (f : A -> B) l k y :
  f <$> l = k ++ [y] -> exists l' x, l = l' ++ [x] /\ f <$> l' = k /\ f x = y.
Proof.
  intros Hl. destruct l as [|x l' _] using rev_ind; [by destruct k|]. rewrite fmap_app in Hl. cbn in Hl.
  apply app_inj_tail in Hl as [H1 H2]. eauto.
Qed.

Lemma take_blocks_msg (l : list BootloaderL2Block) n msg :
  (n <= length l)%nat ->
  match Nat.compare (length l) n with Eq => Ret l | Lt => Panics msg | Gt => Ret (take n l) end = Ret (take n l).
Proof.
  intros Hn. destruct (Nat.compare_spec (length l) n) as [Heq|Hlt|Hgt]; [|lia|done]. by rewrite take_ge by lia.
Qed.

(** Rolling a block back drops the transactions that were added to it. *)
Lemma block_apply_snapshot_restores b b' h extra :
  block_no_refunds b' = with_txs (block_no_refunds b) h (txs (block_no_refunds b) ++ extra) ->
  exists b'', block_apply_snapshot b' (block_make_snapshot b) = Ret b'' /\
    block_no_refunds b'' = block_no_refunds b.
Proof.
  intros Hb. pose proof (f_equal txs Hb) as Htxs. cbn [block_no_refunds with_txs txs] in Htxs.
  assert (Hlen : (length (txs b) <= length (txs b'))%nat).
  { pose proof (f_equal length Htxs) as Hl. rewrite length_app, !length_fmap in Hl. lia. }
  assert (Htake : no_refund <$> take (length (txs b)) (txs b') = no_refund <$> txs b).
  { rewrite fmap_take, Htxs. apply take_app_length'. by rewrite length_fmap. }
  exists (with_txs b' (txs_rolling_hash b) (take (length (txs b)) (txs b'))). split.
  - unfold block_apply_snapshot. cbn [block_make_snapshot snap_txs_len snap_txs_rolling_hash].
    destruct (Nat.compare_spec (length (txs b')) (length (txs b))) as [Heq|Hlt|Hgt]; [|lia|done].
    by rewrite take_ge by lia.
  - unfold block_no_refunds at 1. cbn [with_txs txs txs_rolling_hash]. rewrite Htake.
    destruct b as [n1 t1 h1 p1 f1 m1 l1], b' as [n2 t2 h2 p2 f2 m2 l2]. unfold block_no_refunds, with_txs in *.
    cbn in *. clear Htake Htxs Hlen. injection Hb. intros. by subst.
Qed.

Lemma snapshot_restores s s' snapshot :
  grows s s' -> get_snapshot s = Ret snapshot ->
  exists s'', apply_snapshot s' snapshot = Ret s'' /\ no_refunds s'' = no_refunds s.
Proof.
  intros ((pre & b0 & post & h & extra & H1 & H2) & Hm & He & Hp) (b & Hlast & [= <-])%outcome_bind_Ret.
  destruct (last_block_split s b Hlast) as (pre0 & Hs & _).
  cbn [no_refunds with_blocks l2_blocks] in H1, H2. rewrite Hs, fmap_app in H1.
  apply app_inj_tail in H1 as [<- <-].
  assert (Hlen : length (l2_blocks s) = S (length pre0)) by (rewrite Hs, length_app; cbn; lia).
  assert (Htake : block_no_refunds <$> take (length (l2_blocks s)) (l2_blocks s') =
    (block_no_refunds <$> pre0) ++ [with_txs (block_no_refunds b) h (txs (block_no_refunds b) ++ extra)]).
  { rewrite fmap_take, H2, cons_middle, (assoc_L (++)). apply take_app_length'.
    rewrite length_app, length_fmap, Hlen. cbn. lia. }
  destruct (fmap_snoc_inv _ _ _ _ Htake) as (pre1 & b1 & Htk & Hpre1 & Hb1).
  destruct (block_apply_snapshot_restores b b1 h extra Hb1) as (b2 & Hb2 & Hb2').
  unfold apply_snapshot. cbn [snap_l2_blocks_len snap_last_l2_block is_pubdata_information_provided
    snap_tx_to_execute snap_compressed_bytecodes_encoding snap_free_tx_offset].
  rewrite (take_blocks_msg _ (length (l2_blocks s))).
  2:{ pose proof (f_equal length Htake) as Hl. rewrite length_fmap, length_app, length_take, length_fmap in Hl.
      cbn in Hl. lia. }
  rewrite outcome_Ret_bind, Htk. unfold last_l2_block at 1. cbn [l2_blocks]. rewrite last_snoc. cbn [expect].
  rewrite outcome_Ret_bind, Hb2, outcome_Ret_bind.
  unfold set_last_l2_block, with_blocks. cbn [l2_blocks tx_to_execute compressed_bytecodes_encoding initial_memory
    execution_mode free_tx_offset pubdata_information]. rewrite length_app, Nat.add_sub, take_app_length.
  assert (Hblocks : block_no_refunds <$> pre1 ++ [b2] = block_no_refunds <$> l2_blocks s).
  { rewrite Hs, !fmap_app, Hpre1. cbn [fmap list_fmap]. by rewrite Hb2'. }
  destruct (pubdata_information s) as [p|] eqn:Hpub; cbn [negb].
  - rewrite bool_decide_eq_true_2 by eauto. cbn [negb]. rewrite (Hp p eq_refl).
    rewrite rust_assert_true, outcome_Ret_bind by (by apply bool_decide_eq_true_2; eauto).
    eexists. split; [done|]. unfold no_refunds, with_blocks. cbn. rewrite Hblocks. destruct s. cbn in *. by subst.
  - rewrite bool_decide_eq_false_2 by (by intros [? ?]). cbn [negb].
    eexists. split; [done|]. unfold no_refunds, with_blocks. cbn. rewrite Hblocks. destruct s. cbn in *. by subst.
Qed.

(** *** Runs *)

(** Operations, and excursions that end with a rollback to a snapshot taken at their start. *)
Inductive bootloader_runs : BootloaderState -> BootloaderState -> Prop :=
  | run_done s : bootloader_runs s s
  | run_op s s1 op s2 : bootloader_runs s s1 -> bootloader_op s1 op = Ret s2 -> bootloader_runs s s2
  | run_rollback s s1 snapshot s2 s3 :
      bootloader_runs s s1 -> get_snapshot s1 = Ret snapshot -> bootloader_runs s1 s2 ->
      apply_snapshot s2 snapshot = Ret s3 -> bootloader_runs s s3.

Lemma runs_grow s s' : bootloader_runs s s' -> bootloader_wf s -> bootloader_wf s' /\ grows s s'.
Proof.
  induction 1 as [s|s s1 op s2 _ IH Hop|s s1 snapshot s2 s3 _ IH1 Hsnap _ IH2 Happly]; intros Hs.
  - split; [done|]. by apply grows_same; [apply wf_blocks|].
  - destruct (IH Hs) as [Hw Hg]. split; [by eapply bootloader_op_wf|].
    eapply grows_trans; [done|]. by eapply bootloader_op_grows.
  - destruct (IH1 Hs) as [Hw1 Hg1]. destruct (IH2 Hw1) as [Hw2 Hg2].
    destruct (snapshot_restores s1 s2 snapshot Hg2 Hsnap) as (s3' & H3 & Heq).
    rewrite Happly in H3. injection H3 as <-. split.
    + apply no_refunds_wf. rewrite Heq. by apply no_refunds_wf.
    + eapply grows_trans; [done|]. by apply grows_same; [apply wf_blocks|].
Qed.

(** Refunds are not part of a snapshot. *)
Lemma refund_survives_rollback s r s' snapshot :
  set_refund_for_current_tx s r = Ret s' -> get_snapshot s = Ret snapshot -> apply_snapshot s' snapshot = Ret s'.
Proof.
  intros (cur & _ & Hs)%outcome_bind_Ret (b & Hlast & [= <-])%outcome_bind_Ret.
  destruct (find_block _ _) as [[i j]|]; [|done].
  apply outcome_bind_Ret in Hs as (bi & Hbi & (tx & Htx & [= <-])%outcome_bind_Ret).
  destruct (last_block_split s b Hlast) as (pre & Hblocks & _). apply index_vec_Ret in Hbi.
  set (bi' := with_txs bi _ _). unfold apply_snapshot, with_blocks.
  cbn [l2_blocks snap_l2_blocks_len]. rewrite length_insert, Nat.compare_refl, outcome_Ret_bind.
  assert (exists b', last (<[i := bi']> (l2_blocks s)) = Some b' /\ txs_rolling_hash b' = txs_rolling_hash b /\
            length (txs b') = length (txs b)) as (b' & Hb' & Hh & Hl).
  { assert (Hlen : length (l2_blocks s) = S (length pre)) by (rewrite Hblocks, length_app; cbn; lia).
    rewrite last_lookup, length_insert, Hlen. cbn [Nat.pred]. rewrite Hblocks in Hbi |- *. destruct (decide (i = length pre)) as [->|Hne].
    - rewrite lookup_app_r, Nat.sub_diag in Hbi by lia. injection Hbi as <-.
      rewrite list_lookup_insert_eq by (rewrite length_app; cbn; lia). exists bi'. split; [done|].
      split; [done|]. cbn. by rewrite length_insert.
    - rewrite list_lookup_insert_ne by done. rewrite lookup_app_r, Nat.sub_diag by lia. by exists b. }
  unfold last_l2_block at 1. cbn [l2_blocks]. rewrite Hb'. cbn [expect]. rewrite outcome_Ret_bind.
  unfold block_apply_snapshot. cbn [snap_last_l2_block block_make_snapshot snap_txs_len snap_txs_rolling_hash].
  rewrite Hl, Nat.compare_refl, outcome_Ret_bind, <- Hh, with_txs_id.
  unfold set_last_l2_block, with_blocks. cbn [l2_blocks tx_to_execute compressed_bytecodes_encoding initial_memory
    execution_mode free_tx_offset pubdata_information snap_tx_to_execute snap_compressed_bytecodes_encoding
    snap_free_tx_offset is_pubdata_information_provided].
  rewrite <- (last_app_singleton _ _ Hb'). destruct (pubdata_information s) as [p|].
  - rewrite bool_decide_eq_true_2 by eauto. cbn [negb]. by rewrite rust_assert_true.
  - by rewrite bool_decide_eq_false_2 by (by intros [? ?]).
Qed.
End Proofs.

(** C14: Every state that the bootloader state can reach, by any operations and rollbacks to snapshots, is
    well formed: blocks start at the number of transactions before them and carry the rolling hash of their
    transactions, transactions are laid out one behind the other, the counters of used words are sums,
    and the next transaction to execute was pushed.  So every pushed transaction is found by its index and
    its description starts where the encodings of the transactions before it end. *)
Theorem bootloader_state_well_formed {env : BootloaderEnv} mode memory first s :
  bootloader_runs (new_bootloader_state mode memory first) s ->
  bootloader_wf s /\
  forall (n : nat) tx, all_txs s !! n = Some tx ->
    find_tx s (Z.of_nat n) = Ret tx /\
    get_tx_description_offset s (Z.of_nat n) =
      Ret (TX_DESCRIPTION_OFFSET + sum_of encoded_len (take n (all_txs s))).
Proof.
  intros Hrun. destruct (runs_grow _ _ Hrun (new_state_wf mode memory first)) as [Hs _]. split; [done|].
  intros n tx Hn. pose proof (find_tx_spec s n tx Hs Hn) as Hf. split; [done|].
  unfold get_tx_description_offset. rewrite Hf, outcome_Ret_bind.
  by rewrite (txs_placed_offset _ _ _ _ (wf_offsets s Hs) Hn).
Qed.

(** C15: Rolling back to a snapshot of the bootloader state never panics and restores the state, whatever
    happened since the snapshot - transactions, blocks, executions, inner rollbacks -, except for
    the refunds that were set. *)
Theorem bootloader_snapshot_restores {env : BootloaderEnv} s s' snapshot :
  bootloader_wf s -> get_snapshot s = Ret snapshot -> bootloader_runs s s' ->
  exists s'', apply_snapshot s' snapshot = Ret s'' /\ no_refunds s'' = no_refunds s.
Proof.
  intros Hs Hsnap Hrun. destruct (runs_grow _ _ Hrun Hs) as [_ Hg]. by eapply snapshot_restores.
Qed.

(** ** Examples *)

Definition returned {A} (d : A) (m : outcome A) : A := match m with Ret a => a | Panics _ => d end.

Definition sample_bootloader_env : BootloaderEnv :=
  {| env_abi := SolidityCodec.codec; env_keccak256 := sample_keccak; env_code_hash := sample_code_hash;
     env_request_tx_hash := no_request_hash |}.

Definition sample_l2_block : L2BlockEnv :=
  {| env_number := 1; env_timestamp := 10; env_prev_block_hash := 7; env_max_virtual_blocks_to_create := 1 |}.

Definition sample_bootloader : BootloaderState := new_bootloader_state VerifyExecute [(8, 5)] sample_l2_block.

Definition sample_l1_tx_data : TransactionData := data_of_transaction no_rlp (transaction_of_l1 sample_l1tx).

(** A transaction is pushed, executed and refunded. *)
Definition sample_bootloader_after : BootloaderState :=
  returned sample_bootloader
    (foldM (bootloader_op (env := sample_bootloader_env)) sample_bootloader
       [BopTx sample_l1_tx_data 100 0 [] 1000 270; BopExecute; BopRefund 5]).

Lemma sample_bootloader_runs :
  bootloader_runs (env := sample_bootloader_env) sample_bootloader sample_bootloader_after.
Proof.
  eapply (run_op _ _ (BopRefund 5)); [eapply (run_op _ _ BopExecute);
    [eapply (run_op _ _ (BopTx sample_l1_tx_data 100 0 [] 1000 270)); [apply run_done|]|]|];
    vm_compute; reflexivity.
Qed.

Lemma bootloader_state_well_formed_witness :
  bootloader_wf (env := sample_bootloader_env) sample_bootloader_after /\ len (all_txs sample_bootloader_after) = 1.
Proof.
  split; [|vm_compute; reflexivity].
  apply (bootloader_state_well_formed (env := sample_bootloader_env) VerifyExecute [(8, 5)] sample_l2_block).
  exact sample_bootloader_runs.
Defined.

Lemma bootloader_snapshot_restores_witness :
  exists s'', apply_snapshot sample_bootloader_after (returned
      {| snap_tx_to_execute := 0; snap_l2_blocks_len := 0; snap_last_l2_block := block_make_snapshot (new_l2_block sample_l2_block 0);
         snap_compressed_bytecodes_encoding := 0; snap_free_tx_offset := 0; is_pubdata_information_provided := false |}
      (get_snapshot sample_bootloader)) = Ret s'' /\
    no_refunds s'' = no_refunds sample_bootloader.
Proof.
  apply (bootloader_snapshot_restores (env := sample_bootloader_env)).
  - apply new_state_wf.
  - vm_compute. reflexivity.
  - exact sample_bootloader_runs.
Defined.
