(* ===== verification/VmBootloaderMemory.v ===== *)
(** * The memory of the bootloader, rebuilt and incremental

    During a batch the host writes to the memory of the bootloader piece by piece: transactions
    ([implementation/tx.rs]), refunds ([tracers/refunds.rs]), the fictive last block
    ([tracers/default_tracers.rs]) and pubdata ([tracers/pubdata_tracer.rs]).  At the end the whole memory is
    rebuilt from the bootloader state ([BootloaderState::bootloader_memory]).  Both agree. *)

From S2P Require Import Prelude Bytes Utils BytecodeCompression Transactions Abi Upgrades VmTransaction VmBootloader VmBootloaderProofs.
Open Scope Z_scope.

(** ** What the host writes *)

Record Host := { host_state : BootloaderState; host_memory : BootloaderMemory }.

Inductive HostOp :=
  | HostTx (data : TransactionData) (overhead predefined_refund : Z) (bytecodes : list CompressedBytecodeInfo)
           (limit chain_id : Z)
  | HostStartBlock (l2_block : L2BlockEnv)
  | HostExecute
  | HostRefund (refund_to_propose : Z).

Section Host.
Context {env : BootloaderEnv}.
Implicit Types h : Host.

Definition write_memory h (s : BootloaderState) (memory : BootloaderMemory) : Host :=
  {| host_state := s; host_memory := host_memory h ++ memory |}.

Definition new_host (mode : TxExecutionMode) (memory : BootloaderMemory) (first : L2BlockEnv) : Host :=
  {| host_state := new_bootloader_state mode memory first; host_memory := memory |}.

(** The end of [RefundsTracer::finish_cycle]. *)
Definition write_refund h (refund_to_propose : Z) : outcome Host :=
  current_tx_index ← current_tx (host_state h);
  let refund_slot := OPERATOR_REFUNDS_OFFSET + current_tx_index in
  s ← set_refund_for_current_tx (host_state h) refund_to_propose;
  Ret (write_memory h s [(refund_slot, refund_to_propose)]).

(** [DefaultExecutionTracer::set_fictive_l2_block] *)
Definition set_fictive_l2_block h : outcome Host :=
  txs_index ← free_tx_index (host_state h);
  '(s, l2_block) ← insert_fictive_l2_block (host_state h);
  Ret (write_memory h s (apply_l2_block [] l2_block txs_index)).

(** [PubdataTracer::finish_cycle], when the bootloader requests the pubdata of the batch. *)
Definition write_pubdata h (pubdata_input : PubdataInput) : outcome Host :=
  s ← set_pubdata_input (host_state h) pubdata_input;
  memory_to_apply ← apply_pubdata_to_memory [] pubdata_input;
  Ret (write_memory h s memory_to_apply).

Definition host_op h (op : HostOp) : outcome Host :=
  match op with
  | HostTx data overhead predefined_refund bytecodes limit chain_id =>
      '(s, memory) ← push_tx (host_state h) data overhead predefined_refund bytecodes limit chain_id;
      Ret (write_memory h s memory)
  | HostStartBlock l2_block =>
      s ← start_new_l2_block (host_state h) l2_block; Ret (write_memory h s [])
  | HostExecute => '(s, _) ← move_tx_to_execute_pointer (host_state h); Ret (write_memory h s [])
  | HostRefund r => write_refund h r
  end.

(** ** Entries of the memory *)

Lemma sum_of_cons {A} (f : A -> Z) x l : sum_of f (x :: l) = f x + sum_of f l.
Proof. done. Qed.

Lemma len_cons {A} (x : A) l : len (x :: l) = 1 + len l.
Proof. unfold len. cbn. lia. Qed.

Definition info_entries (b : BootloaderL2Block) (i : Z) (start : bool) : BootloaderMemory :=
  apply_l2_block_inner [] b i start.

Definition fixed_entries (mode : TxExecutionMode) (i o : Z) : BootloaderMemory :=
  [(BOOTLOADER_TX_DESCRIPTION_OFFSET + BOOTLOADER_TX_DESCRIPTION_SIZE * i, assemble_tx_meta mode true);
   (BOOTLOADER_TX_DESCRIPTION_OFFSET + BOOTLOADER_TX_DESCRIPTION_SIZE * i + 1,
    be_value (be_bytes 8 (32 * (TX_DESCRIPTION_OFFSET + o))))].

Definition variable_entries (b : BootloaderL2Block) (tx : BootloaderTx) (i o c : Z) (start : bool) : BootloaderMemory :=
  [(TX_OVERHEAD_OFFSET + i, gas_overhead tx); (TX_TRUSTED_GAS_LIMIT_OFFSET + i, trusted_gas_limit tx)]
  ++ from_slot (TX_DESCRIPTION_OFFSET + o) (encoded tx) ++ info_entries b i start
  ++ from_slot (COMPRESSED_BYTECODES_OFFSET + 1 + c) (bytecode_words tx).

(** The entries of a transaction, around its refund. *)
Definition tx_entries (mode : TxExecutionMode) (b : BootloaderL2Block) (tx : BootloaderTx) (i o c : Z)
    (start : bool) : BootloaderMemory :=
  fixed_entries mode i o ++ (OPERATOR_REFUNDS_OFFSET + i, refund tx) :: variable_entries b tx i o c start.

Fixpoint txs_entries (mode : TxExecutionMode) (b : BootloaderL2Block) (start : bool) (l : list BootloaderTx)
    (i o c : Z) : BootloaderMemory :=
  match l with
  | [] => []
  | tx :: l => tx_entries mode b tx i o c start
               ++ txs_entries mode b false l (i + 1) (o + encoded_len tx) (c + len (bytecode_words tx))
  end.

Definition block_entries (mode : TxExecutionMode) (b : BootloaderL2Block) (i o c : Z) : BootloaderMemory :=
  match txs b with
  | [] => info_entries b i true
  | l => txs_entries mode b true l i o c
  end.

Definition bytecode_len (tx : BootloaderTx) : Z := len (bytecode_words tx).

Fixpoint blocks_entries (mode : TxExecutionMode) (blocks : list BootloaderL2Block) (i o c : Z) : BootloaderMemory :=
  match blocks with
  | [] => []
  | b :: blocks => block_entries mode b i o c
                   ++ blocks_entries mode blocks (i + len (txs b)) (o + sum_of encoded_len (txs b))
                        (c + sum_of bytecode_len (txs b))
  end.

Lemma apply_tx_entries memory tx b i o c mode start :
  published tx ->
  apply_tx_to_memory memory tx b i o c mode start =
    Ret (memory ++ tx_entries mode b tx i o c start, bytecode_len tx).
Proof.
  intros [words Hw]. unfold apply_tx_to_memory, bytecode_len, tx_entries, variable_entries, bytecode_words, info_entries.
  rewrite Hw, outcome_Ret_bind. unfold apply_l2_block_inner, fixed_entries. cbn [app].
  by rewrite <- !(assoc_L (++)).
Qed.

Lemma apply_block_txs_entries mode b l : forall num memory o c i,
  Forall published l ->
  apply_block_txs mode b (memory, o, c, i) (imap (fun k tx => ((num + k)%nat, tx)) l) =
    Ret (memory ++ txs_entries mode b (num =? 0)%nat l i o c, o + sum_of encoded_len l,
         c + sum_of bytecode_len l, i + len l).
Proof.
  induction l as [|tx l IH]; intros num memory o c i Hp.
  { cbn. unfold sum_of, len. cbn. by rewrite app_nil_r, !Z.add_0_r. }
  inversion Hp as [|?? Htx Hl]; subst. rewrite imap_cons. unfold apply_block_txs. cbn [foldM].
  rewrite Nat.add_0_r, apply_tx_entries, !outcome_Ret_bind by done. fold (apply_block_txs mode b).
  rewrite (imap_ext _ (fun k tx => ((S num + k)%nat, tx))) by (intros k x _; cbn; f_equal; lia).
  etrans; [apply (IH (S num)); done|]. cbn [Nat.eqb txs_entries]. rewrite <- (assoc_L (++)).
  change (len (bytecode_words tx)) with (bytecode_len tx). by rewrite !sum_of_cons, len_cons, !Z.add_assoc.
Qed.

Lemma apply_block_entries mode b memory o c i :
  Forall published (txs b) ->
  apply_block mode (memory, o, c, i) b =
    Ret (memory ++ block_entries mode b i o c, o + sum_of encoded_len (txs b),
         c + sum_of bytecode_len (txs b), i + len (txs b)).
Proof.
  intros Hp. unfold apply_block.
  pose proof (apply_block_txs_entries mode b (txs b) 0 memory o c i Hp) as Ha. cbn [Nat.add Nat.eqb] in Ha.
  change (imap (fun k tx => (k, tx)) (txs b)) with (imap pair (txs b)) in Ha. rewrite Ha, outcome_Ret_bind.
  unfold block_entries. destruct (txs b) as [|tx l].
  - rewrite bool_decide_eq_true_2 by done. unfold apply_l2_block, info_entries, apply_l2_block_inner. cbn [app].
    by rewrite app_nil_r, Z.add_0_r.
  - by rewrite bool_decide_eq_false_2.
Qed.

Lemma apply_blocks_entries mode blocks : forall memory o c i,
  Forall published (block_txs blocks) ->
  exists o' c' i', foldM (apply_block mode) (memory, o, c, i) blocks =
    Ret (memory ++ blocks_entries mode blocks i o c, o', c', i').
Proof.
  induction blocks as [|b blocks IH]; intros memory o c i Hp; cbn [foldM blocks_entries].
  { exists o, c, i. by rewrite app_nil_r. }
  change (block_txs (b :: blocks)) with (txs b ++ block_txs blocks) in Hp. apply Forall_app in Hp as [Hb Hp].
  rewrite apply_block_entries, outcome_Ret_bind by done.
  destruct (IH (memory ++ block_entries mode b i o c) (o + sum_of encoded_len (txs b))
              (c + sum_of bytecode_len (txs b)) (i + len (txs b)) Hp) as (o' & c' & i' & Hrest).
  exists o', c', i'. rewrite (assoc_L (++)). exact Hrest.
Qed.
(** ** Entries of a growing state *)

Lemma txs_entries_with_txs mode b rolling l0 l : forall start i o c,
  txs_entries mode (with_txs b rolling l0) start l i o c = txs_entries mode b start l i o c.
Proof. induction l as [|tx l IH]; intros start i o c; cbn [txs_entries]; [done|]. by rewrite IH. Qed.

Lemma txs_entries_snoc mode b l tx : forall start i o c,
  txs_entries mode b start (l ++ [tx]) i o c =
    txs_entries mode b start l i o c ++
    tx_entries mode b tx (i + len l) (o + sum_of encoded_len l) (c + sum_of bytecode_len l)
      (start && bool_decide (l = [])).
Proof.
  induction l as [|x l IH]; intros start i o c; cbn [txs_entries app].
  - change (len []) with 0. change (sum_of _ []) with 0. rewrite app_nil_r, !Z.add_0_r.
    by rewrite bool_decide_eq_true_2, andb_true_r.
  - rewrite IH, <- (assoc_L (++)). do 2 f_equal. change (len (bytecode_words x)) with (bytecode_len x).
    rewrite len_cons, !sum_of_cons, !Z.add_assoc. by rewrite andb_false_l, bool_decide_eq_false_2, andb_false_r.
Qed.

Lemma block_entries_cons mode b i o c :
  txs b <> [] -> block_entries mode b i o c = txs_entries mode b true (txs b) i o c.
Proof. unfold block_entries. by destruct (txs b). Qed.

Lemma block_entries_push mode b tx i o c :
  block_entries mode (block_push_tx b tx) i o c =
    (if bool_decide (txs b = []) then [] else block_entries mode b i o c) ++
    tx_entries mode b tx (i + len (txs b)) (o + sum_of encoded_len (txs b)) (c + sum_of bytecode_len (txs b))
      (bool_decide (txs b = [])).
Proof.
  rewrite block_entries_cons by (cbn; by destruct (txs b)). unfold block_push_tx at 2. cbn [with_txs txs].
  unfold block_push_tx. rewrite txs_entries_with_txs, txs_entries_snoc, andb_true_l.
  case_bool_decide as Hb; [by rewrite Hb|]. by rewrite block_entries_cons.
Qed.

Lemma blocks_entries_snoc mode pre b : forall i o c,
  blocks_entries mode (pre ++ [b]) i o c =
    blocks_entries mode pre i o c ++
    block_entries mode b (i + len (block_txs pre)) (o + sum_of encoded_len (block_txs pre))
      (c + sum_of bytecode_len (block_txs pre)).
Proof.
  induction pre as [|x pre IH]; intros i o c; cbn [blocks_entries app].
  - change (len (block_txs [])) with 0. change (sum_of _ (block_txs [])) with 0. by rewrite app_nil_r, !Z.add_0_r.
  - rewrite IH. change (block_txs (x :: pre)) with (txs x ++ block_txs pre).
    by rewrite len_app, !sum_of_app, !Z.add_assoc, (assoc_L (++)).
Qed.

Definition entries (s : BootloaderState) : BootloaderMemory :=
  initial_memory s ++ blocks_entries (execution_mode s) (l2_blocks s) 0 0 0.

Lemma txs_placed_published l : forall o, txs_placed o l -> Forall published l.
Proof. induction l as [|tx l IH]; intros o; cbn; [done|]. intros (_ & ? & ?). constructor; eauto. Qed.

Lemma bootloader_memory_entries s :
  bootloader_wf s -> bootloader_memory s =
    (p ← expect (pubdata_information s) "Empty pubdata information"; apply_pubdata_to_memory (entries s) p).
Proof.
  intros Hs. unfold bootloader_memory.
  destruct (apply_blocks_entries (execution_mode s) (l2_blocks s) (initial_memory s) 0 0 0) as (o & c & i & He).
  { exact (txs_placed_published _ _ (wf_offsets s Hs)). }
  etrans; [apply (f_equal (fun m => m ≫= _) He)|]. by rewrite outcome_Ret_bind.
Qed.
(** ** Memory as a map: later writes win *)

Definition written (memory : BootloaderMemory) : gmap Z Z := list_to_map (reverse memory).

Lemma written_app m1 m2 : written (m1 ++ m2) = written m2 ∪ written m1.
Proof. unfold written. by rewrite reverse_app, list_to_map_app. Qed.

Lemma written_nil : written [] = ∅.
Proof. done. Qed.

Lemma written_cons k v m : written ((k, v) :: m) = written m ∪ {[k := v]}.
Proof. exact (written_app [(k, v)] m). Qed.

Lemma written_None k m : k ∉ m.*1 -> written m !! k = None.
Proof. intros Hk. apply not_elem_of_list_to_map_1. by rewrite fmap_reverse, elem_of_reverse. Qed.

Lemma written_Some k m : k ∈ m.*1 -> is_Some (written m !! k).
Proof.
  intros Hk. destruct (written m !! k) eqn:Hm; [done|].
  apply not_elem_of_list_to_map_2 in Hm. by rewrite fmap_reverse, elem_of_reverse in Hm.
Qed.

(** ** Refunds *)

(** All slots are above [k]. *)
Definition above (k : Z) (m : BootloaderMemory) : Prop := Forall (fun e => k < e.1) m.

(** The value that slot [k] ends up with is replaced. *)
Definition replaced (k r : Z) (m m' : BootloaderMemory) : Prop :=
  exists m1 old m2, m = m1 ++ (k, old) :: m2 /\ m' = m1 ++ (k, r) :: m2 /\ above k m2.

Lemma above_not_elem k m : above k m -> k ∉ m.*1.
Proof. intros Hm ((k' & v) & -> & He)%list_elem_of_fmap. eapply Forall_forall in Hm; [|done]. cbn in Hm. lia. Qed.

Lemma replaced_app_l k r m m' pre : replaced k r m m' -> replaced k r (pre ++ m) (pre ++ m').
Proof. intros (m1 & old & m2 & -> & -> & Ha). exists (pre ++ m1), old, m2. by rewrite <- !(assoc_L (++)). Qed.

Lemma replaced_app_r k r m m' post : above k post -> replaced k r m m' -> replaced k r (m ++ post) (m' ++ post).
Proof.
  intros Hp (m1 & old & m2 & -> & -> & Ha). exists m1, old, (m2 ++ post). rewrite <- !(assoc_L (++)).
  split_and!; [done..|]. by apply Forall_app.
Qed.

Lemma replaced_written k r m m' : replaced k r m m' -> written m' = <[k := r]> (written m).
Proof.
  intros (m1 & old & m2 & -> & -> & Ha%above_not_elem%written_None).
  rewrite !written_app, !written_cons. apply map_eq. intros k'. destruct (decide (k' = k)) as [->|Hne].
  - rewrite lookup_insert_eq, (lookup_union_l' _ (written m1)).
    + rewrite lookup_union_r by done. by rewrite lookup_singleton_eq.
    + rewrite lookup_union_r by done. rewrite lookup_singleton_eq. eauto.
  - rewrite lookup_insert_ne by done. rewrite !lookup_union. by rewrite !lookup_singleton_ne.
Qed.

Lemma from_slot_above k l : forall a, k < a -> above k (from_slot a l).
Proof. induction l as [|x l IH]; intros a Ha; constructor; [done|]. apply IH. lia. Qed.

Lemma above_app k m1 m2 : above k m1 -> above k m2 -> above k (m1 ++ m2).
Proof. intros H1 H2. by apply Forall_app. Qed.

Lemma info_above k b i start : k < TX_OVERHEAD_OFFSET -> 0 <= i -> above k (info_entries b i start).
Proof.
  intros Hk Hi. assert (TX_OVERHEAD_OFFSET < TX_OPERATOR_L2_BLOCK_INFO_OFFSET) by done.
  repeat constructor; cbn [fst]; unfold TX_OPERATOR_SLOTS_PER_L2_BLOCK_INFO; lia.
Qed.

Lemma variable_above k b tx i o c start :
  k < TX_OVERHEAD_OFFSET -> 0 <= i -> 0 <= o -> 0 <= c -> above k (variable_entries b tx i o c start).
Proof.
  intros Hk Hi Ho Hc. assert (TX_OVERHEAD_OFFSET < TX_TRUSTED_GAS_LIMIT_OFFSET) by done.
  assert (TX_OVERHEAD_OFFSET < TX_DESCRIPTION_OFFSET) by done.
  assert (TX_OVERHEAD_OFFSET < COMPRESSED_BYTECODES_OFFSET) by done. unfold variable_entries.
  apply above_app; [|apply above_app; [|apply above_app]].
  - repeat constructor; cbn [fst]; lia.
  - apply from_slot_above. lia.
  - by apply info_above.
  - apply from_slot_above. lia.
Qed.

Lemma tx_above k mode b tx i o c start :
  k < TX_OVERHEAD_OFFSET -> k < OPERATOR_REFUNDS_OFFSET + i -> 0 <= i -> 0 <= o -> 0 <= c ->
  above k (tx_entries mode b tx i o c start).
Proof.
  intros Hk Hr Hi Ho Hc. assert (TX_OVERHEAD_OFFSET < BOOTLOADER_TX_DESCRIPTION_OFFSET) by done.
  unfold tx_entries, fixed_entries. apply above_app; [|constructor; [done|by apply variable_above]].
  repeat constructor; cbn [fst]; unfold BOOTLOADER_TX_DESCRIPTION_SIZE; lia.
Qed.

Lemma txs_above k mode b l : forall start i o c,
  k < TX_OVERHEAD_OFFSET -> k < OPERATOR_REFUNDS_OFFSET + i -> 0 <= i -> 0 <= o -> 0 <= c ->
  above k (txs_entries mode b start l i o c).
Proof.
  induction l as [|tx l IH]; intros start i o c Hk Hr Hi Ho Hc; cbn [txs_entries]; [constructor|].
  apply above_app; [by apply tx_above|]. unfold encoded_len, len. apply IH; lia.
Qed.

Lemma blocks_above k mode blocks : forall i o c,
  k < TX_OVERHEAD_OFFSET -> k < OPERATOR_REFUNDS_OFFSET + i -> 0 <= i -> 0 <= o -> 0 <= c ->
  above k (blocks_entries mode blocks i o c).
Proof.
  induction blocks as [|b blocks IH]; intros i o c Hk Hr Hi Ho Hc; cbn [blocks_entries]; [constructor|].
  apply above_app.
  - unfold block_entries. case_match; [by apply info_above|by apply txs_above].
  - assert (0 <= sum_of encoded_len (txs b)) by (apply sum_of_nonneg; intros; unfold encoded_len, len; lia).
    assert (0 <= sum_of bytecode_len (txs b)) by (apply sum_of_nonneg; intros; unfold bytecode_len, len; lia).
    apply IH; unfold len; lia.
Qed.
Lemma txs_entries_refund mode b r l : forall start i o c (j : nat) tx,
  l !! j = Some tx -> i + Z.of_nat j < MAX_TXS_IN_BATCH -> 0 <= i -> 0 <= o -> 0 <= c ->
  replaced (OPERATOR_REFUNDS_OFFSET + (i + Z.of_nat j)) r (txs_entries mode b start l i o c)
    (txs_entries mode b start (<[j := with_refund tx r]> l) i o c).
Proof.
  assert (Hmax : TX_OVERHEAD_OFFSET = OPERATOR_REFUNDS_OFFSET + MAX_TXS_IN_BATCH) by done.
  induction l as [|x l IH]; intros start i o c j tx Hj Hlt Hi Ho Hc; [done|].
  destruct j as [|j]; cbn [txs_entries] in *.
  - injection Hj as ->. rewrite Z.add_0_r in *.
    assert (Hrest : above (OPERATOR_REFUNDS_OFFSET + i) (txs_entries mode b false l (i + 1) (o + encoded_len tx)
              (c + len (bytecode_words tx)))) by (unfold encoded_len, len; apply txs_above; lia).
    apply (replaced_app_r _ _ _ (tx_entries mode b (with_refund tx r) i o c start)); [done|].
    exists (fixed_entries mode i o), (refund tx), (variable_entries b tx i o c start).
    split_and!; [done..|]. apply variable_above; lia.
  - apply replaced_app_l. replace (i + Z.of_nat (S j)) with (i + 1 + Z.of_nat j) in * by lia.
    apply IH; [done|unfold encoded_len, len; lia..].
Qed.

Lemma sum_of_insert (f : BootloaderTx -> Z) l j tx r :
  l !! j = Some tx -> f (with_refund tx r) = f tx -> sum_of f (<[j := with_refund tx r]> l) = sum_of f l.
Proof. intros Hj Hf. unfold sum_of. by rewrite (insert_same f l j tx). Qed.

Lemma blocks_entries_refund mode r blocks : forall start o c n k j b tx,
  blocks_placed start blocks -> find_block blocks n = Some (k, j) ->
  blocks !! k = Some b -> txs b !! Z.to_nat j = Some tx ->
  n < MAX_TXS_IN_BATCH -> 0 <= start -> 0 <= o -> 0 <= c ->
  replaced (OPERATOR_REFUNDS_OFFSET + n) r (blocks_entries mode blocks start o c)
    (blocks_entries mode
      (<[k := with_txs b (txs_rolling_hash b) (<[Z.to_nat j := with_refund tx r]> (txs b))]> blocks) start o c).
Proof.
  assert (Hmax : TX_OVERHEAD_OFFSET = OPERATOR_REFUNDS_OFFSET + MAX_TXS_IN_BATCH) by done.
  induction blocks as [|x blocks IH]; intros start o c n k j b tx; cbn [blocks_placed find_block]; [done|].
  intros (Hfirst & _ & Hplaced) Hfind Hk Hj Hn Hstart Ho Hc.
  assert (0 <= sum_of encoded_len (txs x)) by (apply sum_of_nonneg; intros; unfold encoded_len, len; lia).
  assert (0 <= sum_of bytecode_len (txs x)) by (apply sum_of_nonneg; intros; unfold bytecode_len, len; lia).
  destruct (find_block blocks n) as [[k' j']|] eqn:Hrest.
  - injection Hfind as <- <-. cbn [lookup list_lookup insert list_insert blocks_entries] in *.
    apply replaced_app_l. apply IH; [done..|unfold len; lia|lia|lia].
  - destruct (Z.leb_spec (first_tx_index x) n) as [Hle|]; [|done]. injection Hfind as <- <-.
    cbn in Hk. injection Hk as <-. rewrite Hfirst in *. pose proof (lookup_lt_Some _ _ _ Hj) as Hlt.
    cbn [insert list_insert blocks_entries with_txs txs].
    replace (len (<[Z.to_nat (n - start) := with_refund tx r]> (txs x))) with (len (txs x))
      by (unfold len; by rewrite length_insert).
    rewrite !sum_of_insert by done.
    apply replaced_app_r; [apply blocks_above; unfold len; lia|].
    rewrite !block_entries_cons; [|cbn [with_txs txs]; intros Hnil; apply (f_equal length) in Hnil;
      rewrite length_insert in Hnil; cbn in Hnil; lia|by intros Hnil; rewrite Hnil in Hj].
    rewrite txs_entries_with_txs. cbn [with_txs txs].
    pose proof (txs_entries_refund mode x r (txs x) true start o c (Z.to_nat (n - start)) tx Hj) as Hr.
    replace (start + Z.of_nat (Z.to_nat (n - start))) with n in Hr by lia. by apply Hr.
Qed.

Lemma set_refund_written s r s' cur :
  bootloader_wf s -> current_tx s = Ret cur -> cur < MAX_TXS_IN_BATCH -> set_refund_for_current_tx s r = Ret s' ->
  written (entries s') = <[OPERATOR_REFUNDS_OFFSET + cur := r]> (written (entries s)).
Proof.
  intros Hs Hcur Hlt. unfold set_refund_for_current_tx. rewrite Hcur, outcome_Ret_bind.
  destruct (find_block _ _) as [[k j]|] eqn:Hf; [|done].
  intros (b & Hb & (tx & Htx & [= <-])%outcome_bind_Ret)%outcome_bind_Ret. apply index_vec_Ret in Hb, Htx.
  apply replaced_written. unfold entries. cbn [with_blocks initial_memory execution_mode l2_blocks].
  apply replaced_app_l. by apply blocks_entries_refund; [apply wf_indices|..].
Qed.

(** ** The host *)

(** The information on an empty last block: it is written with its first transaction. *)
Definition pending (s : BootloaderState) : gmap Z Z :=
  match last (l2_blocks s) with
  | Some b => if bool_decide (txs b = []) then written (info_entries b (len (all_txs s)) true) else ∅
  | None => ∅
  end.

Definition agrees h : Prop :=
  written (entries (host_state h)) = pending (host_state h) ∪ written (host_memory h).

Lemma pending_snoc s pre b :
  l2_blocks s = pre ++ [b] -> txs b <> [] -> pending s = ∅.
Proof. intros Hs Hb. unfold pending. rewrite Hs, last_snoc. by rewrite bool_decide_eq_false_2. Qed.

Lemma pending_low s k : k < TX_OVERHEAD_OFFSET -> pending s !! k = None.
Proof.
  intros Hk. unfold pending. destruct (last _); [|done]. case_bool_decide; [|done].
  apply written_None, above_not_elem, info_above; [done|unfold len; lia].
Qed.

(** A new empty block appends its information. *)
Lemma push_l2_block_entries s l2_block s' :
  bootloader_wf s -> push_l2_block s l2_block = Ret s' ->
  exists b, last (l2_blocks s') = Some b /\ txs b = [] /\ all_txs s' = all_txs s /\
    entries s' = entries s ++ info_entries b (len (all_txs s)) true.
Proof.
  intros Hs (i & _ & [= <-])%outcome_bind_Ret. exists (new_l2_block l2_block i).
  unfold entries, all_txs. cbn [with_blocks l2_blocks initial_memory execution_mode].
  rewrite last_snoc, block_txs_snoc, blocks_entries_snoc, app_nil_r, <- (assoc_L (++)). done.
Qed.

Lemma push_l2_block_written s l2_block s' :
  bootloader_wf s -> push_l2_block s l2_block = Ret s' -> written (entries s') = pending s' ∪ written (entries s).
Proof.
  intros Hs Hp. destruct (push_l2_block_entries _ _ _ Hs Hp) as (b & Hl & Hb & Htxs & ->).
  unfold pending. rewrite Hl, bool_decide_eq_true_2, written_app, Htxs by done. done.
Qed.
(** Information on an empty block that is overwritten as a whole. *)
Lemma replace_pending (info m1 m2 chunk : BootloaderMemory) :
  (forall k, k ∈ info.*1 -> k ∈ chunk.*1) -> written (m1 ++ info) = written info ∪ written m2 ->
  written chunk ∪ written m1 = written chunk ∪ written m2.
Proof.
  intros Hsub Heq. apply map_eq. intros k. rewrite !lookup_union.
  destruct (decide (k ∈ chunk.*1)) as [Hin|Hout].
  - destruct (written_Some _ _ Hin) as [v ->]. by destruct (written m1 !! k), (written m2 !! k).
  - pose proof (f_equal (lookup k) Heq) as Hk. rewrite written_app, !lookup_union in Hk.
    rewrite (written_None k info) in Hk by naive_solver. rewrite !(left_id_L None _) in Hk. by rewrite Hk.
Qed.

Lemma start_new_l2_block_pending s l2_block s' : start_new_l2_block s l2_block = Ret s' -> pending s = ∅.
Proof.
  intros (b & Hb & (? & Hne & _)%outcome_bind_Ret)%outcome_bind_Ret.
  destruct (last_block_split s b Hb) as (pre & Hs & _). apply (pending_snoc _ _ _ Hs).
  case_bool_decide; done.
Qed.

Lemma all_txs_no_refunds s : all_txs (no_refunds s) = no_refund <$> all_txs s.
Proof. apply block_txs_no_refunds. Qed.

Lemma set_refund_pending s r s' : set_refund_for_current_tx s r = Ret s' -> pending s' = pending s.
Proof.
  intros Hr%set_refund_no_refunds.
  assert (Hlast : block_no_refunds <$> last (l2_blocks s') = block_no_refunds <$> last (l2_blocks s)).
  { rewrite <- !fmap_last. exact (f_equal (fun x => last (l2_blocks x)) Hr). }
  assert (Hlen : len (all_txs s') = len (all_txs s)).
  { pose proof (f_equal (fun x => length (all_txs x)) Hr) as Hl. cbn beta in Hl.
    rewrite !all_txs_no_refunds, !length_fmap in Hl. unfold len. lia. }
  unfold pending. rewrite Hlen. destruct (last (l2_blocks s')) as [b'|], (last (l2_blocks s)) as [b|]; try done.
  cbn in Hlast. injection Hlast as Hn Hts _ Hprev _ Hmax Htxs. unfold info_entries, apply_l2_block_inner.
  rewrite Hmax, Hprev, Hts, Hn. by destruct (txs b'), (txs b).
Qed.

Lemma info_in_tx mode b tx i o c start k :
  k ∈ (info_entries b i start).*1 -> k ∈ (tx_entries mode b tx i o c start).*1.
Proof.
  intros Hk. unfold tx_entries, variable_entries. rewrite fmap_app, fmap_cons, !fmap_app.
  rewrite elem_of_app, elem_of_cons, !elem_of_app. tauto.
Qed.

Lemma push_tx_written s data overhead rf bytecodes limit chain_id s' memory :
  bootloader_wf s -> push_tx s data overhead rf bytecodes limit chain_id = Ret (s', memory) ->
  pending s' = ∅ /\ forall m, written (entries s) = pending s ∪ written m -> written (entries s') = written (m ++ memory).
Proof.
  intros Hs Hp. destruct (push_tx_inv _ _ _ _ _ _ _ _ _ Hp) as (pre & b & tx & Hb & _ & Hpub & -> & Hm).
  rewrite apply_tx_entries in Hm by done. injection Hm as <-. cbn [app]. split.
  { eapply pending_snoc; [done|]. cbn. by destruct (txs b). }
  intros m Hagree.
  assert (Hall : all_txs s = block_txs pre ++ txs b) by (unfold all_txs; by rewrite Hb, block_txs_snoc).
  assert (Hi : first_tx_index b + len (txs b) = len (block_txs pre) + len (txs b)).
  { pose proof (wf_indices s Hs) as Hi. rewrite Hb in Hi. apply blocks_placed_app in Hi as [_ [-> _]]. lia. }
  rewrite Hi, (wf_free_offset s Hs), (wf_bytecodes s Hs), Hall, !sum_of_app.
  change (fun tx => len (bytecode_words tx)) with bytecode_len.
  unfold entries in *. cbn [initial_memory execution_mode l2_blocks]. rewrite Hb in Hagree.
  unfold pending in Hagree. rewrite Hb, last_snoc in Hagree. rewrite blocks_entries_snoc in *.
  rewrite block_entries_push, !Z.add_0_l in *. rewrite (assoc_L (++)) in Hagree. rewrite !(assoc_L (++)).
  case_bool_decide as Hnil; rewrite written_app, (written_app m).
  - rewrite app_nil_r. apply replace_pending with (block_entries (execution_mode s) b (len (block_txs pre))
      (sum_of encoded_len (block_txs pre)) (sum_of bytecode_len (block_txs pre))).
    + unfold block_entries. rewrite Hnil. change (len []) with 0. rewrite Z.add_0_r. apply info_in_tx.
    + rewrite Hagree, Hall, Hnil, app_nil_r. unfold block_entries. by rewrite Hnil.
  - by rewrite Hagree, map_empty_union.
Qed.

Lemma current_tx_range s cur : bootloader_wf s -> current_tx s = Ret cur -> cur < len (all_txs s).
Proof.
  intros Hs. unfold current_tx. destruct (Z.leb_spec 1 (tx_to_execute s)); [|done]. intros [= <-].
  pose proof (wf_pointer s Hs). lia.
Qed.

(** The state of the host changes by an operation of the bootloader state. *)
Lemma host_op_state h op h' :
  host_op h op = Ret h' -> exists bop, bootloader_op (host_state h) bop = Ret (host_state h').
Proof.
  destruct op as [data overhead rf bytecodes limit chain|l2_block| |r]; cbn [host_op].
  - intros ([s m] & Hp & [= <-])%outcome_bind_Ret. exists (BopTx data overhead rf bytecodes limit chain).
    cbn [bootloader_op]. by rewrite Hp.
  - intros (s & Hp & [= <-])%outcome_bind_Ret. by exists (BopStartBlock l2_block).
  - intros ([s i] & Hp & [= <-])%outcome_bind_Ret. exists BopExecute. cbn [bootloader_op]. by rewrite Hp.
  - intros (cur & _ & (s & Hp & [= <-])%outcome_bind_Ret)%outcome_bind_Ret. by exists (BopRefund r).
Qed.

Lemma host_op_agrees h op h' :
  bootloader_wf (host_state h) -> len (all_txs (host_state h)) <= MAX_TXS_IN_BATCH -> agrees h ->
  host_op h op = Ret h' -> agrees h'.
Proof.
  intros Hs Hmax Ha. unfold agrees in *.
  destruct op as [data overhead rf bytecodes limit chain|l2_block| |r]; cbn [host_op].
  - intros ([s m] & Hp & [= <-])%outcome_bind_Ret. cbn [write_memory host_state host_memory].
    destruct (push_tx_written _ _ _ _ _ _ _ _ _ Hs Hp) as [-> Hw]. rewrite (Hw _ Ha). by rewrite map_empty_union.
  - intros (s & Hp & [= <-])%outcome_bind_Ret. cbn [write_memory host_state host_memory].
    rewrite app_nil_r, (push_l2_block_written _ _ _ Hs (start_new_l2_block_inv _ _ _ Hp)), Ha.
    by rewrite (start_new_l2_block_pending _ _ _ Hp), map_empty_union.
  - intros ([s i] & Hp & [= <-])%outcome_bind_Ret. cbn [write_memory host_state host_memory].
    apply outcome_bind_Ret in Hp as (n & _ & (? & _ & [= <- <-])%outcome_bind_Ret). by rewrite app_nil_r.
  - intros (cur & Hcur & (s & Hp & [= <-])%outcome_bind_Ret)%outcome_bind_Ret.
    cbn [write_memory host_state host_memory]. pose proof (current_tx_range _ _ Hs Hcur) as Hlt.
    rewrite (set_refund_written _ _ _ _ Hs Hcur) by (done || lia). rewrite Ha, written_app.
    rewrite (set_refund_pending _ _ _ Hp), insert_union_r.
    + by rewrite insert_union_singleton_l.
    + apply pending_low. assert (TX_OVERHEAD_OFFSET = OPERATOR_REFUNDS_OFFSET + MAX_TXS_IN_BATCH) by done. lia.
Qed.
Lemma grows_len s s' : grows s s' -> len (all_txs s) <= len (all_txs s').
Proof.
  intros ((pre & b & post & rolling & extra & H1 & H2) & _).
  pose proof (f_equal length (all_txs_no_refunds s)) as L1. pose proof (f_equal length (all_txs_no_refunds s')) as L2.
  rewrite length_fmap in L1, L2. unfold all_txs at 1 in L1. unfold all_txs at 1 in L2.
  rewrite H1, block_txs_snoc, length_app in L1. rewrite H2, block_txs_app in L2.
  change (block_txs (?x :: post)) with (txs x ++ block_txs post) in L2. cbn [with_txs txs] in L2.
  rewrite !length_app in L2. unfold len. lia.
Qed.

Lemma host_op_grows h op h' :
  bootloader_wf (host_state h) -> host_op h op = Ret h' ->
  bootloader_wf (host_state h') /\ len (all_txs (host_state h)) <= len (all_txs (host_state h')).
Proof.
  intros Hs (bop & Hop)%host_op_state. split; [by eapply bootloader_op_wf|]. by eapply grows_len, bootloader_op_grows.
Qed.

Lemma host_run_grows ops : forall h h',
  foldM host_op h ops = Ret h' -> bootloader_wf (host_state h) ->
  bootloader_wf (host_state h') /\ len (all_txs (host_state h)) <= len (all_txs (host_state h')).
Proof.
  induction ops as [|op ops IH]; intros h h' Hrun Hs; cbn [foldM] in Hrun; [by injection Hrun as <-|].
  apply outcome_bind_Ret in Hrun as (h1 & Hop & Hrun). destruct (host_op_grows _ _ _ Hs Hop) as [Hs1 Hle].
  destruct (IH _ _ Hrun Hs1). split; [done|lia].
Qed.

Lemma host_run_agrees ops : forall h h',
  foldM host_op h ops = Ret h' -> bootloader_wf (host_state h) -> agrees h ->
  len (all_txs (host_state h')) <= MAX_TXS_IN_BATCH -> agrees h'.
Proof.
  induction ops as [|op ops IH]; intros h h' Hrun Hs Ha Hmax.
  { cbn [foldM] in Hrun. by injection Hrun as <-. }
  destruct (host_run_grows _ _ _ Hrun Hs) as [_ Hle]. cbn [foldM] in Hrun.
  apply outcome_bind_Ret in Hrun as (h1 & Hop & Hrun). destruct (host_op_grows _ _ _ Hs Hop) as [Hs1 _].
  apply (IH h1); [done..| |done]. apply (host_op_agrees h op h1 Hs); [lia|done|done].
Qed.

Lemma insert_fictive_written h h' :
  bootloader_wf (host_state h) -> agrees h -> set_fictive_l2_block h = Ret h' ->
  bootloader_wf (host_state h') /\ written (entries (host_state h')) = written (host_memory h').
Proof.
  intros Hs Ha (i & Hi & H1)%outcome_bind_Ret. pose proof (free_tx_index_wf _ _ Hs Hi) as ->.
  apply outcome_bind_Ret in H1 as ([s b'] & Hf & [= <-]). cbn [write_memory host_state host_memory].
  assert (Hs' : bootloader_wf s).
  { apply (bootloader_op_wf (host_state h) BopFictiveBlock); [done|]. cbn [bootloader_op]. by rewrite Hf. }
  split; [done|]. rewrite written_app.
  change (apply_l2_block [] b' ?n) with (info_entries b' n true).
  apply outcome_bind_Ret in Hf as (b & Hb & (s1 & Hs1 & (b1 & Hb1 & [= <- <-])%outcome_bind_Ret)%outcome_bind_Ret).
  case_bool_decide as Hnil; cbn [negb] in Hs1.
  - injection Hs1 as <-. rewrite Hb in Hb1. injection Hb1 as <-. rewrite Ha. f_equal.
    destruct (last_block_split _ _ Hb) as (pre & Hblocks & _). unfold pending.
    by rewrite Hblocks, last_snoc, bool_decide_eq_true_2.
  - pose proof (start_new_l2_block_pending _ _ _ Hs1) as Hpend.
    apply start_new_l2_block_inv in Hs1. destruct (push_l2_block_entries _ _ _ Hs Hs1) as (b2 & Hl & _ & _ & ->).
    unfold last_l2_block in Hb1. rewrite Hl in Hb1. injection Hb1 as ->.
    by rewrite written_app, Ha, Hpend, map_empty_union.
Qed.

Lemma apply_pubdata_app memory p added :
  apply_pubdata_to_memory [] p = Ret added -> apply_pubdata_to_memory memory p = Ret (memory ++ added).
Proof.
  intros (built & Hb & (? & H1 & (? & H2 & [= <-])%outcome_bind_Ret)%outcome_bind_Ret)%outcome_bind_Ret.
  unfold apply_pubdata_to_memory. by rewrite Hb, outcome_Ret_bind, H1, outcome_Ret_bind, H2, outcome_Ret_bind.
Qed.
End Host.

(** C13: The memory of the bootloader that is rebuilt from the bootloader state at the end of a batch is
    the one that the host wrote piece by piece during the batch: the initial memory, a chunk per pushed
    transaction, the refunds set during execution, the information on the fictive last block and the pubdata.
    Slot by slot the last value written is the same, for any sequence of operations within the limit
    on the number of transactions in a batch. *)
Theorem rebuilt_memory_is_what_was_written {env : BootloaderEnv} mode memory first ops h h1 info h2 :
  foldM host_op (new_host mode memory first) ops = Ret h ->
  len (all_txs (host_state h)) <= MAX_TXS_IN_BATCH ->
  set_fictive_l2_block h = Ret h1 ->
  write_pubdata h1 info = Ret h2 ->
  exists rebuilt, bootloader_memory (host_state h2) = Ret rebuilt /\ written rebuilt = written (host_memory h2).
Proof.
  intros Hrun Hmax Hf Hp.
  destruct (host_run_grows ops _ _ Hrun (new_state_wf mode memory first)) as [Hs _].
  assert (Ha : agrees h).
  { apply (host_run_agrees ops _ _ Hrun (new_state_wf mode memory first)); [|done].
    unfold agrees, entries, new_host. cbn [host_state host_memory]. by rewrite written_app. }
  destruct (insert_fictive_written _ _ Hs Ha Hf) as [Hs1 Hw].
  apply outcome_bind_Ret in Hp as (s2 & Hset & (added & Hadd & [= <-])%outcome_bind_Ret).
  cbn [write_memory host_state host_memory].
  assert (Hs2 : bootloader_wf s2) by exact (bootloader_op_wf _ (BopPubdata info) _ Hs1 Hset).
  rewrite bootloader_memory_entries by done. unfold set_pubdata_input in Hset.
  destruct (pubdata_information (host_state h1)); [done|]. injection Hset as <-.
  cbn [pubdata_information expect]. rewrite outcome_Ret_bind, (apply_pubdata_app _ _ _ Hadd).
  eexists. split; [done|]. rewrite !written_app, <- Hw. done.
Qed.

Definition sample_host : Host := new_host VerifyExecute [(8, 5)] sample_l2_block.

Definition sample_host_ops : list HostOp :=
  [HostTx sample_l1_tx_data 100 0 [] 1000 270; HostExecute; HostRefund 5].

Definition sample_pubdata : PubdataInput :=
  {| user_logs := []; l2_to_l1_messages := []; published_bytecodes := []; state_diffs := [] |}.

Definition sample_host_executed : Host :=
  returned sample_host (foldM (host_op (env := sample_bootloader_env)) sample_host sample_host_ops).
Definition sample_host_closed : Host :=
  returned sample_host (set_fictive_l2_block (env := sample_bootloader_env) sample_host_executed).
Definition sample_host_finished : Host :=
  returned sample_host (write_pubdata (env := sample_bootloader_env) sample_host_closed sample_pubdata).

Lemma rebuilt_memory_is_what_was_written_witness :
  (length (host_memory sample_host_finished) = 45)%nat /\
  exists rebuilt, bootloader_memory (env := sample_bootloader_env) (host_state sample_host_finished) = Ret rebuilt /\
    written rebuilt = written (host_memory sample_host_finished).
Proof.
  split; [vm_compute; reflexivity|].
  apply (rebuilt_memory_is_what_was_written (env := sample_bootloader_env) VerifyExecute [(8, 5)] sample_l2_block
           sample_host_ops sample_host_executed sample_host_closed sample_pubdata).
  - vm_compute. reflexivity.
  - vm_compute. done.
  - vm_compute. reflexivity.
  - vm_compute. reflexivity.
Defined.
