(* ===== verification/MiniMerkleTree.v ===== *)
(** * Mini Merkle tree

    Model of [src/core/lib/mini_merkle_tree/src/lib.rs]: the in-memory binary
    Merkle tree used for L2-to-L1 logs and priority operations, with its
    trimming cache.  The reference semantics is the perfect binary tree over
    all the leaves ever pushed ([node], [root]); the theorems show that the
    cached computation agrees with it. *)

From S2P Require Import Prelude.

(** Maximum supported depth of the tree. *)
Definition MAX_TREE_DEPTH : nat := 32.

(** [usize::trailing_zeros] *)
Fixpoint pos_trailing_zeros (p : positive) : nat :=
  match p with
  | xO p' => S (pos_trailing_zeros p')
  | _ => 0
  end.

Definition trailing_zeros (n : nat) : nat :=
  match N.of_nat n with
  | N0 => 64
  | Npos p => pos_trailing_zeros p
  end.

(** [usize::next_power_of_two] and [usize::is_power_of_two] *)
Definition next_power_of_two (n : nat) : nat := 2 ^ Nat.log2_up n.

Definition is_power_of_two (n : nat) : bool :=
  negb (n =? 0) && (n =? 2 ^ Nat.log2 n).

Definition tree_depth_by_size (tree_size : nat) : nat := trailing_zeros tree_size.

(** Used to represent subsets of a Merkle path. *)
Inductive Side : Type := Left | Right.

(** ** Hashing interface

    [HashEmptySubtree] is the trait the tree is generic over.  The laws say
    what the tree relies on: the hash of an empty subtree is available for each
    supported depth and is the hash the two empty halves compress to. *)
Class HashEmptySubtree (L H256 : Type) := {
  hash_bytes : L -> H256;
  compress : H256 -> H256 -> H256;
  empty_subtree_hash : nat -> outcome H256;
  empty_at : nat -> H256;
  empty_subtree_hash_ok d :
    d <= MAX_TREE_DEPTH -> empty_subtree_hash d = Ret (empty_at d);
  empty_at_S d : empty_at (S d) = compress (empty_at d) (empty_at d);
}.

(** ** The tree and its operations *)
Section Tree.
Context {L H256 : Type} `{Hasher : !HashEmptySubtree L H256}.

Record MiniMerkleTree : Type := mkTree {
  hashes : list H256;
  binary_tree_size : nat;
  start_index : nat;
  cache : list (option H256);
}.

Definition from_hashes (hs : list H256) (min_tree_size : option nat) :
    outcome MiniMerkleTree :=
  let binary_tree_size := next_power_of_two (length hs) in
  binary_tree_size ←
    match min_tree_size with
    | Some min_tree_size =>
        _ ← rust_assert (is_power_of_two min_tree_size)
              "tree size must be a power of 2";
        Ret (min_tree_size `max` binary_tree_size)
    | None => Ret binary_tree_size
    end;
  let depth := tree_depth_by_size binary_tree_size in
  _ ← rust_assert (depth <=? MAX_TREE_DEPTH)
        "Tree contains more than 2^32 items; this is not supported";
  Ret {| hashes := hs; binary_tree_size := binary_tree_size;
         start_index := 0; cache := replicate depth None |}.

Definition with_hasher (leaves : list L) (min_tree_size : option nat) :
    outcome MiniMerkleTree :=
  from_hashes (hash_bytes <$> leaves) min_tree_size.

Definition is_empty (t : MiniMerkleTree) : bool :=
  (start_index t =? 0) && (match hashes t with [] => true | _ => false end).

(** The in-place pass that replaces [hashes[i]] by the compression of the
    pair at [2 * i], for [i] in [0..level_len]. *)
Definition compress_level (hs : list H256) : outcome (list H256) :=
  let level_len := length hs / 2 in
  hs' ← foldM (fun hs i =>
           l ← index_vec hs (2 * i);
           r ← index_vec hs (2 * i + 1);
           Ret (<[i := compress l r]> hs)) hs (seq 0 level_len);
  Ret (take level_len hs').

(** State of the loop of [compute_merkle_root_and_path]; [path] is [None]
    when the caller passed no path to fill. *)
Record LevelState : Type := mkLevel {
  lv_hashes : list H256;
  lv_index : nat;
  lv_start : nat;
  lv_path : option (list (option H256));
}.

Definition path_element (side : option Side) (index : nat) (hs : list H256) :
    option H256 :=
  match side with
  | Some Left => if index mod 2 =? 0 then None else hs !! (Nat.lxor index 1)
  | Some Right => if index mod 2 =? 1 then None else hs !! (Nat.lxor index 1)
  | None => hs !! (Nat.lxor index 1)
  end.

Definition level_step (t : MiniMerkleTree) (side : option Side)
    (s : LevelState) (level : nat) : outcome LevelState :=
  '(hs, index) ←
    (if lv_start s mod 2 =? 1 then
       entry ← index_vec (cache t) level;
       h ← expect entry "cache is invalid";
       Ret (h :: lv_hashes s, S (lv_index s))
     else Ret (lv_hashes s, lv_index s));
  hs ←
    (if length hs mod 2 =? 1 then
       e ← empty_subtree_hash level;
       Ret (hs ++ [e])
     else Ret hs);
  let path := (fun p => p ++ [path_element side index hs]) <$> lv_path s in
  hs' ← compress_level hs;
  Ret {| lv_hashes := hs'; lv_index := index / 2;
         lv_start := lv_start s / 2; lv_path := path |}.

Definition compute_merkle_root_and_path (t : MiniMerkleTree) (index : nat)
    (path : option (list (option H256))) (side : option Side) :
    outcome (H256 * option (list (option H256))) :=
  let depth := tree_depth_by_size (binary_tree_size t) in
  s ← foldM (level_step t side)
        {| lv_hashes := hashes t; lv_index := index;
           lv_start := start_index t; lv_path := path |} (seq 0 depth);
  root ← index_vec (lv_hashes s) 0;
  Ret (root, lv_path s).

Definition merkle_root (t : MiniMerkleTree) : outcome H256 :=
  let depth := tree_depth_by_size (binary_tree_size t) in
  let full := fst <$> compute_merkle_root_and_path t 0 None None in
  match hashes t with
  | [] =>
      if start_index t =? 0 then empty_subtree_hash depth
      else if start_index t =? binary_tree_size t then
        entry ← index_vec (cache t) depth;
        expect entry "cache is invalid"
      else full
  | _ => full
  end.

Definition merkle_root_and_path (t : MiniMerkleTree) (index : nat) :
    outcome (H256 * list H256) :=
  _ ← rust_assert (index <? length (hashes t)) "leaf index out of bounds";
  '(root_hash, end_path) ← compute_merkle_root_and_path t index (Some []) None;
  path ← expect (mapM id (default [] end_path))
           "called `Option::unwrap()` on a `None` value";
  Ret (root_hash, path).

Definition merkle_root_and_paths_for_range (t : MiniMerkleTree) (len : nat) :
    outcome (H256 * list (option H256) * list (option H256)) :=
  _ ← rust_assert (0 <? len) "range must not be empty";
  _ ← rust_assert (len <=? length (hashes t)) "not enough leaves in the tree";
  '(root_hash, right_path) ←
    compute_merkle_root_and_path t (len - 1) (Some []) (Some Right);
  Ret (root_hash, cache t, default [] right_path).

Definition push_hash (t : MiniMerkleTree) (leaf_hash : H256) : MiniMerkleTree :=
  let hs := hashes t ++ [leaf_hash] in
  if binary_tree_size t <? start_index t + length hs then
    let size := binary_tree_size t * 2 in
    {| hashes := hs; binary_tree_size := size; start_index := start_index t;
       cache := if length (cache t) <? tree_depth_by_size size
                then cache t ++ [None] else cache t |}
  else
    {| hashes := hs; binary_tree_size := binary_tree_size t;
       start_index := start_index t; cache := cache t |}.

Definition push (t : MiniMerkleTree) (leaf : L) : MiniMerkleTree :=
  push_hash t (hash_bytes leaf).

Definition trim_start (t : MiniMerkleTree) (count : nat) :
    outcome MiniMerkleTree :=
  _ ← rust_assert (count <=? length (hashes t)) "not enough leaves to trim";
  '(root, new_cache) ←
    compute_merkle_root_and_path t count (Some []) (Some Left);
  let new_cache := default [] new_cache in
  let start := start_index t + count in
  Ret {| hashes := drop count (hashes t);
         binary_tree_size := binary_tree_size t;
         start_index := start;
         cache := if start =? binary_tree_size t
                  then new_cache ++ [Some root] else new_cache |}.
End Tree.
Arguments MiniMerkleTree : clear implicits.
Arguments LevelState : clear implicits.

(** ** Powers of two *)

Lemma trailing_zeros_double n :
  n <> 0 -> trailing_zeros (2 * n) = S (trailing_zeros n).
Proof.
  intros Hn. unfold trailing_zeros. rewrite Nat2N.inj_mul.
  destruct (N.of_nat n) as [|p] eqn:E; [lia|]. done.
Qed.

Lemma trailing_zeros_pow2 d : trailing_zeros (2 ^ d) = d.
Proof.
  induction d as [|d IH]; [done|].
  rewrite Nat.pow_succ_r', trailing_zeros_double, IH; [done|].
  by apply Nat.pow_nonzero.
Qed.

Lemma tree_depth_pow2 d : tree_depth_by_size (2 ^ d) = d.
Proof. apply trailing_zeros_pow2. Qed.

Lemma is_power_of_two_spec n : is_power_of_two n = true <-> exists d, n = 2 ^ d.
Proof.
  unfold is_power_of_two. rewrite andb_true_iff, negb_true_iff.
  rewrite Nat.eqb_neq, Nat.eqb_eq. split; [naive_solver|].
  intros [d ->]. rewrite Nat.log2_pow2 by lia.
  split; [apply Nat.pow_nonzero; lia|done].
Qed.

Lemma le_next_power_of_two n : n <= next_power_of_two n.
Proof.
  unfold next_power_of_two. destruct (decide (n <= 1)).
  - assert (2 ^ Nat.log2_up n <> 0) by (apply Nat.pow_nonzero; lia). lia.
  - apply Nat.log2_up_spec. lia.
Qed.

Lemma pow2_max a b : 2 ^ a `max` 2 ^ b = 2 ^ (a `max` b).
Proof.
  destruct (le_lt_dec a b) as [H|H].
  - rewrite !Nat.max_r; [done|done|]. by apply Nat.pow_le_mono_r.
  - rewrite !Nat.max_l; [done|lia|]. apply Nat.pow_le_mono_r; lia.
Qed.

Lemma odd_mod2 a : Nat.odd a = (a mod 2 =? 1).
Proof. rewrite <- Nat.bit0_odd, <- Nat.bit0_mod. by destruct (Nat.testbit a 0). Qed.

(** ** Reference semantics: the perfect binary tree *)
Section Spec.
Context {L H256 : Type} `{Hasher : !HashEmptySubtree L H256}.
Implicit Types (leaves hs : list H256) (t : MiniMerkleTree H256) (l d i j : nat).

(** Hash of the node at position [j] of level [l] (leaves are level [0]);
    leaves past the end are empty. *)
Fixpoint node (leaves : list H256) (l j : nat) : H256 :=
  match l with
  | 0 => default (empty_at 0) (leaves !! j)
  | S l' => compress (node leaves l' (2 * j)) (node leaves l' (2 * j + 1))
  end.

Definition root (leaves : list H256) (d : nat) : H256 := node leaves d 0.

(** Sibling of the [l]-level ancestor of leaf [i]. *)
Definition sibling (leaves : list H256) (i l : nat) : H256 :=
  node leaves l (Nat.lxor (i / 2 ^ l) 1).

(** Full Merkle path of leaf [i], bottom-up. *)
Definition merkle_path (leaves : list H256) (d i : nat) : list H256 :=
  sibling leaves i <$> seq 0 d.

(** Entry of the left subset of the path to leaf [i]. *)
Definition left_entry (leaves : list H256) (i l : nat) : option H256 :=
  if Nat.odd (i / 2 ^ l) then Some (node leaves l (i / 2 ^ l - 1)) else None.

Definition right_entry (leaves : list H256) (i l : nat) : option H256 :=
  if Nat.odd (i / 2 ^ l) then None else Some (node leaves l (i / 2 ^ l + 1)).

Definition side_entry (side : option Side) (leaves : list H256) (i l : nat) :
    option H256 :=
  match side with
  | None => Some (sibling leaves i l)
  | Some Left => left_entry leaves i l
  | Some Right => right_entry leaves i l
  end.

(** Recomputation of the root from a leaf and its path, as verifiers do. *)
Fixpoint fold_path (i : nat) (h : H256) (path : list H256) : H256 :=
  match path with
  | [] => h
  | s :: path' =>
      fold_path (i / 2) (if Nat.even i then compress h s else compress s h) path'
  end.

(** Representation invariant: tree [t] of depth [d] stores [leaves]. *)
Record wf (t : MiniMerkleTree H256) (leaves : list H256) (d : nat) : Prop := {
  wf_size : binary_tree_size t = 2 ^ d;
  wf_depth : d <= MAX_TREE_DEPTH;
  wf_len : length leaves <= 2 ^ d;
  wf_start : start_index t <= length leaves;
  wf_hashes : hashes t = drop (start_index t) leaves;
  wf_cache : cache t = left_entry leaves (start_index t) <$>
               seq 0 (d + if start_index t =? 2 ^ d then 1 else 0);
}.

Lemma node_empty leaves l j :
  length leaves <= j * 2 ^ l -> node leaves l j = empty_at l.
Proof.
  revert j. induction l as [|l IH]; intros j; simpl; intros Hlen.
  - rewrite Nat.pow_0_r in Hlen. by rewrite lookup_ge_None_2 by lia.
  - rewrite Nat.pow_succ_r' in Hlen. rewrite !IH by lia. by rewrite empty_at_S.
Qed.

Lemma node_app leaves leaves' l j :
  (j + 1) * 2 ^ l <= length leaves -> node (leaves ++ leaves') l j = node leaves l j.
Proof.
  revert j. induction l as [|l IH]; intros j; simpl; intros Hlen.
  - rewrite Nat.pow_0_r in Hlen. by rewrite lookup_app_l by lia.
  - rewrite Nat.pow_succ_r' in Hlen. by rewrite !IH by lia.
Qed.

(** Verifying a path gives back the root. *)
Lemma fold_merkle_path leaves d i :
  i < 2 ^ d -> fold_path i (node leaves 0 i) (merkle_path leaves d i) = root leaves d.
Proof.
  intros Hi. unfold merkle_path, root.
  assert (forall k l j, j = i / 2 ^ l -> j < 2 ^ k ->
    fold_path j (node leaves l j) (sibling leaves i <$> seq l k) =
      node leaves (l + k) 0) as Hgen.
  { induction k as [|k IH]; intros l j Hj Hlt.
    - rewrite Nat.pow_0_r in Hlt. by replace j with 0 by lia; rewrite Nat.add_0_r.
    - rewrite Nat.pow_succ_r' in Hlt. cbn [seq fmap list_fmap fold_path].
      assert (sibling leaves i l = node leaves l (Nat.lxor j 1)) as -> by (by subst j).
      rewrite nat_lxor_1.
      assert (j / 2 = i / 2 ^ S l) as Hj2.
      { rewrite Nat.pow_succ_r', (Nat.mul_comm 2), <- Nat.Div0.div_div. by subst. }
      assert (j / 2 < 2 ^ k) by (apply Nat.Div0.div_lt_upper_bound; lia).
      replace (l + S k) with (S l + k) by lia.
      rewrite <- (IH (S l) (j / 2)) by done. cbn [node].
      destruct (Nat.Even_or_Odd j) as [[m ->]|[m ->]].
      + rewrite Nat.even_mul. simpl (Nat.even 2 || _).
        replace (2 * m / 2) with m by (rewrite Nat.mul_comm, Nat.div_mul; lia).
        by replace (S (2 * m)) with (2 * m + 1) by lia.
      + replace (Nat.even (2 * m + 1)) with false
          by (rewrite Nat.even_add, Nat.even_mul; done).
        replace ((2 * m + 1) / 2) with m by div_lia.
        by replace (pred (2 * m + 1)) with (2 * m) by lia. }
  apply (Hgen d 0 i); [by rewrite Nat.div_1_r|done].
Qed.
End Spec.

(** ** Correctness of the level loop *)
Section Levels.
Context {L H256 : Type} `{Hasher : !HashEmptySubtree L H256}.
Implicit Types (leaves hs : list H256) (t : MiniMerkleTree H256) (l d i j : nat).

(** Nodes [a..b] of level [l], the contents of [hashes] at that level. *)
Definition span leaves l (a b : nat) : list H256 := node leaves l <$> seq a (b - a).

(** Number of nodes of level [l] above [n] leaves. *)
Fixpoint bound (n l : nat) : nat :=
  match l with
  | 0 => n
  | S l' => (bound n l' + 1) / 2
  end.

Lemma half_up_spec b : b <= (b + 1) / 2 * 2 <= b + 1.
Proof.
  pose proof (Nat.div_mod_eq (b + 1) 2).
  pose proof (Nat.mod_upper_bound (b + 1) 2). lia.
Qed.

Lemma bound_ge n l : n <= bound n l * 2 ^ l.
Proof.
  induction l as [|l IH]; [simpl; lia|]. cbn [bound].
  pose proof (half_up_spec (bound n l)) as [Hh _].
  rewrite Nat.pow_succ_r', Nat.mul_assoc.
  apply (Nat.mul_le_mono_r _ _ (2 ^ l)) in Hh. lia.
Qed.

Lemma bound_le n l d : n <= 2 ^ d -> l <= d -> bound n l <= 2 ^ (d - l).
Proof.
  intros Hn. induction l as [|l IH]; intros Hl; [by rewrite Nat.sub_0_r|].
  specialize (IH ltac:(lia)). cbn [bound].
  replace (d - l) with (S (d - S l)) in IH by lia.
  rewrite Nat.pow_succ_r' in IH. pose proof (half_up_spec (bound n l)). lia.
Qed.

Lemma bound_pos n l : 0 < n -> 0 < bound n l.
Proof. intros. pose proof (bound_ge n l) as Hb. destruct (bound n l); simpl in Hb; lia. Qed.

Lemma div_le_bound i n l : i <= n -> i / 2 ^ l <= bound n l.
Proof.
  intros Hi. pose proof (bound_ge n l).
  apply Nat.Div0.div_le_upper_bound. lia.
Qed.

Lemma div_lt_bound i n l : i < n -> i / 2 ^ l < bound n l.
Proof.
  intros Hi. pose proof (bound_ge n l).
  apply Nat.Div0.div_lt_upper_bound. lia.
Qed.

Lemma div_pow_S i l : i / 2 ^ S l = i / 2 ^ l / 2.
Proof. by rewrite Nat.pow_succ_r', (Nat.mul_comm 2), Nat.Div0.div_div. Qed.

Lemma length_span leaves l a b : length (span leaves l a b) = b - a.
Proof. unfold span. by rewrite length_fmap, length_seq. Qed.

Lemma span_lookup leaves l a b i :
  i < b - a -> span leaves l a b !! i = Some (node leaves l (a + i)).
Proof.
  intros Hi. unfold span. rewrite list_lookup_fmap, lookup_seq_lt by done. done.
Qed.

Lemma span_cons leaves l a b :
  0 < a -> a <= b -> node leaves l (a - 1) :: span leaves l a b = span leaves l (a - 1) b.
Proof.
  intros Ha Hb. unfold span. replace (b - (a - 1)) with (S (b - a)) by lia.
  simpl. by replace (S (a - 1)) with a by lia.
Qed.

Lemma span_snoc leaves l a b :
  a <= b -> span leaves l a b ++ [node leaves l b] = span leaves l a (b + 1).
Proof.
  intros Hb. unfold span. replace (b + 1 - a) with (S (b - a)) by lia.
  rewrite seq_S, fmap_app. simpl. by replace (a + (b - a)) with b by lia.
Qed.

(** A window of leaves is a span of level [0]. *)
Lemma window_span leaves s len :
  s + len <= length leaves -> take len (drop s leaves) = span leaves 0 s (s + len).
Proof.
  intros Hlen. apply list_eq. intros j. destruct (decide (j < len)).
  - rewrite lookup_take_lt, lookup_drop, span_lookup by lia. cbn [node].
    destruct (lookup_lt_is_Some_2 leaves (s + j)) as [x ->]; [lia|done].
  - rewrite lookup_take_ge by lia. rewrite lookup_ge_None_2; [done|].
    rewrite length_span. lia.
Qed.

(** The in-place pass computes the parents of the adjacent pairs. *)
Lemma compress_level_ok hs n :
  length hs = 2 * n ->
  exists hs', compress_level hs = Ret hs' /\ length hs' = n /\
    forall i (l r : H256), hs !! (2 * i) = Some l -> hs !! (2 * i + 1) = Some r ->
      hs' !! i = Some (compress l r).
Proof.
  intros Hlen. unfold compress_level.
  replace (length hs / 2) with n by (rewrite Hlen, Nat.mul_comm, Nat.div_mul; lia).
  destruct (foldM_seq_invariant
    (fun i x => length x = 2 * n /\
       (forall k (l r : H256), k < i -> hs !! (2 * k) = Some l -> hs !! (2 * k + 1) = Some r ->
          x !! k = Some (compress l r)) /\
       (forall k, i <= k -> x !! k = hs !! k))
    (fun hs i => l ← index_vec hs (2 * i); r ← index_vec hs (2 * i + 1);
                 Ret (<[i := compress l r]> hs)) hs n)
    as (x & Hx & Hxlen & Hxlt & _).
  - split; [done|]. split; [lia|done].
  - intros i x Hi (Hxlen & Hxlt & Hxge).
    destruct (lookup_lt_is_Some_2 x (2 * i)) as [l Hl]; [lia|].
    destruct (lookup_lt_is_Some_2 x (2 * i + 1)) as [r Hr]; [lia|].
    exists (<[i := compress l r]> x). split.
    { unfold index_vec. by rewrite Hl, Hr. }
    rewrite Hxge in Hl, Hr by lia. split; [by rewrite length_insert|]. split.
    + intros k l' r' Hk Hl' Hr'. destruct (decide (k = i)) as [->|].
      * rewrite list_lookup_insert_eq by lia. naive_solver.
      * rewrite list_lookup_insert_ne by done. eapply Hxlt; eauto; lia.
    + intros k Hk. rewrite list_lookup_insert_ne by lia. apply Hxge. lia.
  - exists (take n x). rewrite Hx. split; [done|]. split; [rewrite length_take; lia|].
    intros i l r Hl Hr. apply lookup_lt_Some in Hr as Hi.
    rewrite lookup_take_lt by lia. eapply Hxlt; eauto; lia.
Qed.

Lemma compress_level_span leaves l a b :
  a <= b -> compress_level (span leaves l (2 * a) (2 * b)) = Ret (span leaves (S l) a b).
Proof.
  intros Hab.
  destruct (compress_level_ok (span leaves l (2 * a) (2 * b)) (b - a))
    as (hs & -> & Hlen & Hlook); [rewrite length_span; lia|].
  f_equal. apply list_eq. intros i. destruct (decide (i < b - a)) as [Hi|Hi].
  - rewrite span_lookup by done. cbn [node]. apply Hlook.
    + rewrite span_lookup by lia. do 2 f_equal. lia.
    + rewrite span_lookup by lia. do 2 f_equal. lia.
  - rewrite !lookup_ge_None_2; [done|rewrite length_span; lia|lia].
Qed.

(** Leaves a path of the given side may be asked for. *)
Definition path_valid (side : option Side) (i n : nat) : Prop :=
  match side with
  | Some Left => i <= n
  | _ => i < n
  end.

Lemma path_element_ok leaves side i l base n :
  path_valid side i n -> Nat.Even base -> base <= i / 2 ^ l ->
  path_element side (i / 2 ^ l - base) (span leaves l base (bound n (S l) * 2)) =
    side_entry side leaves i l.
Proof.
  intros Hv [m Hm] Hbase.
  assert (forall j, j < bound n (S l) * 2 -> base <= j ->
    span leaves l base (bound n (S l) * 2) !! (j - base) = Some (node leaves l j)) as Hget.
  { intros j Hj Hj'. rewrite span_lookup by lia. do 2 f_equal. lia. }
  unfold path_element, side_entry, left_entry, right_entry, sibling.
  pose proof (half_up_spec (bound n l)) as Hhalf. cbn [bound] in *.
  set (q := i / 2 ^ l) in *. rewrite !nat_lxor_1.
  assert (side <> Some Left -> q < bound n l) as Hlt.
  { intros. apply div_lt_bound. destruct side as [[]|]; simpl in *; [done|lia|lia]. }
  assert (q <= bound n l) as Hle.
  { apply div_le_bound. destruct side as [[]|]; simpl in *; lia. }
  destruct (Nat.Even_or_Odd q) as [[k Hk]|[k Hk]].
  - replace (q - base) with (2 * (k - m)) by lia.
    replace (2 * (k - m) mod 2) with 0 by (rewrite Nat.mul_comm, Nat.Div0.mod_mul; done).
    replace (Nat.even (2 * (k - m))) with true by (by rewrite Nat.even_mul).
    replace (Nat.odd q) with false by (rewrite Hk, Nat.odd_mul; done).
    replace (Nat.even q) with true by (rewrite Hk, Nat.even_mul; done).
    replace (S (2 * (k - m))) with (q + 1 - base) by lia.
    replace (S q) with (q + 1) by lia.
    destruct side as [[]|]; cbn [Nat.eqb]; [done|apply Hget..];
      specialize (Hlt ltac:(done)); lia.
  - replace (q - base) with (1 + (k - m) * 2) by lia.
    replace ((1 + (k - m) * 2) mod 2) with 1 by (rewrite Nat.Div0.mod_add; done).
    replace (Nat.even (1 + (k - m) * 2)) with false
      by (rewrite Nat.even_add, Nat.even_mul, orb_true_r; done).
    replace (Nat.odd q) with true
      by (rewrite Hk, Nat.odd_add, Nat.odd_mul; done).
    replace (Nat.even q) with false
      by (rewrite Hk, Nat.even_add, Nat.even_mul; done).
    replace (pred (1 + (k - m) * 2)) with (q - 1 - base) by lia.
    replace (pred q) with (q - 1) by lia.
    destruct side as [[]|]; cbn [Nat.eqb]; [apply Hget; lia|done|apply Hget; lia].
Qed.

Section WithTree.
Context (t : MiniMerkleTree H256) (leaves : list H256) (d : nat).
Hypothesis Hwf : wf t leaves d.
Let s := start_index t.
Let n := length leaves.

Lemma cache_lookup l : l < d -> cache t !! l = Some (left_entry leaves s l).
Proof.
  intros Hl. rewrite (wf_cache _ _ _ Hwf), list_lookup_fmap, lookup_seq_lt by lia.
  done.
Qed.

(** Filling in the left sibling from the cache. *)
Lemma level_prefix_ok l i :
  l < d -> s / 2 ^ l <= i ->
  (if (s / 2 ^ l) mod 2 =? 1 then
     entry ← index_vec (cache t) l;
     h ← expect entry "cache is invalid";
     Ret (h :: span leaves l (s / 2 ^ l) (bound n l), S (i - s / 2 ^ l))
   else Ret (span leaves l (s / 2 ^ l) (bound n l), i - s / 2 ^ l)) =
  Ret (span leaves l (s / 2 ^ l / 2 * 2) (bound n l), i - s / 2 ^ l / 2 * 2).
Proof.
  intros Hl Hi. pose proof (div_le_bound s n l (wf_start _ _ _ Hwf)).
  pose proof (Nat.div_mod_eq (s / 2 ^ l) 2) as Hdm.
  pose proof (Nat.mod_upper_bound (s / 2 ^ l) 2 ltac:(done)).
  unfold index_vec. rewrite cache_lookup by done. unfold left_entry.
  rewrite odd_mod2. set (a := s / 2 ^ l) in *.
  destruct (Nat.eqb_spec (a mod 2) 1); simpl.
  - rewrite span_cons by lia. do 2 f_equal; [f_equal|]; lia.
  - do 2 f_equal; [f_equal|]; lia.
Qed.

(** Padding with an empty subtree on the right. *)
Lemma level_pad_ok l base :
  l < d -> Nat.Even base -> base <= bound n l ->
  (if length (span leaves l base (bound n l)) mod 2 =? 1 then
     e ← empty_subtree_hash l; Ret (span leaves l base (bound n l) ++ [e])
   else Ret (span leaves l base (bound n l))) =
  Ret (span leaves l base (bound n (S l) * 2)).
Proof.
  intros Hl [m Hm] Hb. rewrite length_span. cbn [bound].
  pose proof (wf_depth _ _ _ Hwf). pose proof (bound_ge n l) as Hge.
  rewrite empty_subtree_hash_ok by lia. simpl mbind.
  rewrite <- (node_empty leaves l (bound n l)) by done.
  rewrite span_snoc by done.
  destruct (Nat.Even_or_Odd (bound n l)) as [[k Hk]|[k Hk]]; rewrite Hk.
  - replace (2 * k - base) with ((k - m) * 2) by lia.
    rewrite Nat.Div0.mod_mul. cbn [Nat.eqb].
    replace ((2 * k + 1) / 2) with k by div_lia.
    do 2 f_equal. lia.
  - replace (2 * k + 1 - base) with (1 + (k - m) * 2) by lia.
    rewrite Nat.Div0.mod_add. cbn [Nat.eqb Nat.modulo Nat.divmod snd Nat.sub].
    replace ((2 * k + 1 + 1) / 2) with (k + 1)
      by (replace (2 * k + 1 + 1) with ((k + 1) * 2) by lia; rewrite Nat.div_mul; lia).
    do 2 f_equal. lia.
Qed.

Definition level_state (i l : nat) (p : option (list (option H256))) :=
  {| lv_hashes := span leaves l (s / 2 ^ l) (bound n l);
     lv_index := (s + i) / 2 ^ l - s / 2 ^ l;
     lv_start := s / 2 ^ l; lv_path := p |}.

Lemma level_step_ok side i l p :
  l < d -> (p <> None -> path_valid side (s + i) n) ->
  level_step t side (level_state i l p) l =
    Ret (level_state i (S l)
           ((fun p => p ++ [side_entry side leaves (s + i) l]) <$> p)).
Proof.
  intros Hl Hv. unfold level_step, level_state. cbn [lv_start lv_hashes lv_index lv_path].
  assert (s / 2 ^ l <= (s + i) / 2 ^ l) by (apply Nat.Div0.div_le_mono; lia).
  pose proof (div_le_bound s n l (wf_start _ _ _ Hwf)).
  rewrite level_prefix_ok by done. cbn [mbind outcome_bind].
  assert (s / 2 ^ l / 2 * 2 <= s / 2 ^ l) by (rewrite Nat.mul_comm; apply Nat.Div0.mul_div_le).
  assert (Nat.Even (s / 2 ^ l / 2 * 2)) as Heven by (exists (s / 2 ^ l / 2); lia).
  rewrite level_pad_ok by (done || lia). cbn [mbind outcome_bind].
  rewrite (Nat.mul_comm (s / 2 ^ l / 2) 2), (Nat.mul_comm (bound n (S l)) 2).
  rewrite compress_level_span.
  2:{ rewrite <- div_pow_S. apply div_le_bound, (wf_start _ _ _ Hwf). }
  cbn [mbind outcome_bind]. rewrite <- div_pow_S. do 2 f_equal.
  - rewrite (div_pow_S (s + i)), (div_pow_S s).
    revert H. generalize ((s + i) / 2 ^ l) (s / 2 ^ l). clear. div_lia.
  - destruct p as [p|]; [|done]. unfold fmap, option_fmap, option_map. do 3 f_equal.
    rewrite (Nat.mul_comm 2 (bound n (S l))), div_pow_S, (Nat.mul_comm 2).
    apply path_element_ok; [by apply Hv|done|lia].
Qed.

(** The loop computes the root, and the requested side of the path. *)
Lemma compute_merkle_root_and_path_ok side i (p : option (list (option H256))) :
  0 < n -> s < 2 ^ d -> (p <> None -> p = Some [] /\ path_valid side (s + i) n) ->
  compute_merkle_root_and_path t i p side =
    Ret (root leaves d, (fun _ => side_entry side leaves (s + i) <$> seq 0 d) <$> p).
Proof.
  intros Hn Hs Hp. unfold compute_merkle_root_and_path.
  rewrite (wf_size _ _ _ Hwf), tree_depth_pow2.
  assert (forall k, k <= d ->
    foldM (level_step t side)
      {| lv_hashes := hashes t; lv_index := i; lv_start := start_index t; lv_path := p |}
      (seq 0 k) =
    Ret (level_state i k ((fun _ => side_entry side leaves (s + i) <$> seq 0 k) <$> p)))
    as Hloop.
  { induction k as [|k IH]; intros Hk.
    - simpl. unfold level_state. do 2 f_equal.
      + rewrite Nat.pow_0_r, Nat.div_1_r, (wf_hashes _ _ _ Hwf). cbn [bound].
        replace n with (s + (n - s)) by (pose proof (wf_start _ _ _ Hwf); lia).
        rewrite <- window_span by (pose proof (wf_start _ _ _ Hwf); lia).
        by rewrite take_ge by (rewrite length_drop; lia).
      + rewrite !Nat.div_1_r. lia.
      + by rewrite Nat.div_1_r.
      + destruct p; [|done]. destruct Hp as [[= ->] _]; done.
    - rewrite seq_S, foldM_app, IH by lia. cbn [mbind outcome_bind foldM].
      rewrite Nat.add_0_l, level_step_ok; [|lia|].
      + cbn [mbind outcome_bind]. f_equal. f_equal. destruct p; simpl; [|done]. by rewrite fmap_app.
      + intros Hne. apply Hp. by destruct p. }
  rewrite Hloop by done. simpl. unfold index_vec.
  rewrite Nat.div_small by done.
  pose proof (bound_pos n d Hn). rewrite span_lookup by lia. done.
Qed.
End WithTree.
End Levels.

(** ** Correctness of the operations *)
Section Operations.
Context {L H256 : Type} `{Hasher : !HashEmptySubtree L H256}.
Implicit Types (leaves hs : list H256) (t : MiniMerkleTree H256) (d i : nat).

Lemma left_entry_app leaves leaves' i l :
  i <= length leaves -> left_entry (leaves ++ leaves') i l = left_entry leaves i l.
Proof.
  intros Hi. unfold left_entry. destruct (Nat.odd (i / 2 ^ l)) eqn:Hodd; [|done].
  f_equal. apply node_app.
  assert (i / 2 ^ l <> 0) by (intros E; by rewrite E in Hodd).
  pose proof (Nat.Div0.mul_div_le i (2 ^ l)).
  replace (i / 2 ^ l - 1 + 1) with (i / 2 ^ l) by lia. lia.
Qed.

Lemma left_entry_0 leaves l : left_entry leaves 0 l = None.
Proof. unfold left_entry. by rewrite Nat.Div0.div_0_l. Qed.

Lemma left_entry_small leaves i l : i < 2 ^ l -> left_entry leaves i l = None.
Proof. intros. unfold left_entry. by rewrite Nat.div_small. Qed.

Lemma left_entry_full leaves d : left_entry leaves (2 ^ d) d = Some (root leaves d).
Proof.
  unfold left_entry. rewrite Nat.div_same by (by apply Nat.pow_nonzero). done.
Qed.

Lemma initial_cache leaves d :
  replicate d None =
    left_entry leaves 0 <$> seq 0 (d + if 0 =? 2 ^ d then 1 else 0).
Proof.
  replace (0 =? 2 ^ d) with false
    by (symmetry; apply Nat.eqb_neq; pose proof (Nat.pow_nonzero 2 d); lia).
  rewrite Nat.add_0_r. generalize 0 at 2. induction d as [|d IH]; intros k; [done|].
  simpl. rewrite left_entry_0. f_equal. apply IH.
Qed.

Lemma left_entries_app leaves leaves' i (ls : list nat) :
  i <= length leaves ->
  left_entry (leaves ++ leaves') i <$> ls = left_entry leaves i <$> ls.
Proof.
  intros Hi. apply list_fmap_ext. intros _ l _. by apply left_entry_app.
Qed.

(** Growing the tree extends the cache to the new depth. *)
Lemma grow_cache leaves s d :
  s <= 2 ^ d ->
  (let c := left_entry leaves s <$> seq 0 (d + if s =? 2 ^ d then 1 else 0) in
   if length c <? S d then c ++ [None] else c) =
  left_entry leaves s <$> seq 0 (S d + if s =? 2 ^ S d then 1 else 0).
Proof.
  intros Hs. cbn zeta. rewrite length_fmap, length_seq.
  assert (2 ^ d <> 0) by (by apply Nat.pow_nonzero).
  assert ((s =? 2 ^ S d) = false) as ->
    by (apply Nat.eqb_neq; rewrite Nat.pow_succ_r'; lia).
  rewrite Nat.add_0_r. destruct (Nat.eqb_spec s (2 ^ d)) as [->|Hne].
  - rewrite Nat.add_1_r. by rewrite Nat.ltb_irrefl.
  - rewrite Nat.add_0_r. assert ((d <? S d) = true) as -> by (apply Nat.ltb_lt; lia).
    rewrite seq_S, fmap_app. simpl. by rewrite left_entry_small by lia.
Qed.

Lemma push_hash_wf t leaves d h :
  wf t leaves d -> Nat.log2_up (S (length leaves)) <= MAX_TREE_DEPTH ->
  wf (push_hash t h) (leaves ++ [h]) (if length leaves =? 2 ^ d then S d else d).
Proof.
  intros [Hsize Hdepth Hlen Hstart Hhashes Hcache] Hmax.
  assert (length leaves < 2 ^ MAX_TREE_DEPTH) as Hlt.
  { pose proof (le_next_power_of_two (S (length leaves))) as Hle.
    unfold next_power_of_two in Hle.
    apply (Nat.pow_le_mono_r 2) in Hmax; [|done]. lia. }
  clear Hmax. rename Hlt into Hmax. unfold push_hash. rewrite Hsize, length_app, Hhashes, length_drop.
  assert (drop (start_index t) leaves ++ [h] = drop (start_index t) (leaves ++ [h])) as ->
    by (by rewrite drop_app_le by done).
  simpl length. destruct (Nat.eqb_spec (length leaves) (2 ^ d)) as [Hfull|Hfull].
  - rewrite Hfull in Hmax. apply Nat.pow_lt_mono_r_iff in Hmax; [|lia].
    assert ((2 ^ d <? start_index t + (length leaves - start_index t + 1)) = true) as ->
      by (apply Nat.ltb_lt; lia).
    assert (2 ^ S d = 2 ^ d * 2) as Hpow by (rewrite Nat.pow_succ_r'; lia).
    split; cbn [binary_tree_size start_index hashes cache]; rewrite ?length_app; simpl length;
      [done|lia|rewrite Hpow; pose proof (Nat.pow_nonzero 2 d); lia|lia|done|].
    rewrite <- Hpow, tree_depth_pow2, Hcache, left_entries_app by done.
    apply grow_cache. lia.
  - assert ((2 ^ d <? start_index t + (length leaves - start_index t + 1)) = false) as ->
      by (apply Nat.ltb_ge; lia).
    split; cbn [binary_tree_size start_index hashes cache]; rewrite ?length_app; simpl length;
      [done|done|lia|lia|done|].
    by rewrite Hcache, left_entries_app by done.
Qed.

Lemma from_hashes_wf hs (k : option nat) :
  Nat.log2_up (length hs) <= MAX_TREE_DEPTH -> default 0 k <= MAX_TREE_DEPTH ->
  exists t, from_hashes hs (Nat.pow 2 <$> k) = Ret t /\
    wf t hs (default 0 k `max` Nat.log2_up (length hs)) /\ start_index t = 0.
Proof.
  intros Hlen Hk. unfold from_hashes, next_power_of_two.
  set (d := default 0 k `max` Nat.log2_up (length hs)).
  assert (d <= MAX_TREE_DEPTH) as Hd by lia.
  exists {| hashes := hs; binary_tree_size := 2 ^ d; start_index := 0;
            cache := replicate d None |}.
  assert (wf {| hashes := hs; binary_tree_size := 2 ^ d; start_index := 0;
                cache := replicate d None |} hs d) as Hwf.
  { split; simpl; [done|done| |lia|done|apply initial_cache].
    pose proof (le_next_power_of_two (length hs)) as Hle. unfold next_power_of_two in Hle.
    assert (2 ^ Nat.log2_up (length hs) <= 2 ^ d) by (apply Nat.pow_le_mono_r; lia). lia. }
  split; [|done]. assert ((d <=? MAX_TREE_DEPTH) = true) as Hb by (by apply Nat.leb_le).
  destruct k as [k|]; cbn [fmap option_fmap option_map default] in *.
  - assert (is_power_of_two (2 ^ k) = true) as -> by (apply is_power_of_two_spec; by exists k).
    cbn [rust_assert mbind outcome_bind].
    rewrite pow2_max, tree_depth_pow2.
    change (k `max` Nat.log2_up (length hs)) with d. rewrite Hb. done.
  - cbn [rust_assert mbind outcome_bind]. rewrite tree_depth_pow2.
    change (Nat.log2_up (length hs)) with d. rewrite Hb. done.
Qed.

Lemma trim_start_wf t leaves d count :
  wf t leaves d -> count <= length (hashes t) ->
  0 < length leaves -> start_index t < 2 ^ d ->
  exists t', trim_start t count = Ret t' /\ wf t' leaves d /\
    start_index t' = start_index t + count.
Proof.
  intros Hwf Hc Hn Hs. unfold trim_start.
  pose proof Hwf as [Hsize Hdepth Hlen Hstart Hhashes Hcache].
  rewrite Hhashes, length_drop in Hc.
  assert ((count <=? length (hashes t)) = true) as ->
    by (rewrite Hhashes, length_drop; by apply Nat.leb_le).
  cbn [rust_assert mbind outcome_bind].
  rewrite (compute_merkle_root_and_path_ok t leaves d) by (naive_solver lia).
  eexists. split; [done|]. split; [|done].
  split; cbn [binary_tree_size start_index hashes cache]; [done..|lia| |].
  - by rewrite Hhashes, drop_drop.
  - rewrite Hsize. cbn [side_entry fmap option_fmap option_map default].
    change (fun x => _) with (left_entry leaves (start_index t + count)) || idtac.
    destruct (Nat.eqb_spec (start_index t + count) (2 ^ d)) as [->|]; simpl.
    + rewrite Nat.add_1_r, seq_S, fmap_app. simpl. by rewrite left_entry_full.
    + by rewrite Nat.add_0_r.
Qed.

Lemma merkle_root_wf t leaves d : wf t leaves d -> merkle_root t = Ret (root leaves d).
Proof.
  intros Hwf. unfold merkle_root.
  pose proof Hwf as [Hsize Hdepth Hlen Hstart Hhashes Hcache].
  rewrite Hsize, tree_depth_pow2.
  assert (0 < length leaves -> start_index t < 2 ^ d ->
    fst <$> compute_merkle_root_and_path t 0 None None = Ret (root leaves d)) as Hfull.
  { intros. rewrite (compute_merkle_root_and_path_ok t leaves d) by done. done. }
  destruct (hashes t) as [|x hs] eqn:E.
  - assert (start_index t = length leaves) as Heq.
    { apply (f_equal length) in Hhashes. rewrite length_drop in Hhashes. simpl in *. lia. }
    destruct (Nat.eqb_spec (start_index t) 0) as [H0|H0].
    { rewrite empty_subtree_hash_ok by done. unfold root. by rewrite node_empty by lia. }
    destruct (Nat.eqb_spec (start_index t) (2 ^ d)) as [H1|H1]; [|apply Hfull; lia].
    unfold index_vec. rewrite Hcache, list_lookup_fmap, H1.
    rewrite lookup_seq_lt by lia. simpl. by rewrite left_entry_full.
  - apply (f_equal length) in Hhashes. rewrite length_drop in Hhashes. simpl in *.
    apply Hfull; lia.
Qed.
End Operations.

(** ** The Keccak instance

    [KeccakHasher] with the default [empty_subtree_hash]: a table of
    [MAX_TREE_DEPTH + 1] hashes.  Keccak-256 itself (the [tiny_keccak] crate) is
    a parameter; bytes are integers in [0..256]. *)
Section Keccak.
Variable keccak256 : list Z -> list Z.

Definition keccak_compress (lhs rhs : list Z) : list Z := keccak256 (lhs ++ rhs).

(** [iter::successors(Some(h), f).take(n)] *)
Fixpoint successors {A} (f : A -> A) (h : A) (n : nat) : list A :=
  match n with
  | 0 => []
  | S n' => h :: successors f (f h) n'
  end.

Definition compute_empty_tree_hashes (empty_leaf_hash : list Z) : list (list Z) :=
  successors (fun hash => keccak_compress hash hash) empty_leaf_hash (MAX_TREE_DEPTH + 1).

Definition empty_leaf_hash : list Z := keccak256 (replicate 88 0%Z).

Definition keccak_empty_subtree_hash (depth : nat) : outcome (list Z) :=
  index_vec (compute_empty_tree_hashes empty_leaf_hash) depth.

Definition keccak_empty_at (depth : nat) : list Z :=
  Nat.iter depth (fun hash => keccak_compress hash hash) empty_leaf_hash.

Lemma successors_lookup {A} (f : A -> A) h n i :
  i < n -> successors f h n !! i = Some (Nat.iter i f h).
Proof.
  revert h i. induction n as [|n IH]; intros h [|i] Hi; [lia|lia|done|].
  simpl. rewrite IH by lia. by rewrite <- Nat.iter_succ_r, Nat.iter_succ.
Qed.

#[refine] Definition KeccakHasher : HashEmptySubtree (list Z) (list Z) := {|
  hash_bytes := keccak256;
  compress := keccak_compress;
  empty_subtree_hash := keccak_empty_subtree_hash;
  empty_at := keccak_empty_at;
|}.
Proof.
  - intros d Hd. unfold keccak_empty_subtree_hash, index_vec, compute_empty_tree_hashes.
    by rewrite successors_lookup by lia.
  - done.
Defined.
End Keccak.

(** ** Theorems *)
Section Theorems.
Context {L H256 : Type} `{Hasher : !HashEmptySubtree L H256}.
Implicit Types (leaves hs : list H256) (t : MiniMerkleTree H256) (d i : nat).

(** The mutations a tree goes through after its creation. *)
Inductive Op : Type :=
| OpPush (h : H256)
| OpTrim (count : nat).

Definition apply_op (t : MiniMerkleTree H256) (op : Op) : outcome (MiniMerkleTree H256) :=
  match op with
  | OpPush h => Ret (push_hash t h)
  | OpTrim count => trim_start t count
  end.

(** Abstract state: all leaves, the depth, and how many leaves are trimmed. *)
Record Abs : Type := mkAbs { abs_leaves : list H256; abs_depth : nat; abs_start : nat }.

Definition abs_op (a : Abs) (op : Op) : option Abs :=
  match op with
  | OpPush h =>
      if Nat.log2_up (S (length (abs_leaves a))) <=? MAX_TREE_DEPTH then
        Some {| abs_leaves := abs_leaves a ++ [h];
                abs_depth := if length (abs_leaves a) =? 2 ^ abs_depth a
                             then S (abs_depth a) else abs_depth a;
                abs_start := abs_start a |}
      else None
  | OpTrim count =>
      if (abs_start a <? length (abs_leaves a)) &&
         (abs_start a + count <=? length (abs_leaves a)) then
        Some {| abs_leaves := abs_leaves a; abs_depth := abs_depth a;
                abs_start := abs_start a + count |}
      else None
  end.

Fixpoint abs_run (a : Abs) (ops : list Op) : option Abs :=
  match ops with
  | [] => Some a
  | op :: ops' => a' ← abs_op a op; abs_run a' ops'
  end.

Definition refines (t : MiniMerkleTree H256) (a : Abs) : Prop :=
  wf t (abs_leaves a) (abs_depth a) /\ start_index t = abs_start a.

Lemma apply_op_refines t a op a' :
  refines t a -> abs_op a op = Some a' ->
  exists t', apply_op t op = Ret t' /\ refines t' a'.
Proof.
  intros [Hwf Hs]. destruct op as [h|count]; simpl.
  - case_match eqn:Hlt; [|done]. intros [= <-]. apply Nat.leb_le in Hlt.
    exists (push_hash t h). split; [done|]. split; simpl; [by apply push_hash_wf|].
    unfold push_hash. by case_match.
  - case_match eqn:Hb; [|done]. intros [= <-].
    apply andb_true_iff in Hb as [Hb1%Nat.ltb_lt Hb2%Nat.leb_le].
    pose proof (wf_len _ _ _ Hwf).
    destruct (trim_start_wf t (abs_leaves a) (abs_depth a) count) as (t' & ? & ? & ?);
      [done|rewrite (wf_hashes _ _ _ Hwf), length_drop; lia|lia|lia|].
    exists t'. split; [done|]. split; simpl; [done|lia].
Qed.

Lemma run_refines ops t a a' :
  refines t a -> abs_run a ops = Some a' ->
  exists t', foldM apply_op t ops = Ret t' /\ refines t' a'.
Proof.
  revert t a. induction ops as [|op ops IH]; intros t a Hr; simpl.
  - intros [= <-]. by exists t.
  - destruct (abs_op a op) as [a1|] eqn:E; simpl; [|done]. intros Hrun.
    destruct (apply_op_refines t a op a1) as (t1 & -> & Hr1); [done..|]. by apply (IH t1 a1).
Qed.


Lemma merkle_path_of_leaf t leaves d i h :
  wf t leaves d -> hashes t !! i = Some h ->
  exists path, merkle_root_and_path t i = Ret (root leaves d, path) /\
    length path = d /\
    fold_path (start_index t + i) h path = root leaves d.
Proof.
  intros Hwf Hi. exists (merkle_path leaves d (start_index t + i)).
  pose proof Hwf as [Hsize Hdepth Hlen Hstart Hhashes Hcache].
  apply lookup_lt_Some in Hi as Hlt. rewrite Hhashes, length_drop in Hlt.
  rewrite Hhashes, lookup_drop in Hi.
  split; [|split].
  - unfold merkle_root_and_path.
    assert ((i <? length (hashes t)) = true) as ->
      by (rewrite Hhashes, length_drop; apply Nat.ltb_lt; lia).
    cbn [rust_assert mbind outcome_bind].
    rewrite (compute_merkle_root_and_path_ok t leaves d);
      [|done|lia|lia|by intros _; split; [|simpl; lia]].
    change (side_entry None leaves (start_index t + i))
      with (fun l => Some (sibling leaves (start_index t + i) l)).
    cbn [mbind outcome_bind fmap option_fmap option_map default].
    change (mapM id (id ?l)) with (mapM id l). by rewrite mapM_id_Some.
  - unfold merkle_path. by rewrite length_fmap, length_seq.
  - rewrite <- (fold_merkle_path leaves d (start_index t + i)) by lia.
    cbn [node]. by rewrite Hi.
Qed.

(** For each untrimmed leaf, [merkle_root_and_path] returns the root and a
    path of one hash per level, and folding the leaf with that path the way a
    verifier does gives back the root. *)
Theorem merkle_root_and_path_verifies t leaves d i h :
  wf t leaves d -> hashes t !! i = Some h ->
  exists path, merkle_root_and_path t i = Ret (root leaves d, path) /\
    length path = d /\
    fold_path (start_index t + i) h path = root leaves d.
Proof. apply merkle_path_of_leaf. Qed.

(** Trimming succeeds whenever enough untrimmed leaves are left and at
    least one leaf is untrimmed; it keeps the root, drops exactly the trimmed
    leaves, and the paths of the remaining leaves still verify. *)
Theorem trim_start_preserves_root_and_paths t leaves d count i h :
  wf t leaves d -> 0 < length (hashes t) -> count <= length (hashes t) ->
  hashes t !! (count + i) = Some h ->
  exists t' path, trim_start t count = Ret t' /\
    merkle_root t' = merkle_root t /\
    hashes t' = drop count (hashes t) /\
    merkle_root_and_path t' i = Ret (root leaves d, path) /\
    fold_path (start_index t + count + i) h path = root leaves d.
Proof.
  intros Hwf Hn Hc Hi. pose proof Hwf as [_ _ Hlen Hstart Hhashes _].
  rewrite Hhashes, length_drop in Hn.
  destruct (trim_start_wf t leaves d count) as (t' & Ht & Hwf' & Hs); [done..|lia|lia|].
  assert (hashes t' = drop count (hashes t)) as Hh.
  { by rewrite (wf_hashes _ _ _ Hwf'), Hs, Hhashes, drop_drop. }
  destruct (merkle_path_of_leaf t' leaves d i h) as (path & Hp & _ & Hf);
    [done|by rewrite Hh, lookup_drop|].
  exists t', path. rewrite (merkle_root_wf _ _ _ Hwf), (merkle_root_wf _ _ _ Hwf').
  by rewrite Hs in Hf.
Qed.

(** The loop of an empty window never finds a node to return. *)
Lemma compute_empty_panics t leaves d i p side :
  wf t leaves d -> hashes t = [] -> start_index t = 0 \/ start_index t = 2 ^ d ->
  compute_merkle_root_and_path t i p side = Panics "index out of bounds".
Proof.
  intros Hwf Hh Hs. unfold compute_merkle_root_and_path.
  rewrite (wf_size _ _ _ Hwf), tree_depth_pow2, Hh.
  destruct (foldM_seq_invariant
    (fun l (st : LevelState H256) => lv_hashes st = [] /\
       ((start_index t = 0 /\ lv_start st = 0) \/
        (start_index t = 2 ^ d /\ lv_start st = 2 ^ (d - l))))
    (level_step t side)
    {| lv_hashes := []; lv_index := i; lv_start := start_index t; lv_path := p |} d)
    as (st & -> & Hst & _).
  - split; [done|]. simpl. rewrite Nat.sub_0_r. naive_solver.
  - intros l st Hl [Hnil Hst]. unfold level_step.
    assert (lv_start st mod 2 = 0) as ->.
    { destruct Hst as [[_ ->]|[_ ->]]; [done|].
      replace (d - l) with (S (d - S l)) by lia. rewrite Nat.pow_succ_r', Nat.mul_comm.
      apply Nat.Div0.mod_mul. }
    rewrite Hnil. simpl. eexists. split; [done|]. split; [done|]. simpl.
    destruct Hst as [[? ->]|[? ->]]; [left; done|right]. split; [done|].
    replace (d - l) with (S (d - S l)) by lia.
    rewrite Nat.pow_succ_r', Nat.mul_comm. by apply Nat.div_mul.
  - simpl. unfold index_vec. by rewrite Hst.
Qed.

(** C23: [trim_start] panics exactly when too many leaves are trimmed or when
    no leaf is left to compute a root from: the tree is empty, or it is
    completely trimmed at a power of two. *)
Theorem trim_start_panics_iff t leaves d count :
  wf t leaves d ->
  (exists msg, trim_start t count = Panics msg) <->
    length (hashes t) < count \/ length leaves = 0 \/ start_index t = 2 ^ d.
Proof.
  intros Hwf. pose proof Hwf as [_ _ Hlen Hstart Hhashes _].
  assert (length (hashes t) = length leaves - start_index t) as Hl
    by (by rewrite Hhashes, length_drop).
  split.
  - intros [msg Hp]. destruct (decide (length (hashes t) < count)); [by left|].
    destruct (decide (length leaves = 0)); [by right; left|].
    destruct (decide (start_index t = 2 ^ d)); [by right; right|].
    destruct (trim_start_wf t leaves d count) as (t' & Ht & _);
      [done|lia|lia|lia|congruence].
  - unfold trim_start. intros Hor.
    destruct (Nat.leb_spec count (length (hashes t))); cbn [rust_assert mbind outcome_bind];
      [|by eexists].
    rewrite (compute_empty_panics t leaves d); [by eexists|done| |].
    + apply length_zero_iff_nil. lia.
    + destruct Hor as [?|[?|?]]; [lia|left; lia|by right].
Qed.

(** Verification of a range proof, as the clients of the tree do it: at each
    level the window of hashes is completed on the left from [start_path] and
    on the right from [end_path]. *)
Definition range_step (st : list H256 * nat) (items : option H256 * option H256) :
    outcome (list H256 * nat) :=
  let '(hs, start) := st in
  hs ← (if start mod 2 =? 1 then
          x ← expect items.1 "no start item"; Ret (x :: hs)
        else _ ← rust_assert (bool_decide (items.1 = None)) "start item"; Ret hs);
  hs ← (if length hs mod 2 =? 1 then
          x ← expect items.2 "no end item"; Ret (hs ++ [x])
        else _ ← rust_assert (bool_decide (items.2 = None)) "end item"; Ret hs);
  hs' ← compress_level hs;
  Ret (hs', start / 2).

Definition range_root (hs : list H256) (start : nat)
    (start_path end_path : list (option H256)) : outcome H256 :=
  '(hs', _) ← foldM range_step (hs, start) (zip start_path end_path);
  index_vec hs' 0.

Lemma range_step_ok leaves s q l :
  s / 2 ^ l <= q / 2 ^ l ->
  range_step (span leaves l (s / 2 ^ l) (q / 2 ^ l + 1), s / 2 ^ l)
    (left_entry leaves s l, right_entry leaves q l) =
  Ret (span leaves (S l) (s / 2 ^ S l) (q / 2 ^ S l + 1), s / 2 ^ S l).
Proof.
  intros Hle. unfold range_step, left_entry, right_entry. rewrite !div_pow_S.
  revert Hle. generalize (s / 2 ^ l) (q / 2 ^ l). intros a b Hab. rewrite !odd_mod2. cbn [fst snd].
  assert (exists a', (if a mod 2 =? 1 then
            x ← expect (if a mod 2 =? 1 then Some (node leaves l (a - 1)) else None)
                  "no start item"; Ret (x :: span leaves l a (b + 1))
          else _ ← rust_assert (bool_decide ((if a mod 2 =? 1 then
                 Some (node leaves l (a - 1)) else None) = None)) "start item";
               Ret (span leaves l a (b + 1))) = Ret (span leaves l (2 * a') (b + 1)) /\
          a / 2 = a' /\ a' <= b / 2) as (a' & -> & -> & Ha').
  { exists (a / 2). destruct (Nat.eqb_spec (a mod 2) 1); simpl.
    - rewrite span_cons by lia. split; [do 2 f_equal|]; div_lia.
    - split; [do 2 f_equal|]; div_lia. }
  cbn [mbind outcome_bind]. rewrite length_span.
  assert ((if b mod 2 =? 1 then None else Some (node leaves l (b + 1))) =
          if (b + 1 - 2 * a') mod 2 =? 1 then Some (node leaves l (b + 1)) else None) as ->.
  { destruct (Nat.eqb_spec (b mod 2) 1), (Nat.eqb_spec ((b + 1 - 2 * a') mod 2) 1);
      [div_lia|done|done|div_lia]. }
  destruct (Nat.eqb_spec ((b + 1 - 2 * a') mod 2) 1).
  - cbn [expect mbind outcome_bind]. rewrite span_snoc by div_lia.
    replace (b + 1 + 1) with (2 * (b / 2 + 1)) by div_lia.
    by rewrite compress_level_span by lia.
  - rewrite bool_decide_eq_true_2 by done. cbn [rust_assert mbind outcome_bind].
    replace (b + 1) with (2 * (b / 2 + 1)) at 1 by div_lia.
    by rewrite compress_level_span by lia.
Qed.

(** The range proof of the first [len] untrimmed leaves verifies: the
    returned root is the root of the tree, and a client that only has the
    leaves of the range and the two returned half-paths recomputes it. *)
Theorem merkle_root_and_paths_for_range_verifies t leaves d len :
  wf t leaves d -> 0 < len -> len <= length (hashes t) ->
  exists start_path end_path,
    merkle_root_and_paths_for_range t len = Ret (root leaves d, start_path, end_path) /\
    length start_path = d /\ length end_path = d /\
    range_root (take len (hashes t)) (start_index t) start_path end_path =
      Ret (root leaves d).
Proof.
  intros Hwf Hpos Hlen'. pose proof Hwf as [Hsize Hdepth Hlen Hstart Hhashes Hcache].
  assert (length (hashes t) = length leaves - start_index t) as Hl
    by (by rewrite Hhashes, length_drop).
  assert (start_index t < 2 ^ d) as Hs by lia.
  set (s := start_index t) in *. set (q := s + (len - 1)).
  assert (cache t = left_entry leaves s <$> seq 0 d) as Hc.
  { rewrite Hcache. by rewrite (proj2 (Nat.eqb_neq _ _)), Nat.add_0_r by lia. }
  exists (cache t), (right_entry leaves q <$> seq 0 d).
  rewrite Hc. rewrite !length_fmap, !length_seq. split; [|split; [done|split; [done|]]].
  - unfold merkle_root_and_paths_for_range.
    rewrite (proj2 (Nat.ltb_lt _ _)), (proj2 (Nat.leb_le _ _)) by lia.
    cbn [rust_assert mbind outcome_bind].
    rewrite (compute_merkle_root_and_path_ok t leaves d);
      [|done|lia|lia|by intros _; split; [|simpl; lia]].
    cbn [mbind outcome_bind fmap option_fmap option_map default]. by rewrite Hc.
  - unfold range_root.
    assert (forall k, k <= d -> foldM range_step (take len (hashes t), s)
              (zip (left_entry leaves s <$> seq 0 k) (right_entry leaves q <$> seq 0 k)) =
            Ret (span leaves k (s / 2 ^ k) (q / 2 ^ k + 1), s / 2 ^ k)) as Hloop.
    { induction k as [|k IH]; intros Hk.
      - simpl. rewrite Nat.pow_0_r, !Nat.div_1_r, Hhashes, window_span by lia.
        do 3 f_equal. lia.
      - rewrite seq_S, !fmap_app, zip_with_app by (by rewrite !length_fmap).
        rewrite foldM_app, IH by lia. cbn [mbind outcome_bind fmap list_fmap zip_with foldM].
        rewrite Nat.add_0_l, range_step_ok; [done|].
        apply Nat.Div0.div_le_mono. lia. }
    rewrite Hloop by done. cbn [mbind outcome_bind]. unfold index_vec.
    rewrite Nat.div_small by done.
    assert (q / 2 ^ d = 0) as -> by (apply Nat.div_small; lia). done.
Qed.
End Theorems.

(** ** Witnesses: the Keccak tree with a small stand-in hash function *)
Definition demo_keccak (bs : list Z) : list Z :=
  [fold_left (fun acc b => (acc * 31 + b + 7) mod 65521)%Z bs 1%Z].

#[local] Instance demo : HashEmptySubtree (list Z) (list Z) := KeccakHasher demo_keccak.

Definition demo_leaves : list (list Z) := demo_keccak <$> [[1]; [2]; [3]; [4]; [5]]%Z.


(** Five leaves of which the first three are trimmed. *)
Definition demo_tree : MiniMerkleTree (list Z) :=
  {| hashes := drop 3 demo_leaves; binary_tree_size := 8; start_index := 3;
     cache := left_entry demo_leaves 3 <$> seq 0 3 |}.

Lemma demo_tree_trimmed :
  (t ← from_hashes demo_leaves None; trim_start t 3) = Ret demo_tree.
Proof. by vm_compute. Qed.

Lemma demo_tree_wf : wf demo_tree demo_leaves 3.
Proof. split; [done|by vm_compute; lia|by vm_compute; lia|by vm_compute; lia|done|done]. Qed.

Lemma merkle_root_and_path_verifies_witness :
  exists path, merkle_root_and_path demo_tree 1 = Ret (root demo_leaves 3, path) /\
    length path = 3 /\
    fold_path 4 (demo_keccak [5]%Z) path = root demo_leaves 3.
Proof.
  apply (merkle_root_and_path_verifies demo_tree demo_leaves 3 1 (demo_keccak [5]%Z));
    [exact demo_tree_wf|reflexivity].
Defined.

Lemma trim_start_preserves_root_and_paths_witness :
  exists t' path, trim_start demo_tree 1 = Ret t' /\
    merkle_root t' = merkle_root demo_tree /\
    hashes t' = [demo_keccak [5]%Z] /\
    merkle_root_and_path t' 0 = Ret (root demo_leaves 3, path) /\
    fold_path 4 (demo_keccak [5]%Z) path = root demo_leaves 3.
Proof.
  apply (trim_start_preserves_root_and_paths demo_tree demo_leaves 3 1 0 (demo_keccak [5]%Z));
    [exact demo_tree_wf|by vm_compute; lia|by vm_compute; lia|reflexivity].
Defined.

Lemma trim_start_panics_iff_witness :
  (exists msg, trim_start demo_tree 3 = Panics msg) /\
  ~ (exists msg, trim_start demo_tree 2 = Panics msg).
Proof.
  split.
  - apply (trim_start_panics_iff demo_tree demo_leaves 3 3); [exact demo_tree_wf|].
    left. by vm_compute; lia.
  - intros H. apply (trim_start_panics_iff demo_tree demo_leaves 3 2) in H; [|exact demo_tree_wf].
    vm_compute in H. lia.
Defined.

Lemma merkle_root_and_paths_for_range_verifies_witness :
  exists start_path end_path,
    merkle_root_and_paths_for_range demo_tree 2 = Ret (root demo_leaves 3, start_path, end_path) /\
    length start_path = 3 /\ length end_path = 3 /\
    range_root (demo_keccak <$> [[4]; [5]]%Z) 3 start_path end_path = Ret (root demo_leaves 3).
Proof.
  apply (merkle_root_and_paths_for_range_verifies demo_tree demo_leaves 3 2);
    [exact demo_tree_wf|by vm_compute; lia|by vm_compute; lia].
Defined.
